(* ===== verification/_CoqProject ===== *)
-Q . S2P
Prelude.v
Wire.v
Hub.v
HubInv.v
HubSpec.v
HubLife.v
HubSys.v
HubExamples.v
Registry.v
RateLimit.v
Stats.v
Relay.v
RelayConn.v
Crypto.v
Words.v
Phrase.v
Prog.v
Session.v
SessionSpec.v
Sections.v
Interleave.v
SessionKeys.v
SessionExamples.v
InterleaveExamples.v
Confine.v
Rejoin.v
System.v
Stream.v
Runes.v
Mux.v
MuxSpec.v
MuxTypes.v
CtlSpec.v
Chat.v
Handover.v
Races.v
MuxExamples.v
MuxEvents.v
Encoding.v
Dashboard.v
EndToEnd.v
EndToEndExamples.v
Connect.v
