(* ===== verification/Prelude.v ===== *)
(** * Verification of parley

    parley lets the ends of a session talk through a relay that never sees
    plaintext.  A host creates a session under a code phrase, others join by it;
    all hold one group key, distributed over pairwise password-authenticated
    exchanges.  The relay routes opaque frames.  On top of the session client a
    mux carries services by name, among them the control service and chat.

    ** Parts, and where they are modelled

    - the protocol (wire/): [Wire].  Frames and payloads as byte strings, the
      messages as records, session identifiers in hex.
    - the relay (relay/): [Hub] has hub.go, one handler of the source per
      Definition, and the run loop with its eviction queue; [HubInv] its invariant;
      [HubSpec] what each handler does; [HubLife] departures and the refinement of
      an abstract roster; [HubSys] the hub among its goroutines, as a step
      relation.  [Registry] has registry.go over many hubs, [RateLimit] and
      [Stats] ratelimit.go and stats.go, [Relay] relay.go: HTTP entry, hello, read
      loop, writer; [RelayConn] one connection, from the hello and its waits for the
      hub to its reader and writer goroutines, the hub and the socket between them,
      as a step relation.
    - the crypto package: [Crypto]; phrases: [Words] (the embedded list) and
      [Phrase].
    - the session client (session/): [Session] has client.go, handshake.go and
      relayerror.go as functions on the [Client] record; [SessionSpec] sealing,
      joining and rotation when a member leaves; [SessionKeys] migration, who may
      change keys, reconnecting; [Connect] options, Host, the relay's address and
      the ping loop.
    - the same client used by several goroutines at once: [Prog] has goroutines
      as sequences of critical sections, schedules, and the rely-guarantee rules;
      [Sections] every operation of the client in that form, with the proof that
      left alone it is the one of [Session]; [Interleave] a host and a member in
      step under every schedule, while the member stays; [Confine] what only the read loop changes;
      [Rejoin] Reconnect among other calls; [Stream] the bounded stream of events;
      [Races] where the order of sections shows; [System] any number of clients
      and a relay that cannot be trusted; [InterleaveExamples] witnesses.
    - the service layer (service/): [Mux] has mux.go and ctl.go over two
      interfaces, the end ([Transport], which [Client] implements) and the
      layered service ([Service], which chat implements); [MuxSpec] has the
      interfaces' laws, the succession and the agreement of the survivors,
      [MuxTypes] what stays true of a mux, [CtlSpec] the control service and the
      sequence watch, [Chat] service/chat/, [MuxEvents] the concurrency of emit
      and shutdown.  [Runes] has the Unicode functions used for names.
    - the dashboard (dashboard/): [Encoding] has base64, decimal and Cut,
      [Dashboard] dashboard.go and cluster.go.
    - the composition: [EndToEnd], from what one member says to what the others'
      services record; [Handover], a host's departure from the survivors' muxes
      down to the keys of their clients.
    - [HubExamples], [SessionExamples], [MuxExamples], [EndToEndExamples] run the
      definitions on concrete inputs and apply the theorems there; the other
      files have theirs at the end.

    ** How code became definitions

    A handler is a function from the old state to the new, with its replies; a
    mutable field is a record field, a guard the source's guard in the source's
    order, an early return a branch.  What several goroutines share is a
    reference into shared state: the out channels and kick signals of the hub
    live in [env], a resumed client keeps its channel, a timer that has fired is
    told from one that is armed.  Goroutines interleave by atomic steps
    ([HubSys.step], [Registry.rstep], [RelayConn.gstep], [MuxEvents.estep]), and
    those of a client by its critical sections: what it does under its mutex in
    one stretch, each write, each draw, each event ([Prog.play] under a schedule);
    within one goroutine commands run one at a time.  Unsigned integers are N with the wrap written
    out ([wrap]), signed ones Z ([wrapz]); times are Z, in nanoseconds.  Errors
    are [result] or [option].  Go maps are [gmap]s; a range over one visits the
    entries in an order the program cannot choose, so it is a parameter
    ([MapRange], any permutation of the entries) and no theorem depends on it.
    What a client does to the outside (frames written, events emitted, draws of
    randomness, writes attempted) is kept in its record; the bytes a connection
    reads and whether a write succeeds are inputs.

    ** What is assumed

    Code outside the repository is a parameter, with the documented behaviour
    that the sources rely on as the law of a class: the CBOR library ([Cbor],
    decoding an encoding of a value in range gives it back), PAKE, HKDF and
    XChaCha20-Poly1305 ([Pake_lib], [Hkdf], [Aead]: an opened box was sealed
    with that key, nonce and associated data; this is the ideal cipher, not a
    probabilistic one), randomness ([Entropy]), SHA-256 and HMAC (any function),
    the token bucket ([RateLib]), GitHub's replies.  Each class has a concrete
    instance that satisfies its laws: the bit codec of [Wire], the ideal cipher
    and the exchange of nonces of [Crypto], on which the witnesses run.
    [strings.TrimSpace] trims Unicode's white space, names are handled rune by
    rune, and [strings.EqualFold] folds what folds to ASCII ([fold_case]), which is
    exact when one side is ASCII, as GitHub's logins are; [strings.ToLower] of a
    phrase lowers ASCII letters only.  The JSON decoder keeps the source's use of
    it: the last field whose name folds to the one asked for.

    ** What the theorems show

    - safety of routing: nobody speaks as another, a departure reaches everyone,
      identifiers are not reused, one live hub a session, the limiter's bound;
    - authenticity against the relay: whatever it delivers, replays, relabels or
      withholds, a client hears from a participant only what that participant
      sealed in the same session ([System]);
    - secrecy and delivery in the model's cipher: a message is read by those who
      hold its key and carries its sender; a join delivers key and role; a
      departure or a migration locks out who left and re-keys who stayed;
    - refinement: the hub's loop refines an abstract roster, whatever the
      buffers do; the sequence watch equals a reference that reports exactly the
      numbers not due;
    - concurrency of the client, under every schedule of its goroutines: a member
      that stays follows its host through rotations and misses no frame, while
      writes succeed, wraps fit and nothing but sealed frames comes in its name; one goroutine
      a service keeps the numbers in order; roles are given on what is current, a
      slow receiver holds back nobody but the read loop; of a connection at the
      relay: what was queued before a kick is written, and once it is served and
      ending its handler comes to its end, unless the hub holds it up in [h.send]
      (in the hello it may wait for ever);
    - agreement: survivors choose the same host, members see the host's roster,
      a late joiner gets the history, while it fits together with what it has,
      and a message is recorded once, in the order of first arrival; what is said
      at one end, a text that is not blank and is UTF-8, arrives, through relay and
      mux, at every other; after a host's
      departure two survivors hold one fresh key again;
    - shape: the hub's and the mux's invariants over every reachable state; no
      interleaving of emits and shutdown panics;
    - termination and progress: the eviction loop ends (its fuel, the queue and
      the participants not yet marked, is enough: each round removes one, each
      is queued once), shutdown completes, sweeping proceeds, a held slot expires;
    - errors: each refusal of the hello, the callback, the frame decoder;
    - defects, as theorems about the code as it is: a join that is never
      answered, an OAuth state that passes for a session, a flight lost in a
      migration, a departed member elected, a full broadcast lost, a gap
      reported where there is none, a departure after which no key is rotated,
      two broadcasts that overtake each other, an answer under the old key during
      a promotion, a call that spoils a reconnect, a full chat history that surfaces
      again what it dropped.

    ** Not modelled

    WebSocket and HTTP I/O, timeouts and TLS (the reads and writes are inputs, and
    what parsing a URL gives); the text of HTTP statuses; the wrapper of the random
    number of a phrase (a parameter); getters.  Data races: a section is atomic,
    by the lock the source takes, and the one read without it is a finding.  The
    mux's own goroutine shares the client's state only through the client's
    operations, so it appears among the client's goroutines as their caller; the
    mux's records themselves are changed by one goroutine at a time.  A client's
    event channel is an unbounded list but in [Stream], the mux's but in [MuxEvents].
    A session of 2^32 joins, whose identifiers would wrap, is outside the invariants
    of the hub.  doc.go is comments. *)
From stdpp Require Export gmap strings list sorting.
From Stdlib Require Export Strings.Byte Strings.Ascii.

Declare Scope parley_scope.
Delimit Scope parley_scope with parley.

Create HintDb parley discriminated.
Create Rewrite HintDb parley.

(** ** Bytes and machine-width integers *)

#[global] Instance byte_eq_dec : EqDecision byte := Byte.byte_eq_dec.
#[global] Instance byte_countable : Countable byte :=
  inj_countable Byte.to_N Byte.of_N Byte.of_to_N.

Abbreviation bytes := (list byte).

(** Unsigned machine integers are [N]; every increment the source performs
    wraps at the width of its type, written out with [wrap]. *)
Definition wrap (w n : N) : N := (n mod 2 ^ w)%N.
Definition in_width (w n : N) : Prop := (n < 2 ^ w)%N.

#[global] Instance in_width_dec w n : Decision (in_width w n).
Proof. unfold in_width. apply _. Defined.

Lemma wrap_small w n : in_width w n → wrap w n = n.
Proof. apply N.mod_small. Qed.

Lemma wrap_in_width w n : in_width w (wrap w n).
Proof. apply N.mod_lt, N.pow_nonzero. lia. Qed.

Lemma wrap_succ_ne w n : (0 < w)%N → wrap w (n + 1) ≠ n.
Proof.
  intros Hw E. pose proof (wrap_in_width w (n + 1)) as Hlt. rewrite E in Hlt.
  unfold wrap, in_width in *. assert (1 < 2 ^ w)%N by (apply N.pow_gt_1; lia).
  destruct (decide (n + 1 < 2 ^ w)%N).
  - rewrite N.mod_small in E by done. lia.
  - replace (n + 1)%N with (2 ^ w)%N in E by lia. rewrite N.Div0.mod_same in E. lia.
Qed.

Lemma wrap_add_assoc w a b c : wrap w (wrap w (a + b) + c) = wrap w (a + wrap w (b + c)).
Proof.
  unfold wrap. rewrite N.Div0.add_mod_idemp_l, N.Div0.add_mod_idemp_r. f_equal. lia.
Qed.

(** Signed machine integers are [Z], in two's complement. *)
Definition wrapz (w : N) (z : Z) : Z :=
  ((z + 2 ^ (Z.of_N w - 1)) mod 2 ^ Z.of_N w - 2 ^ (Z.of_N w - 1))%Z.

Lemma wrapz_small w z :
  (- 2 ^ (Z.of_N w - 1) ≤ z < 2 ^ (Z.of_N w - 1))%Z → (0 < w)%N → wrapz w z = z.
Proof.
  intros Hz Hw. unfold wrapz. rewrite Z.mod_small; [lia|].
  assert (2 ^ Z.of_N w = 2 * 2 ^ (Z.of_N w - 1))%Z; [|lia].
  rewrite <- Z.pow_succ_r by lia. f_equal. lia.
Qed.

Lemma wrapz_add_assoc w a b c :
  wrapz w (wrapz w (a + b) + c) = wrapz w (a + wrapz w (b + c)).
Proof.
  unfold wrapz. set (M := (2 ^ Z.of_N w)%Z). set (H := (2 ^ (Z.of_N w - 1))%Z).
  assert (∀ x y, ((x mod M - H + y + H) mod M = (x + y) mod M)%Z) as Hm.
  { intros x y. replace (x mod M - H + y + H)%Z with (x mod M + y)%Z by lia.
    apply Zplus_mod_idemp_l. }
  rewrite Hm. replace (a + ((b + c + H) mod M - H) + H)%Z
    with ((b + c + H) mod M - H + a + H)%Z by lia. rewrite Hm. do 2 f_equal. lia.
Qed.

(** Go's conversion of an integer to [byte]. *)
Definition byte_of_N (n : N) : byte := default x00 (Byte.of_N (n mod 256)).

Lemma to_N_byte_of_N n : Byte.to_N (byte_of_N n) = (n mod 256)%N.
Proof.
  unfold byte_of_N. destruct (Byte.of_N (n mod 256)) as [b|] eqn:E; simpl.
  - by apply Byte.to_of_N.
  - apply Byte.of_N_None_iff in E.
    pose proof (N.mod_lt n 256 ltac:(lia)). lia.
Qed.

Lemma byte_of_N_inj_mod n m :
  byte_of_N n = byte_of_N m → (n mod 256 = m mod 256)%N.
Proof. intros H. by rewrite <- !to_N_byte_of_N, H. Qed.

(** [binary.BigEndian.AppendUint32]: four bytes, most significant first. *)
Definition be32 (n : N) : bytes :=
  [byte_of_N (n / 2 ^ 24); byte_of_N (n / 2 ^ 16); byte_of_N (n / 2 ^ 8); byte_of_N n].

Lemma be32_digits k :
  in_width 32 k →
  k = (k / 2 ^ 24 mod 256 * 2 ^ 24 + k / 2 ^ 16 mod 256 * 2 ^ 16
       + k / 2 ^ 8 mod 256 * 2 ^ 8 + k mod 256)%N.
Proof.
  unfold in_width. intros Hk.
  rewrite (N.mod_small (k / 2 ^ 24)) by (apply N.Div0.div_lt_upper_bound; lia).
  change (2 ^ 24)%N with (256 * 256 * 256)%N. change (2 ^ 16)%N with (256 * 256)%N.
  change (2 ^ 8)%N with 256%N. rewrite <- !N.Div0.div_div.
  pose proof (N.div_mod k 256 ltac:(lia)).
  pose proof (N.div_mod (k / 256) 256 ltac:(lia)).
  pose proof (N.div_mod (k / 256 / 256) 256 ltac:(lia)). lia.
Qed.

Lemma be32_inj n m : in_width 32 n → in_width 32 m → be32 n = be32 m → n = m.
Proof.
  unfold be32. intros Hn Hm H. injection H as H0 H1 H2 H3.
  apply byte_of_N_inj_mod in H0, H1, H2, H3.
  rewrite (be32_digits n Hn), (be32_digits m Hm). congruence.
Qed.

(** Reading four bytes back, and what follows them. *)
Definition of_be32 (l : bytes) : option (N * bytes) :=
  match l with
  | a :: b :: c :: d :: l =>
      Some (Byte.to_N a * 2 ^ 24 + Byte.to_N b * 2 ^ 16 + Byte.to_N c * 2 ^ 8 + Byte.to_N d, l)%N
  | _ => None
  end.

Lemma of_be32_be32 n l : in_width 32 n → of_be32 (be32 n ++ l) = Some (n, l).
Proof.
  intros Hn. cbn [of_be32 be32 app]. rewrite !to_N_byte_of_N. by rewrite <- be32_digits.
Qed.

(** ** Results: the value or the error a Go function returns *)

Inductive result (E A : Type) : Type :=
| Ok (a : A)
| Err (e : E).
Arguments Ok {E A} a.
Arguments Err {E A} e.

Definition rbind {E A B} (r : result E A) (f : A → result E B) : result E B :=
  match r with Ok a => f a | Err e => Err e end.

Notation "'let?' x := r 'in' k" := (rbind r (λ x, k))
  (at level 10, x pattern, r at level 100, k at level 200) : parley_scope.

(** An [option] whose absence is reported as the error [e]. *)
Definition of_option {E A} (e : E) (o : option A) : result E A :=
  match o with Some a => Ok a | None => Err e end.

Definition is_ok {E A} (r : result E A) : bool :=
  match r with Ok _ => true | Err _ => false end.

Lemma rbind_Ok {E A B} (r : result E A) (f : A → result E B) b :
  rbind r f = Ok b ↔ ∃ a, r = Ok a ∧ f a = Ok b.
Proof. destruct r; naive_solver. Qed.

(** ** Iterating over a Go map

    [for k, v := range m] visits every entry once, in an order the language
    leaves open.  A [MapRange] is one such order; the models take it as a
    parameter, so their theorems hold whatever the order is. *)
Class MapRange (K V : Type) `{Countable K} := {
  range : gmap K V → list (K * V);
  range_perm m : range m ≡ₚ map_to_list m
}.

(** The order of [map_to_list], on which examples run. *)
Program Definition map_to_list_range K V `{Countable K} : MapRange K V :=
  {| range := map_to_list |}.
Next Obligation. done. Qed.

Section Range.
Context `{Countable K} {V : Type} {R : MapRange K V}.
Implicit Types m : gmap K V.

Lemma elem_of_range m k v : (k, v) ∈ range m ↔ m !! k = Some v.
Proof. by rewrite range_perm, elem_of_map_to_list. Qed.

Lemma NoDup_range_fst m : NoDup (range m).*1.
Proof. rewrite range_perm. apply NoDup_fst_map_to_list. Qed.

Lemma NoDup_range m : NoDup (range m).
Proof. eapply NoDup_fmap_1, NoDup_range_fst. Qed.

Lemma elem_of_range_fst m k : k ∈ (range m).*1 ↔ is_Some (m !! k).
Proof.
  rewrite list_elem_of_fmap. split.
  - intros ([k' v] & -> & Hin). simpl. exists v. by apply elem_of_range.
  - intros [v Hv]. exists (k, v). split; [done|]. by apply elem_of_range.
Qed.

Lemma length_range m : length (range m) = size m.
Proof. rewrite range_perm. apply length_map_to_list. Qed.
End Range.

#[export] Hint Resolve NoDup_range_fst NoDup_range : parley.

(** ** Bounded channels

    A Go channel of capacity [cap] is the list of the values it buffers.
    [chan_try_send] is the send branch of a [select] with a [default]:
    [None] when the buffer is full. *)
Definition chan_try_send {A} (cap : nat) (q : list A) (x : A) : option (list A) :=
  if bool_decide (length q < cap) then Some (q ++ [x]) else None.

Lemma chan_try_send_Some {A} cap (q : list A) x q' :
  chan_try_send cap q x = Some q' ↔ length q < cap ∧ q' = q ++ [x].
Proof. unfold chan_try_send. case_bool_decide; naive_solver. Qed.

Lemma chan_try_send_None {A} cap (q : list A) x :
  chan_try_send cap q x = None ↔ cap ≤ length q.
Proof.
  unfold chan_try_send. case_bool_decide; split; try done; lia.
Qed.

(** Sending a whole list, each element through [select]/[default]: what does
    not fit is dropped. *)
Definition chan_send_all {A} (cap : nat) (q : list A) (xs : list A) : list A :=
  foldl (λ q x, default q (chan_try_send cap q x)) q xs.

Lemma chan_send_all_take {A} cap (xs q : list A) :
  chan_send_all cap q xs = q ++ take (cap - length q) xs.
Proof.
  revert q. induction xs as [|x xs IH]; intros q; simpl.
  - by rewrite take_nil, app_nil_r.
  - rewrite IH. unfold chan_try_send. case_bool_decide as Hlt; simpl.
    + rewrite <- app_assoc. f_equal. rewrite length_app. simpl.
      replace (cap - length q) with (S (cap - (length q + 1))) by lia. done.
    + replace (cap - length q) with 0 by lia. by rewrite !take_0.
Qed.

Lemma filter_all {A} (P : A → Prop) `{∀ x, Decision (P x)} (l : list A) :
  Forall P l → filter P l = l.
Proof. induction 1; [done|]. rewrite filter_cons_True by done. by f_equal. Qed.

(** ** Hexadecimal ([encoding/hex]) *)

Definition hex_digit (n : N) : ascii :=
  ascii_of_N (if (n <? 10)%N then 48 + n else 87 + n).

Definition hex_value (c : ascii) : option N :=
  let n := N_of_ascii c in
  if ((48 <=? n) && (n <=? 57))%N then Some (n - 48)%N
  else if ((97 <=? n) && (n <=? 102))%N then Some (n - 87)%N
  else if ((65 <=? n) && (n <=? 70))%N then Some (n - 55)%N
  else None.

(** [hex.EncodeToString]: two lowercase digits per byte. *)
Fixpoint hex_encode (bs : bytes) : string :=
  match bs with
  | [] => EmptyString
  | b :: bs =>
      String (hex_digit (Byte.to_N b / 16))
        (String (hex_digit (Byte.to_N b mod 16)) (hex_encode bs))
  end.

(** [hex.Decode]: either case is accepted; a dangling or foreign digit is an
    error. *)
Fixpoint hex_decode (s : string) : option bytes :=
  match s with
  | EmptyString => Some []
  | String a (String b s) =>
      hi ← hex_value a; lo ← hex_value b; bs ← hex_decode s;
      Some (byte_of_N (16 * hi + lo) :: bs)
  | _ => None
  end.

(** ASCII lower-casing, as Go's [strings.ToLower] acts on ASCII letters. *)
Definition ascii_lower (c : ascii) : ascii :=
  let n := N_of_ascii c in
  if ((65 <=? n) && (n <=? 90))%N then ascii_of_N (n + 32) else c.

Fixpoint string_lower (s : string) : string :=
  match s with
  | EmptyString => EmptyString
  | String c s => String (ascii_lower c) (string_lower s)
  end.

Lemma hex_value_digit_nibble n : (n < 16)%N → hex_value (hex_digit n) = Some n.
Proof.
  intros Hn. assert (n ∈ ((λ i, N.of_nat i) <$> seq 0 16)) as Hin.
  { apply list_elem_of_fmap. exists (N.to_nat n). rewrite elem_of_seq. lia. }
  revert Hin. clear Hn. revert n. apply Forall_forall.
  by repeat (apply Forall_cons; split; [reflexivity|]).
Qed.

Lemma byte_of_nibbles b : byte_of_N (16 * (Byte.to_N b / 16) + Byte.to_N b mod 16) = b.
Proof. destruct b; reflexivity. Qed.

Lemma hex_decode_encode bs : hex_decode (hex_encode bs) = Some bs.
Proof.
  induction bs as [|b bs IH]; [done|]. cbn [hex_encode hex_decode].
  pose proof (Byte.to_N_bounded b) as Hb.
  rewrite !hex_value_digit_nibble;
    [|by apply N.Div0.div_lt_upper_bound; lia|by apply N.mod_lt].
  cbn [mbind option_bind]. rewrite IH. cbn [mbind option_bind].
  by rewrite byte_of_nibbles.
Qed.

(** Every accepted digit is, lower-cased, the digit its value prints as. *)
Lemma hex_value_lower c n :
  hex_value c = Some n → hex_digit n = ascii_lower c ∧ (n < 16)%N.
Proof.
  destruct c as [[] [] [] [] [] [] [] []]; vm_compute; intros H; simplify_eq;
    split; reflexivity.
Qed.

Lemma to_N_of_nibbles hi lo :
  (hi < 16)%N → (lo < 16)%N →
  (Byte.to_N (byte_of_N (16 * hi + lo)) / 16 = hi)%N ∧
  (Byte.to_N (byte_of_N (16 * hi + lo)) mod 16 = lo)%N.
Proof.
  intros. rewrite to_N_byte_of_N, (N.mod_small _ 256) by lia.
  split; symmetry; [by apply (N.div_unique _ _ _ lo)|by apply (N.mod_unique _ _ hi)].
Qed.

(** Induction on a string two characters at a time. *)
Lemma string_pair_ind (P : string → Prop) :
  P EmptyString → (∀ a, P (String a EmptyString)) →
  (∀ a b s, P s → P (String a (String b s))) → ∀ s, P s.
Proof.
  intros H0 H1 H2 s.
  enough (P s ∧ ∀ a, P (String a s)) as [? _] by done.
  induction s as [|c s [IHs IHc]]; split; auto.
Qed.

Lemma hex_encode_decode s bs :
  hex_decode s = Some bs →
  hex_encode bs = string_lower s ∧ String.length s = 2 * length bs.
Proof.
  revert bs. induction s as [|a|a b s IH] using string_pair_ind; intros bs H;
    cbn [hex_decode] in H; [by simplify_eq|done|].
  apply bind_Some in H as (hi & Hhi & H). apply bind_Some in H as (lo & Hlo & H).
  apply bind_Some in H as (bs' & Hbs & [= <-]).
  apply hex_value_lower in Hhi as [Hhi ?], Hlo as [Hlo ?].
  destruct (to_N_of_nibbles hi lo) as [E1 E2]; [done..|].
  destruct (IH _ Hbs) as [IHe IHl].
  split; [|cbn [String.length length]; lia].
  cbn [hex_encode string_lower]. by rewrite E1, E2, Hhi, Hlo, IHe.
Qed.

(** ** Randomness ([crypto/rand]) *)

(** [rand_read i n] is the [n]-byte result of the [i]-th draw; [None] is a
    failing read. *)
Class Entropy := {
  rand_read : N → nat → option bytes;
  rand_read_length i n bs : rand_read i n = Some bs → length bs = n
}.

(** ** Decimal printing ([fmt]'s [%d] on unsigned integers) *)

Fixpoint digits (fuel : nat) (n : N) : list N :=
  match fuel with
  | O => []
  | S fuel => if (n <? 10)%N then [n] else digits fuel (n / 10) ++ [(n mod 10)%N]
  end.

Definition digit_char (d : N) : ascii := ascii_of_N (48 + d).
Definition decimal_chars (n : N) : list ascii := digit_char <$> digits (S (N.to_nat (N.log2 n))) n.
Definition decimal (n : N) : string := String.string_of_list_ascii (decimal_chars n).

Definition undigits (l : list N) : N := foldl (λ a d, (10 * a + d)%N) 0%N l.

Lemma undigits_snoc l d : undigits (l ++ [d]) = (10 * undigits l + d)%N.
Proof. unfold undigits. by rewrite foldl_app. Qed.

Lemma log2_div10 n : (10 ≤ n)%N → (N.log2 (n / 10) < N.log2 n)%N.
Proof.
  intros Hn. assert (0 < n / 10)%N by (apply N.div_str_pos; lia).
  apply N.log2_lt_pow2; [done|]. apply N.Div0.div_lt_upper_bound.
  pose proof (N.log2_spec n ltac:(lia)) as [_ Hs]. rewrite N.pow_succ_r' in Hs. lia.
Qed.

Lemma digits_spec fuel n :
  N.to_nat (N.log2 n) < fuel →
  undigits (digits fuel n) = n ∧ Forall (λ d, (d < 10)%N) (digits fuel n).
Proof.
  revert n. induction fuel as [|fuel IH]; intros n Hf; [lia|]. simpl.
  destruct (N.ltb_spec n 10) as [Hn|Hn].
  - split; [done|]. by apply Forall_singleton.
  - pose proof (log2_div10 n Hn). destruct (IH (n / 10)%N) as [E Hd]; [lia|].
    rewrite undigits_snoc, E. split; [symmetry; apply N.div_mod'|].
    apply Forall_app. split; [done|]. apply Forall_singleton, N.mod_lt. lia.
Qed.

Lemma digit_char_inj a b : (a < 10)%N → (b < 10)%N → digit_char a = digit_char b → a = b.
Proof.
  intros Ha Hb E. apply (f_equal N_of_ascii) in E. unfold digit_char in E.
  rewrite !N_ascii_embedding in E by lia. lia.
Qed.

Lemma decimal_inj n m : decimal_chars n = decimal_chars m → n = m.
Proof.
  unfold decimal_chars.
  destruct (digits_spec (S (N.to_nat (N.log2 n))) n) as [En Hn]; [lia|].
  destruct (digits_spec (S (N.to_nat (N.log2 m))) m) as [Em Hm]; [lia|].
  generalize dependent (digits (S (N.to_nat (N.log2 n))) n).
  generalize dependent (digits (S (N.to_nat (N.log2 m))) m).
  intros k <- Hk l <- Hl E. f_equal. revert k Hk E.
  induction Hl as [|a l Ha _ IH]; intros k Hk; destruct Hk as [|b k' Hb Hk]; simpl; try done.
  intros [= E1 E2]. f_equal; [by apply digit_char_inj|by apply IH].
Qed.

(** No digit is the separator. *)
Lemma decimal_chars_digits n c : c ∈ decimal_chars n → (48 ≤ N_of_ascii c ≤ 57)%N.
Proof.
  unfold decimal_chars. intros (d & -> & Hd)%list_elem_of_fmap.
  destruct (digits_spec (S (N.to_nat (N.log2 n))) n) as [_ Hn]; [lia|].
  rewrite Forall_forall in Hn. apply Hn in Hd. unfold digit_char.
  rewrite N_ascii_embedding by lia. lia.
Qed.

(** ** Splitting at a separator *)

Lemma app_sep_inj {A} (x : A) l1 l2 d1 d2 :
  x ∉ d1 → x ∉ d2 → l1 ++ x :: d1 = l2 ++ x :: d2 → l1 = l2 ∧ d1 = d2.
Proof.
  revert l2. induction l1 as [|a l1 IH]; intros [|b l2] H1 H2; simpl.
  - by intros [= ->].
  - intros [= -> ->]. destruct H1. set_solver.
  - intros [= -> <-]. destruct H2. set_solver.
  - intros [= -> E]. apply IH in E as [-> ->]; done.
Qed.

Lemma chars_app s t :
  String.list_ascii_of_string (s +:+ t)
  = String.list_ascii_of_string s ++ String.list_ascii_of_string t.
Proof. induction s as [|c s IH]; [done|]. exact (f_equal (cons c) IH). Qed.

(** The first separator instead of the last. *)
Lemma app_sep_inj_l {A} (x : A) l1 l2 d1 d2 :
  x ∉ l1 → x ∉ l2 → l1 ++ x :: d1 = l2 ++ x :: d2 → l1 = l2 ∧ d1 = d2.
Proof.
  revert l2. induction l1 as [|a l1 IH]; intros [|b l2] H1 H2; simpl.
  - by intros [= ->].
  - intros [= -> ->]. destruct H2. by left.
  - intros [= -> <-]. destruct H1. by left.
  - intros [= -> E]. apply IH in E as [-> ->]; [done|..]; intros ?; [apply H1|apply H2]; by right.
Qed.

Lemma list_ascii_inj s t :
  String.list_ascii_of_string s = String.list_ascii_of_string t → s = t.
Proof.
  intros E. rewrite <- (String.string_of_list_ascii_of_string s), E.
  apply String.string_of_list_ascii_of_string.
Qed.
