(* ===== verification/Wire.v ===== *)
(** * The wire protocol (wire/wire.go, wire/payload.go)

    Frames are [version][type][CBOR body]; the payloads carried inside Direct
    and Broadcast bodies are [kind][CBOR body].  The message structs are
    records with the source's fields; the CBOR library (fxamacker/cbor) is the
    parameter [Cbor], with its documented round trip as the law [CborSpec]. *)
From S2P Require Import Prelude.

Open Scope N_scope.

(** ** The CBOR library *)

(** [encMode.Marshal] and [decMode.Unmarshal] at one Go type. *)
Class Cbor (T : Type) := {
  marshal : T → option bytes;
  unmarshal : bytes → option T
}.

(** The values of [T] the codec carries faithfully: integers in the width of
    their Go type, text that is UTF-8, arrays within the decoder's
    [MaxArrayElements], [N]-byte arrays of their length. *)
Class CborWf (T : Type) := cbor_wf : T → Prop.

(** What the sources rely on: decoding an encoding gives the value back. *)
Class CborSpec (T : Type) `{Cbor T, CborWf T} :=
  unmarshal_marshal v bs : cbor_wf v → marshal v = Some bs → unmarshal bs = Some v.

(** ** Constants *)

Definition Version : byte := x01.
Definition MaxFrame : nat := 64 * 1024.
Definition MaxArrayElements : nat := 4096.

Definition MsgType := byte.
Definition MsgCreateSession : MsgType := x01.
Definition MsgSessionCreated : MsgType := x02.
Definition MsgJoinSession : MsgType := x03.
Definition MsgJoinResult : MsgType := x04.
Definition MsgParticipantJoined : MsgType := x05.
Definition MsgParticipantLeft : MsgType := x06.
Definition MsgDirect : MsgType := x07.
Definition MsgBroadcast : MsgType := x08.
Definition MsgPing : MsgType := x09.
Definition MsgPong : MsgType := x0a.
Definition MsgError : MsgType := x0b.
Definition MsgSessionClosed : MsgType := x0c.
Definition MsgResumeSession : MsgType := x0d.
Definition MsgClaimHost : MsgType := x0e.

Definition ErrCodeUnsupportedVersion : N := 1.
Definition ErrCodeSessionNotFound : N := 2.
Definition ErrCodeSessionExists : N := 3.
Definition ErrCodeSessionFull : N := 4.
Definition ErrCodeRateLimited : N := 5.
Definition ErrCodeBadFrame : N := 6.
Definition ErrCodeUnknownPeer : N := 7.
Definition ErrCodeResumeRejected : N := 8.

Definition PayloadKind := byte.
Definition KindPake1 : PayloadKind := x01.
Definition KindPake2 : PayloadKind := x02.
Definition KindGroupKey : PayloadKind := x03.
Definition KindSealed : PayloadKind := x04.
Definition KindRekey : PayloadKind := x05.
Definition KindRekeyPake1 : PayloadKind := x06.
Definition KindRekeyPake2 : PayloadKind := x07.

(** ** Identifiers *)

(** A [uint32]. *)
Abbreviation ParticipantID := N.

(** [[16]byte]. *)
Abbreviation SessionID := bytes.
Definition sid_len : nat := 16.
Definition sid_wf (s : SessionID) : Prop := length s = sid_len.
Definition pid_wf (p : ParticipantID) : Prop := in_width 32 p.

Definition Hex (s : SessionID) : string := hex_encode s.

Inductive sid_error := BadLength | BadHex.

Definition ParseSessionID (h : string) : result sid_error SessionID :=
  if bool_decide (String.length h ≠ 2 * sid_len)%nat then Err BadLength
  else of_option BadHex (hex_decode h).

(** ** Text strings

    The decoder refuses a CBOR text string that is not UTF-8, so a [string]
    field survives the round trip only when [utf8.Valid] holds of it.  [need]
    lists the ranges of the continuation bytes still expected. *)
Fixpoint utf8_from (need : list (N * N)) (s : string) : bool :=
  match s, need with
  | EmptyString, [] => true
  | EmptyString, _ => false
  | String c s, (lo, hi) :: need =>
      let n := N_of_ascii c in (lo <=? n) && (n <=? hi) && utf8_from need s
  | String c s, [] =>
      let n := N_of_ascii c in
      let cont := (0x80, 0xBF) in
      if n <? 0x80 then utf8_from [] s
      else if (0xC2 <=? n) && (n <=? 0xDF) then utf8_from [cont] s
      else if n =? 0xE0 then utf8_from [(0xA0, 0xBF); cont] s
      else if n =? 0xED then utf8_from [(0x80, 0x9F); cont] s
      else if (0xE1 <=? n) && (n <=? 0xEF) then utf8_from [cont; cont] s
      else if n =? 0xF0 then utf8_from [(0x90, 0xBF); cont; cont] s
      else if (0xF1 <=? n) && (n <=? 0xF3) then utf8_from [cont; cont; cont] s
      else if n =? 0xF4 then utf8_from [(0x80, 0x8F); cont; cont] s
      else false
  end.

Definition utf8_valid (s : string) : Prop := utf8_from [] s = true.

(** ** Relay-visible messages *)

Record CreateSession := mkCreateSession {
  cs_SessionID : SessionID; cs_MaxParticipants : N }.
Record SessionCreated := mkSessionCreated {
  sc_ParticipantID : ParticipantID; sc_ResumeToken : bytes }.
Record JoinSession := mkJoinSession { js_SessionID : SessionID }.
Record JoinResult := mkJoinResult {
  jr_OK : bool; jr_Err : string; jr_ParticipantID : ParticipantID;
  jr_Peers : list ParticipantID; jr_HostID : ParticipantID; jr_ResumeToken : bytes }.
Record ResumeSession := mkResumeSession {
  rs_SessionID : SessionID; rs_ParticipantID : ParticipantID; rs_Token : bytes }.
Record ClaimHost := mkClaimHost {}.
Record ParticipantJoined := mkParticipantJoined { pj_ParticipantID : ParticipantID }.
Record ParticipantLeft := mkParticipantLeft { pl_ParticipantID : ParticipantID }.
Record Direct := mkDirect {
  d_To : ParticipantID; d_From : ParticipantID; d_Payload : bytes }.
Record Broadcast := mkBroadcast { b_From : ParticipantID; b_Payload : bytes }.
Record Ping := mkPing { ping_Nonce : N }.
Record Pong := mkPong { pong_Nonce : N }.
Record Error := mkError { e_Code : N; e_Msg : string }.
Record SessionClosed := mkSessionClosed { cl_Reason : string }.

(** ** Payload-layer messages *)

Record Pake := mkPake { pk_Data : bytes; pk_Spectate : bool }.
Record GroupKey := mkGroupKey { gk_Nonce : bytes; gk_Ciphertext : bytes }.
Record SealedFrame := mkSealedFrame { sf_Nonce : bytes; sf_Ciphertext : bytes }.
Record Envelope := mkEnvelope { env_ServiceID : string; env_Seq : N; env_Body : bytes }.

Definition nonce_len : nat := 24.

(** ** Frames *)

Inductive wire_error :=
| ErrEncode
| ErrFrameTooShort
| ErrFrameTooLarge
| ErrUnsupportedVersion (b : byte)
| ErrDecodeBody
| ErrPayloadTooShort.

Definition Encode `{Cbor T} (t : MsgType) (body : T) : result wire_error bytes :=
  match marshal body with
  | None => Err ErrEncode
  | Some b =>
      let frame := Version :: t :: b in
      if bool_decide (MaxFrame < length frame)%nat then Err ErrFrameTooLarge
      else Ok frame
  end.

Definition Decode (frame : bytes) : result wire_error (MsgType * bytes) :=
  if bool_decide (MaxFrame < length frame)%nat then Err ErrFrameTooLarge
  else match frame with
       | v :: t :: body =>
           if bool_decide (v ≠ Version) then Err (ErrUnsupportedVersion v)
           else Ok (t, body)
       | _ => Err ErrFrameTooShort
       end.

Definition Marshal `{Cbor T} (v : T) : option bytes := marshal v.

Definition Body (T : Type) `{Cbor T} (raw : bytes) : result wire_error T :=
  of_option ErrDecodeBody (unmarshal raw).

Definition EncodePayload `{Cbor T} (k : PayloadKind) (body : T) : result wire_error bytes :=
  match marshal body with
  | None => Err ErrEncode
  | Some b => Ok (k :: b)
  end.

Definition DecodePayload (payload : bytes) : result wire_error (PayloadKind * bytes) :=
  match payload with
  | [] => Err ErrPayloadTooShort
  | k :: body => Ok (k, body)
  end.

(** ** The codecs of the protocol *)

(** The library at every type the relay and the clients exchange. *)
Class WireCodec := {
  wc_CreateSession :: Cbor CreateSession;
  wc_SessionCreated :: Cbor SessionCreated;
  wc_JoinSession :: Cbor JoinSession;
  wc_JoinResult :: Cbor JoinResult;
  wc_ResumeSession :: Cbor ResumeSession;
  wc_ClaimHost :: Cbor ClaimHost;
  wc_ParticipantJoined :: Cbor ParticipantJoined;
  wc_ParticipantLeft :: Cbor ParticipantLeft;
  wc_Direct :: Cbor Direct;
  wc_Broadcast :: Cbor Broadcast;
  wc_Ping :: Cbor Ping;
  wc_Pong :: Cbor Pong;
  wc_Error :: Cbor Error;
  wc_SessionClosed :: Cbor SessionClosed;
  wc_Pake :: Cbor Pake;
  wc_GroupKey :: Cbor GroupKey;
  wc_SealedFrame :: Cbor SealedFrame;
  wc_Envelope :: Cbor Envelope
}.

#[global] Instance CreateSession_wf : CborWf CreateSession :=
  λ v, sid_wf (cs_SessionID v) ∧ in_width 8 (cs_MaxParticipants v).
#[global] Instance SessionCreated_wf : CborWf SessionCreated :=
  λ v, pid_wf (sc_ParticipantID v).
#[global] Instance JoinSession_wf : CborWf JoinSession := λ v, sid_wf (js_SessionID v).
#[global] Instance JoinResult_wf : CborWf JoinResult := λ v,
  utf8_valid (jr_Err v) ∧ pid_wf (jr_ParticipantID v) ∧ pid_wf (jr_HostID v) ∧
  Forall pid_wf (jr_Peers v) ∧ (length (jr_Peers v) ≤ MaxArrayElements)%nat.
#[global] Instance ResumeSession_wf : CborWf ResumeSession := λ v,
  sid_wf (rs_SessionID v) ∧ pid_wf (rs_ParticipantID v).
#[global] Instance ClaimHost_wf : CborWf ClaimHost := λ _, True.
#[global] Instance ParticipantJoined_wf : CborWf ParticipantJoined :=
  λ v, pid_wf (pj_ParticipantID v).
#[global] Instance ParticipantLeft_wf : CborWf ParticipantLeft :=
  λ v, pid_wf (pl_ParticipantID v).
#[global] Instance Direct_wf : CborWf Direct := λ v, pid_wf (d_To v) ∧ pid_wf (d_From v).
#[global] Instance Broadcast_wf : CborWf Broadcast := λ v, pid_wf (b_From v).
#[global] Instance Ping_wf : CborWf Ping := λ v, in_width 32 (ping_Nonce v).
#[global] Instance Pong_wf : CborWf Pong := λ v, in_width 32 (pong_Nonce v).
#[global] Instance Error_wf : CborWf Error := λ v, in_width 16 (e_Code v) ∧ utf8_valid (e_Msg v).
#[global] Instance SessionClosed_wf : CborWf SessionClosed := λ v, utf8_valid (cl_Reason v).
#[global] Instance Pake_wf : CborWf Pake := λ _, True.
#[global] Instance GroupKey_wf : CborWf GroupKey := λ v, length (gk_Nonce v) = nonce_len.
#[global] Instance SealedFrame_wf : CborWf SealedFrame := λ v, length (sf_Nonce v) = nonce_len.
#[global] Instance Envelope_wf : CborWf Envelope :=
  λ v, utf8_valid (env_ServiceID v) ∧ in_width 64 (env_Seq v).

Class WireCodecSpec `{WireCodec} := {
  ws_CreateSession :: CborSpec CreateSession;
  ws_SessionCreated :: CborSpec SessionCreated;
  ws_JoinSession :: CborSpec JoinSession;
  ws_JoinResult :: CborSpec JoinResult;
  ws_ResumeSession :: CborSpec ResumeSession;
  ws_ClaimHost :: CborSpec ClaimHost;
  ws_ParticipantJoined :: CborSpec ParticipantJoined;
  ws_ParticipantLeft :: CborSpec ParticipantLeft;
  ws_Direct :: CborSpec Direct;
  ws_Broadcast :: CborSpec Broadcast;
  ws_Ping :: CborSpec Ping;
  ws_Pong :: CborSpec Pong;
  ws_Error :: CborSpec Error;
  ws_SessionClosed :: CborSpec SessionClosed;
  ws_Pake :: CborSpec Pake;
  ws_GroupKey :: CborSpec GroupKey;
  ws_SealedFrame :: CborSpec SealedFrame;
  ws_Envelope :: CborSpec Envelope
}.

(** ** A concrete codec, on which the development's examples run

    Any countable type is encoded by the bits of its code, eight to a byte; it
    satisfies [CborSpec], so the laws above can hold together. *)
Definition byte_bits (b : byte) : list bool :=
  let '(b0, (b1, (b2, (b3, (b4, (b5, (b6, b7))))))) := Byte.to_bits b in
  [b0; b1; b2; b3; b4; b5; b6; b7].

(** The last byte ends in a one and zeros. *)
Fixpoint pack (l : list bool) : bytes :=
  match l with
  | b0 :: b1 :: b2 :: b3 :: b4 :: b5 :: b6 :: b7 :: l =>
      Byte.of_bits (b0, (b1, (b2, (b3, (b4, (b5, (b6, b7))))))) :: pack l
  | _ =>
      match l ++ true :: replicate 7 false with
      | b0 :: b1 :: b2 :: b3 :: b4 :: b5 :: b6 :: b7 :: _ =>
          [Byte.of_bits (b0, (b1, (b2, (b3, (b4, (b5, (b6, b7)))))))]
      | _ => []
      end
  end.

Fixpoint strip (l : list bool) : option (list bool) :=
  match l with
  | [] => None
  | b :: l =>
      match strip l with
      | Some l => Some (b :: l)
      | None => if b then Some [] else None
      end
  end.

Fixpoint unpack (bs : bytes) : option (list bool) :=
  match bs with
  | [] => None
  | [b] => strip (byte_bits b)
  | b :: bs => app (byte_bits b) <$> unpack bs
  end.

Lemma pack_cons b0 b1 b2 b3 b4 b5 b6 b7 l :
  unpack (pack (b0 :: b1 :: b2 :: b3 :: b4 :: b5 :: b6 :: b7 :: l))
  = app [b0; b1; b2; b3; b4; b5; b6; b7] <$> unpack (pack l).
Proof.
  cbn [pack]. set (b := Byte.of_bits _).
  assert (byte_bits b = [b0; b1; b2; b3; b4; b5; b6; b7]) as Eb
    by (unfold byte_bits, b; by rewrite Byte.to_bits_of_bits).
  destruct (pack l) as [|b' bs] eqn:E.
  - destruct l as [|? [|? [|? [|? [|? [|? [|? [|]]]]]]]]; discriminate E.
  - cbn [unpack]. by rewrite Eb.
Qed.

Lemma unpack_pack l : unpack (pack l) = Some l.
Proof.
  remember (length l) as n eqn:Hn. revert l Hn.
  induction (lt_wf n) as [n _ IH]. intros l ->.
  destruct l as [|b0 [|b1 [|b2 [|b3 [|b4 [|b5 [|b6 [|b7 l]]]]]]]].
  9: { rewrite pack_cons, (IH (length l)); [done|simpl; lia|done]. }
  all: repeat match goal with b : bool |- _ => destruct b end; reflexivity.
Qed.

Fixpoint pos_bits (p : positive) : list bool :=
  match p with
  | xH => []
  | xO p => false :: pos_bits p
  | xI p => true :: pos_bits p
  end.

Fixpoint bits_pos (l : list bool) : positive :=
  match l with
  | [] => xH
  | false :: l => xO (bits_pos l)
  | true :: l => xI (bits_pos l)
  end.

Lemma bits_pos_bits p : bits_pos (pos_bits p) = p.
Proof. induction p as [p IH|p IH|]; simpl; by rewrite ?IH. Qed.

Definition bits_of_positive (p : positive) : bytes := pack (pos_bits p).
Definition positive_of_bits (bs : bytes) : option positive := bits_pos <$> unpack bs.

Lemma positive_of_bits_of p : positive_of_bits (bits_of_positive p) = Some p.
Proof.
  unfold positive_of_bits, bits_of_positive. rewrite unpack_pack. simpl. by rewrite bits_pos_bits.
Qed.

Definition bits_cbor (T : Type) `{Countable T} : Cbor T := {|
  marshal v := Some (bits_of_positive (encode v));
  unmarshal bs := positive_of_bits bs ≫= decode
|}.

Lemma bits_cbor_spec (T : Type) `{Countable T, CborWf T} : @CborSpec T (bits_cbor T) _.
Proof.
  intros v bs _ [= <-]. unfold unmarshal, bits_cbor.
  rewrite positive_of_bits_of. simpl. apply decode_encode.
Qed.

Ltac countable_by f g := refine (inj_countable' f g _); intros []; reflexivity.

#[global] Instance CreateSession_eq : EqDecision CreateSession.
Proof. solve_decision. Defined.
#[global] Instance SessionCreated_eq : EqDecision SessionCreated.
Proof. solve_decision. Defined.
#[global] Instance JoinSession_eq : EqDecision JoinSession.
Proof. solve_decision. Defined.
#[global] Instance JoinResult_eq : EqDecision JoinResult.
Proof. solve_decision. Defined.
#[global] Instance ResumeSession_eq : EqDecision ResumeSession.
Proof. solve_decision. Defined.
#[global] Instance ClaimHost_eq : EqDecision ClaimHost.
Proof. solve_decision. Defined.
#[global] Instance ParticipantJoined_eq : EqDecision ParticipantJoined.
Proof. solve_decision. Defined.
#[global] Instance ParticipantLeft_eq : EqDecision ParticipantLeft.
Proof. solve_decision. Defined.
#[global] Instance Direct_eq : EqDecision Direct.
Proof. solve_decision. Defined.
#[global] Instance Broadcast_eq : EqDecision Broadcast.
Proof. solve_decision. Defined.
#[global] Instance Ping_eq : EqDecision Ping.
Proof. solve_decision. Defined.
#[global] Instance Pong_eq : EqDecision Pong.
Proof. solve_decision. Defined.
#[global] Instance Error_eq : EqDecision Error.
Proof. solve_decision. Defined.
#[global] Instance SessionClosed_eq : EqDecision SessionClosed.
Proof. solve_decision. Defined.
#[global] Instance Pake_eq : EqDecision Pake.
Proof. solve_decision. Defined.
#[global] Instance GroupKey_eq : EqDecision GroupKey.
Proof. solve_decision. Defined.
#[global] Instance SealedFrame_eq : EqDecision SealedFrame.
Proof. solve_decision. Defined.
#[global] Instance Envelope_eq : EqDecision Envelope.
Proof. solve_decision. Defined.

#[global] Instance CreateSession_countable : Countable CreateSession.
Proof.
  countable_by (λ v, (cs_SessionID v, cs_MaxParticipants v)) (λ '(a, b), mkCreateSession a b).
Defined.
#[global] Instance SessionCreated_countable : Countable SessionCreated.
Proof.
  countable_by (λ v, (sc_ParticipantID v, sc_ResumeToken v)) (λ '(a, b), mkSessionCreated a b).
Defined.
#[global] Instance JoinSession_countable : Countable JoinSession.
Proof. countable_by js_SessionID mkJoinSession. Defined.
#[global] Instance JoinResult_countable : Countable JoinResult.
Proof.
  countable_by
    (λ v, (jr_OK v, jr_Err v, jr_ParticipantID v, jr_Peers v, jr_HostID v, jr_ResumeToken v))
    (λ '(a, b, c, d, e, f), mkJoinResult a b c d e f).
Defined.
#[global] Instance ResumeSession_countable : Countable ResumeSession.
Proof.
  countable_by (λ v, (rs_SessionID v, rs_ParticipantID v, rs_Token v))
    (λ '(a, b, c), mkResumeSession a b c).
Defined.
#[global] Instance ClaimHost_countable : Countable ClaimHost.
Proof. countable_by (λ _ : ClaimHost, tt) (λ _ : unit, mkClaimHost). Defined.
#[global] Instance ParticipantJoined_countable : Countable ParticipantJoined.
Proof. countable_by pj_ParticipantID mkParticipantJoined. Defined.
#[global] Instance ParticipantLeft_countable : Countable ParticipantLeft.
Proof. countable_by pl_ParticipantID mkParticipantLeft. Defined.
#[global] Instance Direct_countable : Countable Direct.
Proof. countable_by (λ v, (d_To v, d_From v, d_Payload v)) (λ '(a, b, c), mkDirect a b c). Defined.
#[global] Instance Broadcast_countable : Countable Broadcast.
Proof. countable_by (λ v, (b_From v, b_Payload v)) (λ '(a, b), mkBroadcast a b). Defined.
#[global] Instance Ping_countable : Countable Ping.
Proof. countable_by ping_Nonce mkPing. Defined.
#[global] Instance Pong_countable : Countable Pong.
Proof. countable_by pong_Nonce mkPong. Defined.
#[global] Instance Error_countable : Countable Error.
Proof. countable_by (λ v, (e_Code v, e_Msg v)) (λ '(a, b), mkError a b). Defined.
#[global] Instance SessionClosed_countable : Countable SessionClosed.
Proof. countable_by cl_Reason mkSessionClosed. Defined.
#[global] Instance Pake_countable : Countable Pake.
Proof. countable_by (λ v, (pk_Data v, pk_Spectate v)) (λ '(a, b), mkPake a b). Defined.
#[global] Instance GroupKey_countable : Countable GroupKey.
Proof. countable_by (λ v, (gk_Nonce v, gk_Ciphertext v)) (λ '(a, b), mkGroupKey a b). Defined.
#[global] Instance SealedFrame_countable : Countable SealedFrame.
Proof. countable_by (λ v, (sf_Nonce v, sf_Ciphertext v)) (λ '(a, b), mkSealedFrame a b). Defined.
#[global] Instance Envelope_countable : Countable Envelope.
Proof.
  countable_by (λ v, (env_ServiceID v, env_Seq v, env_Body v)) (λ '(a, b, c), mkEnvelope a b c).
Defined.

Definition bits_codec : WireCodec := {|
  wc_CreateSession := bits_cbor _; wc_SessionCreated := bits_cbor _;
  wc_JoinSession := bits_cbor _; wc_JoinResult := bits_cbor _;
  wc_ResumeSession := bits_cbor _; wc_ClaimHost := bits_cbor _;
  wc_ParticipantJoined := bits_cbor _; wc_ParticipantLeft := bits_cbor _;
  wc_Direct := bits_cbor _; wc_Broadcast := bits_cbor _;
  wc_Ping := bits_cbor _; wc_Pong := bits_cbor _;
  wc_Error := bits_cbor _; wc_SessionClosed := bits_cbor _;
  wc_Pake := bits_cbor _; wc_GroupKey := bits_cbor _;
  wc_SealedFrame := bits_cbor _; wc_Envelope := bits_cbor _
|}.

Lemma bits_codec_spec : @WireCodecSpec bits_codec.
Proof. constructor; apply bits_cbor_spec. Qed.

(** ** Properties *)

Lemma Encode_Ok `{Cbor T} t (body : T) f :
  Encode t body = Ok f ↔
  ∃ raw, marshal body = Some raw ∧ f = Version :: t :: raw ∧ (length f ≤ MaxFrame)%nat.
Proof.
  unfold Encode. destruct (marshal body) as [raw|]; [|naive_solver].
  case_bool_decide; split.
  - done.
  - intros (? & ? & -> & ?). simplify_eq. lia.
  - intros [= <-]. eexists. split; [done|]. split; [done|lia].
  - naive_solver.
Qed.

Lemma Decode_Ok f t raw :
  Decode f = Ok (t, raw) ↔ f = Version :: t :: raw ∧ (length f ≤ MaxFrame)%nat.
Proof.
  unfold Decode. case_bool_decide as Hlen.
  { split; [done|]. intros [_ ?]. lia. }
  destruct f as [|v [|t' raw']]; [naive_solver..|].
  case_bool_decide; [naive_solver|]. assert (v = Version) as -> by naive_solver.
  split; [intros [= -> ->]; split; [done|lia]|naive_solver].
Qed.

(** A frame that was encoded is read as what it carries. *)
Lemma framed `{CborSpec T} t (body : T) f :
  cbor_wf body → Encode t body = Ok f →
  ∃ raw, Decode f = Ok (t, raw) ∧ Body T raw = Ok body.
Proof.
  intros Hwf (raw & Hm & -> & Hlen)%Encode_Ok. exists raw. split; [by apply Decode_Ok|].
  unfold Body. by rewrite (unmarshal_marshal body raw).
Qed.

Lemma Decode_Encode `{Cbor T} t (body : T) f raw :
  Encode t body = Ok f → marshal body = Some raw → Decode f = Ok (t, raw).
Proof.
  intros (raw' & ? & -> & Hlen)%Encode_Ok ?. simplify_eq. by apply Decode_Ok.
Qed.

Lemma length_hex_encode bs : String.length (hex_encode bs) = (2 * length bs)%nat.
Proof. induction bs as [|b bs IH]; simpl; [done|]. rewrite IH. lia. Qed.

(** C37: a frame built by [Encode] is decoded by [Decode] into the same message
    type and a raw body from which [Body] recovers the encoded message. *)
Theorem frame_roundtrip `{CborSpec T} t (body : T) f :
  cbor_wf body → Encode t body = Ok f →
  ∃ raw, Decode f = Ok (t, raw) ∧ Body T raw = Ok body.
Proof.
  intros Hwf (raw & Hm & -> & Hlen)%Encode_Ok. exists raw. split.
  - by apply Decode_Ok.
  - unfold Body. by rewrite (unmarshal_marshal body raw).
Qed.

Lemma frame_roundtrip_witness :
  let body := mkDirect 2 1 [xde; xad] in
  let C := bits_cbor Direct in
  ∃ f raw, Encode MsgDirect body = Ok f ∧ Decode f = Ok (MsgDirect, raw) ∧
    Body Direct raw = Ok body.
Proof.
  intros body C. destruct (Encode MsgDirect body) as [f|e] eqn:E;
    [|vm_compute in E; discriminate E].
  destruct (@frame_roundtrip Direct C _ (bits_cbor_spec Direct) MsgDirect body f)
    as (raw & H1 & H2); [hnf; split; reflexivity|exact E|].
  exists f, raw. split; [reflexivity|]. split; [exact H1|exact H2].
Defined.

(** [Decode] classifies every byte string: frames over [MaxFrame] are
    refused first, then frames without a two-byte header, then foreign
    versions; what is accepted is exactly version, type and body, untouched. *)
Theorem Decode_spec f :
  (∀ t raw, Decode f = Ok (t, raw) ↔
     f = Version :: t :: raw ∧ (length f ≤ MaxFrame)%nat) ∧
  (Decode f = Err ErrFrameTooLarge ↔ (MaxFrame < length f)%nat) ∧
  (Decode f = Err ErrFrameTooShort ↔ (length f < 2)%nat) ∧
  (∀ v, Decode f = Err (ErrUnsupportedVersion v) ↔
     (2 ≤ length f ≤ MaxFrame)%nat ∧ head f = Some v ∧ v ≠ Version).
Proof.
  split; [intros; apply Decode_Ok|]. unfold Decode.
  assert (2 < MaxFrame)%nat as HM by (unfold MaxFrame; lia).
  case_bool_decide as Hlen.
  { split_and!; [naive_solver| |]; intros; split; try done; [lia|].
    intros ([? ?] & _). lia. }
  destruct f as [|v [|t raw]]; cbn [length] in *.
  1,2: split_and!; intros; split; try done; try lia; intros ([? ?] & _); lia.
  case_bool_decide as Hv; split_and!; intros; split; try done; try lia.
  - intros [= ->]. split; [lia|done].
  - intros (_ & [= ->] & _). done.
  - intros (_ & [= ->] & ?). by destruct Hv.
Qed.

(** the hexadecimal routing hint identifies the session: parsing the
    printed form gives the identifier back, and any accepted text is, up to
    letter case, the printed form of the 16-byte identifier it parses to. *)
Theorem ParseSessionID_Hex s :
  sid_wf s →
  ParseSessionID (Hex s) = Ok s ∧
  ∀ h, ParseSessionID h = Ok s → Hex s = string_lower h.
Proof.
  intros Hs. unfold ParseSessionID, Hex. split.
  - rewrite length_hex_encode, Hs, bool_decide_eq_false_2 by tauto.
    by rewrite hex_decode_encode.
  - intros h. case_bool_decide; [done|].
    destruct (hex_decode h) as [s'|] eqn:E; [|done]. intros [= ->].
    by apply hex_encode_decode in E as [? _].
Qed.

Lemma ParseSessionID_Hex_witness :
  ParseSessionID (Hex (replicate 16 xab)) = Ok (replicate 16 xab).
Proof. apply (ParseSessionID_Hex (replicate 16 xab)). reflexivity. Defined.

(** the inner payload layer round-trips, and an empty payload is the only
    one [DecodePayload] refuses. *)
Theorem payload_roundtrip `{CborSpec T} k (body : T) p :
  cbor_wf body → EncodePayload k body = Ok p →
  (∃ raw, DecodePayload p = Ok (k, raw) ∧ Body T raw = Ok body) ∧
  ∀ q, is_ok (DecodePayload q) = bool_decide (q ≠ []).
Proof.
  intros Hwf. unfold EncodePayload. destruct (marshal body) as [raw|] eqn:E; [|done].
  intros [= <-]. split; [|by intros []].
  exists raw. split; [done|]. unfold Body. by rewrite (unmarshal_marshal body raw).
Qed.

Lemma payload_roundtrip_witness :
  let body := mkPake [x01; x02] true in
  let C := bits_cbor Pake in
  ∃ p raw, EncodePayload KindPake1 body = Ok p ∧
    DecodePayload p = Ok (KindPake1, raw) ∧ Body Pake raw = Ok body.
Proof.
  intros body C. destruct (EncodePayload KindPake1 body) as [p|e] eqn:E;
    [|vm_compute in E; discriminate E].
  destruct (@payload_roundtrip Pake C _ (bits_cbor_spec Pake) KindPake1 body p)
    as [(raw & H1 & H2) _]; [exact I|exact E|].
  exists p, raw. split; [reflexivity|]. split; [exact H1|exact H2].
Defined.
