(* ===== verification/Hub.v ===== *)
(** * The session hub (relay/hub.go, relay/stats.go:63-85)

    One hub owns one session; its goroutine [run] takes commands from an inbox
    one at a time, so every handler is a function from the hub to the hub.
    What handlers share with other goroutines (the channels a connection's
    writer drains, the kick signals, the armed grace timers, the counters) is
    kept by reference in [env] and in [h_armed]. *)
From S2P Require Import Prelude Wire.

Open Scope N_scope.

Definition resumeTokenLen : nat := 32.
Definition sendBuffer : nat := 64.
Definition inboxCap : nat := 16.
Definition hostID : ParticipantID := 1.

(** ** State *)

(** Channels and connections are references; a connection is named by the
    [kicked] channel its [kick] closes. *)
Abbreviation chan_ref := N.
Abbreviation conn_ref := N.

(** relay/stats.go: atomic [uint64] counters. *)
Record Metrics := mkMetrics {
  SessionsCreated : N; FramesForwarded : N; BytesForwarded : N;
  Joins : N; Resumes : N; Errors : N }.

Definition metrics0 : Metrics := mkMetrics 0 0 0 0 0 0.

(** State the hub shares with the server's other goroutines. *)
Record env := mkEnv {
  ev_metrics : Metrics;
  ev_chans : gmap chan_ref (list bytes);
  ev_kicked : gset conn_ref;
  ev_draws : N }.

Record client := mkClient {
  c_id : ParticipantID;
  c_out : chan_ref;
  c_kick : conn_ref;
  c_token : bytes;
  c_held : bool;
  c_gen : N;
  c_timer : option (ParticipantID * N);
  c_evicting : bool }.

Record hub := mkHub {
  h_id : SessionID;
  h_max : Z;
  h_grace : Z;
  h_created : Z;
  h_clients : gmap ParticipantID client;
  h_nextID : ParticipantID;
  h_host : ParticipantID;
  h_evict : list ParticipantID;
  h_armed : gset (ParticipantID * N);
  h_done : bool;
  h_env : env }.

Definition set_clients (h : hub) x : hub :=
  mkHub (h_id h) (h_max h) (h_grace h) (h_created h) x (h_nextID h) (h_host h)
    (h_evict h) (h_armed h) (h_done h) (h_env h).
Definition set_nextID (h : hub) x : hub :=
  mkHub (h_id h) (h_max h) (h_grace h) (h_created h) (h_clients h) x (h_host h)
    (h_evict h) (h_armed h) (h_done h) (h_env h).
Definition set_host (h : hub) x : hub :=
  mkHub (h_id h) (h_max h) (h_grace h) (h_created h) (h_clients h) (h_nextID h) x
    (h_evict h) (h_armed h) (h_done h) (h_env h).
Definition set_evict (h : hub) x : hub :=
  mkHub (h_id h) (h_max h) (h_grace h) (h_created h) (h_clients h) (h_nextID h) (h_host h)
    x (h_armed h) (h_done h) (h_env h).
Definition set_armed (h : hub) x : hub :=
  mkHub (h_id h) (h_max h) (h_grace h) (h_created h) (h_clients h) (h_nextID h) (h_host h)
    (h_evict h) x (h_done h) (h_env h).
Definition set_done (h : hub) x : hub :=
  mkHub (h_id h) (h_max h) (h_grace h) (h_created h) (h_clients h) (h_nextID h) (h_host h)
    (h_evict h) (h_armed h) x (h_env h).
Definition set_env (h : hub) x : hub :=
  mkHub (h_id h) (h_max h) (h_grace h) (h_created h) (h_clients h) (h_nextID h) (h_host h)
    (h_evict h) (h_armed h) (h_done h) x.

Definition set_chans (e : env) x : env := mkEnv (ev_metrics e) x (ev_kicked e) (ev_draws e).
Definition set_kicked (e : env) x : env := mkEnv (ev_metrics e) (ev_chans e) x (ev_draws e).
Definition set_metrics (e : env) x : env := mkEnv x (ev_chans e) (ev_kicked e) (ev_draws e).
Definition set_draws (e : env) x : env := mkEnv (ev_metrics e) (ev_chans e) (ev_kicked e) x.

(** ** References *)

(** [chan_get]: the buffered frames of a channel; [chan_put]: its new buffer. *)
Definition chan_get (h : hub) (ch : chan_ref) : list bytes :=
  default [] (ev_chans (h_env h) !! ch).
Definition chan_put (h : hub) (ch : chan_ref) (q : list bytes) : hub :=
  set_env h (set_chans (h_env h) (<[ch := q]> (ev_chans (h_env h)))).

(** [make(chan []byte, sendBuffer)]: a channel nobody else refers to. *)
Definition make_chan (h : hub) : hub * chan_ref :=
  let ch := fresh (dom (ev_chans (h_env h))) in (chan_put h ch [], ch).

(** [kick]: close the connection's [kicked] channel, once. *)
Definition kick (h : hub) (conn : conn_ref) : hub :=
  set_env h (set_kicked (h_env h) ({[conn]} ∪ ev_kicked (h_env h))).

Definition bump (h : hub) (f : Metrics → Metrics) : hub :=
  set_env h (set_metrics (h_env h) (f (ev_metrics (h_env h)))).

Definition add_Errors (m : Metrics) : Metrics :=
  mkMetrics (SessionsCreated m) (FramesForwarded m) (BytesForwarded m) (Joins m) (Resumes m)
    (wrap 64 (Errors m + 1)).
Definition add_Joins (m : Metrics) : Metrics :=
  mkMetrics (SessionsCreated m) (FramesForwarded m) (BytesForwarded m) (wrap 64 (Joins m + 1))
    (Resumes m) (Errors m).
Definition add_Resumes (m : Metrics) : Metrics :=
  mkMetrics (SessionsCreated m) (FramesForwarded m) (BytesForwarded m) (Joins m)
    (wrap 64 (Resumes m + 1)) (Errors m).
Definition add_Forwarded (n : N) (m : Metrics) : Metrics :=
  mkMetrics (SessionsCreated m) (wrap 64 (FramesForwarded m + 1))
    (wrap 64 (BytesForwarded m + n)) (Joins m) (Resumes m) (Errors m).
Definition add_SessionsCreated (m : Metrics) : Metrics :=
  mkMetrics (wrap 64 (SessionsCreated m + 1)) (FramesForwarded m) (BytesForwarded m) (Joins m)
    (Resumes m) (Errors m).

(** Assignment through a [*client] the hub holds in its map. *)
Definition upd_client (h : hub) (id : ParticipantID) (f : client → client) : hub :=
  set_clients h (alter f id (h_clients h)).

Definition mark_evicting (c : client) : client :=
  mkClient (c_id c) (c_out c) (c_kick c) (c_token c) (c_held c) (c_gen c) (c_timer c) true.

(** [time.Timer.Stop] on a client's timer, when it has one. *)
Definition stop_timer (h : hub) (c : client) : hub :=
  match c_timer c with
  | Some t => set_armed h (h_armed h ∖ {[t]})
  | None => h
  end.

(** ** Commands *)

Record joinReply := mkJoinReply {
  jrep_ok : bool; jrep_errC : N; jrep_errS : string; jrep_id : ParticipantID; jrep_gen : N }.
Record resumeReply := mkResumeReply {
  rrep_ok : bool; rrep_errC : N; rrep_errS : string; rrep_out : option chan_ref; rrep_gen : N }.
Record ClientStat := mkClientStat { cst_ID : N; cst_Held : bool; cst_Gen : N }.
Record hubStats := mkHubStats {
  hs_participants : nat; hs_host : ParticipantID; hs_nextID : ParticipantID;
  hs_clients : list ClientStat }.

Inductive reply := RJoin (r : joinReply) | RResume (r : resumeReply) | RStats (s : hubStats).

Inductive cmd :=
| joinCmd (out : chan_ref) (k : conn_ref) (isCreate : bool)
| leaveCmd (id : ParticipantID) (gen : N) (unexpected : bool)
| resumeCmd (id : ParticipantID) (token : bytes) (k : conn_ref)
| graceExpiredCmd (id : ParticipantID) (gen : N)
| claimHostCmd (id : ParticipantID)
| frameCmd (from : ParticipantID) (typ : MsgType) (raw : bytes)
| statsCmd
| closeCmd (reason : string).

Definition newHub (id : SessionID) (maxParticipants grace created : Z) (e : env) : hub :=
  mkHub id maxParticipants grace created ∅ hostID hostID [] ∅ false e.

(** ** Handlers *)

Section Hub.
Context {WC : WireCodec} {EN : Entropy} {MR : MapRange ParticipantID client}.

Definition queue (h : hub) (id : ParticipantID) (frame : bytes) : hub :=
  match h_clients h !! id with
  | None => h
  | Some c =>
      if c_evicting c then h
      else match chan_try_send sendBuffer (chan_get h (c_out c)) frame with
           | Some q => chan_put h (c_out c) q
           | None =>
               let h := upd_client h id mark_evicting in
               let h := if c_held c then h else kick h (c_kick c) in
               set_evict h (h_evict h ++ [c_id c])
           end
  end.

Definition sendTo `{Cbor T} (h : hub) (id : ParticipantID) (t : MsgType) (body : T) : hub :=
  match h_clients h !! id with
  | None => h
  | Some _ => match Encode t body with
              | Err _ => h
              | Ok frame => queue h id frame
              end
  end.

Definition queue_except (except : ParticipantID) (frame : bytes) (h : hub)
    (p : ParticipantID * client) : hub :=
  if bool_decide (p.1 = except) then h else queue h p.1 frame.

Definition broadcastFrame `{Cbor T} (h : hub) (t : MsgType) (body : T)
    (except : ParticipantID) : hub :=
  match Encode t body with
  | Err _ => h
  | Ok frame => foldl (queue_except except frame) h (range (h_clients h))
  end.

Definition peersExcept (h : hub) (id : ParticipantID) : list ParticipantID :=
  filter (λ p, p ≠ id) (range (h_clients h)).*1.

(** [drainChan]: the whole buffer, leaving the channel empty. *)
Definition drainChan (h : hub) (ch : chan_ref) : hub * list bytes :=
  (chan_put h ch [], chan_get h ch).

(** [newToken]: the error of [rand.Read] is discarded, leaving the zeroed
    slice [make] returned. *)
Definition newToken (h : hub) : hub * bytes :=
  let i := ev_draws (h_env h) in
  (set_env h (set_draws (h_env h) (i + 1)),
   default (replicate resumeTokenLen x00) (rand_read i resumeTokenLen)).

Definition handleClaimHost (h : hub) (id : ParticipantID) : hub :=
  match h_clients h !! id with
  | Some _ => set_host h id
  | None => h
  end.

Definition handleClose (h : hub) (reason : string) : hub :=
  broadcastFrame h MsgSessionClosed (mkSessionClosed reason) 0.

Definition handleJoin (h : hub) (out : chan_ref) (k : conn_ref) (isCreate : bool) :
    hub * joinReply :=
  if bool_decide (h_max h ≤ Z.of_nat (size (h_clients h)))%Z then
    (bump h add_Errors, mkJoinReply false ErrCodeSessionFull "session full" 0 0)
  else
    let id := h_nextID h in
    let h := set_nextID h (wrap 32 (h_nextID h + 1)) in
    let '(h, token) := newToken h in
    let frame :=
      if isCreate then Encode MsgSessionCreated (mkSessionCreated id token)
      else Encode MsgJoinResult
             (mkJoinResult true "" id (peersExcept h id) (h_host h) token) in
    match frame with
    | Err _ => (h, mkJoinReply false ErrCodeBadFrame "encode reply" 0 0)
    | Ok frame =>
        let h := chan_put h out (chan_get h out ++ [frame]) in
        let h := set_clients h
          (<[id := mkClient id out k token false 1 None false]> (h_clients h)) in
        let h := bump h add_Joins in
        (broadcastFrame h MsgParticipantJoined (mkParticipantJoined id) id,
         mkJoinReply true 0 "" id 1)
    end.

Definition removeParticipant (h : hub) (id : ParticipantID) : hub * bool :=
  match h_clients h !! id with
  | None => (h, false)
  | Some c =>
      let h := stop_timer h c in
      let h := set_clients h (delete id (h_clients h)) in
      let h := kick h (c_kick c) in
      if bool_decide (size (h_clients h) = 0%nat) then (h, true)
      else (broadcastFrame h MsgParticipantLeft (mkParticipantLeft id) 0, false)
  end.

Definition hold_client (out : chan_ref) (c : client) : client :=
  let gen := wrap 64 (c_gen c + 1) in
  mkClient (c_id c) out (c_kick c) (c_token c) true gen (Some (c_id c, gen)) (c_evicting c).

Definition holdSlot (h : hub) (id : ParticipantID) (c : client) : hub :=
  let '(h, out) := make_chan h in
  let h := upd_client h id (λ _, hold_client out c) in
  set_armed h ({[(c_id c, wrap 64 (c_gen c + 1))]} ∪ h_armed h).

Definition handleLeave (h : hub) (id : ParticipantID) (gen : N) (unexpected : bool) :
    hub * bool :=
  match h_clients h !! id with
  | None => (h, false)
  | Some c =>
      if c_held c || bool_decide (c_gen c ≠ gen) then (h, false)
      else if unexpected && bool_decide (0 < h_grace h)%Z then (holdSlot h id c, false)
      else removeParticipant h id
  end.

Definition handleGraceExpired (h : hub) (id : ParticipantID) (gen : N) : hub * bool :=
  match h_clients h !! id with
  | None => (h, false)
  | Some c =>
      if negb (c_held c) || bool_decide (c_gen c ≠ gen) then (h, false)
      else removeParticipant h id
  end.

Definition resume_client (out : chan_ref) (k : conn_ref) (c : client) : client :=
  mkClient (c_id c) out k (c_token c) false (wrap 64 (c_gen c + 1)) None (c_evicting c).

Definition handleResume (h : hub) (id : ParticipantID) (token : bytes) (k : conn_ref) :
    hub * resumeReply :=
  let rejected :=
    (bump h add_Errors,
     mkResumeReply false ErrCodeResumeRejected "cannot resume session" None 0) in
  match h_clients h !! id with
  | None => rejected
  | Some c =>
      if bool_decide (c_token c ≠ token) then rejected
      else
        match Encode MsgJoinResult
                (mkJoinResult true "" id (peersExcept h id) (h_host h) (c_token c)) with
        | Err _ => (h, mkResumeReply false ErrCodeBadFrame "encode reply" None 0)
        | Ok jr =>
            let h := stop_timer h c in
            let '(h, buffered, out) :=
              if c_held c then
                let '(h, buffered) := drainChan h (c_out c) in (h, buffered, c_out c)
              else
                let h := kick h (c_kick c) in
                let '(h, out) := make_chan h in (h, [], out) in
            let h := upd_client h id (λ _, resume_client out k c) in
            let h := chan_put h out
              (chan_send_all sendBuffer (chan_get h out ++ [jr]) buffered) in
            let h := bump h add_Resumes in
            (h, mkResumeReply true 0 "" (Some out) (wrap 64 (c_gen c + 1)))
        end
  end.

Definition route (h : hub) (from : ParticipantID) (typ : MsgType) (raw : bytes) : hub :=
  let h := bump h (add_Forwarded (N.of_nat (length raw))) in
  if bool_decide (typ = MsgDirect) then
    match Body Direct raw with
    | Err _ =>
        sendTo (bump h add_Errors) from MsgError (mkError ErrCodeBadFrame "bad direct frame")
    | Ok d =>
        let d := mkDirect (d_To d) from (d_Payload d) in
        match h_clients h !! d_To d with
        | None =>
            sendTo (bump h add_Errors) from MsgError (mkError ErrCodeUnknownPeer "unknown peer")
        | Some _ => sendTo h (d_To d) MsgDirect d
        end
    end
  else if bool_decide (typ = MsgBroadcast) then
    match Body Broadcast raw with
    | Err _ =>
        sendTo (bump h add_Errors) from MsgError (mkError ErrCodeBadFrame "bad broadcast frame")
    | Ok b => broadcastFrame h MsgBroadcast (mkBroadcast from (b_Payload b)) from
    end
  else h.

Definition handleStats (h : hub) : hubStats :=
  mkHubStats (size (h_clients h)) (h_host h) (h_nextID h)
    ((λ p, mkClientStat (c_id p.2) (c_held p.2) (c_gen p.2)) <$> range (h_clients h)).

(** ** The run loop *)

(** [drainEvictions]: pop, tear down, repeat; [None] means the fuel ran out. *)
Fixpoint drain (fuel : nat) (h : hub) : option (hub * bool) :=
  match h_evict h with
  | [] => Some (h, false)
  | id :: rest =>
      match fuel with
      | O => None
      | S fuel =>
          let '(h, stop) := removeParticipant (set_evict h rest) id in
          if stop : bool then Some (h, true) else drain fuel h
      end
  end.

(** Each round pops one queued participant, and a participant is queued at most
    once, when its flag goes up. *)
Definition drain_fuel (h : hub) : nat :=
  length (h_evict h) + size (filter (λ p, c_evicting p.2 = false) (h_clients h)).

Definition drainEvictions (h : hub) : hub * bool :=
  default (h, false) (drain (drain_fuel h) h).

Definition handle_cmd (h : hub) (c : cmd) : hub * option reply * bool :=
  match c with
  | joinCmd out k isCreate =>
      let '(h, r) := handleJoin h out k isCreate in (h, Some (RJoin r), false)
  | leaveCmd id gen u => let '(h, stop) := handleLeave h id gen u in (h, None, stop)
  | resumeCmd id token k =>
      let '(h, r) := handleResume h id token k in (h, Some (RResume r), false)
  | graceExpiredCmd id gen => let '(h, stop) := handleGraceExpired h id gen in (h, None, stop)
  | claimHostCmd id => (handleClaimHost h id, None, false)
  | frameCmd from typ raw => (route h from typ raw, None, false)
  | statsCmd => (h, Some (RStats (handleStats h)), false)
  | closeCmd reason => (handleClose h reason, None, true)
  end.

(** One iteration of [run]: the command, then the evictions it caused. *)
Definition run_iter (h : hub) (c : cmd) : hub * option reply * bool :=
  let '(h, r, stop) := handle_cmd h c in
  if stop : bool then (h, r, true)
  else let '(h, stop) := drainEvictions h in (h, r, stop).

(** [shutdown]: stop the timers, kick every connection left, close [done]. *)
Definition shutdown (h : hub) : hub :=
  let h := foldl (λ h p, kick (stop_timer h p.2) (c_kick p.2)) h (range (h_clients h)) in
  set_done h true.

(** [run] on the commands waiting in the inbox: the final hub, the replies sent
    and the commands left in the inbox when the goroutine returned. *)
Fixpoint run (h : hub) (inbox : list cmd) : hub * list (option reply) * list cmd :=
  match inbox with
  | [] => (h, [], [])
  | c :: inbox =>
      let '(h, r, stop) := run_iter h c in
      if stop : bool then (shutdown h, [r], inbox)
      else let '(h, rs, rest) := run h inbox in (h, r :: rs, rest)
  end.
End Hub.
