(* ===== verification/HubInv.v ===== *)
(** * The hub's invariant

    The well-formedness of a hub and its preservation by every handler, by the
    eviction loop and by the writers that drain the channels; the slot view,
    in which queueing a frame changes one participant's slot and no other. *)
From S2P Require Import Prelude Wire Hub.

Open Scope N_scope.

(** ** The invariant *)

Record hub_inv (h : hub) : Prop := {
  inv_key : ∀ id c, h_clients h !! id = Some c → c_id c = id;
  inv_out : ∀ id c, h_clients h !! id = Some c →
    ∃ q, ev_chans (h_env h) !! c_out c = Some q ∧ (length q ≤ sendBuffer)%nat;
  inv_out_inj : ∀ i j c d, h_clients h !! i = Some c → h_clients h !! j = Some d →
    c_out c = c_out d → i = j;
  inv_size : (Z.of_nat (size (h_clients h)) ≤ h_max h)%Z;
  inv_next : 1 ≤ h_nextID h;
  inv_ids : ∀ id c, h_clients h !! id = Some c → 1 ≤ id < h_nextID h;
  inv_evict : ∀ id, id ∈ h_evict h ↔
    ∃ c, h_clients h !! id = Some c ∧ c_evicting c = true;
  inv_evict_nodup : NoDup (h_evict h);
  inv_timer : ∀ id c, h_clients h !! id = Some c →
    c_timer c = if c_held c then Some (id, c_gen c) else None;
  inv_armed : ∀ t, t ∈ h_armed h →
    ∃ c, h_clients h !! t.1 = Some c ∧ c_timer c = Some t;
  inv_token : ∀ id c, h_clients h !! id = Some c → length (c_token c) = resumeTokenLen
}.

(** A participant's slot: the client record and the frames buffered for it. *)
Definition slot (h : hub) (id : ParticipantID) : option (client * list bytes) :=
  c ← h_clients h !! id; Some (c, chan_get h (c_out c)).

(** What queueing a frame does to one slot. *)
Definition queue_slot (frame : bytes) (s : client * list bytes) : client * list bytes :=
  let '(c, q) := s in
  if c_evicting c then (c, q)
  else if bool_decide (length q < sendBuffer)%nat then (c, q ++ [frame])
  else (mark_evicting c, q).

Lemma chan_get_lookup h ch q : ev_chans (h_env h) !! ch = Some q → chan_get h ch = q.
Proof. unfold chan_get. by intros ->. Qed.

Lemma chan_get_put_eq h ch q : chan_get (chan_put h ch q) ch = q.
Proof. unfold chan_get. simpl. by rewrite lookup_insert_eq. Qed.

Lemma chan_get_put_ne h ch ch' q : ch ≠ ch' → chan_get (chan_put h ch q) ch' = chan_get h ch'.
Proof. intros. unfold chan_get. simpl. by rewrite lookup_insert_ne. Qed.

Lemma slot_Some h id c q :
  slot h id = Some (c, q) ↔ h_clients h !! id = Some c ∧ chan_get h (c_out c) = q.
Proof. unfold slot. destruct (h_clients h !! id); naive_solver. Qed.

Lemma slot_None h id : slot h id = None ↔ h_clients h !! id = None.
Proof. unfold slot. destruct (h_clients h !! id); naive_solver. Qed.

#[export] Hint Rewrite chan_get_put_eq : parley.

(** ** Queueing one frame *)

(** The two ways [queue] changes a hub: the frame fits, or the participant is
    marked and queued for eviction. *)
Definition queue_fit (h : hub) (c : client) (frame : bytes) : hub :=
  chan_put h (c_out c) (chan_get h (c_out c) ++ [frame]).

Definition queue_overflow (h : hub) (id : ParticipantID) (c : client) : hub :=
  let h := upd_client h id mark_evicting in
  let h := if c_held c then h else kick h (c_kick c) in
  set_evict h (h_evict h ++ [c_id c]).

Lemma queue_cases h id frame :
  (queue h id frame = h ∧
     ∀ c, h_clients h !! id = Some c → c_evicting c = true) ∨
  (∃ c, h_clients h !! id = Some c ∧ c_evicting c = false ∧
     (length (chan_get h (c_out c)) < sendBuffer)%nat ∧
     queue h id frame = queue_fit h c frame) ∨
  (∃ c, h_clients h !! id = Some c ∧ c_evicting c = false ∧
     (sendBuffer ≤ length (chan_get h (c_out c)))%nat ∧
     queue h id frame = queue_overflow h id c).
Proof.
  unfold queue. destruct (h_clients h !! id) as [c|]; [|naive_solver].
  destruct (c_evicting c) eqn:E; [naive_solver|]. right.
  destruct (chan_try_send _ _ _) as [q|] eqn:Es.
  - apply chan_try_send_Some in Es as [? ->]. left. eauto 10.
  - apply chan_try_send_None in Es. right. eauto 10.
Qed.

(** Everything about a hub that queueing leaves alone. *)
Definition same_session (h h' : hub) : Prop :=
  h_id h' = h_id h ∧ h_max h' = h_max h ∧ h_grace h' = h_grace h ∧
  h_created h' = h_created h ∧ h_nextID h' = h_nextID h ∧ h_host h' = h_host h ∧
  h_armed h' = h_armed h ∧ h_done h' = h_done h ∧
  ev_metrics (h_env h') = ev_metrics (h_env h) ∧ ev_draws (h_env h') = ev_draws (h_env h) ∧
  dom (h_clients h') = dom (h_clients h) ∧ ev_kicked (h_env h) ⊆ ev_kicked (h_env h') ∧
  dom (ev_chans (h_env h)) ⊆ dom (ev_chans (h_env h')).

#[global] Instance same_session_refl : Reflexive same_session.
Proof. intros h. by split_and!. Qed.

#[global] Instance same_session_trans : Transitive same_session.
Proof.
  intros h1 h2 h3. unfold same_session. intros. destruct_and!.
  split_and!; first [congruence | by etrans].
Qed.

Lemma queue_same_session h id frame : same_session h (queue h id frame).
Proof.
  destruct (queue_cases h id frame) as [[-> _]|[(c & Hc & _ & _ & ->)|(c & Hc & _ & _ & ->)]];
    [done| |].
  - split_and!; try done. simpl. rewrite dom_insert_L. set_solver.
  - unfold queue_overflow. destruct (c_held c); split_and!; try done; simpl;
      rewrite ?dom_alter_L; set_solver.
Qed.

(** What a hub is created with and never changes. *)
Definition fixed (h : hub) : SessionID * Z * Z * Z :=
  (h_id h, h_max h, h_grace h, h_created h).

Lemma same_session_fixed h h' : same_session h h' → fixed h' = fixed h.
Proof. unfold same_session, fixed. intros. destruct_and!. congruence. Qed.

Lemma foldl_inv {A B} (P : A → Prop) (f : A → B → A) l a :
  (∀ a b, P a → P (f a b)) → P a → P (foldl f a l).
Proof. intros Hf. revert a. induction l; simpl; auto. Qed.

Section Inv.
Context {WC : WireCodec} {EN : Entropy} {MR : MapRange ParticipantID client}.

(** Queueing changes the slot it names, as [queue_slot] says, and no other. *)
Lemma slot_queue h k frame id :
  hub_inv h →
  slot (queue h k frame) id =
    if bool_decide (id = k) then queue_slot frame <$> slot h k else slot h id.
Proof.
  intros Hinv.
  destruct (queue_cases h k frame)
    as [[-> Hev]|[(c & Hc & Hev & Hlen & ->)|(c & Hc & Hev & Hlen & ->)]].
  - case_bool_decide; [subst|done]. unfold slot.
    destruct (h_clients h !! k) as [c|] eqn:Hc; simpl; [|done].
    by rewrite (Hev c).
  - case_bool_decide as Hid.
    + subst. unfold slot. simpl. rewrite Hc. simpl.
      rewrite Hev, bool_decide_eq_true_2 by done.
      unfold queue_fit. by rewrite chan_get_put_eq.
    + unfold slot. simpl. destruct (h_clients h !! id) as [d|] eqn:Hd; simpl; [|done].
      unfold queue_fit. rewrite chan_get_put_ne; [done|].
      intros E. apply Hid. by eapply inv_out_inj.
  - assert (∀ ch, chan_get (queue_overflow h k c) ch = chan_get h ch) as Hch.
    { intros ch. unfold queue_overflow. by destruct (c_held c). }
    assert (h_clients (queue_overflow h k c) = alter mark_evicting k (h_clients h)) as Hcl.
    { unfold queue_overflow. by destruct (c_held c). }
    unfold slot. rewrite Hcl. case_bool_decide as Hid.
    + subst. rewrite lookup_alter_eq, Hc. simpl.
      rewrite Hch, Hev, bool_decide_eq_false_2 by lia. done.
    + rewrite lookup_alter_ne by done. destruct (h_clients h !! id); simpl; [|done].
      by rewrite Hch.
Qed.

(** The invariant looks at these fields only. *)
Lemma hub_inv_fields h h' :
  h_clients h' = h_clients h → ev_chans (h_env h') = ev_chans (h_env h) →
  h_max h' = h_max h → h_nextID h' = h_nextID h → h_evict h' = h_evict h →
  h_armed h' = h_armed h → hub_inv h → hub_inv h'.
Proof. intros E1 E2 E3 E4 E5 E6 []. by split; rewrite ?E1, ?E2, ?E3, ?E4, ?E5, ?E6. Qed.

Lemma kick_inv h k : hub_inv h → hub_inv (kick h k).
Proof. by apply hub_inv_fields. Qed.

Lemma bump_inv h f : hub_inv h → hub_inv (bump h f).
Proof. by apply hub_inv_fields. Qed.

Lemma set_host_inv h id : hub_inv h → hub_inv (set_host h id).
Proof. by apply hub_inv_fields. Qed.

Lemma newToken_inv h : hub_inv h → hub_inv (newToken h).1.
Proof. by apply hub_inv_fields. Qed.

(** Replacing a channel's buffer, or adding a channel, within the capacity. *)
Lemma chan_put_inv_owned h ch q :
  (∀ id c, h_clients h !! id = Some c → c_out c = ch → (length q ≤ sendBuffer)%nat) →
  hub_inv h → hub_inv (chan_put h ch q).
Proof.
  intros Hq []. split; simpl; try done. intros id c Hc.
  destruct (decide (ch = c_out c)) as [->|].
  - rewrite lookup_insert_eq. eauto.
  - rewrite lookup_insert_ne by done. eauto.
Qed.

Lemma chan_put_inv h ch q :
  (length q ≤ sendBuffer)%nat → hub_inv h → hub_inv (chan_put h ch q).
Proof. intros Hq. by apply chan_put_inv_owned. Qed.

Lemma queue_overflow_inv h id c :
  h_clients h !! id = Some c → c_evicting c = false → hub_inv h →
  hub_inv (queue_overflow h id c).
Proof.
  intros Hc Hev Hinv.
  assert (hub_inv (set_evict (upd_client h id mark_evicting) (h_evict h ++ [id]))) as H'.
  { destruct Hinv.
    assert (∀ i d, alter mark_evicting id (h_clients h) !! i = Some d →
      ∃ d0, h_clients h !! i = Some d0 ∧
        d = if bool_decide (i = id) then mark_evicting d0 else d0) as Hl.
    { intros i d. rewrite lookup_alter. case_decide as Hi.
      - subst. rewrite bool_decide_eq_true_2 by done.
        intros (d0 & ? & ?)%fmap_Some. eauto.
      - intros. exists d. split; [done|]. by rewrite bool_decide_eq_false_2. }
    split; simpl; try done.
    - intros i d (d0 & Hd & ->)%Hl. case_bool_decide; simpl; eauto.
    - intros i d (d0 & Hd & ->)%Hl. case_bool_decide; simpl; eauto.
    - intros i j d e (d0 & Hd & ->)%Hl (e0 & He & ->)%Hl.
      repeat case_bool_decide; simpl; eauto.
    - by rewrite <- size_dom, dom_alter_L, size_dom.
    - intros i d (d0 & Hd & ->)%Hl. eauto.
    - intros i. rewrite elem_of_app, list_elem_of_singleton, inv_evict0.
      rewrite lookup_alter. case_decide as Hi; [subst|naive_solver].
      rewrite Hc. simpl. split; [|by right].
      intros _. exists (mark_evicting c). done.
    - apply NoDup_app. split_and!; [done| |apply NoDup_singleton].
      intros i Hi ->%list_elem_of_singleton. apply inv_evict0 in Hi as (d & Hd & He).
      congruence.
    - intros i d (d0 & Hd & ->)%Hl. case_bool_decide; simpl; by apply inv_timer0.
    - intros t (d & Hd & Ht)%inv_armed0. rewrite lookup_alter. case_decide as Hi.
      + rewrite Hi, Hd. exists (mark_evicting d). done.
      + eauto.
    - intros i d (d0 & Hd & ->)%Hl. case_bool_decide; simpl; eauto. }
  unfold queue_overflow. destruct Hinv.
  rewrite (inv_key0 _ _ Hc). by destruct (c_held c); eapply hub_inv_fields, H'.
Qed.

Lemma queue_inv h id frame : hub_inv h → hub_inv (queue h id frame).
Proof.
  intros Hinv. destruct (queue_cases h id frame)
    as [[-> _]|[(c & Hc & Hev & Hlen & ->)|(c & Hc & Hev & Hlen & ->)]]; [done| |].
  - apply chan_put_inv; [|done]. rewrite length_app. simpl. lia.
  - by apply queue_overflow_inv.
Qed.

Lemma sendTo_inv `{Cbor T} h id t (body : T) : hub_inv h → hub_inv (sendTo h id t body).
Proof.
  intros. unfold sendTo. destruct (h_clients h !! id); [|done].
  destruct (Encode t body); [by apply queue_inv|done].
Qed.

Lemma queue_except_inv x frame h p : hub_inv h → hub_inv (queue_except x frame h p).
Proof. intros. unfold queue_except. case_bool_decide; [done|by apply queue_inv]. Qed.

Lemma broadcastFrame_inv `{Cbor T} h t (body : T) x :
  hub_inv h → hub_inv (broadcastFrame h t body x).
Proof.
  intros. unfold broadcastFrame. destruct (Encode t body); [|done].
  apply foldl_inv; [|done]. intros. by apply queue_except_inv.
Qed.

#[local] Hint Resolve kick_inv bump_inv set_host_inv newToken_inv queue_inv sendTo_inv
  broadcastFrame_inv : parley.

(** ** Fan-out *)

Lemma slot_foldl_queue x frame l h id :
  hub_inv h → NoDup l.*1 →
  slot (foldl (queue_except x frame) h l) id =
    if bool_decide (id ∈ l.*1 ∧ id ≠ x) then queue_slot frame <$> slot h id else slot h id.
Proof.
  revert h. induction l as [|[k c] l IH]; intros h Hinv Hnd; cbn [foldl fmap list_fmap].
  - by rewrite bool_decide_eq_false_2 by set_solver.
  - apply NoDup_cons in Hnd as [Hk Hnd]. simpl in Hk.
    rewrite IH by (by try apply queue_except_inv). clear IH.
    unfold queue_except. simpl. destruct (decide (id = k)) as [->|Hid].
    + rewrite (bool_decide_eq_false_2 (k ∈ l.*1 ∧ k ≠ x)) by tauto.
      case_bool_decide as Hx.
      * rewrite bool_decide_eq_false_2 by (intros [_ ?]; done). done.
      * rewrite slot_queue, (bool_decide_eq_true_2 (k = k)) by done.
        rewrite bool_decide_eq_true_2; [done|]. split; [by left|done].
    + assert (slot (if bool_decide (k = x) then h else queue h k frame) id = slot h id) as ->.
      { case_bool_decide; [done|]. by rewrite slot_queue, bool_decide_eq_false_2. }
      rewrite (bool_decide_ext (id ∈ l.*1 ∧ id ≠ x) (id ∈ k :: l.*1 ∧ id ≠ x)); [done|].
      rewrite elem_of_cons. tauto.
Qed.

(** A broadcast reaches every slot but the excepted one, once. *)
Lemma slot_broadcastFrame `{Cbor T} h t (body : T) x frame id :
  hub_inv h → Encode t body = Ok frame →
  slot (broadcastFrame h t body x) id =
    if bool_decide (id = x) then slot h id else queue_slot frame <$> slot h id.
Proof.
  intros Hinv He. unfold broadcastFrame. rewrite He.
  rewrite slot_foldl_queue by auto using NoDup_range_fst.
  rewrite (bool_decide_ext (id ∈ (range (h_clients h)).*1 ∧ id ≠ x)
             (is_Some (h_clients h !! id) ∧ id ≠ x)) by (by rewrite elem_of_range_fst).
  repeat case_bool_decide; try naive_solver.
  destruct (slot h id) as [[c q]|] eqn:Hs; [|done].
  apply slot_Some in Hs as [Hs _]. naive_solver.
Qed.

Lemma broadcastFrame_same_session `{Cbor T} h t (body : T) x :
  same_session h (broadcastFrame h t body x).
Proof.
  unfold broadcastFrame. destruct (Encode t body) as [frame|]; [|done].
  apply foldl_inv; [|done]. intros h' p Hs. unfold queue_except.
  case_bool_decide; [done|]. etrans; [done|]. apply queue_same_session.
Qed.

Lemma sendTo_same_session `{Cbor T} h id t (body : T) :
  same_session h (sendTo h id t body).
Proof.
  unfold sendTo. destruct (h_clients h !! id); [|done].
  destruct (Encode t body); [apply queue_same_session|done].
Qed.

(** ** Replacing and removing one participant *)

Lemma replace_client_inv h id c c' armed' :
  hub_inv h → h_clients h !! id = Some c →
  c_id c' = id → c_evicting c' = c_evicting c → length (c_token c') = resumeTokenLen →
  c_timer c' = (if c_held c' then Some (id, c_gen c') else None) →
  (∃ q, ev_chans (h_env h) !! c_out c' = Some q ∧ (length q ≤ sendBuffer)%nat) →
  (∀ j d, j ≠ id → h_clients h !! j = Some d → c_out d ≠ c_out c') →
  (∀ t, t ∈ armed' → (t ∈ h_armed h ∧ t.1 ≠ id) ∨ (c_timer c' = Some t ∧ t.1 = id)) →
  hub_inv (set_armed (upd_client h id (λ _, c')) armed').
Proof.
  intros [] Hc Hid Hev Htok Htim Hout Hne Harm.
  assert (alter (λ _, c') id (h_clients h) = <[id := c']> (h_clients h)) as Halt.
  { apply map_eq. intros i. rewrite lookup_alter, lookup_insert.
    case_decide; [subst; by rewrite Hc|done]. }
  split; unfold set_armed, upd_client; cbn [h_clients h_env h_max h_nextID h_evict h_armed set_clients];
    rewrite ?Halt; try done.
  - intros i d [[<- <-]|[? ?]]%lookup_insert_Some; eauto.
  - intros i d [[<- <-]|[? ?]]%lookup_insert_Some; eauto.
  - intros i j d e [[<- <-]|[? ?]]%lookup_insert_Some [[<- <-]|[? ?]]%lookup_insert_Some;
      intros Heq; eauto; exfalso; eapply Hne; eauto.
  - rewrite map_size_insert_Some by eauto. done.
  - intros i d [[<- <-]|[? ?]]%lookup_insert_Some; eauto.
  - intros i. rewrite inv_evict0, lookup_insert. case_decide; [subst|done].
    split; intros (d & ? & ?); simplify_eq; eauto with congruence.
  - intros i d [[<- <-]|[? ?]]%lookup_insert_Some; eauto.
  - intros t [[Ht Hn]|[Ht Hi]]%Harm.
    + apply inv_armed0 in Ht as (d & ? & ?). exists d. by rewrite lookup_insert_ne.
    + exists c'. by rewrite Hi, lookup_insert_eq.
  - intros i d [[<- <-]|[? ?]]%lookup_insert_Some; eauto.
Qed.

Lemma stop_timer_armed h id c t :
  hub_inv h → h_clients h !! id = Some c → t ∈ h_armed (stop_timer h c) →
  t ∈ h_armed h ∧ t.1 ≠ id.
Proof.
  intros [] Hc Ht. assert (t ∈ h_armed h) as Hin.
  { unfold stop_timer in Ht. destruct (c_timer c); simpl in Ht; set_solver. }
  split; [done|]. intros <-. apply inv_armed0 in Hin as (d & Hd & Htd). simplify_eq.
  unfold stop_timer in Ht. rewrite Htd in Ht. simpl in Ht. set_solver.
Qed.

Definition drop_client (h : hub) (id : ParticipantID) (c : client) : hub :=
  let h := stop_timer h c in
  kick (set_clients h (delete id (h_clients h))) (c_kick c).

Arguments drop_client : simpl never.
Arguments stop_timer : simpl never.

Lemma drop_client_fields h id c :
  h_clients (drop_client h id c) = delete id (h_clients h) ∧
  ev_chans (h_env (drop_client h id c)) = ev_chans (h_env h) ∧
  h_max (drop_client h id c) = h_max h ∧ h_nextID (drop_client h id c) = h_nextID h ∧
  h_evict (drop_client h id c) = h_evict h ∧ h_host (drop_client h id c) = h_host h ∧
  h_armed (drop_client h id c) = h_armed (stop_timer h c) ∧
  h_grace (drop_client h id c) = h_grace h.
Proof. unfold drop_client, stop_timer. by destruct (c_timer c). Qed.

Lemma drop_client_inv h id c :
  hub_inv h → h_clients h !! id = Some c →
  hub_inv (drop_client (set_evict h (filter (λ i, i ≠ id) (h_evict h))) id c).
Proof.
  intros Hinv Hc. pose proof (λ t, stop_timer_armed h id c t Hinv Hc) as Harm.
  remember (set_evict h (filter (λ i, i ≠ id) (h_evict h))) as h1 eqn:Hh1.
  assert (h_clients h1 = h_clients h ∧ ev_chans (h_env h1) = ev_chans (h_env h) ∧
    h_max h1 = h_max h ∧ h_nextID h1 = h_nextID h ∧
    h_evict h1 = filter (λ i, i ≠ id) (h_evict h) ∧
    h_armed (stop_timer h1 c) = h_armed (stop_timer h c)) as (F1 & F2 & F3 & F4 & F5 & F6).
  { subst h1. unfold stop_timer. by destruct (c_timer c). }
  destruct (drop_client_fields h1 id c) as (E1 & E2 & E3 & E4 & E5 & _ & E6 & _).
  rewrite F1 in E1. rewrite F2 in E2. rewrite F3 in E3. rewrite F4 in E4.
  rewrite F5 in E5. rewrite F6 in E6. clear Hh1 F1 F2 F3 F4 F5 F6. destruct Hinv.
  split; rewrite ?E1, ?E2, ?E3, ?E4, ?E5, ?E6; try done.
  - intros i d [? ?]%lookup_delete_Some; eauto.
  - intros i d [? ?]%lookup_delete_Some; eauto.
  - intros i j d e [? ?]%lookup_delete_Some [? ?]%lookup_delete_Some. eauto.
  - rewrite map_size_delete_Some by eauto. lia.
  - intros i d [? ?]%lookup_delete_Some; eauto.
  - intros i. rewrite list_elem_of_filter, inv_evict0, lookup_delete.
    case_decide; naive_solver.
  - by apply NoDup_filter.
  - intros i d [? ?]%lookup_delete_Some; eauto.
  - intros t [Ht Hne]%Harm. apply inv_armed0 in Ht as (d & ? & ?).
    exists d. by rewrite lookup_delete_ne.
  - intros i d [? ?]%lookup_delete_Some; eauto.
Qed.

Lemma removeParticipant_eq h id c :
  h_clients h !! id = Some c →
  removeParticipant h id =
    if bool_decide (size (delete id (h_clients h)) = 0%nat) then (drop_client h id c, true)
    else (broadcastFrame (drop_client h id c) MsgParticipantLeft (mkParticipantLeft id) 0, false).
Proof.
  intros Hc. unfold removeParticipant. rewrite Hc. fold (drop_client h id c).
  destruct (drop_client_fields h id c) as [-> _]. done.
Qed.

Lemma evict_absent h id :
  hub_inv h → h_clients h !! id = None → filter (λ i, i ≠ id) (h_evict h) = h_evict h.
Proof.
  intros [] Hc. apply filter_all, Forall_forall.
  intros i (c & ? & _)%inv_evict0 ->. congruence.
Qed.

Lemma set_evict_id h : set_evict h (h_evict h) = h.
Proof. by destruct h. Qed.

Lemma removeParticipant_inv h id :
  hub_inv h →
  hub_inv (removeParticipant (set_evict h (filter (λ i, i ≠ id) (h_evict h))) id).1.
Proof.
  intros Hinv. destruct (h_clients h !! id) as [c|] eqn:Hc.
  - rewrite (removeParticipant_eq _ _ c) by done.
    case_bool_decide; simpl; [|apply broadcastFrame_inv]; by apply drop_client_inv.
  - unfold removeParticipant. simpl. rewrite Hc. simpl.
    by rewrite evict_absent, set_evict_id.
Qed.

(** ** The eviction loop *)

Definition live_count (m : gmap ParticipantID client) : nat :=
  size (filter (λ p, c_evicting p.2 = false) m).

Lemma live_count_mark m id c :
  m !! id = Some c → c_evicting c = false →
  live_count m = S (live_count (alter mark_evicting id m)).
Proof.
  intros Hc Hev. unfold live_count.
  assert (filter (λ p, c_evicting p.2 = false) (alter mark_evicting id m)
    = delete id (filter (λ p, c_evicting p.2 = false) m)) as ->.
  { apply map_eq. intros i. apply option_eq. intros d.
    rewrite lookup_delete_Some, !map_lookup_filter_Some, lookup_alter.
    case_decide as Hi; [subst; rewrite Hc|]; naive_solver. }
  rewrite map_size_delete_Some.
  - assert (size (filter (λ p, c_evicting p.2 = false) m) ≠ 0%nat) as Hne; [|lia].
    rewrite map_size_ne_0_lookup. exists id, c. by apply map_lookup_filter_Some.
  - exists c. by apply map_lookup_filter_Some.
Qed.

Lemma live_count_delete m id : (live_count (delete id m) ≤ live_count m)%nat.
Proof.
  unfold live_count. rewrite map_filter_delete, map_size_delete. destruct (_ !! id); simpl; lia.
Qed.

Lemma drain_fuel_queue h id frame : drain_fuel (queue h id frame) = drain_fuel h.
Proof.
  destruct (queue_cases h id frame)
    as [[-> _]|[(c & Hc & Hev & _ & ->)|(c & Hc & Hev & _ & ->)]]; [done..|].
  unfold drain_fuel. fold (live_count (h_clients h)).
  rewrite (live_count_mark _ id c) by done.
  unfold queue_overflow, live_count. destruct (c_held c); simpl; rewrite length_app; simpl; lia.
Qed.

Lemma drain_fuel_broadcast `{Cbor T} h t (body : T) x :
  drain_fuel (broadcastFrame h t body x) = drain_fuel h.
Proof.
  unfold broadcastFrame. destruct (Encode t body); [|done].
  apply (foldl_inv (λ h', drain_fuel h' = drain_fuel h)); [|done].
  intros h' p <-. unfold queue_except. case_bool_decide; [done|]. apply drain_fuel_queue.
Qed.

Lemma drain_fuel_remove h id : (drain_fuel (removeParticipant h id).1 ≤ drain_fuel h)%nat.
Proof.
  destruct (h_clients h !! id) as [c|] eqn:Hc.
  - rewrite (removeParticipant_eq _ _ c) by done.
    assert (drain_fuel (drop_client h id c) ≤ drain_fuel h)%nat.
    { unfold drain_fuel. destruct (drop_client_fields h id c) as (-> & _ & _ & _ & -> & _).
      pose proof (live_count_delete (h_clients h) id). unfold live_count in *. lia. }
    case_bool_decide; simpl; by rewrite ?drain_fuel_broadcast.
  - unfold removeParticipant. by rewrite Hc.
Qed.

(** The loop terminates: the fuel [drainEvictions] uses is enough. *)
Lemma drain_total fuel h : (drain_fuel h ≤ fuel)%nat → is_Some (drain fuel h).
Proof.
  revert h. induction fuel as [|fuel IH]; intros h Hf; destruct (h_evict h) as [|id rest] eqn:E;
    cbn [drain]; rewrite E; try by eexists.
  - unfold drain_fuel in Hf. rewrite E in Hf. simpl in Hf. lia.
  - pose proof (drain_fuel_remove (set_evict h rest) id) as Hle.
    destruct (removeParticipant (set_evict h rest) id) as [h' stop]. simpl in Hle.
    destruct stop; [by eexists|]. apply IH.
    unfold drain_fuel in *. rewrite E in Hf. simpl in *. lia.
Qed.

Lemma drainEvictions_drain h : drain (drain_fuel h) h = Some (drainEvictions h).
Proof.
  unfold drainEvictions. by destruct (drain_total (drain_fuel h) h) as [r ->].
Qed.

Lemma removeParticipant_true h id h' :
  removeParticipant h id = (h', true) → h_clients h' = ∅ ∧ is_Some (h_clients h !! id).
Proof.
  destruct (h_clients h !! id) as [c|] eqn:Hc.
  - rewrite (removeParticipant_eq _ _ c) by done. case_bool_decide as Hs; [|done].
    intros [= <-]. destruct (drop_client_fields h id c) as [-> _].
    split; [|by eexists]. by apply map_size_empty_iff.
  - unfold removeParticipant. by rewrite Hc.
Qed.

(** The pop of [drainEvictions] is the removal of [id] from the pending list. *)
Lemma evict_pop h id rest :
  hub_inv h → h_evict h = id :: rest → filter (λ i, i ≠ id) (h_evict h) = rest.
Proof.
  intros [] E. rewrite E in *. rewrite filter_cons_False by naive_solver.
  apply filter_all, Forall_forall. intros i Hi ->. by apply NoDup_cons in inv_evict_nodup0 as [? _].
Qed.

Lemma drain_inv fuel h h' stop :
  hub_inv h → drain fuel h = Some (h', stop) →
  hub_inv h' ∧ (if stop : bool then h_clients h' = ∅ else h_evict h' = []).
Proof.
  revert h. induction fuel as [|fuel IH]; intros h Hinv; cbn [drain];
    destruct (h_evict h) as [|id rest] eqn:E; try done.
  1,2: by intros [= <- <-].
  pose proof (removeParticipant_inv h id Hinv) as Hr. rewrite (evict_pop h id rest Hinv E) in Hr.
  destruct (removeParticipant (set_evict h rest) id) as [h1 []] eqn:Er; simpl in Hr.
  - intros [= <- <-]. split; [done|]. by apply removeParticipant_true in Er as [? _].
  - by apply IH.
Qed.

Lemma drainEvictions_inv h :
  hub_inv h →
  hub_inv (drainEvictions h).1 ∧
  (if (drainEvictions h).2 then h_clients (drainEvictions h).1 = ∅
   else h_evict (drainEvictions h).1 = []).
Proof.
  intros Hinv. pose proof (drainEvictions_drain h) as Hd.
  destruct (drainEvictions h) as [h' stop]. by apply drain_inv in Hd.
Qed.

(** ** The handlers *)

Lemma make_chan_fresh h : ev_chans (h_env h) !! (make_chan h).2 = None.
Proof. simpl. apply not_elem_of_dom, is_fresh. Qed.

Lemma make_chan_inv h : hub_inv h → hub_inv (make_chan h).1.
Proof. apply chan_put_inv. simpl. lia. Qed.

Lemma out_not_fresh h id c ch :
  hub_inv h → h_clients h !! id = Some c → ev_chans (h_env h) !! ch = None → c_out c ≠ ch.
Proof. intros Hinv Hc Hch <-. destruct (inv_out h Hinv _ _ Hc) as (q & Hq & _). congruence. Qed.

Lemma holdSlot_inv h id c :
  hub_inv h → h_clients h !! id = Some c → c_held c = false → hub_inv (holdSlot h id c).
Proof.
  intros Hinv Hc Hh. unfold holdSlot.
  pose proof (make_chan_inv h Hinv) as Hi. pose proof (make_chan_fresh h) as Hf.
  destruct (make_chan h) as [h1 out] eqn:E. simpl in Hi, Hf.
  assert (h_clients h1 = h_clients h ∧ h_armed h1 = h_armed h ∧
    ev_chans (h_env h1) !! out = Some []) as (E1 & E2 & E3).
  { injection E as <- <-. simpl. by rewrite lookup_insert_eq. }
  pose proof (inv_key h Hinv _ _ Hc) as Hid.
  apply (replace_client_inv h1 id c); try done.
  - by rewrite E1.
  - by apply (inv_token h Hinv id c).
  - simpl. by rewrite Hid.
  - exists []. split; [done|simpl; lia].
  - intros j d _ Hd. rewrite E1 in Hd. by apply (out_not_fresh h j).
  - intros t [->%elem_of_singleton|Ht]%elem_of_union; simpl; [by right; rewrite Hid|].
    left. split; [done|]. intros Htid. simpl in Ht; rewrite E2 in Ht.
    apply (inv_armed h Hinv) in Ht as (d & Hd & Htd). rewrite Htid in Hd. simplify_eq.
    rewrite (inv_timer h Hinv _ _ Hc), Hh in Htd. done.
Qed.

(** Removing a participant that is not waiting for eviction. *)
Lemma removeParticipant_inv_idle h id :
  hub_inv h → h_evict h = [] → hub_inv (removeParticipant h id).1.
Proof.
  intros Hinv He. pose proof (removeParticipant_inv h id Hinv) as H'.
  rewrite (filter_all _ (h_evict h)), set_evict_id in H' by (by rewrite He). done.
Qed.

Lemma handleLeave_inv h id gen u :
  hub_inv h → h_evict h = [] → hub_inv (handleLeave h id gen u).1.
Proof.
  intros Hinv He. unfold handleLeave. destruct (h_clients h !! id) as [c|] eqn:Hc; [|done].
  destruct (c_held c) eqn:Hh; simpl; [done|]. case_bool_decide; [done|].
  destruct (u && _); [|by apply removeParticipant_inv_idle]. by apply holdSlot_inv.
Qed.

Lemma handleGraceExpired_inv h id gen :
  hub_inv h → h_evict h = [] → hub_inv (handleGraceExpired h id gen).1.
Proof.
  intros Hinv He. unfold handleGraceExpired.
  destruct (h_clients h !! id) as [c|] eqn:Hc; [|done].
  destruct (negb (c_held c) || _); [done|]. by apply removeParticipant_inv_idle.
Qed.

Lemma handleClaimHost_inv h id : hub_inv h → hub_inv (handleClaimHost h id).
Proof. intros. unfold handleClaimHost. destruct (_ !! _); [by apply set_host_inv|done]. Qed.

Lemma route_inv h from typ raw : hub_inv h → hub_inv (route h from typ raw).
Proof.
  intros Hinv. unfold route. set (h1 := bump h _).
  assert (hub_inv h1) by (by apply bump_inv).
  case_bool_decide; [|case_bool_decide; [|done]].
  - destruct (Body Direct raw); [destruct (_ !! _)|]; auto with parley.
  - destruct (Body Broadcast raw); auto with parley.
Qed.

(** The channel a [joinCmd] brings is fresh: empty and known to no client. *)
Definition fresh_out (h : hub) (out : chan_ref) : Prop :=
  ev_chans (h_env h) !! out = Some [] ∧ map_Forall (λ _ c, c_out c ≠ out) (h_clients h).

Definition cmd_ok (h : hub) (c : cmd) : Prop :=
  match c with joinCmd out _ _ => fresh_out h out | _ => True end.

#[global] Instance cmd_ok_dec h c : Decision (cmd_ok h c).
Proof. destruct c; simpl; unfold fresh_out; apply _. Defined.

Lemma newToken_length h : length (newToken h).2 = resumeTokenLen.
Proof.
  simpl. destruct (rand_read _ _) as [bs|] eqn:E; simpl; [|done].
  by apply rand_read_length in E.
Qed.

Lemma set_nextID_inv h n : h_nextID h ≤ n → hub_inv h → hub_inv (set_nextID h n).
Proof.
  intros Hn []. split; simpl; try done; [lia|].
  intros id c Hc. apply inv_ids0 in Hc. lia.
Qed.

(** Registering a new participant under an identifier not in use. *)
Lemma insert_client_inv h id c :
  hub_inv h → h_clients h !! id = None → 1 ≤ id < h_nextID h →
  (Z.of_nat (size (h_clients h)) < h_max h)%Z →
  c_id c = id → c_evicting c = false → c_held c = false → c_timer c = None →
  length (c_token c) = resumeTokenLen →
  (∃ q, ev_chans (h_env h) !! c_out c = Some q ∧ (length q ≤ sendBuffer)%nat) →
  (∀ j d, h_clients h !! j = Some d → c_out d ≠ c_out c) →
  hub_inv (set_clients h (<[id := c]> (h_clients h))).
Proof.
  intros [] Hn Hid Hmax Hcid Hev Hh Ht Htok Hout Hne. split; simpl; try done.
  - intros i d [[<- <-]|[? ?]]%lookup_insert_Some; eauto.
  - intros i d [[<- <-]|[? ?]]%lookup_insert_Some; eauto.
  - intros i j d e [[<- <-]|[? ?]]%lookup_insert_Some [[<- <-]|[? ?]]%lookup_insert_Some;
      intros Heq; eauto; exfalso; eapply Hne; eauto.
  - rewrite map_size_insert_None by done. lia.
  - intros i d [[<- <-]|[? ?]]%lookup_insert_Some; eauto.
  - intros i. rewrite inv_evict0, lookup_insert. case_decide; [subst|done].
    split; intros (d & ? & ?); simplify_eq; congruence.
  - intros i d [[<- <-]|[? ?]]%lookup_insert_Some; [|eauto]. by rewrite Hh.
  - intros t (d & Hd & Htd)%inv_armed0. exists d. rewrite lookup_insert_ne; [done|]. congruence.
  - intros i d [[<- <-]|[? ?]]%lookup_insert_Some; eauto.
Qed.

(** The hub a successful join broadcasts from: the reply queued, the client
    registered. *)
Definition admit_client (h : hub) (id : ParticipantID) (out : chan_ref) (k : conn_ref)
    (token frame : bytes) : hub :=
  let h := chan_put h out (chan_get h out ++ [frame]) in
  let h := set_clients h (<[id := mkClient id out k token false 1 None false]> (h_clients h)) in
  bump h add_Joins.

(** The state a join reaches before it encodes the reply. *)
Definition join_prep (h : hub) : hub :=
  (newToken (set_nextID h (wrap 32 (h_nextID h + 1)))).1.

Definition join_frame (h : hub) (isCreate : bool) : result wire_error bytes :=
  let id := h_nextID h in
  let token := (newToken h).2 in
  if isCreate then Encode MsgSessionCreated (mkSessionCreated id token)
  else Encode MsgJoinResult (mkJoinResult true "" id (peersExcept h id) (h_host h) token).

Lemma handleJoin_eq h out k isCreate :
  handleJoin h out k isCreate =
    if bool_decide (h_max h ≤ Z.of_nat (size (h_clients h)))%Z then
      (bump h add_Errors, mkJoinReply false ErrCodeSessionFull "session full" 0 0)
    else match join_frame h isCreate with
         | Err _ => (join_prep h, mkJoinReply false ErrCodeBadFrame "encode reply" 0 0)
         | Ok frame =>
             (broadcastFrame (admit_client (join_prep h) (h_nextID h) out k (newToken h).2 frame)
                MsgParticipantJoined (mkParticipantJoined (h_nextID h)) (h_nextID h),
              mkJoinReply true 0 "" (h_nextID h) 1)
         end.
Proof. done. Qed.

Lemma join_prep_inv h :
  hub_inv h → in_width 32 (h_nextID h + 1) → hub_inv (join_prep h).
Proof.
  intros Hinv Hw. apply newToken_inv, set_nextID_inv; [|done].
  rewrite wrap_small by done. lia.
Qed.

Lemma admit_client_inv h id out k token frame :
  hub_inv h → h_clients h !! id = None → 1 ≤ id < h_nextID h →
  (Z.of_nat (size (h_clients h)) < h_max h)%Z → fresh_out h out →
  length token = resumeTokenLen → hub_inv (admit_client h id out k token frame).
Proof.
  intros Hinv Hn Hid Hmax [Hout Hne] Htok. unfold admit_client.
  rewrite (chan_get_lookup _ _ _ Hout). simpl. apply bump_inv.
  apply (insert_client_inv (chan_put h out [frame])); try done; simpl.
  - apply chan_put_inv; [simpl; unfold sendBuffer; lia|done].
  - exists [frame]. rewrite lookup_insert_eq. split; [done|simpl; unfold sendBuffer; lia].
Qed.

Lemma nextID_unused h : hub_inv h → h_clients h !! h_nextID h = None.
Proof.
  intros Hinv. destruct (h_clients h !! h_nextID h) as [c|] eqn:Hc; [|done].
  apply (inv_ids h Hinv) in Hc. lia.
Qed.

Lemma admit_join_inv h out k frame :
  hub_inv h → in_width 32 (h_nextID h + 1) → fresh_out h out →
  (Z.of_nat (size (h_clients h)) < h_max h)%Z →
  hub_inv (admit_client (join_prep h) (h_nextID h) out k (newToken h).2 frame).
Proof.
  intros Hinv Hw Hout Hlt. apply admit_client_inv; try done.
  - by apply join_prep_inv.
  - simpl. by apply nextID_unused.
  - simpl. rewrite wrap_small by done. pose proof (inv_next h Hinv). lia.
  - apply newToken_length.
Qed.

Lemma handleJoin_inv h out k isCreate :
  hub_inv h → fresh_out h out → in_width 32 (h_nextID h + 1) →
  hub_inv (handleJoin h out k isCreate).1.
Proof.
  intros Hinv Hout Hw. rewrite handleJoin_eq. case_bool_decide as Hmax; [by apply bump_inv|].
  destruct (join_frame h isCreate) as [frame|]; [|by apply join_prep_inv].
  apply broadcastFrame_inv, admit_join_inv; try done. lia.
Qed.

(** The hub a successful resume leaves. *)
Definition resume_held (h : hub) (id : ParticipantID) (c : client) (k : conn_ref)
    (jr : bytes) : hub :=
  let h := stop_timer h c in
  let buffered := chan_get h (c_out c) in
  let h := upd_client h id (λ _, resume_client (c_out c) k c) in
  bump (chan_put h (c_out c) (chan_send_all sendBuffer [jr] buffered)) add_Resumes.

Definition resume_live (h : hub) (id : ParticipantID) (c : client) (k : conn_ref)
    (jr : bytes) : hub :=
  let '(h, out) := make_chan (kick h (c_kick c)) in
  let h := upd_client h id (λ _, resume_client out k c) in
  bump (chan_put h out [jr]) add_Resumes.

Lemma resume_held_inv h id c k jr :
  hub_inv h → h_clients h !! id = Some c → hub_inv (resume_held h id c k jr).
Proof.
  intros Hinv Hc. unfold resume_held. cbv zeta. apply bump_inv, chan_put_inv.
  { rewrite chan_send_all_take. simpl. rewrite length_take. unfold sendBuffer. lia. }
  apply (hub_inv_fields (set_armed (upd_client h id (λ _, resume_client (c_out c) k c))
    (h_armed (stop_timer h c)))); try (unfold stop_timer; by destruct (c_timer c)).
  eapply replace_client_inv; try done.
  - by apply (inv_key h Hinv id c).
  - by apply (inv_token h Hinv id c).
  - by apply (inv_out h Hinv id c).
  - intros j d Hj Hd Heq. apply Hj. by eapply (inv_out_inj h Hinv).
  - intros t Ht. left. by eapply stop_timer_armed.
Qed.

Lemma resume_live_inv h id c k jr :
  hub_inv h → h_clients h !! id = Some c → c_held c = false →
  hub_inv (resume_live h id c k jr).
Proof.
  intros Hinv Hc Hh. unfold resume_live. set (h0 := kick h (c_kick c)).
  assert (hub_inv h0) as Hinv0 by (by apply kick_inv).
  pose proof (make_chan_inv h0 Hinv0) as Hi. pose proof (make_chan_fresh h0) as Hf.
  destruct (make_chan h0) as [h1 out] eqn:E. simpl in Hi, Hf.
  assert (h_clients h1 = h_clients h ∧ h_armed h1 = h_armed h ∧
    ev_chans (h_env h1) !! out = Some []) as (E1 & E2 & E3).
  { injection E as <- <-. simpl. by rewrite lookup_insert_eq. }
  cbv zeta. apply bump_inv, chan_put_inv; [simpl; unfold sendBuffer; lia|].
  apply (hub_inv_fields (set_armed (upd_client h1 id (λ _, resume_client out k c))
    (h_armed h1))); try done.
  apply (replace_client_inv h1 id c); try done.
  - by rewrite E1.
  - by apply (inv_key h Hinv id c).
  - by apply (inv_token h Hinv id c).
  - exists []. split; [done|simpl; lia].
  - intros j d Hj Hd. rewrite E1 in Hd. by apply (out_not_fresh h0 j).
  - intros t Ht. left. split; [done|]. intros <-. rewrite E2 in Ht.
    apply (inv_armed h Hinv) in Ht as (d & Hd & Htd). simplify_eq.
    rewrite (inv_timer h Hinv _ _ Hc), Hh in Htd. done.
Qed.

Lemma handleResume_eq h id token k :
  hub_inv h →
  handleResume h id token k =
    match h_clients h !! id with
    | None => (bump h add_Errors,
               mkResumeReply false ErrCodeResumeRejected "cannot resume session" None 0)
    | Some c =>
        if bool_decide (c_token c ≠ token) then
          (bump h add_Errors,
           mkResumeReply false ErrCodeResumeRejected "cannot resume session" None 0)
        else match Encode MsgJoinResult
               (mkJoinResult true "" id (peersExcept h id) (h_host h) (c_token c)) with
        | Err _ => (h, mkResumeReply false ErrCodeBadFrame "encode reply" None 0)
        | Ok jr =>
            if c_held c then
              (resume_held h id c k jr,
               mkResumeReply true 0 "" (Some (c_out c)) (wrap 64 (c_gen c + 1)))
            else
              (resume_live h id c k jr,
               mkResumeReply true 0 "" (Some (make_chan (kick h (c_kick c))).2)
                 (wrap 64 (c_gen c + 1)))
        end
    end.
Proof.
  intros Hinv. unfold handleResume. destruct (h_clients h !! id) as [c|] eqn:Hc; [|done].
  case_bool_decide; [done|]. destruct (Encode _ _) as [jr|]; [|done].
  pose proof (inv_timer h Hinv _ _ Hc) as Ht.
  destruct (c_held c) eqn:Hh; unfold stop_timer; rewrite Ht.
  - unfold resume_held, drainChan, stop_timer. rewrite Ht. simpl.
    unfold chan_get at 1. simpl. rewrite lookup_insert_eq. simpl.
    do 2 f_equal. unfold bump, chan_put, upd_client. simpl. by rewrite insert_insert_eq.
  - unfold resume_live, make_chan. simpl. unfold chan_get. simpl.
    rewrite lookup_insert_eq. done.
Qed.

Lemma handleResume_inv h id token k : hub_inv h → hub_inv (handleResume h id token k).1.
Proof.
  intros Hinv. rewrite handleResume_eq by done.
  destruct (h_clients h !! id) as [c|] eqn:Hc; [|by apply bump_inv].
  case_bool_decide; [by apply bump_inv|]. destruct (Encode _ _) as [jr|]; [|done].
  destruct (c_held c) eqn:Hh; [by apply resume_held_inv|by apply resume_live_inv].
Qed.

(** ** One iteration of the run loop *)

Lemma handle_cmd_inv h c :
  hub_inv h → h_evict h = [] → cmd_ok h c → in_width 32 (h_nextID h + 1) →
  hub_inv (handle_cmd h c).1.1.
Proof.
  intros Hinv He Hok Hw. destruct c; simpl; auto with parley.
  - pose proof (handleJoin_inv h out k isCreate Hinv Hok Hw). by destruct (handleJoin _ _ _ _).
  - pose proof (handleLeave_inv h id gen unexpected Hinv He). by destruct (handleLeave _ _ _ _).
  - pose proof (handleResume_inv h id token k Hinv). by destruct (handleResume _ _ _ _).
  - pose proof (handleGraceExpired_inv h id gen Hinv He).
    by destruct (handleGraceExpired _ _ _).
  - by apply handleClaimHost_inv.
  - by apply route_inv.
  - by apply broadcastFrame_inv.
Qed.

Lemma run_iter_inv h c :
  hub_inv h → h_evict h = [] → cmd_ok h c → in_width 32 (h_nextID h + 1) →
  hub_inv (run_iter h c).1.1 ∧
  ((run_iter h c).2 = false → h_evict (run_iter h c).1.1 = []).
Proof.
  intros Hinv He Hok Hw. pose proof (handle_cmd_inv h c Hinv He Hok Hw) as H'. unfold run_iter.
  destruct (handle_cmd h c) as [[h1 r] []]; simpl in *; [done|].
  pose proof (drainEvictions_inv h1 H') as [Hi Hs].
  destruct (drainEvictions h1) as [h2 []]; simpl in *; [done|]. auto.
Qed.

(** ** Sequences of commands *)

Lemma newHub_inv id m g cr e : (0 ≤ m)%Z → hub_inv (newHub id m g cr e).
Proof.
  intros. split; simpl; try set_solver; try done.
  constructor.
Qed.

Lemma fewer_timers_inv h armed' :
  armed' ⊆ h_armed h → hub_inv h → hub_inv (set_armed h armed').
Proof. intros Hsub []. split; simpl; try done. set_solver. Qed.

Lemma stop_timer_inv h c : hub_inv h → hub_inv (stop_timer h c).
Proof.
  unfold stop_timer. destruct (c_timer c); [|done]. apply fewer_timers_inv. set_solver.
Qed.

Lemma shutdown_inv h : hub_inv h → hub_inv (shutdown h).
Proof.
  intros Hinv. unfold shutdown.
  set (h1 := foldl _ _ _). apply (hub_inv_fields h1); try done.
  apply (foldl_inv hub_inv); [|done]. intros h' p ?. by apply kick_inv, stop_timer_inv.
Qed.

(** Every join of the sequence brings a fresh channel and finds an identifier
    that fits in 32 bits. *)
Fixpoint run_ok (h : hub) (inbox : list cmd) : Prop :=
  match inbox with
  | [] => True
  | c :: inbox =>
      cmd_ok h c ∧ in_width 32 (h_nextID h + 1) ∧
      (if (run_iter h c).2 then True else run_ok (run_iter h c).1.1 inbox)
  end.

#[global] Instance run_ok_dec h inbox : Decision (run_ok h inbox).
Proof.
  revert h. induction inbox as [|c inbox IH]; intros h; simpl; [apply _|].
  apply and_dec; [apply _|]. apply and_dec; [apply _|]. destruct (_.2); [apply _|apply IH].
Defined.

Lemma run_inv h inbox :
  hub_inv h → h_evict h = [] → run_ok h inbox → hub_inv (run h inbox).1.1.
Proof.
  revert h. induction inbox as [|c inbox IH]; intros h Hinv He; simpl; [done|].
  intros (Hok & Hw & Hrest). pose proof (run_iter_inv h c Hinv He Hok Hw) as [Hi Hev].
  destruct (run_iter h c) as [[h1 r] []]; simpl in *; [by apply shutdown_inv|].
  pose proof (IH h1 Hi (Hev eq_refl) Hrest) as Hr. by destruct (run h1 inbox) as [[h2 rs] rest].
Qed.
End Inv.

#[export] Hint Resolve kick_inv bump_inv set_host_inv newToken_inv queue_inv sendTo_inv
  broadcastFrame_inv : parley.
