(* ===== verification/HubSpec.v ===== *)
(** * What the hub's handlers do

    The functional behaviour of each handler on every branch, stated on slots:
    who gets which frame, in which order, and what the hub remembers. *)
From S2P Require Import Prelude Wire Hub HubInv.

Open Scope N_scope.

Section Spec.
Context {WC : WireCodec} {EN : Entropy} {MR : MapRange ParticipantID client}.

(** ** Small facts about slots *)

Lemma slot_fields h h' id :
  h_clients h' = h_clients h → ev_chans (h_env h') = ev_chans (h_env h) →
  slot h' id = slot h id.
Proof. intros E1 E2. unfold slot, chan_get. by rewrite E1, E2. Qed.

Lemma slot_bump h f id : slot (bump h f) id = slot h id.
Proof. by apply slot_fields. Qed.

Lemma slot_sendTo `{Cbor T} h k t (body : T) id :
  hub_inv h →
  slot (sendTo h k t body) id =
    match Encode t body with
    | Ok frame => if bool_decide (id = k) then queue_slot frame <$> slot h k else slot h id
    | Err _ => slot h id
    end.
Proof.
  intros Hinv. unfold sendTo. destruct (h_clients h !! k) as [c|] eqn:Hc.
  - destruct (Encode t body); [by apply slot_queue|done].
  - apply slot_None in Hc. rewrite Hc. destruct (Encode t body); [|done].
    case_bool_decide; [by subst|done].
Qed.

Lemma queue_slot_frames frame c q c' q' :
  queue_slot frame (c, q) = (c', q') → q' = q ∨ q' = q ++ [frame].
Proof.
  simpl. destruct (c_evicting c); [naive_solver|]. case_bool_decide; naive_solver.
Qed.

(** What one queueing does to a participant it does not name, or names. *)
Lemma slot_sendTo_frames `{Cbor T} h k t (body : T) id c q c' q' :
  hub_inv h → slot h id = Some (c, q) → slot (sendTo h k t body) id = Some (c', q') →
  q' = q ∨ ∃ frame, Encode t body = Ok frame ∧ id = k ∧ q' = q ++ [frame].
Proof.
  intros Hinv Hs. rewrite slot_sendTo by done. destruct (Encode t body) as [frame|]; [|naive_solver].
  case_bool_decide; [subst|naive_solver]. rewrite Hs. intros [= Hq].
  apply queue_slot_frames in Hq as [->| ->]; eauto.
Qed.

Lemma slot_broadcast_frames `{Cbor T} h x t (body : T) id c q c' q' :
  hub_inv h → slot h id = Some (c, q) → slot (broadcastFrame h t body x) id = Some (c', q') →
  q' = q ∨ ∃ frame, Encode t body = Ok frame ∧ id ≠ x ∧ q' = q ++ [frame].
Proof.
  intros Hinv Hs. destruct (Encode t body) as [frame|e] eqn:He.
  - rewrite (slot_broadcastFrame _ _ _ _ frame) by done.
    case_bool_decide; [naive_solver|]. rewrite Hs. intros [= Hq].
    apply queue_slot_frames in Hq as [->| ->]; eauto.
  - unfold broadcastFrame. rewrite He. naive_solver.
Qed.

(** ** Forwarding *)

(** C1: no client can speak as another.  Whatever a participant sends, the only
    frame [route] can add to anybody's buffer is a Direct or Broadcast whose
    [From] is the sending connection's own identifier (a Direct only to its
    addressee, a Broadcast only to the others), or an error to the sender. *)
Theorem route_stamps_sender h from typ raw id c q c' q' :
  hub_inv h → slot h id = Some (c, q) → slot (route h from typ raw) id = Some (c', q') →
  q' = q ∨ ∃ frame, q' = q ++ [frame] ∧
    ((∃ p, Encode MsgDirect (mkDirect id from p) = Ok frame) ∨
     (id ≠ from ∧ ∃ p, Encode MsgBroadcast (mkBroadcast from p) = Ok frame) ∨
     (id = from ∧ ∃ e : Error, Encode MsgError e = Ok frame)).
Proof.
  intros Hinv Hs. unfold route. set (h1 := bump h _).
  assert (hub_inv h1) as Hi1 by (by apply bump_inv).
  assert (slot h1 id = Some (c, q)) as Hs1 by (by unfold h1; rewrite slot_bump).
  assert (hub_inv (bump h1 add_Errors)) as Hi2 by (by apply bump_inv).
  assert (slot (bump h1 add_Errors) id = Some (c, q)) as Hs2 by (by rewrite slot_bump).
  assert (∀ e : Error, slot (sendTo (bump h1 add_Errors) from MsgError e) id = Some (c', q') →
    q' = q ∨ ∃ frame, q' = q ++ [frame] ∧ id = from ∧ Encode MsgError e = Ok frame) as Herr.
  { intros e Hs'.
    destruct (slot_sendTo_frames _ _ _ _ _ _ _ _ _ Hi2 Hs2 Hs') as [->|(f & ? & ? & ->)]; eauto. }
  case_bool_decide; [|case_bool_decide].
  - destruct (Body Direct raw) as [d|]; [destruct (h_clients h1 !! _)|]; intros Hs'.
    + destruct (slot_sendTo_frames _ _ _ _ _ _ _ _ _ Hi1 Hs1 Hs') as [->|(f & He & -> & ->)];
        [by left|]. right. exists f. eauto.
    + destruct (Herr _ Hs') as [->|(f & -> & ? & He)]; [by left|]. right. exists f. eauto 10.
    + destruct (Herr _ Hs') as [->|(f & -> & ? & He)]; [by left|]. right. exists f. eauto 10.
  - destruct (Body Broadcast raw) as [b|]; intros Hs'.
    + destruct (slot_broadcast_frames _ _ _ _ _ _ _ _ _ Hi1 Hs1 Hs') as [->|(f & He & Hne & ->)];
        [by left|]. right. exists f. eauto 10.
    + destruct (Herr _ Hs') as [->|(f & -> & ? & He)]; [by left|]. right. exists f. eauto 10.
  - intros. left. naive_solver.
Qed.

(** What routing does to a slot, when the stamped frame can be encoded. *)
Lemma slot_route_direct h from raw d frame id :
  hub_inv h → Body Direct raw = Ok d → is_Some (h_clients h !! d_To d) →
  Encode MsgDirect (mkDirect (d_To d) from (d_Payload d)) = Ok frame →
  slot (route h from MsgDirect raw) id =
    if bool_decide (id = d_To d) then queue_slot frame <$> slot h id else slot h id.
Proof.
  intros Hinv Hb [c Hc] He. unfold route. simpl. rewrite Hb. simpl. rewrite Hc.
  rewrite slot_sendTo, He by auto with parley. rewrite !slot_bump. case_bool_decide; by subst.
Qed.

Lemma slot_route_broadcast h from raw b frame id :
  hub_inv h → Body Broadcast raw = Ok b →
  Encode MsgBroadcast (mkBroadcast from (b_Payload b)) = Ok frame →
  slot (route h from MsgBroadcast raw) id =
    if bool_decide (id = from) then slot h id else queue_slot frame <$> slot h id.
Proof.
  intros Hinv Hb He. unfold route. simpl. rewrite Hb.
  rewrite (slot_broadcastFrame _ _ _ _ frame) by auto with parley. by rewrite slot_bump.
Qed.

(** forwarding is exact.  A Direct to a present peer changes that peer's
    slot by one frame, stamped with the sender, and nobody else's; a Broadcast
    changes every slot but the sender's by one and the same frame. *)
Theorem route_delivers h from raw id :
  hub_inv h →
  (∀ d frame, Body Direct raw = Ok d → is_Some (h_clients h !! d_To d) →
     Encode MsgDirect (mkDirect (d_To d) from (d_Payload d)) = Ok frame →
     slot (route h from MsgDirect raw) id =
       if bool_decide (id = d_To d) then queue_slot frame <$> slot h id else slot h id) ∧
  (∀ b frame, Body Broadcast raw = Ok b →
     Encode MsgBroadcast (mkBroadcast from (b_Payload b)) = Ok frame →
     slot (route h from MsgBroadcast raw) id =
       if bool_decide (id = from) then slot h id else queue_slot frame <$> slot h id).
Proof.
  intros Hinv. split; [intros d frame Hb Hd He|intros b frame Hb He].
  - by apply slot_route_direct.
  - by apply (slot_route_broadcast h from raw b).
Qed.

(** ** Joining *)

Lemma elem_of_peersExcept h id p :
  p ∈ peersExcept h id ↔ p ≠ id ∧ is_Some (h_clients h !! p).
Proof. unfold peersExcept. by rewrite list_elem_of_filter, elem_of_range_fst. Qed.

Lemma NoDup_peersExcept h id : NoDup (peersExcept h id).
Proof. apply NoDup_filter, NoDup_range_fst. Qed.

Lemma peersExcept_new h id :
  h_clients h !! id = None → peersExcept h id ≡ₚ elements (dom (h_clients h)).
Proof.
  intros Hn. apply NoDup_Permutation; [apply NoDup_peersExcept|apply NoDup_elements|].
  intros p. rewrite elem_of_peersExcept, elem_of_elements, elem_of_dom.
  split; [tauto|]. intros [c Hc]. split; [congruence|by eexists].
Qed.

Lemma slot_admit_client h id out k token frame j :
  hub_inv h → fresh_out h out →
  slot (admit_client h id out k token frame) j =
    if bool_decide (j = id) then Some (mkClient id out k token false 1 None false, [frame])
    else slot h j.
Proof.
  intros Hinv [Hout Hne]. unfold admit_client. rewrite slot_bump, (chan_get_lookup _ _ _ Hout).
  unfold slot. simpl. case_bool_decide as Hj.
  - subst. rewrite lookup_insert_eq. simpl. do 2 f_equal. by rewrite chan_get_lookup with (q := [frame])
      by (simpl; apply lookup_insert_eq).
  - rewrite lookup_insert_ne by done. destruct (h_clients h !! j) as [d|] eqn:Hd; simpl; [|done].
    do 2 f_equal. unfold chan_get. simpl. rewrite lookup_insert_ne; [done|].
    intros E. by apply (Hne j d).
Qed.

(** C28: joining, on every branch.  A full session refuses and changes no slot.
    Otherwise the joiner gets the next identifier and a slot whose buffer holds
    its hello reply and nothing else (so the reply leads everything routed to it
    later), the reply to a join lists exactly the members present and the current
    host, and every member's slot changes by one ParticipantJoined frame. *)
Theorem handleJoin_spec h out k isCreate h' r :
  hub_inv h → fresh_out h out → in_width 32 (h_nextID h + 1) →
  handleJoin h out k isCreate = (h', r) →
  let id := h_nextID h in
  if bool_decide (h_max h ≤ Z.of_nat (size (h_clients h)))%Z then
    r = mkJoinReply false ErrCodeSessionFull "session full" 0 0 ∧
    h_nextID h' = id ∧ ∀ j, slot h' j = slot h j
  else
    ∃ token peers, length token = resumeTokenLen ∧ peers ≡ₚ elements (dom (h_clients h)) ∧
    h_nextID h' = id + 1 ∧ h_host h' = h_host h ∧
    ∀ hello pj,
      (if isCreate then Encode MsgSessionCreated (mkSessionCreated id token)
       else Encode MsgJoinResult (mkJoinResult true "" id peers (h_host h) token)) = Ok hello →
      Encode MsgParticipantJoined (mkParticipantJoined id) = Ok pj →
      r = mkJoinReply true 0 "" id 1 ∧
      slot h' id = Some (mkClient id out k token false 1 None false, [hello]) ∧
      ∀ j, j ≠ id → slot h' j = queue_slot pj <$> slot h j.
Proof.
  intros Hinv Hout Hw. rewrite handleJoin_eq.
  remember (newToken h).2 as token eqn:Htok.
  case_bool_decide as Hmax; intros E; cbv zeta.
  { injection E as <- <-. auto using slot_bump. }
  exists token, (peersExcept h (h_nextID h)).
  assert (h_nextID h' = wrap 32 (h_nextID h + 1) ∧ h_host h' = h_host h) as [-> ->].
  { destruct (join_frame h isCreate); injection E as <- _; [|done].
    destruct (broadcastFrame_same_session
      (admit_client (join_prep h) (h_nextID h) out k token a) MsgParticipantJoined
      (mkParticipantJoined (h_nextID h)) (h_nextID h)) as (_ & _ & _ & _ & -> & -> & _). done. }
  split; [subst; apply newToken_length|]. split; [by apply peersExcept_new, nextID_unused|].
  split; [by apply wrap_small|]. split; [done|]. intros hello pj Hf Hpj.
  assert (join_frame h isCreate = Ok hello) as Hf' by (unfold join_frame; by rewrite <- Htok).
  rewrite Hf' in E. injection E as <- <-.
  assert (hub_inv (admit_client (join_prep h) (h_nextID h) out k token hello)) as Hinv'
    by (subst; apply admit_join_inv; try done; lia).
  assert (hub_inv (join_prep h)) by (by apply join_prep_inv).
  split; [done|]. split; [|intros j Hj].
  - rewrite (slot_broadcastFrame _ _ _ _ pj), bool_decide_eq_true_2 by done.
    by rewrite slot_admit_client, bool_decide_eq_true_2.
  - rewrite (slot_broadcastFrame _ _ _ _ pj), bool_decide_eq_false_2 by done.
    by rewrite slot_admit_client, bool_decide_eq_false_2.
Qed.

(** ** Resuming *)

Lemma slot_replace h id c c' q j :
  hub_inv h → h_clients h !! id = Some c →
  (∀ i d, i ≠ id → h_clients h !! i = Some d → c_out d ≠ c_out c') →
  slot (chan_put (upd_client h id (λ _, c')) (c_out c') q) j =
    if bool_decide (j = id) then Some (c', q) else slot h j.
Proof.
  intros Hinv Hc Hne. unfold slot. simpl. rewrite lookup_alter. case_bool_decide as Hj.
  - subst. rewrite decide_True, Hc by done. simpl. by rewrite chan_get_put_eq.
  - rewrite decide_False by done. destruct (h_clients h !! j) as [d|] eqn:Hd; simpl; [|done].
    rewrite chan_get_put_ne; [done|]. intros E. by apply (Hne j d).
Qed.

Lemma slot_stop_timer h c id : slot (stop_timer h c) id = slot h id.
Proof. apply slot_fields; unfold stop_timer; by destruct (c_timer c). Qed.

Lemma slot_resume_held h id c k jr j :
  hub_inv h → h_clients h !! id = Some c →
  slot (resume_held h id c k jr) j =
    if bool_decide (j = id) then
      Some (resume_client (c_out c) k c, jr :: take (sendBuffer - 1) (chan_get h (c_out c)))
    else slot h j.
Proof.
  intros Hinv Hc. unfold resume_held. cbv zeta.
  assert (h_clients (stop_timer h c) = h_clients h ∧
    chan_get (stop_timer h c) (c_out c) = chan_get h (c_out c)) as [E1 E2]
    by (unfold stop_timer; by destruct (c_timer c)).
  rewrite slot_bump, E2, chan_send_all_take.
  rewrite (slot_replace _ id c (resume_client (c_out c) k c)).
  - by rewrite slot_stop_timer.
  - by apply stop_timer_inv.
  - by rewrite E1.
  - intros i d Hi Hd Heq. rewrite E1 in Hd. apply Hi. by eapply (inv_out_inj h Hinv).
Qed.

Lemma slot_make_chan h j : hub_inv h → slot (make_chan h).1 j = slot h j.
Proof.
  intros Hinv. unfold slot. simpl. destruct (h_clients h !! j) as [d|] eqn:Hd; simpl; [|done].
  rewrite chan_get_put_ne; [done|]. intros E.
  apply (out_not_fresh h j d _ Hinv Hd (make_chan_fresh h)). by rewrite <- E.
Qed.

Lemma slot_resume_live h id c k jr j :
  hub_inv h → h_clients h !! id = Some c →
  slot (resume_live h id c k jr) j =
    if bool_decide (j = id) then
      Some (resume_client (make_chan (kick h (c_kick c))).2 k c, [jr])
    else slot h j.
Proof.
  intros Hinv Hc. unfold resume_live. set (h0 := kick h (c_kick c)).
  assert (hub_inv h0) as Hinv0 by (by apply kick_inv).
  pose proof (make_chan_inv h0 Hinv0) as Hi. pose proof (make_chan_fresh h0) as Hf.
  pose proof (slot_make_chan h0 j Hinv0) as Hs.
  assert (h_clients (make_chan h0).1 = h_clients h) as E1 by done.
  destruct (make_chan h0) as [h1 out]. simpl in Hi, Hf, Hs, E1. cbv zeta. rewrite slot_bump.
  rewrite (slot_replace h1 id c (resume_client out k c)); [by rewrite Hs|done|by rewrite E1|].
  intros i d Hne Hd. rewrite E1 in Hd. by apply (out_not_fresh h0 i).
Qed.

(** C6: resuming, on every branch.  A wrong token, or a slot that is gone, is
    refused and changes no slot.  A matching token re-attaches the slot: same
    identifier and token, new connection and generation, the JoinResult first in
    its buffer and behind it, for a held slot, the frames buffered during the
    outage in order (all of them, but for the last one of a full buffer); a slot
    still live has its old connection kicked.  No other slot changes. *)
Theorem handleResume_spec h id token k h' r :
  hub_inv h → handleResume h id token k = (h', r) →
  match h_clients h !! id with
  | Some c =>
      if bool_decide (c_token c = token) then
        ∀ jr, Encode MsgJoinResult
          (mkJoinResult true "" id (peersExcept h id) (h_host h) token) = Ok jr →
        ∃ out, r = mkResumeReply true 0 "" (Some out) (wrap 64 (c_gen c + 1)) ∧
          slot h' id = Some (resume_client out k c,
            jr :: if c_held c then take (sendBuffer - 1) (chan_get h (c_out c)) else []) ∧
          (c_held c = false → c_kick c ∈ ev_kicked (h_env h')) ∧
          ∀ j, j ≠ id → slot h' j = slot h j
      else r = mkResumeReply false ErrCodeResumeRejected "cannot resume session" None 0 ∧
           ∀ j, slot h' j = slot h j
  | None => r = mkResumeReply false ErrCodeResumeRejected "cannot resume session" None 0 ∧
            ∀ j, slot h' j = slot h j
  end.
Proof.
  intros Hinv. rewrite handleResume_eq by done.
  destruct (h_clients h !! id) as [c|] eqn:Hc; [|intros [= <- <-]; auto using slot_bump].
  destruct (decide (c_token c = token)) as [Ht|Ht].
  - rewrite bool_decide_eq_false_2, (bool_decide_eq_true_2 (_ = _)) by naive_solver.
    rewrite Ht. intros E jr Hjr. rewrite Hjr in E. destruct (c_held c) eqn:Hh.
    + injection E as <- <-. exists (c_out c). split; [done|].
      rewrite slot_resume_held, bool_decide_eq_true_2 by done. split; [done|]. split; [done|].
      intros j Hj. by rewrite slot_resume_held, bool_decide_eq_false_2.
    + remember (make_chan (kick h (c_kick c))).2 as out eqn:Ho.
      injection E as <- <-. exists out. split; [done|].
      rewrite slot_resume_live, bool_decide_eq_true_2, <- Ho by done. split; [done|].
      split; [|intros j Hj; by rewrite slot_resume_live, bool_decide_eq_false_2].
      intros _. unfold resume_live. simpl. set_solver.
  - rewrite bool_decide_eq_true_2, (bool_decide_eq_false_2 (_ = _)) by done.
    intros [= <- <-]. auto using slot_bump.
Qed.

(** a superseded connection cannot disturb the slot.  After a successful
    resume, the teardown of the connection it replaced (which carries the old
    generation) and the expiry of any grace timer armed before are ignored. *)
Theorem resume_supersedes h id token k h' r c :
  hub_inv h → handleResume h id token k = (h', r) → rrep_ok r = true →
  h_clients h !! id = Some c →
  (∀ u, handleLeave h' id (c_gen c) u = (h', false)) ∧
  (∀ g, handleGraceExpired h' id g = (h', false)).
Proof.
  intros Hinv E Hok Hc. rewrite handleResume_eq, Hc in E by done.
  case_bool_decide; [by simplify_eq|]. destruct (Encode _ _) as [jr|]; [|by simplify_eq].
  assert (∃ out, h_clients h' !! id = Some (resume_client out k c)) as [out Hl].
  { destruct (c_held c); injection E as <- _.
    - pose proof (slot_resume_held h id c k jr id Hinv Hc) as Hs.
      rewrite bool_decide_eq_true_2 in Hs by done. apply slot_Some in Hs as [Hs _]. by eexists.
    - pose proof (slot_resume_live h id c k jr id Hinv Hc) as Hs.
      rewrite bool_decide_eq_true_2 in Hs by done. apply slot_Some in Hs as [Hs _]. by eexists. }
  unfold handleLeave, handleGraceExpired. rewrite Hl. split; [intros u|done]. simpl.
  rewrite bool_decide_eq_true_2; [done|]. by apply wrap_succ_ne.
Qed.
End Spec.
