(* ===== verification/HubLife.v ===== *)
(** * The life of a participant

    Departures: whoever leaves the session, every survivor hears of it, and the
    identifier is never given out again.  Refinement: whatever the buffers do,
    each iteration of the hub is a sequence of steps of an abstract roster. *)
From S2P Require Import Prelude Wire Hub HubInv HubSpec.

Open Scope N_scope.

(** ** The abstract roster

    What a session promises about membership: who is in, who is away (dropped,
    slot held), the next identifier, and the join authority. *)
Record roster := mkRoster {
  members : gset ParticipantID;
  away : gset ParticipantID;
  next : ParticipantID;
  authority : ParticipantID }.

Inductive roster_step (cap : Z) : roster → roster → Prop :=
| r_admit m a n h :
    (Z.of_nat (size m) < cap)%Z → n ∉ m →
    roster_step cap (mkRoster m a n h) (mkRoster ({[n]} ∪ m) a (n + 1) h)
| r_skip m a n h : roster_step cap (mkRoster m a n h) (mkRoster m a (n + 1) h)
| r_drop m a n h id : id ∈ m → id ∉ a →
    roster_step cap (mkRoster m a n h) (mkRoster m ({[id]} ∪ a) n h)
| r_return m a n h id : id ∈ a →
    roster_step cap (mkRoster m a n h) (mkRoster m (a ∖ {[id]}) n h)
| r_leave m a n h id : id ∈ m →
    roster_step cap (mkRoster m a n h) (mkRoster (m ∖ {[id]}) (a ∖ {[id]}) n h)
| r_claim m a n h id : id ∈ m → roster_step cap (mkRoster m a n h) (mkRoster m a n id).

Definition held_ids (m : gmap ParticipantID client) : gset ParticipantID :=
  dom (filter (λ p, c_held p.2 = true) m).

Definition roster_of (h : hub) : roster :=
  mkRoster (dom (h_clients h)) (held_ids (h_clients h)) (h_nextID h) (h_host h).

Lemma elem_of_held_ids m id :
  id ∈ held_ids m ↔ ∃ c, m !! id = Some c ∧ c_held c = true.
Proof.
  unfold held_ids. rewrite elem_of_dom. unfold is_Some.
  by setoid_rewrite map_lookup_filter_Some.
Qed.

Section Life.
Context {WC : WireCodec} {EN : Entropy} {MR : MapRange ParticipantID client}.

(** ** Survivors *)

Definition left_frame (id : ParticipantID) : result wire_error bytes :=
  Encode MsgParticipantLeft (mkParticipantLeft id).

(** [evolves h h']: every slot of [h'] is a slot of [h] whose buffer has only
    grown, and which has been told of everyone missing, or is being evicted. *)
Definition evolves (h h' : hub) : Prop :=
  ∀ j c' q', slot h' j = Some (c', q') →
  ∃ c q, slot h j = Some (c, q) ∧ q `prefix_of` q' ∧
    (c_evicting c = true → c_evicting c' = true) ∧
    ∀ id f, is_Some (h_clients h !! id) → h_clients h' !! id = None →
      left_frame id = Ok f → f ∈ q' ∨ c_evicting c' = true.

#[local] Instance evolves_refl : Reflexive evolves.
Proof. intros h j c q Hs. exists c, q. split_and!; try done. intros id f [] ?. congruence. Qed.

#[local] Instance evolves_trans : Transitive evolves.
Proof.
  intros h h1 h2 H1 H2 j c2 q2 Hs2.
  destruct (H2 j c2 q2 Hs2) as (c1 & q1 & Hs1 & Hp2 & He2 & Hl2).
  destruct (H1 j c1 q1 Hs1) as (c & q & Hs & Hp1 & He1 & Hl1).
  exists c, q. split; [done|]. split; [by etrans|]. split; [auto|].
  intros id f Hin Hout Hf. destruct (h_clients h1 !! id) as [d|] eqn:Hd.
  - eapply Hl2; eauto.
  - destruct (Hl1 id f) as [Hq|?]; auto. left. destruct Hp2 as [k ->]. set_solver.
Qed.

Lemma queue_slot_grows f c q c' q' :
  queue_slot f (c, q) = (c', q') →
  q `prefix_of` q' ∧ (c_evicting c = true → c_evicting c' = true) ∧
  (f ∈ q' ∨ c_evicting c' = true).
Proof.
  simpl. destruct (c_evicting c) eqn:E; [naive_solver|].
  case_bool_decide; intros [= <- <-]; split_and!; try done; auto.
  - by eexists.
  - left. set_solver.
Qed.

Lemma evolves_broadcast `{Cbor T} h t (body : T) x :
  hub_inv h → evolves h (broadcastFrame h t body x).
Proof.
  intros Hinv. destruct (Encode t body) as [f|e] eqn:He;
    [|unfold broadcastFrame; by rewrite He].
  assert (dom (h_clients (broadcastFrame h t body x)) = dom (h_clients h)) as Hdom
    by apply broadcastFrame_same_session.
  intros j c' q'. rewrite (slot_broadcastFrame _ _ _ _ f) by done.
  assert (∀ id, is_Some (h_clients h !! id) →
    h_clients (broadcastFrame h t body x) !! id = None → False) as Hno.
  { intros id Hin%elem_of_dom Hout%not_elem_of_dom. by rewrite Hdom in Hout. }
  case_bool_decide.
  - intros Hs. exists c', q'. split_and!; try done. naive_solver.
  - intros ([c q] & Hs & Hq)%fmap_Some. symmetry in Hq.
    apply queue_slot_grows in Hq as (? & ? & _). exists c, q. split_and!; naive_solver.
Qed.

(** A removal that leaves somebody in tells everybody left. *)
Lemma evolves_remove h id h' :
  hub_inv h → removeParticipant (set_evict h (filter (λ i, i ≠ id) (h_evict h))) id = (h', false) →
  evolves h h'.
Proof.
  intros Hinv. destruct (h_clients h !! id) as [c|] eqn:Hc.
  - rewrite (removeParticipant_eq _ _ c) by done. case_bool_decide; [done|].
    intros [= <-] j c' q' Hs.
    pose proof (drop_client_inv h id c Hinv Hc) as Hd.
    set (h1 := drop_client _ id c) in *.
    assert (h_clients h1 = delete id (h_clients h) ∧
      ev_chans (h_env h1) = ev_chans (h_env h)) as [E1 E2]
      by (unfold h1; split; apply (drop_client_fields (set_evict h _) id c)).
    assert (∀ i, i ≠ id → slot h1 i = slot h i) as Hsl.
    { intros i Hi. unfold slot, chan_get. by rewrite E1, E2, lookup_delete_ne. }
    assert (dom (h_clients (broadcastFrame h1 MsgParticipantLeft (mkParticipantLeft id) 0))
      = dom (h_clients h) ∖ {[id]}) as Hdom.
    { rewrite <- dom_delete_L, <- E1. apply broadcastFrame_same_session. }
    assert (j ≠ id) as Hj.
    { intros ->. apply slot_Some in Hs as [Hs _].
      assert (id ∈ dom (h_clients h) ∖ {[id]}) as Hx by (rewrite <- Hdom; by eapply elem_of_dom_2).
      by rewrite elem_of_difference, elem_of_singleton in Hx; destruct Hx. }
    destruct (evolves_broadcast h1 MsgParticipantLeft (mkParticipantLeft id) 0 Hd j c' q' Hs)
      as (c0 & q & Hs0 & Hp & He & _).
    exists c0, q. rewrite Hsl in Hs0 by done. split_and!; try done.
    intros i f Hin%elem_of_dom Hout%not_elem_of_dom Hf. rewrite Hdom in Hout.
    destruct (decide (i = id)) as [->|Hne];
      [|destruct Hout; by rewrite elem_of_difference, elem_of_singleton].
    rewrite (slot_broadcastFrame _ _ _ _ f), Hsl, Hs0 in Hs by done.
    rewrite bool_decide_eq_false_2 in Hs.
    + injection Hs as Hs. by apply queue_slot_grows in Hs as (_ & _ & ?).
    + apply slot_Some in Hs0 as [Hs0 _]. apply (inv_ids h Hinv) in Hs0. lia.
  - unfold removeParticipant. simpl. rewrite Hc. intros [= <-].
    by rewrite evict_absent, set_evict_id.
Qed.

Lemma evolves_drain fuel h h' :
  hub_inv h → drain fuel h = Some (h', false) → evolves h h'.
Proof.
  revert h. induction fuel as [|fuel IH]; intros h Hinv; cbn [drain];
    destruct (h_evict h) as [|id rest] eqn:E; try done.
  1,2: by intros [= <-].
  pose proof (removeParticipant_inv h id Hinv) as Hr.
  pose proof (evolves_remove h id) as Hev.
  rewrite (evict_pop h id rest Hinv E) in Hr, Hev.
  destruct (removeParticipant (set_evict h rest) id) as [h1 []] eqn:Er; [done|].
  intros Hd. transitivity h1; [by apply Hev|by apply IH].
Qed.

(** ** Membership changes of one command *)

Lemma dom_upd_client h id f : dom (h_clients (upd_client h id f)) = dom (h_clients h).
Proof. simpl. apply dom_alter_L. Qed.

Lemma dom_broadcast `{Cbor T} h t (body : T) x :
  dom (h_clients (broadcastFrame h t body x)) = dom (h_clients h).
Proof. apply broadcastFrame_same_session. Qed.

Lemma dom_sendTo `{Cbor T} h id t (body : T) :
  dom (h_clients (sendTo h id t body)) = dom (h_clients h).
Proof. apply sendTo_same_session. Qed.

Lemma dom_route h from typ raw :
  dom (h_clients (route h from typ raw)) = dom (h_clients h).
Proof.
  unfold route. case_bool_decide; [|case_bool_decide; [|done]].
  - destruct (Body Direct raw); [destruct (_ !! _)|]; by rewrite dom_sendTo.
  - destruct (Body Broadcast raw); by rewrite ?dom_sendTo, ?dom_broadcast.
Qed.

Lemma dom_resume h id token k :
  hub_inv h → dom (h_clients (handleResume h id token k).1) = dom (h_clients h).
Proof.
  intros Hinv. rewrite handleResume_eq by done. destruct (h_clients h !! id) as [c|]; [|done].
  case_bool_decide; [done|]. destruct (Encode _ _); [|done].
  destruct (c_held c); cbn [fst].
  - unfold resume_held, stop_timer. destruct (c_timer c); simpl; apply dom_alter_L.
  - simpl. apply dom_alter_L.
Qed.

Lemma dom_remove h id :
  dom (h_clients (removeParticipant h id).1) = dom (h_clients h) ∖ {[id]}.
Proof.
  destruct (h_clients h !! id) as [c|] eqn:Hc.
  - rewrite (removeParticipant_eq _ _ c) by done.
    assert (dom (h_clients (drop_client h id c)) = dom (h_clients h) ∖ {[id]}) as Hd
      by (destruct (drop_client_fields h id c) as [-> _]; apply dom_delete_L).
    case_bool_decide; cbn [fst]; by rewrite ?dom_broadcast.
  - unfold removeParticipant. rewrite Hc. simpl. apply not_elem_of_dom in Hc.
    symmetry. apply difference_disjoint_L. set_solver.
Qed.

Lemma dom_join h out k b :
  dom (h_clients h) ⊆ dom (h_clients (handleJoin h out k b).1) ∧
  dom (h_clients (handleJoin h out k b).1) ⊆ {[h_nextID h]} ∪ dom (h_clients h).
Proof.
  rewrite handleJoin_eq. case_bool_decide; [simpl; set_solver|].
  destruct (join_frame h b); [|simpl; set_solver]. cbn [fst].
  rewrite dom_broadcast. simpl. rewrite dom_insert_L. set_solver.
Qed.

(** A command that goes on either removes nobody or removes one participant and
    tells the others. *)
Lemma handle_cmd_departs h c h' r :
  hub_inv h → h_evict h = [] → handle_cmd h c = (h', r, false) →
  dom (h_clients h) ⊆ dom (h_clients h') ∨ evolves h h'.
Proof.
  intros Hinv He. assert (∀ id h', removeParticipant h id = (h', false) → evolves h h') as Hrem.
  { intros id h1 Hr. apply (evolves_remove h id); [done|].
    by rewrite (filter_all _ (h_evict h)), set_evict_id by (by rewrite He). }
  destruct c; simpl; intros E.
  - pose proof (dom_join h out k isCreate) as [Hd _]. destruct (handleJoin _ _ _ _).
    simplify_eq. by left.
  - destruct (handleLeave h id gen unexpected) as [h1 b] eqn:El. simplify_eq. revert El.
    unfold handleLeave. destruct (h_clients h !! id) as [c|]; [|intros; simplify_eq; by left].
    destruct (c_held c || _); [intros; simplify_eq; by left|].
    destruct (unexpected && _); [|intros; right; eauto].
    intros [= <-]. left. simpl. by rewrite dom_alter_L.
  - pose proof (dom_resume h id token k Hinv) as Hd. destruct (handleResume _ _ _ _).
    simplify_eq. left. simpl in Hd. by rewrite Hd.
  - destruct (handleGraceExpired h id gen) as [h1 b] eqn:El. simplify_eq. revert El.
    unfold handleGraceExpired.
    destruct (h_clients h !! id) as [c|]; [|intros; simplify_eq; by left].
    destruct (negb (c_held c) || _); [intros; simplify_eq; by left|]. intros; right; eauto.
  - simplify_eq. left. unfold handleClaimHost. by destruct (_ !! _).
  - simplify_eq. left. by rewrite dom_route.
  - simplify_eq. by left.
  - simplify_eq.
Qed.

(** C13: nobody disappears silently.  Whoever is a member before an iteration of
    the hub and no longer one after it (a clean leave, an expired grace window,
    or an eviction for an overflowing buffer), every member that remains has the
    ParticipantLeft notice in its buffer, on which survivors base the rotation
    of the group key and the election of a new host. *)
Theorem departure_announced h c h' r id f j cj q :
  hub_inv h → h_evict h = [] → cmd_ok h c → in_width 32 (h_nextID h + 1) →
  run_iter h c = (h', r, false) →
  is_Some (h_clients h !! id) → h_clients h' !! id = None →
  Encode MsgParticipantLeft (mkParticipantLeft id) = Ok f →
  slot h' j = Some (cj, q) → f ∈ q.
Proof.
  intros Hinv He Hok Hw Hrun Hin Hout Hf Hs.
  pose proof (run_iter_inv h c Hinv He Hok Hw) as [Hinv' He']. rewrite Hrun in Hinv', He'.
  simpl in Hinv', He'. specialize (He' eq_refl).
  assert (c_evicting cj = true → False) as Hne.
  { intros Hev. apply slot_Some in Hs as [Hs _].
    assert (j ∈ h_evict h') as Hx by (apply (inv_evict h' Hinv'); eauto).
    rewrite He' in Hx. by apply elem_of_nil in Hx. }
  pose proof (handle_cmd_inv h c Hinv He Hok Hw) as Hinv1. unfold run_iter in Hrun.
  destruct (handle_cmd h c) as [[h1 r1] []] eqn:Hh; [done|]. simpl in Hinv1.
  pose proof (drainEvictions_drain h1) as Hd.
  destruct (drainEvictions h1) as [h2 stop]. injection Hrun as -> -> ->.
  apply evolves_drain in Hd; [|done]. apply handle_cmd_departs in Hh; [|done..].
  destruct (Hd j cj q Hs) as (c1 & q1 & Hs1 & Hp & Hev1 & Hl1).
  destruct (h_clients h1 !! id) as [d|] eqn:Hd1.
  - destruct (Hl1 id f) as [?|?]; eauto; by exfalso.
  - destruct Hh as [Hsub|Hev].
    + apply not_elem_of_dom in Hd1. apply elem_of_dom in Hin. set_solver.
    + destruct (Hev j c1 q1 Hs1) as (c0 & q0 & _ & _ & _ & Hl0).
      destruct (Hl0 id f) as [Hf1|?]; auto; [|naive_solver].
      destruct Hp as [k ->]. set_solver.
Qed.

(** ** The hub refines the roster *)

Lemma roster_of_fields h h' :
  h_clients h' = h_clients h → h_nextID h' = h_nextID h → h_host h' = h_host h →
  roster_of h' = roster_of h.
Proof. unfold roster_of. by intros -> -> ->. Qed.

Lemma held_ids_alter f id m :
  (∀ c, c_held (f c) = c_held c) → held_ids (alter f id m) = held_ids m.
Proof.
  intros Hf. apply set_eq. intros i. rewrite !elem_of_held_ids, lookup_alter.
  case_decide; [subst|done]. destruct (m !! i) as [c|]; simpl; [|naive_solver].
  split; intros (d & [= <-] & Hd); eexists; (split; [done|]); by rewrite ?Hf in *.
Qed.

Lemma roster_of_queue h id f : roster_of (queue h id f) = roster_of h.
Proof.
  destruct (queue_cases h id f) as [[-> _]|[(c & _ & _ & _ & ->)|(c & _ & _ & _ & ->)]]; [done..|].
  unfold queue_overflow, roster_of.
  destruct (c_held c); simpl; by rewrite dom_alter_L, held_ids_alter.
Qed.

Lemma roster_of_broadcast `{Cbor T} h t (body : T) x :
  roster_of (broadcastFrame h t body x) = roster_of h.
Proof.
  unfold broadcastFrame. destruct (Encode t body); [|done].
  apply (foldl_inv (λ h', roster_of h' = roster_of h)); [|done].
  intros h' p <-. unfold queue_except. case_bool_decide; [done|apply roster_of_queue].
Qed.

Lemma roster_of_sendTo `{Cbor T} h id t (body : T) :
  roster_of (sendTo h id t body) = roster_of h.
Proof.
  unfold sendTo. destruct (_ !! _); [|done]. destruct (Encode _ _); [apply roster_of_queue|done].
Qed.

Lemma roster_of_route h from typ raw : roster_of (route h from typ raw) = roster_of h.
Proof.
  unfold route. case_bool_decide; [|case_bool_decide; [|done]].
  - destruct (Body Direct raw); [destruct (_ !! _)|]; by rewrite roster_of_sendTo.
  - destruct (Body Broadcast raw); by rewrite ?roster_of_sendTo, ?roster_of_broadcast.
Qed.

Lemma held_ids_delete id m : held_ids (delete id m) = held_ids m ∖ {[id]}.
Proof.
  apply set_eq. intros i. rewrite elem_of_difference, elem_of_singleton, !elem_of_held_ids.
  rewrite lookup_delete. case_decide; naive_solver.
Qed.

Abbreviation refines h h' := (rtc (roster_step (h_max h)) (roster_of h) (roster_of h')).

Lemma fixed_max h h' : fixed h' = fixed h → h_max h' = h_max h.
Proof. unfold fixed. congruence. Qed.

Lemma refines_remove h id :
  refines h (removeParticipant h id).1 ∧ fixed (removeParticipant h id).1 = fixed h.
Proof.
  destruct (h_clients h !! id) as [c|] eqn:Hc; [|unfold removeParticipant; by rewrite Hc].
  rewrite (removeParticipant_eq _ _ c) by done.
  destruct (drop_client_fields h id c) as (E1 & _ & E2 & E3 & _ & E4 & _).
  assert (roster_step (h_max h) (roster_of h) (roster_of (drop_client h id c))) as Hst.
  { unfold roster_of. rewrite E1, E3, E4, dom_delete_L, held_ids_delete.
    apply r_leave. by eapply elem_of_dom_2. }
  assert (fixed (drop_client h id c) = fixed h) as Hfx
    by (unfold drop_client, stop_timer; by destruct (c_timer c)).
  case_bool_decide; cbn [fst]; rewrite ?roster_of_broadcast; (split; [by apply rtc_once|]);
    [done|]. rewrite <- Hfx. apply same_session_fixed, broadcastFrame_same_session.
Qed.

Lemma refines_drain fuel h h' b : drain fuel h = Some (h', b) → refines h h'.
Proof.
  revert h. induction fuel as [|fuel IH]; intros h; cbn [drain];
    destruct (h_evict h) as [|id rest]; try done.
  1,2: by intros [= <- _].
  destruct (refines_remove (set_evict h rest) id) as [Hr Hm].
  destruct (removeParticipant (set_evict h rest) id) as [h1 []]; simpl in *.
  - intros [= <- _]. done.
  - apply fixed_max in Hm. intros Hd%IH. rewrite Hm in Hd. by etrans.
Qed.

Lemma refines_join h out k b :
  hub_inv h → in_width 32 (h_nextID h + 1) → refines h (handleJoin h out k b).1.
Proof.
  intros Hinv Hw. rewrite handleJoin_eq. case_bool_decide as Hmax; [done|].
  destruct (join_frame h b); cbn [fst].
  - rewrite roster_of_broadcast. apply rtc_once.
    unfold roster_of. simpl. rewrite wrap_small, dom_insert_L by done.
    assert (∀ c, c_held c = false →
      held_ids (<[h_nextID h := c]> (h_clients h)) = held_ids (h_clients h)) as ->.
    { intros c Hc. apply set_eq. intros i. rewrite !elem_of_held_ids, lookup_insert.
      pose proof (nextID_unused h Hinv) as Hn. case_decide; [subst|done]. rewrite Hn.
      split; intros (d & [= ?] & ?); congruence. }
    + apply r_admit; [rewrite size_dom; lia|]. by apply not_elem_of_dom, nextID_unused.
    + done.
  - apply rtc_once. unfold roster_of. simpl. rewrite wrap_small by done. apply r_skip.
Qed.

Lemma refines_leave h id gen u : hub_inv h → refines h (handleLeave h id gen u).1.
Proof.
  intros Hinv. unfold handleLeave. destruct (h_clients h !! id) as [c|] eqn:Hc; [|done].
  destruct (c_held c) eqn:Hh; simpl; [done|]. case_bool_decide; [done|].
  destruct (u && _); [|by apply refines_remove]. apply rtc_once.
  unfold roster_of. simpl. rewrite dom_alter_L.
  assert (∀ c', c_held c' = true →
    held_ids (alter (λ _, c') id (h_clients h)) = {[id]} ∪ held_ids (h_clients h)) as ->.
  { intros c' Hc'. apply set_eq. intros i.
    rewrite elem_of_union, elem_of_singleton, !elem_of_held_ids, lookup_alter.
    case_decide; [subst; rewrite Hc; naive_solver|naive_solver]. }
  - apply r_drop; [by eapply elem_of_dom_2|]. rewrite elem_of_held_ids.
    intros (d & ? & ?). congruence.
  - done.
Qed.

Lemma refines_resume h id token k : hub_inv h → refines h (handleResume h id token k).1.
Proof.
  intros Hinv. rewrite handleResume_eq by done. destruct (h_clients h !! id) as [c|] eqn:Hc; [|done].
  case_bool_decide; [done|]. destruct (Encode _ _) as [jr|]; [|done].
  assert (∀ out, held_ids (alter (λ _, resume_client out k c) id (h_clients h))
    = held_ids (h_clients h) ∖ {[id]}) as Hheld.
  { intros out. apply set_eq. intros i.
    rewrite elem_of_difference, elem_of_singleton, !elem_of_held_ids, lookup_alter.
    case_decide; [subst; rewrite Hc|]; naive_solver. }
  assert (∀ h' out, h_clients h' = alter (λ _, resume_client out k c) id (h_clients h) →
    h_nextID h' = h_nextID h → h_host h' = h_host h → refines h h') as Hr.
  { intros h' out E1 E2 E3. unfold roster_of. rewrite E1, E2, E3, dom_alter_L, Hheld.
    destruct (c_held c) eqn:Hh.
    - apply rtc_once, r_return. rewrite elem_of_held_ids. eauto.
    - rewrite difference_disjoint_L; [done|].
      intros i Hi ->%elem_of_singleton. rewrite elem_of_held_ids in Hi.
      destruct Hi as (d & ? & ?). congruence. }
  destruct (c_held c); cbn [fst].
  - apply (Hr _ (c_out c)); unfold resume_held, stop_timer; by destruct (c_timer c).
  - by eapply (Hr _ (make_chan (kick h (c_kick c))).2).
Qed.

Lemma refines_handle_cmd h c :
  hub_inv h → in_width 32 (h_nextID h + 1) → refines h (handle_cmd h c).1.1.
Proof.
  intros Hinv Hw. destruct c; simpl.
  - pose proof (refines_join h out k isCreate Hinv Hw). by destruct (handleJoin _ _ _ _).
  - pose proof (refines_leave h id gen unexpected Hinv). by destruct (handleLeave _ _ _ _).
  - pose proof (refines_resume h id token k Hinv). by destruct (handleResume _ _ _ _).
  - unfold handleGraceExpired. destruct (_ !! _); [|done]. destruct (negb _ || _); [done|].
    destruct (refines_remove h id) as [Hr _]. by destruct (removeParticipant h id).
  - unfold handleClaimHost. destruct (h_clients h !! id) eqn:Hc; [|done]. apply rtc_once.
    apply r_claim. by eapply elem_of_dom_2.
  - by rewrite roster_of_route.
  - done.
  - unfold handleClose. by rewrite roster_of_broadcast.
Qed.

Lemma handle_cmd_fixed h c : fixed (handle_cmd h c).1.1 = fixed h.
Proof.
  destruct c; simpl.
  - rewrite handleJoin_eq. case_bool_decide; [done|]. destruct (join_frame h isCreate); [|done].
    cbn [fst]. etrans; [apply same_session_fixed, broadcastFrame_same_session|done].
  - unfold handleLeave. destruct (_ !! _) as [c|]; [|done]. destruct (c_held c || _); [done|].
    destruct (unexpected && _); [done|].
    destruct (refines_remove h id) as [_ Hm]. by destruct (removeParticipant h id).
  - unfold handleResume. destruct (_ !! _) as [c|]; [|done]. case_bool_decide; [done|].
    destruct (Encode _ _); [|done]. unfold stop_timer. by destruct (c_timer c), (c_held c).
  - unfold handleGraceExpired. destruct (_ !! _); [|done]. destruct (negb _ || _); [done|].
    destruct (refines_remove h id) as [_ Hm]. by destruct (removeParticipant h id).
  - unfold handleClaimHost. by destruct (_ !! _).
  - unfold route. case_bool_decide; [|case_bool_decide; [|done]].
    + destruct (Body Direct raw); [destruct (_ !! _)|];
        (etrans; [apply same_session_fixed, sendTo_same_session|done]).
    + destruct (Body Broadcast raw); (etrans;
        [apply same_session_fixed;
        first [apply sendTo_same_session|apply broadcastFrame_same_session]|done]).
  - done.
  - apply same_session_fixed, broadcastFrame_same_session.
Qed.

Lemma refines_run_iter h c :
  hub_inv h → in_width 32 (h_nextID h + 1) → refines h (run_iter h c).1.1.
Proof.
  intros Hinv Hw. pose proof (refines_handle_cmd h c Hinv Hw) as Hc. unfold run_iter.
  pose proof (handle_cmd_fixed h c) as Hm%fixed_max.
  destruct (handle_cmd h c) as [[h1 r1] []]; simpl in *; [done|].
  pose proof (drainEvictions_drain h1) as Hd. destruct (drainEvictions h1) as [h2 b].
  apply refines_drain in Hd. rewrite Hm in Hd. by etrans.
Qed.

(** C12: refinement.  Each iteration of the run loop, the command together with
    the evictions it causes, is a sequence of steps of the abstract roster, in
    which members are admitted only under the cap and under the next identifier,
    drop and return, leave, and hand the join authority only to a member. *)
Theorem run_iter_refines h c h' r stop :
  hub_inv h → in_width 32 (h_nextID h + 1) → run_iter h c = (h', r, stop) →
  rtc (roster_step (h_max h)) (roster_of h) (roster_of h').
Proof.
  intros Hinv Hw Hr. pose proof (refines_run_iter h c Hinv Hw) as Hs. by rewrite Hr in Hs.
Qed.

(** ** Identifiers are never reused *)

Lemma roster_steps_monotone cap R R' :
  rtc (roster_step cap) R R' →
  next R ≤ next R' ∧ ∀ id, id < next R → id ∉ members R → id ∉ members R'.
Proof.
  induction 1 as [R|R R1 R2 Hst _ [IHn IHm]]; [done|]. destruct Hst; simpl in *;
    (split; [lia|]); intros i Hi Hm; apply IHm; try lia; try done.
  - apply not_elem_of_union. split; [apply not_elem_of_singleton; lia|done].
  - rewrite elem_of_difference. tauto.
Qed.

Lemma shutdown_clients h : h_clients (shutdown h) = h_clients h.
Proof.
  unfold shutdown. simpl. apply (foldl_inv (λ h', h_clients h' = h_clients h)); [|done].
  intros h' p <-. simpl. unfold stop_timer. by destruct (c_timer _).
Qed.

(** C31: an identifier is given out once.  A participant that has left is not a
    member after any further sequence of commands, and any attempt to resume its
    slot, whatever the token, is refused. *)
Theorem departed_never_returns h inbox id :
  hub_inv h → h_evict h = [] → run_ok h inbox →
  id < h_nextID h → h_clients h !! id = None →
  let h' := (run h inbox).1.1 in
  h_clients h' !! id = None ∧
  ∀ token k, rrep_ok (handleResume h' id token k).2 = false.
Proof.
  intros Hinv He Hok Hid Hn. cbv zeta.
  assert (h_clients (run h inbox).1.1 !! id = None) as Hgone.
  { revert h Hinv He Hok Hid Hn. induction inbox as [|c inbox IH];
      intros h Hinv He Hok Hid Hn; simpl; [done|].
    destruct Hok as (Hc & Hw & Hrest).
    pose proof (run_iter_inv h c Hinv He Hc Hw) as [Hi Hev].
    pose proof (refines_run_iter h c Hinv Hw) as Hr.
    destruct (run_iter h c) as [[h1 r] stop]. simpl in *.
    apply roster_steps_monotone in Hr as [Hnext Hm]. simpl in Hnext, Hm.
    assert (h_clients h1 !! id = None) as Hn1
      by (apply not_elem_of_dom, Hm; [done|by apply not_elem_of_dom]).
    destruct stop; cbn [fst]; [by rewrite shutdown_clients|].
    pose proof (IH h1 Hi (Hev eq_refl) Hrest ltac:(lia) Hn1) as Hf.
    by destruct (run h1 inbox) as [[h2 rs] rest]. }
  split; [done|]. intros token k. unfold handleResume. by rewrite Hgone.
Qed.

(** the eviction loop terminates and finishes the job.  The bound
    [drain_fuel] (participants queued, plus those that could still be) is always
    enough; afterwards nobody marked for eviction is left, or the session is
    empty and the hub stops. *)
Theorem drainEvictions_terminates h :
  hub_inv h →
  drain (drain_fuel h) h = Some (drainEvictions h) ∧
  let '(h', stop) := drainEvictions h in
  hub_inv h' ∧
  if stop : bool then h_clients h' = ∅
  else h_evict h' = [] ∧ ∀ id c, h_clients h' !! id = Some c → c_evicting c = false.
Proof.
  intros Hinv. split; [apply drainEvictions_drain|].
  pose proof (drainEvictions_inv h Hinv) as [Hi Hs]. destruct (drainEvictions h) as [h' []];
    simpl in *; [done|]. split; [done|]. split; [done|]. intros id c Hc.
  destruct (c_evicting c) eqn:Hev; [|done].
  assert (id ∈ h_evict h') as Hx by (apply (inv_evict h' Hi); eauto).
  rewrite Hs in Hx. by apply elem_of_nil in Hx.
Qed.

(** ** Shutting down *)

(** The loop of [shutdown] kicks every client it visits and disarms its timer. *)
Definition shut_one (h : hub) (p : ParticipantID * client) : hub :=
  kick (stop_timer h p.2) (c_kick p.2).

Lemma shut_loop l h :
  let h' := foldl shut_one h l in
  h_clients h' = h_clients h ∧ ev_chans (h_env h') = ev_chans (h_env h) ∧
  (∀ p, p ∈ l → c_kick p.2 ∈ ev_kicked (h_env h')) ∧
  (∀ k, k ∈ ev_kicked (h_env h) → k ∈ ev_kicked (h_env h')) ∧
  ∀ t, t ∈ h_armed h' → t ∈ h_armed h ∧ ∀ p, p ∈ l → c_timer p.2 ≠ Some t.
Proof.
  revert h. induction l as [|p l IH]; intros h; simpl.
  { split_and!; try done; [by intros ? ?%elem_of_nil|].
    intros t Ht. split; [done|]. by intros ? ?%elem_of_nil. }
  destruct (IH (shut_one h p)) as (E1 & E2 & Hk & Hold & Ha). split_and!.
  - rewrite E1. unfold shut_one, stop_timer. by destruct (c_timer p.2).
  - rewrite E2. unfold shut_one, stop_timer. by destruct (c_timer p.2).
  - intros q [->|Hq]%elem_of_cons; [|by apply Hk]. apply Hold. simpl. set_solver.
  - intros k Hin. apply Hold. unfold shut_one, stop_timer.
    destruct (c_timer p.2); simpl; set_solver.
  - intros t Ht. apply Ha in Ht as [Ht Hl]. revert Ht. unfold shut_one, stop_timer.
    destruct (c_timer p.2) as [t'|] eqn:Et; simpl.
    + intros [Ht Hne]%elem_of_difference. split; [done|].
      intros q [->|Hq]%elem_of_cons; [|by apply Hl].
      rewrite Et. intros [= ->]. by apply Hne, elem_of_singleton.
    + intros Ht. split; [done|]. intros q [->|Hq]%elem_of_cons; [by rewrite Et|by apply Hl].
Qed.

(** closing a session (the sweeper's command) reaches everyone: each member's
    slot changes by the SessionClosed notice, after which every connection has
    been kicked, no grace timer is left armed, and [done] is closed. *)
Theorem close_notifies h reason f :
  hub_inv h → Encode MsgSessionClosed (mkSessionClosed reason) = Ok f →
  let h' := (run h [closeCmd reason]).1.1 in
  h_done h' = true ∧ h_armed h' = ∅ ∧
  ∀ id c q, slot h id = Some (c, q) →
    slot h' id = Some (queue_slot f (c, q)) ∧ c_kick c ∈ ev_kicked (h_env h').
Proof.
  intros Hinv Hf h'. set (h1 := handleClose h reason).
  assert (h' = set_done (foldl shut_one h1 (range (h_clients h1))) true) as -> by done.
  assert (hub_inv h1) as Hi1 by (by apply broadcastFrame_inv).
  destruct (shut_loop (range (h_clients h1)) h1) as (E1 & E2 & Hk & _ & Ha).
  set (h2 := foldl _ _ _) in *. split; [done|]. split.
  - simpl. apply set_eq. intros t. split; [|set_solver].
    intros [Ht Hl]%Ha. destruct (inv_armed h1 Hi1 t Ht) as (c & Hc & Htm).
    by destruct (Hl (t.1, c) (proj2 (elem_of_range _ _ _) Hc)).
  - intros id c q Hs. assert (slot h1 id = Some (queue_slot f (c, q))) as Hs1.
    { unfold h1, handleClose. rewrite (slot_broadcastFrame _ _ _ _ f) by done.
      rewrite bool_decide_eq_false_2, Hs; [done|]. intros ->.
      apply slot_Some in Hs as [Hc _]. apply (inv_ids h Hinv) in Hc. lia. }
    split.
    + rewrite <- Hs1. by apply slot_fields.
    + destruct (queue_slot f (c, q)) as [c1 q1] eqn:Eq.
      assert (c_kick c1 = c_kick c) as <-.
      { unfold queue_slot in Eq. destruct (c_evicting c); [by simplify_eq|].
        by case_bool_decide; simplify_eq. }
      apply slot_Some in Hs1 as [Hc _]. apply (Hk (id, c1)). by apply elem_of_range.
Qed.
End Life.
