(* ===== verification/HubSys.v ===== *)
(** * The hub among its goroutines

    A step relation over the hub's goroutine, its inbox, the connection
    handlers that send commands, the writers that drain the out channels and the
    grace timers.  Everything interleaves; the hub's handlers run one command at
    a time.  The invariant holds in every reachable state. *)
From S2P Require Import Prelude Wire Hub HubInv HubSpec HubLife.

Open Scope N_scope.

(** A grace timer that fired is a goroutine blocked in [h.send]. *)
Record sys := mkSys {
  s_hub : hub;
  s_inbox : list cmd;
  s_firing : list (ParticipantID * N) }.

Definition join_out (c : cmd) : option chan_ref :=
  match c with joinCmd out _ _ => Some out | _ => None end.

(** A channel some join in the inbox brings. *)
Definition pending_out (inbox : list cmd) (ch : chan_ref) : Prop :=
  ∃ c, c ∈ inbox ∧ join_out c = Some ch.

Section Sys.
Context {WC : WireCodec} {EN : Entropy} {MR : MapRange ParticipantID client}.

Inductive step : sys → sys → Prop :=
(** [hello] allocates the joiner's channel and sends the join; the send of
    [hub.send] can be taken whether or not the hub has stopped. *)
| st_join h ib fs k isCreate :
    (length ib < inboxCap)%nat →
    step (mkSys h ib fs)
         (mkSys (make_chan h).1 (ib ++ [joinCmd (make_chan h).2 k isCreate]) fs)
(** The other commands connections, the sweeper and the dashboard send. *)
| st_send h ib fs c :
    (length ib < inboxCap)%nat → join_out c = None →
    step (mkSys h ib fs) (mkSys h (ib ++ [c]) fs)
(** A grace timer fires, and later gets its command into the inbox. *)
| st_fire h ib fs t :
    t ∈ h_armed h →
    step (mkSys h ib fs) (mkSys (set_armed h (h_armed h ∖ {[t]})) ib (t :: fs))
| st_expired h ib fs fs' t :
    (length ib < inboxCap)%nat → fs ≡ₚ t :: fs' →
    step (mkSys h ib fs) (mkSys h (ib ++ [graceExpiredCmd t.1 t.2]) fs')
(** One iteration of [run]. *)
| st_run h c ib fs h' r :
    h_done h = false → in_width 32 (h_nextID h + 1) → run_iter h c = (h', r, false) →
    step (mkSys h (c :: ib) fs) (mkSys h' ib fs)
| st_stop h c ib fs h' r :
    h_done h = false → in_width 32 (h_nextID h + 1) → run_iter h c = (h', r, true) →
    step (mkSys h (c :: ib) fs) (mkSys (shutdown h') ib fs)
(** A writer takes the oldest frame of a channel. *)
| st_write h ib fs ch f q :
    ev_chans (h_env h) !! ch = Some (f :: q) →
    step (mkSys h ib fs) (mkSys (chan_put h ch q) ib fs)
(** A connection's read loop queues a pong or an error on its own channel. *)
| st_queueFrame h ib fs ch f q :
    ¬ pending_out ib ch → chan_try_send sendBuffer (chan_get h ch) f = Some q →
    step (mkSys h ib fs) (mkSys (chan_put h ch q) ib fs)
(** A connection kicks itself; the other hubs bump counters and draw tokens. *)
| st_kick h ib fs k : step (mkSys h ib fs) (mkSys (kick h k) ib fs)
| st_others h ib fs m d :
    step (mkSys h ib fs) (mkSys (set_env h (set_draws (set_metrics (h_env h) m) d)) ib fs).

(** A running hub always takes its next command, so [h.send] does
    not wait for ever for room.  After the hub has stopped, [h.send] returns by [done]. *)
Lemma inbox_drains h c ib fs :
  h_done h = false → in_width 32 (h_nextID h + 1) →
  ∃ h', step (mkSys h (c :: ib) fs) (mkSys h' ib fs).
Proof.
  intros Hd Hn. destruct (run_iter h c) as [[h' r] []] eqn:E.
  - eexists. by eapply st_stop.
  - eexists. by eapply st_run.
Qed.

(** ** Held slots have an expiry on its way *)

Definition pend (h : hub) (X : ParticipantID * N → Prop) : Prop :=
  ∀ id c, h_clients h !! id = Some c → c_held c = true →
    (id, c_gen c) ∈ h_armed h ∨ X (id, c_gen c).

Definition expiring (s : sys) (t : ParticipantID * N) : Prop :=
  t ∈ s_firing s ∨ graceExpiredCmd t.1 t.2 ∈ s_inbox s.

Record sys_inv (s : sys) : Prop := {
  si_hub : hub_inv (s_hub s);
  si_idle : h_done (s_hub s) = false → h_evict (s_hub s) = [];
  si_inbox : (length (s_inbox s) ≤ inboxCap)%nat;
  si_fresh : Forall (cmd_ok (s_hub s)) (s_inbox s);
  si_distinct : NoDup (omap join_out (s_inbox s));
  si_pend : h_done (s_hub s) = false → pend (s_hub s) (expiring s)
}.

Lemma pend_mono h (X Y : _ → Prop) : (∀ t, X t → Y t) → pend h X → pend h Y.
Proof. intros HXY Hp id c Hc Hh. destruct (Hp id c Hc Hh); eauto. Qed.

(** [pend] reads the clients' [held] and [gen] and the armed timers. *)
Lemma pend_same h h' X :
  h_armed h' = h_armed h →
  (∀ id c', h_clients h' !! id = Some c' → c_held c' = true →
     ∃ c, h_clients h !! id = Some c ∧ c_held c = true ∧ c_gen c = c_gen c') →
  pend h X → pend h' X.
Proof.
  intros Ea Hcl Hp id c' Hc' Hh. destruct (Hcl id c' Hc' Hh) as (c & Hc & Hh' & <-).
  rewrite Ea. eauto.
Qed.

Lemma pend_queue h id f X : pend h X → pend (queue h id f) X.
Proof.
  intros Hp. destruct (queue_cases h id f)
    as [[-> _]|[(c & _ & _ & _ & ->)|(c & _ & _ & _ & ->)]]; [done|by eapply pend_same; eauto|].
  eapply pend_same; [| |done]; [unfold queue_overflow; by destruct (c_held c)|].
  intros i d. assert (h_clients (queue_overflow h id c) = alter mark_evicting id (h_clients h)) as ->
    by (unfold queue_overflow; by destruct (c_held c)).
  rewrite lookup_alter. case_decide; [subst|eauto].
  intros (d0 & Hd0 & ->)%fmap_Some Hh. exists d0. auto.
Qed.

Lemma pend_broadcast `{Cbor T} h t (body : T) x X :
  pend h X → pend (broadcastFrame h t body x) X.
Proof.
  intros Hp. unfold broadcastFrame. destruct (Encode t body); [|done].
  apply (foldl_inv (λ h, pend h X)); [|done].
  intros h' p ?. unfold queue_except. case_bool_decide; [done|by apply pend_queue].
Qed.

Lemma pend_sendTo `{Cbor T} h id t (body : T) X : pend h X → pend (sendTo h id t body) X.
Proof.
  intros. unfold sendTo. destruct (_ !! _); [|done]. destruct (Encode _ _); [by apply pend_queue|done].
Qed.

(** Stopping one slot's timer leaves the others'. *)
Lemma armed_stop_timer h id c t :
  hub_inv h → h_clients h !! id = Some c → t ∈ h_armed h → t.1 ≠ id →
  t ∈ h_armed (stop_timer h c).
Proof.
  intros Hinv Hc Ht Hne. unfold stop_timer. rewrite (inv_timer h Hinv _ _ Hc).
  destruct (c_held c); simpl; [|done]. rewrite elem_of_difference, elem_of_singleton.
  split; [done|]. by intros ->.
Qed.

Lemma pend_remove h id X :
  hub_inv h → pend h (λ t, X t ∨ t.1 = id) →
  pend (removeParticipant (set_evict h (filter (λ i, i ≠ id) (h_evict h))) id).1 X.
Proof.
  intros Hinv Hp. destruct (h_clients h !! id) as [c|] eqn:Hc.
  - rewrite (removeParticipant_eq _ _ c) by done.
    set (h0 := set_evict h _). assert (pend (drop_client h0 id c) X) as Hd.
    { destruct (drop_client_fields h0 id c) as (E1 & _ & _ & _ & _ & _ & E2 & _).
      intros i d. rewrite E1, E2. intros [Hne Hd]%lookup_delete_Some Hh.
      destruct (Hp i d Hd Hh) as [Ha|[Hx|Hi]]; [left|by right|done].
      assert (h_armed (stop_timer h0 c) = h_armed (stop_timer h c)) as ->
        by (unfold stop_timer; by destruct (c_timer c)).
      by apply (armed_stop_timer h id). }
    case_bool_decide; simpl; [done|by apply pend_broadcast].
  - unfold removeParticipant. simpl. rewrite Hc. simpl. intros i d Hd Hh. simpl in *.
    destruct (Hp i d Hd Hh) as [Ha|[Hx|Hi]]; [by left|by right|]. simpl in Hi. congruence.
Qed.

Lemma pend_drain fuel h h' b X :
  hub_inv h → drain fuel h = Some (h', b) → pend h X → pend h' X.
Proof.
  revert h. induction fuel as [|fuel IH]; intros h Hinv; cbn [drain];
    destruct (h_evict h) as [|id rest] eqn:E; try done.
  1,2: by intros [= <- _].
  pose proof (removeParticipant_inv h id Hinv) as Hr.
  pose proof (pend_remove h id X Hinv) as Hp.
  rewrite (evict_pop h id rest Hinv E) in Hr, Hp.
  destruct (removeParticipant (set_evict h rest) id) as [h1 []] eqn:Er; simpl in *.
  - intros [= <- _] HX. apply Hp. eapply pend_mono, HX. auto.
  - intros Hd HX. apply (IH h1 Hr Hd), Hp. eapply pend_mono, HX. auto.
Qed.

Lemma pend_remove_idle h id X :
  hub_inv h → h_evict h = [] → pend h (λ t, X t ∨ t.1 = id) →
  pend (removeParticipant h id).1 X.
Proof.
  intros Hinv He Hp. pose proof (pend_remove h id X Hinv Hp) as H'.
  by rewrite (filter_all _ (h_evict h)), set_evict_id in H' by (by rewrite He).
Qed.

Lemma pend_join h out k b X : hub_inv h → pend h X → pend (handleJoin h out k b).1 X.
Proof.
  intros Hinv Hp. rewrite handleJoin_eq. case_bool_decide; [done|].
  destruct (join_frame h b) as [frame|]; cbn [fst]; [|done]. apply pend_broadcast.
  eapply pend_same; [| |done]; [done|]. simpl.
  intros i c' [[<- <-]|[Hne Hc]]%lookup_insert_Some Hh; [done|eauto].
Qed.

Lemma pend_leave h id gen u X :
  hub_inv h → h_evict h = [] → pend h X → pend (handleLeave h id gen u).1 X.
Proof.
  intros Hinv He Hp. unfold handleLeave. destruct (h_clients h !! id) as [c|] eqn:Hc; [|done].
  destruct (c_held c) eqn:Hh; simpl; [done|]. case_bool_decide; [done|].
  destruct (u && _); [|apply pend_remove_idle; try done; eapply pend_mono, Hp; auto].
  intros i d. simpl. rewrite lookup_alter. case_decide as Hi.
  - subst. rewrite Hc. intros [= <-] _. left. simpl.
    rewrite (inv_key h Hinv _ _ Hc). set_solver.
  - intros Hd Hh'. destruct (Hp i d Hd Hh'); [left; set_solver|by right].
Qed.

Lemma pend_resume h id token k X :
  hub_inv h → pend h X → pend (handleResume h id token k).1 X.
Proof.
  intros Hinv Hp. rewrite handleResume_eq by done.
  destruct (h_clients h !! id) as [c|] eqn:Hc; [|done].
  case_bool_decide; [done|]. destruct (Encode _ _) as [jr|]; [|done].
  destruct (c_held c) eqn:Hh; cbn [fst]; intros i d.
  - assert (h_clients (resume_held h id c k jr)
      = alter (λ _, resume_client (c_out c) k c) id (h_clients h) ∧
      h_armed (resume_held h id c k jr) = h_armed (stop_timer h c)) as [-> ->]
      by (unfold resume_held, stop_timer; by destruct (c_timer c)).
    rewrite lookup_alter. case_decide as Hi; [subst; rewrite Hc; by intros [= <-]|].
    intros Hd Hh'. destruct (Hp i d Hd Hh') as [Ha|]; [left|by right].
    by apply (armed_stop_timer h id).
  - simpl. rewrite lookup_alter. case_decide as Hi; [subst; rewrite Hc; by intros [= <-]|].
    apply Hp.
Qed.

Lemma pend_route h from typ raw X : pend h X → pend (route h from typ raw) X.
Proof.
  intros Hp. assert (∀ f, pend (bump h f) X) as Hb by done.
  assert (∀ f g, pend (bump (bump h f) g) X) as Hbb by done.
  unfold route. case_bool_decide; [|case_bool_decide; [|done]].
  - destruct (Body Direct raw); [destruct (_ !! _)|]; by apply pend_sendTo.
  - destruct (Body Broadcast raw); [by apply pend_broadcast|by apply pend_sendTo].
Qed.

Lemma pend_handle_cmd h c X :
  hub_inv h → h_evict h = [] →
  pend h (λ t, X t ∨ c = graceExpiredCmd t.1 t.2) → pend (handle_cmd h c).1.1 X.
Proof.
  intros Hinv He Hp. assert ((∀ a b, c ≠ graceExpiredCmd a b) → pend h X) as Hp'.
  { intros Hne. eapply pend_mono, Hp. intros t [?|?]; [done|]. by destruct (Hne t.1 t.2). }
  destruct c; simpl; try (specialize (Hp' ltac:(done))).
  - pose proof (pend_join h out k isCreate X Hinv Hp'). by destruct (handleJoin _ _ _ _).
  - pose proof (pend_leave h id gen unexpected X Hinv He Hp').
    by destruct (handleLeave _ _ _ _).
  - pose proof (pend_resume h id token k X Hinv Hp'). by destruct (handleResume _ _ _ _).
  - unfold handleGraceExpired. destruct (h_clients h !! id) as [c|] eqn:Hc.
    + destruct (c_held c) eqn:Hh; simpl; [case_bool_decide as Hg|].
      * intros i d Hd Hh'. destruct (Hp i d Hd Hh') as [?|[?|E]]; [by left|by right|].
        simpl in Hd, E. injection E as -> ->. congruence.
      * pose proof (pend_remove_idle h id X Hinv He) as Hr.
        destruct (removeParticipant h id). apply Hr. eapply pend_mono, Hp.
        intros t [?|E]; [by left|]. injection E as -> _. by right.
      * intros i d Hd Hh'. destruct (Hp i d Hd Hh') as [?|[?|E]]; [by left|by right|].
        simpl in Hd, E. injection E as -> ->. congruence.
    + intros i d Hd Hh'. destruct (Hp i d Hd Hh') as [?|[?|E]]; [by left|by right|].
      simpl in Hd, E. injection E as -> ->. congruence.
  - unfold handleClaimHost. by destruct (_ !! _).
  - by apply pend_route.
  - done.
  - by apply pend_broadcast.
Qed.

Lemma pend_run_iter h c X :
  hub_inv h → h_evict h = [] → cmd_ok h c → in_width 32 (h_nextID h + 1) →
  pend h (λ t, X t ∨ c = graceExpiredCmd t.1 t.2) → pend (run_iter h c).1.1 X.
Proof.
  intros Hinv He Hok Hw Hp. pose proof (handle_cmd_inv h c Hinv He Hok Hw) as Hi.
  pose proof (pend_handle_cmd h c X Hinv He Hp) as Hp1. unfold run_iter.
  destruct (handle_cmd h c) as [[h1 r] []]; [done|]. simpl in Hi, Hp1.
  pose proof (drainEvictions_drain h1) as Hd. destruct (drainEvictions h1) as [h2 b].
  simpl. by eapply pend_drain.
Qed.

(** ** Channels the hub does not know yet *)

Lemma fresh_out_fields h h' ch :
  h_clients h' = h_clients h → ev_chans (h_env h') = ev_chans (h_env h) →
  fresh_out h ch → fresh_out h' ch.
Proof. unfold fresh_out. by intros -> ->. Qed.

Lemma fresh_out_queue h id f ch : fresh_out h ch → fresh_out (queue h id f) ch.
Proof.
  intros [Hc Hm]. destruct (queue_cases h id f)
    as [[-> _]|[(c & Hl & _ & _ & ->)|(c & Hl & _ & _ & ->)]]; [done| |].
  - split; [|done]. simpl. rewrite lookup_insert_ne; [done|]. by apply (Hm id).
  - assert (h_clients (queue_overflow h id c) = alter mark_evicting id (h_clients h) ∧
      ev_chans (h_env (queue_overflow h id c)) = ev_chans (h_env h)) as [E1 E2]
      by (unfold queue_overflow; by destruct (c_held c)).
    unfold fresh_out. rewrite E1, E2. split; [done|]. intros i d.
    rewrite lookup_alter. case_decide; [subst|apply Hm].
    intros (d0 & Hd & ->)%fmap_Some. exact (Hm i d0 Hd).
Qed.

Lemma fresh_out_broadcast `{Cbor T} h t (body : T) x ch :
  fresh_out h ch → fresh_out (broadcastFrame h t body x) ch.
Proof.
  intros Hf. unfold broadcastFrame. destruct (Encode t body); [|done].
  apply (foldl_inv (λ h, fresh_out h ch)); [|done].
  intros h' p ?. unfold queue_except. case_bool_decide; [done|by apply fresh_out_queue].
Qed.

Lemma fresh_out_sendTo `{Cbor T} h id t (body : T) ch :
  fresh_out h ch → fresh_out (sendTo h id t body) ch.
Proof.
  intros. unfold sendTo. destruct (_ !! _); [|done].
  destruct (Encode _ _); [by apply fresh_out_queue|done].
Qed.

Lemma fresh_out_remove h id ch : fresh_out h ch → fresh_out (removeParticipant h id).1 ch.
Proof.
  intros [Hc Hm]. destruct (h_clients h !! id) as [c|] eqn:Hl;
    [|unfold removeParticipant; by rewrite Hl].
  rewrite (removeParticipant_eq _ _ c) by done.
  assert (fresh_out (drop_client h id c) ch).
  { destruct (drop_client_fields h id c) as (E1 & E2 & _). unfold fresh_out.
    rewrite E1, E2. split; [done|]. by apply map_Forall_delete. }
  case_bool_decide; simpl; [done|by apply fresh_out_broadcast].
Qed.

Lemma fresh_out_drain fuel h h' b ch :
  drain fuel h = Some (h', b) → fresh_out h ch → fresh_out h' ch.
Proof.
  revert h. induction fuel as [|fuel IH]; intros h; cbn [drain];
    destruct (h_evict h) as [|id rest]; try done.
  1,2: by intros [= <- _].
  pose proof (fresh_out_remove (set_evict h rest) id ch) as Hr.
  destruct (removeParticipant (set_evict h rest) id) as [h1 []]; simpl in Hr.
  - intros [= <- _]. done.
  - intros Hd Hf. eapply IH; [done|]. by apply Hr.
Qed.

Lemma fresh_out_put h ch ch' q : ch' ≠ ch → fresh_out h ch → fresh_out (chan_put h ch' q) ch.
Proof. intros Hne [Hc Hm]. split; [|done]. simpl. by rewrite lookup_insert_ne. Qed.

Lemma fresh_out_upd h id f ch :
  (∀ c, h_clients h !! id = Some c → c_out (f c) ≠ ch) →
  fresh_out h ch → fresh_out (upd_client h id f) ch.
Proof.
  intros Hf [Hc Hm]. split; [done|]. simpl. intros i d. rewrite lookup_alter.
  case_decide; [subst|apply Hm]. intros (d0 & Hd & ->)%fmap_Some. by apply Hf.
Qed.

Lemma make_chan_ne h ch : fresh_out h ch → (make_chan h).2 ≠ ch.
Proof. intros [Hc _] <-. pose proof (make_chan_fresh h). congruence. Qed.

Lemma fresh_out_join h out k b ch :
  ch ≠ out → fresh_out h ch → fresh_out (handleJoin h out k b).1 ch.
Proof.
  intros Hne Hf. rewrite handleJoin_eq. case_bool_decide; [done|].
  destruct (join_frame h b) as [frame|]; [|done]. cbn [fst]. apply fresh_out_broadcast.
  destruct Hf as [Hc Hm]. split; simpl; [by rewrite lookup_insert_ne|].
  by apply map_Forall_insert_2.
Qed.

Lemma fresh_out_resume h id token k ch :
  hub_inv h → fresh_out h ch → fresh_out (handleResume h id token k).1 ch.
Proof.
  intros Hinv Hf. rewrite handleResume_eq by done.
  destruct (h_clients h !! id) as [c|] eqn:Hc; [|done].
  case_bool_decide; [done|]. destruct (Encode _ _) as [jr|]; [|done].
  assert (c_out c ≠ ch) as Hco by (destruct Hf as [_ Hm]; by apply (Hm id)).
  destruct (c_held c); cbn [fst].
  - unfold resume_held. cbv zeta. eapply fresh_out_fields; [reflexivity..|].
    apply fresh_out_put; [done|]. apply fresh_out_upd; [done|].
    eapply fresh_out_fields, Hf; unfold stop_timer; by destruct (c_timer c).
  - pose proof (make_chan_ne (kick h (c_kick c)) ch Hf) as Hn. unfold resume_live.
    assert (fresh_out (make_chan (kick h (c_kick c))).1 ch) as Hm by (by apply fresh_out_put).
    destruct (make_chan (kick h (c_kick c))) as [h1 out]. simpl in Hn.
    eapply fresh_out_fields; [reflexivity..|].
    apply fresh_out_put; [done|]. by apply fresh_out_upd.
Qed.

Lemma fresh_out_handle_cmd h c ch :
  hub_inv h → join_out c ≠ Some ch → fresh_out h ch → fresh_out (handle_cmd h c).1.1 ch.
Proof.
  intros Hinv Hne Hf. destruct c; simpl in *; try done.
  - pose proof (fresh_out_join h out k isCreate ch ltac:(congruence) Hf).
    by destruct (handleJoin _ _ _ _).
  - unfold handleLeave. destruct (h_clients h !! id) as [c|]; [|done].
    destruct (c_held c || _); [done|]. destruct (unexpected && _); cbn [fst].
    + eapply fresh_out_fields; [reflexivity..|].
      apply (fresh_out_upd (make_chan h).1); [|by apply fresh_out_put; [by apply make_chan_ne|]].
      intros. simpl. by apply make_chan_ne.
    + pose proof (fresh_out_remove h id ch Hf). by destruct (removeParticipant h id).
  - pose proof (fresh_out_resume h id token k ch Hinv Hf). by destruct (handleResume _ _ _ _).
  - unfold handleGraceExpired. destruct (h_clients h !! id) as [c|]; [|done].
    destruct (negb _ || _); [done|].
    pose proof (fresh_out_remove h id ch Hf). by destruct (removeParticipant h id).
  - unfold handleClaimHost. by destruct (_ !! _).
  - unfold route. case_bool_decide; [|case_bool_decide; [|done]].
    + destruct (Body Direct raw); [destruct (_ !! _)|]; by apply fresh_out_sendTo.
    + destruct (Body Broadcast raw); [by apply fresh_out_broadcast|by apply fresh_out_sendTo].
  - by apply fresh_out_broadcast.
Qed.

Lemma fresh_out_run_iter h c ch :
  hub_inv h → join_out c ≠ Some ch → fresh_out h ch → fresh_out (run_iter h c).1.1 ch.
Proof.
  intros Hinv Hne Hf. pose proof (fresh_out_handle_cmd h c ch Hinv Hne Hf) as H'.
  unfold run_iter. destruct (handle_cmd h c) as [[h1 r] []]; [done|]. simpl in H'.
  pose proof (drainEvictions_drain h1) as Hd. destruct (drainEvictions h1) as [h2 b].
  by eapply fresh_out_drain.
Qed.

Lemma cmd_ok_mono h h' c :
  (∀ ch, join_out c = Some ch → fresh_out h ch → fresh_out h' ch) →
  cmd_ok h c → cmd_ok h' c.
Proof. destruct c; simpl; auto. Qed.

Lemma Forall_cmd_ok_mono h h' ib :
  (∀ ch, pending_out ib ch → fresh_out h ch → fresh_out h' ch) →
  Forall (cmd_ok h) ib → Forall (cmd_ok h') ib.
Proof.
  rewrite !Forall_forall. intros Hm Hok c Hc. apply (cmd_ok_mono h); [|by apply Hok].
  intros ch Hj. apply Hm. by exists c.
Qed.

Lemma not_pending_head c ib ch :
  NoDup (omap join_out (c :: ib)) → pending_out ib ch → join_out c ≠ Some ch.
Proof.
  simpl. intros Hnd (d & Hd & Hj) Hc. rewrite Hc in Hnd.
  apply NoDup_cons in Hnd as [Hn _]. apply Hn, list_elem_of_omap. eauto.
Qed.

(** ** The invariant of the system *)

Definition init_sys (id : SessionID) (m g cr : Z) (e : env) : sys :=
  mkSys (newHub id m g cr e) [] [].

Lemma init_sys_inv id m g cr e : (0 ≤ m)%Z → sys_inv (init_sys id m g cr e).
Proof.
  intros. split; simpl; try done; [by apply newHub_inv|unfold inboxCap; lia|constructor].
Qed.

Lemma shutdown_chans h : ev_chans (h_env (shutdown h)) = ev_chans (h_env h).
Proof.
  unfold shutdown. simpl.
  apply (foldl_inv (λ h', ev_chans (h_env h') = ev_chans (h_env h))); [|done].
  intros h' p <-. simpl. unfold stop_timer. by destruct (c_timer _).
Qed.

Lemma sys_inv_run h c ib fs :
  sys_inv (mkSys h (c :: ib) fs) → h_done h = false → in_width 32 (h_nextID h + 1) →
  let h' := (run_iter h c).1.1 in
  hub_inv h' ∧ ((run_iter h c).2 = false → h_evict h' = []) ∧ Forall (cmd_ok h') ib ∧
  pend h' (expiring (mkSys h' ib fs)).
Proof.
  intros [Hinv Hidle Hlen Hfresh Hnd Hpend] Hdone Hw. simpl in *.
  apply Forall_cons in Hfresh as [Hok Hfresh].
  pose proof (run_iter_inv h c Hinv (Hidle Hdone) Hok Hw) as [Hi He].
  split; [done|]. split; [done|]. split.
  - apply (Forall_cmd_ok_mono h); [|done]. intros ch Hp.
    apply fresh_out_run_iter; [done|]. by eapply not_pending_head.
  - apply pend_run_iter; auto. eapply pend_mono, Hpend; [|done].
    intros t [Hf|Hin]; simpl in *; [left; by left|].
    apply elem_of_cons in Hin as [->|Hin]; [by right|left; by right].
Qed.

(** Steps that leave the clients, timers and pending evictions alone. *)
Lemma sys_inv_env h h' ib fs :
  h_clients h' = h_clients h → h_armed h' = h_armed h → h_evict h' = h_evict h →
  h_done h' = h_done h → hub_inv h' →
  (∀ ch, pending_out ib ch → fresh_out h ch → fresh_out h' ch) →
  sys_inv (mkSys h ib fs) → sys_inv (mkSys h' ib fs).
Proof.
  intros E1 E2 E3 E4 Hi Hf [Hinv Hidle Hlen Hfresh Hnd Hpend]. split; simpl in *; try done.
  - by rewrite E3, E4.
  - by apply (Forall_cmd_ok_mono h).
  - rewrite E4. intros Hd. eapply pend_same, Hpend; [done| |done]. rewrite E1. eauto.
Qed.

Lemma sys_inv_enqueue h ib fs c :
  sys_inv (mkSys h ib fs) → (length ib < inboxCap)%nat → cmd_ok h c →
  (∀ ch, join_out c = Some ch → ¬ pending_out ib ch) → sys_inv (mkSys h (ib ++ [c]) fs).
Proof.
  intros [Hinv Hidle Hlen Hfresh Hnd Hpend] Hl Hok Hn. split; simpl in *; try done.
  - rewrite length_app. simpl. lia.
  - apply Forall_app. by split; [|apply Forall_singleton].
  - rewrite omap_app. simpl. destruct (join_out c) as [ch|]; simpl; [|by rewrite app_nil_r].
    apply NoDup_app. split; [done|]. split; [|apply NoDup_singleton].
    intros x Hx ->%list_elem_of_singleton. apply list_elem_of_omap in Hx as (d & Hd & Hj).
    apply (Hn ch eq_refl). by exists d.
  - intros Hd. eapply pend_mono, Hpend; [|done].
    intros t [?|?]; [by left|right; simpl in *; set_solver].
Qed.

Lemma not_pending_fresh h ib fs ch :
  sys_inv (mkSys h ib fs) → ev_chans (h_env h) !! ch = None → ¬ pending_out ib ch.
Proof.
  intros [_ _ _ Hfresh _ _] Hch (c & Hc & Hj). rewrite Forall_forall in Hfresh.
  specialize (Hfresh c Hc). destruct c; simplify_eq/=. destruct Hfresh. congruence.
Qed.

Lemma sys_inv_join h ib fs k b :
  sys_inv (mkSys h ib fs) → (length ib < inboxCap)%nat →
  sys_inv (mkSys (make_chan h).1 (ib ++ [joinCmd (make_chan h).2 k b]) fs).
Proof.
  intros Hs Hl. pose proof (si_hub _ Hs) as Hinv. simpl in Hinv.
  pose proof (make_chan_fresh h) as Hf. pose proof (make_chan_inv h Hinv) as Hi.
  assert (¬ pending_out ib (make_chan h).2) as Hnp by (by eapply not_pending_fresh).
  apply sys_inv_enqueue; [|done| |by intros ch [= <-]].
  - eapply sys_inv_env, Hs; try done. intros ch Hp Hfo. apply fresh_out_put; [|done].
    by apply make_chan_ne.
  - split; [simpl; apply lookup_insert_eq|]. intros i c Hc. by apply (out_not_fresh h i).
Qed.

Lemma sys_inv_fire h ib fs t :
  sys_inv (mkSys h ib fs) → sys_inv (mkSys (set_armed h (h_armed h ∖ {[t]})) ib (t :: fs)).
Proof.
  intros [Hinv Hidle Hlen Hfresh Hnd Hpend]. split; simpl in *; try done.
  - apply fewer_timers_inv; [set_solver|done].
  - intros Hd i c Hc Hh. simpl.
    destruct (decide ((i, c_gen c) = t)) as [->|Hne]; [right; left; by left|].
    destruct (Hpend Hd i c Hc Hh) as [Ha|[?|?]].
    + left. rewrite elem_of_difference, elem_of_singleton. done.
    + right. left. by right.
    + right. by right.
Qed.

Lemma sys_inv_expired h ib fs fs' t :
  sys_inv (mkSys h ib fs) → (length ib < inboxCap)%nat → fs ≡ₚ t :: fs' →
  sys_inv (mkSys h (ib ++ [graceExpiredCmd t.1 t.2]) fs').
Proof.
  intros Hs Hl Hp.
  assert (sys_inv (mkSys h (ib ++ [graceExpiredCmd t.1 t.2]) fs)) as [? ? ? ? ? Hpend]
    by (by apply sys_inv_enqueue).
  split; simpl in *; try done. intros Hd. eapply pend_mono, Hpend; [|done].
  intros t' [Hf|?]; [|by right]. simpl in Hf. rewrite Hp in Hf.
  apply elem_of_cons in Hf as [->|?]; [right; simpl; set_solver|by left].
Qed.

Lemma sys_inv_iter h c ib fs h' r stop :
  sys_inv (mkSys h (c :: ib) fs) → h_done h = false → in_width 32 (h_nextID h + 1) →
  run_iter h c = (h', r, stop) →
  sys_inv (mkSys (if stop : bool then shutdown h' else h') ib fs).
Proof.
  intros Hs Hd Hw Hr. pose proof (sys_inv_run h c ib fs Hs Hd Hw) as H'. rewrite Hr in H'.
  simpl in H'. destruct H' as (Hi & He & Hf & Hp). pose proof (si_inbox _ Hs) as Hlen.
  pose proof (si_distinct _ Hs) as Hnd. simpl in Hlen, Hnd.
  assert (NoDup (omap join_out ib))
    by (destruct (join_out c); [by apply NoDup_cons in Hnd as [_ ?]|done]).
  destruct stop; split; simpl; auto; try lia; try done; [by apply shutdown_inv|].
  apply (Forall_cmd_ok_mono h'); [|done]. intros ch _.
  apply fresh_out_fields; [apply shutdown_clients|apply shutdown_chans].
Qed.

Lemma sys_inv_write h ib fs ch f q :
  ev_chans (h_env h) !! ch = Some (f :: q) →
  sys_inv (mkSys h ib fs) → sys_inv (mkSys (chan_put h ch q) ib fs).
Proof.
  intros Hq Hs. pose proof (si_hub _ Hs) as Hinv. simpl in Hinv.
  eapply sys_inv_env, Hs; try done.
  - apply chan_put_inv_owned; [|done]. intros i c Hc <-.
    destruct (inv_out h Hinv i c Hc) as (q' & Hq' & Hl). simplify_eq. simpl in Hl. lia.
  - intros ch' _ Hf. apply fresh_out_put; [|done]. intros ->. destruct Hf. congruence.
Qed.

Lemma sys_inv_queueFrame h ib fs ch f q :
  ¬ pending_out ib ch → chan_try_send sendBuffer (chan_get h ch) f = Some q →
  sys_inv (mkSys h ib fs) → sys_inv (mkSys (chan_put h ch q) ib fs).
Proof.
  intros Hn [Hl ->]%chan_try_send_Some Hs. eapply sys_inv_env, Hs; try done.
  - apply chan_put_inv; [|by apply (si_hub _ Hs)]. rewrite length_app. simpl. lia.
  - intros ch' Hp Hf. apply fresh_out_put; [|done]. by intros ->.
Qed.

Lemma step_inv s s' : step s s' → sys_inv s → sys_inv s'.
Proof.
  intros Hst Hs. destruct Hst.
  - by apply sys_inv_join.
  - apply sys_inv_enqueue; try done; [by destruct c|congruence].
  - by apply sys_inv_fire.
  - by eapply sys_inv_expired.
  - by eapply (sys_inv_iter _ _ _ _ _ _ false).
  - by eapply (sys_inv_iter _ _ _ _ _ _ true).
  - by eapply sys_inv_write.
  - by eapply sys_inv_queueFrame.
  - eapply sys_inv_env, Hs; try done. by apply kick_inv, (si_hub _ Hs).
  - eapply sys_inv_env, Hs; try done. by eapply hub_inv_fields, (si_hub _ Hs).
Qed.

(** ** What a hub is created with stays *)

Lemma drain_fixed fuel h h' b : drain fuel h = Some (h', b) → fixed h' = fixed h.
Proof.
  revert h. induction fuel as [|fuel IH]; intros h; cbn [drain];
    destruct (h_evict h) as [|id rest]; try done.
  1,2: by intros [= <- _].
  destruct (refines_remove (set_evict h rest) id) as [_ Hm].
  destruct (removeParticipant (set_evict h rest) id) as [h1 []]; cbn [fst] in Hm.
  - by intros [= <- _].
  - intros Hd%IH. by rewrite Hd.
Qed.

Lemma run_iter_fixed h c h' r b : run_iter h c = (h', r, b) → fixed h' = fixed h.
Proof.
  pose proof (handle_cmd_fixed h c) as Hm. unfold run_iter.
  destruct (handle_cmd h c) as [[h1 r1] []]; [by intros [= <- _ _]|]. cbn [fst] in Hm.
  pose proof (drainEvictions_drain h1) as Hd. destruct (drainEvictions h1) as [h2 b2].
  apply drain_fixed in Hd. intros [= <- _ _]. congruence.
Qed.

Lemma shutdown_fixed h : fixed (shutdown h) = fixed h.
Proof.
  unfold shutdown. simpl. apply (foldl_inv (λ h', fixed h' = fixed h)); [|done].
  intros h' p <-. simpl. unfold stop_timer. by destruct (c_timer _).
Qed.

Lemma step_fixed s s' : step s s' → fixed (s_hub s') = fixed (s_hub s).
Proof.
  destruct 1; cbn [s_hub]; rewrite ?shutdown_fixed; first [by eapply run_iter_fixed|done].
Qed.

Lemma reachable_fixed s s' : rtc step s s' → fixed (s_hub s') = fixed (s_hub s).
Proof. induction 1 as [|s s1 s2 Hst _ IH]; [done|]. rewrite IH. by apply step_fixed. Qed.

Lemma reachable_inv id m g cr e s :
  (0 ≤ m)%Z → rtc step (init_sys id m g cr e) s → sys_inv s.
Proof.
  intros Hm Hr. eapply (rtc_ind_r (λ s, sys_inv s)), Hr; [by apply init_sys_inv|].
  intros s1 s2 _ Hst Hs. by eapply step_inv.
Qed.

(** C14: the hub stays well formed.  In every state the goroutines can reach,
    each client is filed under its own identifier and owns its out channel
    alone, identifiers are below the next one, exactly the marked clients wait
    for eviction, a slot has a timer exactly when it is held and under its current
    generation, no armed timer is orphaned, and an idle hub has no eviction
    pending. *)
Theorem reachable_wf id m g cr e s :
  (0 ≤ m)%Z → rtc step (init_sys id m g cr e) s →
  hub_inv (s_hub s) ∧ (h_done (s_hub s) = false → h_evict (s_hub s) = []).
Proof. intros Hm Hr. apply reachable_inv in Hr as []; done. Qed.

(** C36: the memory of a session is bounded in every reachable state: at most the
    cap's number of slots, at most [sendBuffer] frames buffered per slot (held or
    live), at most [inboxCap] commands waiting. *)
Theorem reachable_bounds id m g cr e s :
  (0 ≤ m)%Z → rtc step (init_sys id m g cr e) s →
  (Z.of_nat (size (h_clients (s_hub s))) ≤ m)%Z ∧
  (length (s_inbox s) ≤ inboxCap)%nat ∧
  ∀ i c q, slot (s_hub s) i = Some (c, q) → (length q ≤ sendBuffer)%nat.
Proof.
  intros Hm Hr. pose proof (fixed_max _ _ (reachable_fixed _ _ Hr)) as Hmax. simpl in Hmax.
  apply reachable_inv in Hr as [Hinv _ Hlen _ _ _]; [|done]. split.
  - rewrite <- Hmax. apply (inv_size _ Hinv).
  - split; [done|]. intros i c q [Hc <-]%slot_Some.
    destruct (inv_out _ Hinv i c Hc) as (q & Hq & Hl). by rewrite (chan_get_lookup _ _ _ Hq).
Qed.

(** C30: a held slot is never leaked.  In every reachable state of a running hub,
    a slot held for reconnection has the expiry of its own generation on its way:
    the timer is armed, or its callback is waiting to send, or the command is
    already in the inbox. *)
Theorem held_slot_expires id m g cr e s i c :
  (0 ≤ m)%Z → rtc step (init_sys id m g cr e) s → h_done (s_hub s) = false →
  h_clients (s_hub s) !! i = Some c → c_held c = true →
  (i, c_gen c) ∈ h_armed (s_hub s) ∨ (i, c_gen c) ∈ s_firing s ∨
  graceExpiredCmd i (c_gen c) ∈ s_inbox s.
Proof.
  intros Hm Hr Hd Hc Hh. apply reachable_inv in Hr as [_ _ _ _ _ Hp]; [|done].
  destruct (Hp Hd i c Hc Hh) as [?|[?|?]]; auto.
Qed.

Lemma stopped_keeps_inbox s s' c :
  rtc step s s' → h_done (s_hub s) = true → c ∈ s_inbox s →
  h_done (s_hub s') = true ∧ c ∈ s_inbox s'.
Proof.
  induction 1 as [|s s1 s2 Hst _ IH]; [done|]. intros Hd Hc.
  apply IH; destruct Hst; simpl in *; try done; try congruence; set_solver.
Qed.
End Sys.
