(* ===== verification/HubExamples.v ===== *)
(** * The hub on concrete sessions

    A session of three participants over the concrete codec; the theorems of the
    hub applied to it, and a run in which a join is never answered. *)
From S2P Require Import Prelude Wire Hub HubInv HubSpec HubLife HubSys.

Open Scope N_scope.

Definition ex_rand (i : N) (n : nat) : option bytes := Some (replicate n (byte_of_N i)).

Lemma ex_rand_length i n bs : ex_rand i n = Some bs → length bs = n.
Proof. intros [= <-]. apply length_replicate. Qed.

Definition ex_entropy : Entropy := {| rand_read := ex_rand; rand_read_length := ex_rand_length |}.
Definition ex_range : MapRange ParticipantID client := map_to_list_range ParticipantID client.

#[local] Existing Instance bits_codec.
#[local] Existing Instance ex_entropy.
#[local] Existing Instance ex_range.

Definition ex_env : env :=
  mkEnv metrics0 {[ 100 := []; 101 := []; 102 := []; 103 := [] ]} ∅ 0.
Definition ex_hub0 : hub := newHub (replicate 16 x07) 4 30 0 ex_env.
Definition ex_joins : list cmd :=
  [joinCmd 100 1 true; joinCmd 101 2 false; joinCmd 102 3 false].

(** The host and two joiners, nobody's writer having run yet. *)
Definition ex_hub : hub := (run ex_hub0 ex_joins).1.1.

(** Participant 3 dropped and held. *)
Definition ex_held : hub := (run ex_hub [leaveCmd 3 1 true]).1.1.

Ltac by_eval := apply (bool_decide_unpack _); vm_compute; exact I.

Lemma ex_hub_inv : hub_inv ex_hub.
Proof. apply run_inv; [by apply newHub_inv|reflexivity|by_eval]. Qed.

Lemma ex_held_inv : hub_inv ex_held.
Proof. apply run_inv; [apply ex_hub_inv|vm_compute; reflexivity|by_eval]. Qed.

Example ex_hub_members : dom (h_clients ex_hub) = {[1; 2; 3]} ∧ h_host ex_hub = 1.
Proof. split; [by_eval|reflexivity]. Qed.

(** Participant 3 sends a Direct to 2 in which it claims to be 99. *)
Definition ex_spoof : bytes := default [] (marshal (mkDirect 2 99 [x2a])).
Definition ex_bcast : bytes := default [] (marshal (mkBroadcast 99 [x2a])).

Ltac eval_slot E :=
  match goal with |- context [slot ?h ?i] =>
    destruct (slot h i) as [[? ?]|] eqn:E; [|vm_compute in E; discriminate E] end.

Lemma route_stamps_sender_witness :
  ∃ c q c' q', slot ex_hub 2 = Some (c, q) ∧
    slot (route ex_hub 3 MsgDirect ex_spoof) 2 = Some (c', q') ∧
    (q' = q ∨ ∃ frame, q' = q ++ [frame] ∧
      ((∃ p, Encode MsgDirect (mkDirect 2 3 p) = Ok frame) ∨
       (2 ≠ 3 ∧ ∃ p, Encode MsgBroadcast (mkBroadcast 3 p) = Ok frame) ∨
       (2 = 3 ∧ ∃ e : Error, Encode MsgError e = Ok frame))).
Proof.
  destruct (slot ex_hub 2) as [[c q]|] eqn:E1; [|vm_compute in E1; discriminate E1].
  destruct (slot (route ex_hub 3 MsgDirect ex_spoof) 2) as [[c' q']|] eqn:E2;
    [|vm_compute in E2; discriminate E2].
  exists c, q, c', q'. split; [reflexivity|]. split; [reflexivity|].
  exact (route_stamps_sender _ _ _ _ _ _ _ _ _ ex_hub_inv E1 E2).
Defined.

Lemma route_delivers_witness :
  (∀ frame, Encode MsgDirect (mkDirect 2 3 [x2a]) = Ok frame →
     slot (route ex_hub 3 MsgDirect ex_spoof) 2 = queue_slot frame <$> slot ex_hub 2) ∧
  (∀ frame, Encode MsgBroadcast (mkBroadcast 3 [x2a]) = Ok frame →
     slot (route ex_hub 3 MsgBroadcast ex_bcast) 1 = queue_slot frame <$> slot ex_hub 1).
Proof.
  split; intros frame Hf.
  - refine (proj1 (route_delivers ex_hub 3 ex_spoof 2 ex_hub_inv) (mkDirect 2 99 [x2a]) frame
      _ _ Hf); [reflexivity|]. vm_compute. eexists. reflexivity.
  - refine (proj2 (route_delivers ex_hub 3 ex_bcast 1 ex_hub_inv) (mkBroadcast 99 [x2a]) frame
      _ Hf); reflexivity.
Defined.

Lemma handleJoin_spec_witness :
  ∃ h' r, handleJoin ex_hub 103 4 false = (h', r) ∧ jrep_ok r = true ∧ h_nextID h' = 5.
Proof.
  destruct (handleJoin ex_hub 103 4 false) as [h' r] eqn:E. exists h', r.
  assert (fresh_out ex_hub 103) as Hf by (split; by_eval).
  pose proof (handleJoin_spec ex_hub 103 4 false h' r ex_hub_inv Hf ltac:(reflexivity) E) as H.
  rewrite bool_decide_eq_false_2 in H by (vm_compute; intros Hx; by apply Hx).
  destruct H as (token & peers & _ & _ & Hn & _). split; [reflexivity|]. split.
  - assert (jrep_ok (handleJoin ex_hub 103 4 false).2 = true) as Hr by reflexivity.
    by rewrite E in Hr.
  - rewrite Hn. reflexivity.
Defined.

Definition ex_token : bytes := replicate 32 x02.

Lemma handleResume_spec_witness :
  ∃ h' r, handleResume ex_held 3 ex_token 9 = (h', r) ∧
    ∃ out, r = mkResumeReply true 0 "" (Some out) 3 ∧ ∀ j, j ≠ 3 → slot h' j = slot ex_held j.
Proof.
  destruct (handleResume ex_held 3 ex_token 9) as [h' r] eqn:E. exists h', r.
  split; [reflexivity|].
  pose proof (handleResume_spec ex_held 3 ex_token 9 h' r ex_held_inv E) as H.
  destruct (h_clients ex_held !! 3) as [c|] eqn:Hc; [|vm_compute in Hc; discriminate Hc].
  assert (c_token <$> (h_clients ex_held !! 3) = Some ex_token) as Ht by reflexivity.
  assert (c_gen <$> (h_clients ex_held !! 3) = Some 2) as Hg by reflexivity.
  rewrite Hc in Ht, Hg. injection Ht as Ht. injection Hg as Hg.
  rewrite bool_decide_eq_true_2 in H by exact Ht.
  destruct (Encode MsgJoinResult (mkJoinResult true "" 3 (peersExcept ex_held 3)
    (h_host ex_held) ex_token)) as [jr|e] eqn:Ej; [|vm_compute in Ej; discriminate Ej].
  destruct (H jr eq_refl) as (out & Hr & _ & _ & Ho). exists out. rewrite Hr, Hg.
  split; [reflexivity|exact Ho].
Defined.

Lemma resume_supersedes_witness :
  ∃ h' r, handleResume ex_held 3 ex_token 9 = (h', r) ∧
    (∀ u, handleLeave h' 3 2 u = (h', false)) ∧
    (∀ g, handleGraceExpired h' 3 g = (h', false)).
Proof.
  destruct (handleResume ex_held 3 ex_token 9) as [h' r] eqn:E. exists h', r.
  assert (rrep_ok (handleResume ex_held 3 ex_token 9).2 = true) as Hr by reflexivity.
  rewrite E in Hr.
  destruct (h_clients ex_held !! 3) as [c|] eqn:Hc; [|vm_compute in Hc; discriminate Hc].
  assert (c_gen <$> (h_clients ex_held !! 3) = Some 2) as Hg by reflexivity.
  rewrite Hc in Hg. injection Hg as Hg. split; [reflexivity|]. rewrite <- Hg.
  exact (resume_supersedes ex_held 3 ex_token 9 h' r c ex_held_inv E Hr Hc).
Defined.

(** The host leaves; 2 and 3 stay. *)
Lemma departure_announced_witness :
  ∃ h' r f c q, run_iter ex_hub (leaveCmd 1 1 false) = (h', r, false) ∧
    Encode MsgParticipantLeft (mkParticipantLeft 1) = Ok f ∧
    slot h' 2 = Some (c, q) ∧ f ∈ q.
Proof.
  destruct (run_iter ex_hub (leaveCmd 1 1 false)) as [[h' r] stop] eqn:E.
  assert ((run_iter ex_hub (leaveCmd 1 1 false)).2 = false) as Hs by reflexivity.
  assert (h_clients (run_iter ex_hub (leaveCmd 1 1 false)).1.1 !! 1 = None) as Hn by reflexivity.
  assert (is_Some (slot (run_iter ex_hub (leaveCmd 1 1 false)).1.1 2)) as Hsl
    by (vm_compute; eexists; reflexivity).
  rewrite E in Hs, Hn, Hsl. simpl in Hs, Hn, Hsl. subst stop. destruct Hsl as [[c q] Hsl].
  destruct (Encode MsgParticipantLeft (mkParticipantLeft 1)) as [f|e] eqn:Hf;
    [|vm_compute in Hf; discriminate Hf].
  exists h', r, f, c, q. split; [reflexivity|]. split; [reflexivity|]. split; [exact Hsl|].
  apply (departure_announced ex_hub (leaveCmd 1 1 false) h' r 1 f 2 c q ex_hub_inv); auto.
  - reflexivity.
  - reflexivity.
Defined.

Lemma run_iter_refines_witness :
  rtc (roster_step 4) (roster_of ex_hub) (roster_of (run_iter ex_hub (leaveCmd 1 1 false)).1.1).
Proof.
  destruct (run_iter ex_hub (leaveCmd 1 1 false)) as [[h' r] stop] eqn:E.
  exact (run_iter_refines ex_hub _ h' r stop ex_hub_inv ltac:(reflexivity) E).
Defined.

Definition ex_left : hub := (run ex_hub [leaveCmd 1 1 false]).1.1.

Lemma ex_left_inv : hub_inv ex_left.
Proof. apply run_inv; [apply ex_hub_inv|vm_compute; reflexivity|by_eval]. Qed.

Lemma departed_never_returns_witness :
  h_clients (run ex_left [joinCmd 103 4 false; resumeCmd 1 (replicate 32 x00) 5]).1.1 !! 1 = None.
Proof.
  refine (proj1 (departed_never_returns ex_left
    [joinCmd 103 4 false; resumeCmd 1 (replicate 32 x00) 5] 1 ex_left_inv _ _ _ _)).
  - vm_compute. reflexivity.
  - by_eval.
  - reflexivity.
  - vm_compute. reflexivity.
Defined.

(** Sixty-four broadcasts by 1 overflow the buffers of 2 and 3, which already
    hold their hello replies; the loop removes the two. *)
Definition ex_full : hub :=
  Nat.iter 64 (λ h, route h 1 MsgBroadcast ex_bcast) ex_hub.

Lemma iter_route_inv n h from raw :
  hub_inv h → hub_inv (Nat.iter n (λ h, route h from MsgBroadcast raw) h).
Proof. intros. induction n; simpl; [done|by apply route_inv]. Qed.

Lemma drainEvictions_terminates_witness :
  length (h_evict ex_full) = 2%nat ∧
  drain (drain_fuel ex_full) ex_full = Some (drainEvictions ex_full) ∧
  h_evict (drainEvictions ex_full).1 = [] ∧
  h_clients (drainEvictions ex_full).1 !! 2 = None ∧
  h_clients (drainEvictions ex_full).1 !! 3 = None.
Proof.
  assert (hub_inv ex_full) as Hi by apply iter_route_inv, ex_hub_inv.
  pose proof (drainEvictions_terminates ex_full Hi) as [Hd Hs].
  split; [vm_compute; reflexivity|]. split; [exact Hd|].
  assert ((drainEvictions ex_full).2 = false) as Hf by (vm_compute; reflexivity).
  assert (h_clients (drainEvictions ex_full).1 !! 2 = None ∧
    h_clients (drainEvictions ex_full).1 !! 3 = None) as Hn by (vm_compute; split; reflexivity).
  destruct (drainEvictions ex_full) as [h' stop]. cbn [fst snd] in Hf, Hn |- *. subst stop.
  destruct Hs as (_ & He & _). split; [exact He|exact Hn].
Defined.

(** ** Runs of the system *)

Definition ex_init : sys := init_sys (replicate 16 x07) 4 30 0 (mkEnv metrics0 ∅ ∅ 0).

(** A join, sent and processed. *)
Definition do_join (k : conn_ref) (isCreate : bool) (s : sys) : sys :=
  mkSys (run_iter (make_chan (s_hub s)).1 (joinCmd (make_chan (s_hub s)).2 k isCreate)).1.1
    [] (s_firing s).

(** A command, sent and processed. *)
Definition do_cmd (c : cmd) (s : sys) : sys :=
  mkSys (run_iter (s_hub s) c).1.1 [] (s_firing s).

Lemma run_iter_false h c :
  (run_iter h c).2 = false → run_iter h c = ((run_iter h c).1.1, (run_iter h c).1.2, false).
Proof. by destruct (run_iter h c) as [[? ?] ?]; simpl; intros ->. Qed.

Lemma steps_join k b s :
  s_inbox s = [] → h_done (s_hub s) = false → in_width 32 (h_nextID (s_hub s) + 1) →
  (run_iter (make_chan (s_hub s)).1 (joinCmd (make_chan (s_hub s)).2 k b)).2 = false →
  rtc step s (do_join k b s).
Proof.
  destruct s as [h ib fs]. simpl s_hub. simpl s_inbox. intros -> Hd Hw Hs.
  eapply rtc_l; [apply st_join; vm_compute; lia|]. apply rtc_once. simpl app.
  eapply st_run; [done|done|by apply run_iter_false].
Qed.

Lemma steps_cmd c s :
  s_inbox s = [] → h_done (s_hub s) = false → in_width 32 (h_nextID (s_hub s) + 1) →
  join_out c = None → (run_iter (s_hub s) c).2 = false → rtc step s (do_cmd c s).
Proof.
  destruct s as [h ib fs]. simpl s_hub. simpl s_inbox. intros -> Hd Hw Hj Hs.
  eapply rtc_l; [apply (st_send _ _ _ c); [vm_compute; lia|done]|]. apply rtc_once. simpl app.
  eapply st_run; [done|done|by apply run_iter_false].
Qed.

(** The host creates, a member joins, the member's connection drops. *)
Definition ex_two : sys := do_join 2 false (do_join 1 true ex_init).
Definition ex_dropped : sys := do_cmd (leaveCmd 2 1 true) ex_two.

Lemma ex_two_reachable : rtc step ex_init ex_two.
Proof. unfold ex_two. etrans; apply steps_join; reflexivity. Qed.

Lemma ex_dropped_reachable : rtc step ex_init ex_dropped.
Proof. etrans; [apply ex_two_reachable|]. apply steps_cmd; reflexivity. Qed.

Lemma reachable_wf_witness : hub_inv (s_hub ex_dropped) ∧ h_evict (s_hub ex_dropped) = [].
Proof.
  destruct (reachable_wf _ 4 30 0 _ ex_dropped ltac:(done) ex_dropped_reachable) as [Hi He].
  split; [exact Hi|]. apply He. reflexivity.
Defined.

Lemma reachable_bounds_witness :
  ∃ c q, slot (s_hub ex_dropped) 1 = Some (c, q) ∧ (length q ≤ sendBuffer)%nat.
Proof.
  destruct (reachable_bounds _ 4 30 0 _ ex_dropped ltac:(done) ex_dropped_reachable)
    as (_ & _ & H).
  destruct (slot (s_hub ex_dropped) 1) as [[c q]|] eqn:E; [|vm_compute in E; discriminate E].
  exists c, q. split; [reflexivity|]. exact (H 1 c q E).
Defined.

Lemma held_slot_expires_witness :
  (2, 2) ∈ h_armed (s_hub ex_dropped) ∨ (2, 2) ∈ s_firing ex_dropped ∨
  graceExpiredCmd 2 2 ∈ s_inbox ex_dropped.
Proof.
  destruct (h_clients (s_hub ex_dropped) !! 2) as [c|] eqn:Hc; [|vm_compute in Hc; discriminate Hc].
  assert (c_gen <$> (h_clients (s_hub ex_dropped) !! 2) = Some 2) as Hg by reflexivity.
  assert (c_held <$> (h_clients (s_hub ex_dropped) !! 2) = Some true) as Hh by reflexivity.
  rewrite Hc in Hg, Hh. injection Hg as Hg. injection Hh as Hh.
  pose proof (held_slot_expires _ 4 30 0 _ ex_dropped 2 c ltac:(done) ex_dropped_reachable
    ltac:(reflexivity) Hc Hh) as H. rewrite Hg in H. exact H.
Defined.

Lemma close_notifies_witness :
  let h' := (run ex_held [closeCmd "session expired"]).1.1 in
  h_done h' = true ∧ h_armed h' = ∅ ∧
  ∃ c q c' q', slot ex_held 3 = Some (c, q) ∧ slot h' 3 = Some (c', q') ∧
    length q' = S (length q) ∧ c_kick c ∈ ev_kicked (h_env h').
Proof.
  destruct (Encode MsgSessionClosed (mkSessionClosed "session expired")) as [f|] eqn:Ef;
    [|vm_compute in Ef; discriminate Ef].
  destruct (close_notifies ex_held "session expired" f ex_held_inv Ef) as (Hd & Ha & Hs).
  split; [exact Hd|]. split; [exact Ha|].
  destruct (slot ex_held 3) as [[c q]|] eqn:E; [|vm_compute in E; discriminate E].
  destruct (Hs 3 c q E) as [H1 H2]. exists c, q.
  assert ((λ p, negb (c_evicting p.1) && bool_decide (length p.2 < sendBuffer)%nat)
    <$> slot ex_held 3 = Some true) as Hc by reflexivity.
  rewrite E in Hc. injection Hc as Hc. apply andb_true_iff in Hc as [He%negb_true_iff Hl].
  unfold queue_slot in H1. simpl in He, Hl. rewrite He, Hl in H1.
  exists c, (q ++ [f]). split; [reflexivity|]. split; [exact H1|]. split; [|exact H2].
  rewrite length_app. simpl. lia.
Defined.

(** The host is alone and leaves; a join is already behind the leave in the
    inbox when the hub takes it. *)
Definition ex_host : sys := do_join 1 true ex_init.
Definition ex_racing : sys :=
  mkSys (make_chan (s_hub ex_host)).1
    [leaveCmd 1 1 false; joinCmd (make_chan (s_hub ex_host)).2 2 false] [].
Definition ex_stopped : sys :=
  mkSys (shutdown (run_iter (s_hub ex_racing) (leaveCmd 1 1 false)).1.1)
    [joinCmd (make_chan (s_hub ex_host)).2 2 false] [].

Lemma ex_stopped_reachable : rtc step ex_init ex_stopped.
Proof.
  etrans; [by apply (steps_join 1 true ex_init)|].
  eapply rtc_l; [apply (st_send _ _ _ (leaveCmd 1 1 false)); [vm_compute; lia|done]|].
  eapply rtc_l; [apply (st_join _ _ _ 2 false); vm_compute; lia|]. apply rtc_once. simpl app.
  eapply (st_stop _ (leaveCmd 1 1 false) _ _ _ None); [reflexivity|reflexivity|].
  assert (∀ p : hub * option reply * bool, p.2 = true → p.1.2 = None → p = (p.1.1, None, true))
    as Hp by (intros [[? ?] ?]; simpl; by intros -> ->).
  apply Hp; reflexivity.
Qed.

(** an accepted join can wait forever.  A reachable run in which the last
    participant leaves while a join sits behind that leave in the inbox: [send]
    has accepted the join, the hub stops without answering it, and in no
    continuation is it ever taken from the inbox, while [hello] blocks on its
    reply channel without watching [done]. *)
Theorem accepted_join_never_answered :
  ∃ s out, rtc step ex_init s ∧ h_done (s_hub s) = true ∧
    joinCmd out 2 false ∈ s_inbox s ∧
    ∀ s', rtc step s s' → h_done (s_hub s') = true ∧ joinCmd out 2 false ∈ s_inbox s'.
Proof.
  exists ex_stopped, (make_chan (s_hub ex_host)).2. split; [apply ex_stopped_reachable|].
  split; [done|]. split; [by left|]. intros s' Hr.
  eapply stopped_keeps_inbox; [done|done|by left].
Qed.
