(* ===== verification/Registry.v ===== *)
(** * The session registry (relay/registry.go)

    The registry maps session identifiers to hubs, under a mutex, so each of its
    methods is one atomic step.  The step relation interleaves these methods with
    every hub's own steps ([HubSys.step]), with the [onEmpty] callback each hub
    runs after closing [done], and with the sweeper, which notifies the expired
    hubs one by one after it has released the lock. *)
From S2P Require Import Prelude Wire Hub HubInv HubSpec HubLife HubSys HubExamples.

Open Scope N_scope.

Abbreviation hub_ref := N.

Record registry := mkRegistry {
  r_sessions : gmap SessionID hub_ref;
  r_maxCount : Z;
  r_maxAge : Z;
  r_grace : Z;
  r_metrics : Metrics }.

(** A hub created by the registry; [p_gone] once it has called [onEmpty]. *)
Record hubproc := mkProc { p_sys : sys; p_gone : bool }.

Abbreviation p_hub p := (s_hub (p_sys p)).

(** The registry, every hub ever created, and the hubs the sweeper's second loop
    has still to notify. *)
Record relay := mkRelay {
  rl_reg : registry;
  rl_hubs : gmap hub_ref hubproc;
  rl_sweep : list hub_ref }.

Definition newRegistry (maxSessions maxAge grace : Z) : registry :=
  mkRegistry ∅ maxSessions maxAge grace metrics0.

(** [create]: [inr] is the new hub, [inl] the error code and text.  [now] is the
    time [newHub] reads. *)
Definition create (s : relay) (now : Z) (id : SessionID) (maxParticipants : Z) :
    relay * (N * string + hub_ref) :=
  let r := rl_reg s in
  match r_sessions r !! id with
  | Some _ => (s, inl (ErrCodeSessionExists, "session already exists"%string))
  | None =>
      if bool_decide (r_maxCount r ≤ Z.of_nat (size (r_sessions r)))%Z then
        (s, inl (ErrCodeRateLimited, "relay at session capacity"%string))
      else
        let ref := fresh (dom (rl_hubs s)) in
        let e := mkEnv (r_metrics r) ∅ ∅ 0 in
        (mkRelay
           (mkRegistry (<[id := ref]> (r_sessions r)) (r_maxCount r) (r_maxAge r) (r_grace r)
              (add_SessionsCreated (r_metrics r)))
           (<[ref := mkProc (init_sys id maxParticipants (r_grace r) now e) false]> (rl_hubs s))
           (rl_sweep s),
         inr ref)
  end.

Definition get (s : relay) (id : SessionID) : option hub_ref := r_sessions (rl_reg s) !! id.

Definition remove (s : relay) (id : SessionID) : relay :=
  let r := rl_reg s in
  mkRelay (mkRegistry (delete id (r_sessions r)) (r_maxCount r) (r_maxAge r) (r_grace r)
             (r_metrics r)) (rl_hubs s) (rl_sweep s).

Definition set_hub (s : relay) (ref : hub_ref) (p : hubproc) : relay :=
  mkRelay (rl_reg s) (<[ref := p]> (rl_hubs s)) (rl_sweep s).

Definition set_sweep (s : relay) (l : list hub_ref) : relay :=
  mkRelay (rl_reg s) (rl_hubs s) l.

(** The rest of [shutdown]: the hub's [onEmpty], that is [r.remove(id)]. *)
Definition onEmpty (s : relay) (ref : hub_ref) (p : hubproc) : relay :=
  set_hub (remove s (h_id (p_hub p))) ref (mkProc (p_sys p) true).

Definition send_close (p : hubproc) : hubproc :=
  mkProc (mkSys (p_hub p) (s_inbox (p_sys p) ++ [closeCmd "session expired"])
            (s_firing (p_sys p))) (p_gone p).

Section Registry.
Context {WC : WireCodec} {EN : Entropy} {MR : MapRange ParticipantID client}.
Context {MS : MapRange SessionID hub_ref}.

(** [hubs]: a snapshot of the registered hubs. *)
Definition hubs (s : relay) : list hub_ref := (range (r_sessions (rl_reg s))).*2.

Definition past_age (s : relay) (now : Z) (ref : hub_ref) : bool :=
  match rl_hubs s !! ref with
  | Some p => bool_decide (r_maxAge (rl_reg s) < now - h_created (p_hub p))%Z
  | None => false
  end.

(** [sweep], under the lock: collect the registered hubs past the age cap. *)
Definition sweep (s : relay) (now : Z) : relay :=
  set_sweep s (filter (λ ref, past_age s now ref = true) (hubs s)).

(** [sweep], its second loop, one hub: the two branches of the [select]. *)
Definition sweep_send (s : relay) : option relay :=
  match rl_sweep s with
  | ref :: rest =>
      p ← rl_hubs s !! ref;
      if bool_decide (length (s_inbox (p_sys p)) < inboxCap)%nat then
        Some (set_sweep (set_hub s ref (send_close p)) rest)
      else None
  | [] => None
  end.

Definition sweep_done (s : relay) : option relay :=
  match rl_sweep s with
  | ref :: rest =>
      p ← rl_hubs s !! ref;
      if h_done (p_hub p) then Some (set_sweep s rest) else None
  | [] => None
  end.

(** ** The relay's steps *)

Inductive rstep : relay → relay → Prop :=
| rs_create s now id m : (0 ≤ m)%Z → rstep s (create s now id m).1
| rs_hub s ref p ss :
    rl_hubs s !! ref = Some p → step (p_sys p) ss →
    rstep s (set_hub s ref (mkProc ss (p_gone p)))
| rs_onEmpty s ref p :
    rl_hubs s !! ref = Some p → h_done (p_hub p) = true → p_gone p = false →
    rstep s (onEmpty s ref p)
| rs_sweep s now : rl_sweep s = [] → rstep s (sweep s now)
| rs_sweep_send s s' : sweep_send s = Some s' → rstep s s'
| rs_sweep_done s s' : sweep_done s = Some s' → rstep s s'.

(** A session is registered exactly while its hub has not called [onEmpty]. *)
Record relay_inv (s : relay) : Prop := {
  ri_reg : ∀ id ref, get s id = Some ref →
    ∃ p, rl_hubs s !! ref = Some p ∧ h_id (p_hub p) = id ∧ p_gone p = false;
  ri_hub : ∀ ref p, rl_hubs s !! ref = Some p → p_gone p = false →
    get s (h_id (p_hub p)) = Some ref;
  ri_size : (Z.of_nat (size (r_sessions (rl_reg s))) ≤ r_maxCount (rl_reg s))%Z;
  ri_sys : ∀ ref p, rl_hubs s !! ref = Some p → sys_inv (p_sys p);
  ri_sweep : ∀ ref, ref ∈ rl_sweep s → is_Some (rl_hubs s !! ref)
}.

Definition init_relay (maxSessions maxAge grace : Z) : relay :=
  mkRelay (newRegistry maxSessions maxAge grace) ∅ [].

Lemma init_relay_inv m a g : (0 ≤ m)%Z → relay_inv (init_relay m a g).
Proof. intros. split; simpl; [done..|]. intros ref []%elem_of_nil. Qed.

Lemma create_inl s now id m s' e : create s now id m = (s', inl e) → s' = s.
Proof.
  unfold create. destruct (_ !! id); [by intros [= <- _]|].
  case_bool_decide; [by intros [= <- _]|done].
Qed.

Lemma create_inr s now id m s' h :
  create s now id m = (s', inr h) →
  get s id = None ∧ (Z.of_nat (size (r_sessions (rl_reg s))) < r_maxCount (rl_reg s))%Z ∧
  get s' id = Some h ∧ (∀ i, i ≠ id → get s' i = get s i) ∧
  ∃ p, rl_hubs s' !! h = Some p ∧ h_id (p_hub p) = id ∧ h_max (p_hub p) = m.
Proof.
  unfold create, get. destruct (r_sessions (rl_reg s) !! id) eqn:Ei; [done|].
  case_bool_decide as Hc; [done|]. intros [= <- <-]. simpl.
  split; [done|]. split; [lia|]. split; [apply lookup_insert_eq|].
  split; [intros; by apply lookup_insert_ne|].
  eexists. split; [apply lookup_insert_eq|done].
Qed.

Lemma create_inv s now id m : (0 ≤ m)%Z → relay_inv s → relay_inv (create s now id m).1.
Proof.
  intros Hm0 Hs. pose proof Hs as [Hr Hh Hsz Hsys Hsw].
  unfold create. destruct (_ !! id) as [ref|] eqn:Hid; [done|].
  case_bool_decide as Hm; [done|]. cbn [fst].
  set (ref := fresh (dom (rl_hubs s))).
  assert (rl_hubs s !! ref = None) as Hf by (apply not_elem_of_dom, is_fresh).
  split; simpl.
  - unfold get. simpl. intros i x [[<- <-]|[Hne Hi]]%lookup_insert_Some.
    + eexists. rewrite lookup_insert_eq. split; [done|]. done.
    + destruct (Hr i x Hi) as (p & Hp & ? & ?). exists p.
      rewrite lookup_insert_ne by congruence. done.
  - unfold get. simpl.
    intros x p [[<- <-]|[Hne Hx]]%lookup_insert_Some Hg; simpl; [by rewrite lookup_insert_eq|].
    pose proof (Hh x p Hx Hg) as Hl. unfold get in Hl.
    rewrite lookup_insert_ne by congruence. done.
  - rewrite map_size_insert_None by done. lia.
  - intros x p [[<- <-]|[_ Hx]]%lookup_insert_Some; [by apply init_sys_inv|by eapply Hsys].
  - intros x Hx%Hsw. rewrite lookup_insert. case_decide; [done|done].
Qed.

(** Replacing a hub by one of the same session, as alive as before. *)
Lemma set_hub_inv s ref p p' :
  relay_inv s → rl_hubs s !! ref = Some p → h_id (p_hub p') = h_id (p_hub p) →
  p_gone p' = p_gone p → sys_inv (p_sys p') → relay_inv (set_hub s ref p').
Proof.
  intros [Hr Hh Hsz Hsys Hsw] Hp Hid Hg Hi. split; simpl; try done.
  - intros i x Hx. destruct (Hr i x Hx) as (q & Hq & <- & Hqg). rewrite lookup_insert.
    case_decide; [|by exists q]. subst. exists p'. simplify_eq. by rewrite Hid, Hg.
  - intros x q [[<- <-]|[_ Hx]]%lookup_insert_Some Hqg; [|by apply Hh].
    rewrite Hid. apply Hh; [done|congruence].
  - intros x q [[<- <-]|[_ Hx]]%lookup_insert_Some; [done|by eapply Hsys].
  - intros x Hx%Hsw. rewrite lookup_insert. by case_decide.
Qed.

Lemma set_sweep_inv s l :
  relay_inv s → (∀ ref, ref ∈ l → is_Some (rl_hubs s !! ref)) → relay_inv (set_sweep s l).
Proof. intros [Hr Hh Hsz Hsys _] Hl. by split. Qed.

Lemma onEmpty_inv s ref p :
  relay_inv s → rl_hubs s !! ref = Some p → p_gone p = false → relay_inv (onEmpty s ref p).
Proof.
  intros [Hr Hh Hsz Hsys Hsw] Hp Hg. split; simpl.
  - unfold get. simpl. intros i x [Hne Hx]%lookup_delete_Some.
    destruct (Hr i x Hx) as (q & Hq & <- & Hqg). rewrite lookup_insert_ne; [by exists q|].
    intros ->. by simplify_eq.
  - intros x q [[<- <-]|[Hne Hx]]%lookup_insert_Some Hqg; [done|].
    unfold get. simpl. pose proof (Hh x q Hx Hqg) as Hl. pose proof (Hh ref p Hp Hg) as Hl'.
    rewrite lookup_delete_ne; [done|]. congruence.
  - rewrite map_size_delete_Some by (eexists; by apply (Hh ref p)). lia.
  - intros x q [[<- <-]|[_ Hx]]%lookup_insert_Some; [exact (Hsys _ _ Hp)|by eapply Hsys].
  - intros x Hx%Hsw. rewrite lookup_insert. by case_decide.
Qed.
Lemma elem_of_hubs s ref : ref ∈ hubs s ↔ ∃ id, get s id = Some ref.
Proof.
  unfold hubs. rewrite list_elem_of_fmap. split.
  - intros ([id x] & -> & Hin). exists id. by apply elem_of_range.
  - intros [id Hid]. exists (id, ref). split; [done|]. by apply elem_of_range.
Qed.

Lemma elem_of_sweep s now ref :
  ref ∈ rl_sweep (sweep s now) ↔
  ∃ id p, get s id = Some ref ∧ rl_hubs s !! ref = Some p ∧
    (r_maxAge (rl_reg s) < now - h_created (p_hub p))%Z.
Proof.
  simpl. rewrite list_elem_of_filter, elem_of_hubs. unfold past_age. split.
  - intros [Hp [id Hid]]. destruct (rl_hubs s !! ref) as [p|]; [|done].
    apply bool_decide_eq_true in Hp. eauto.
  - intros (id & p & Hid & -> & Ha). split; [by apply bool_decide_eq_true|eauto].
Qed.

Lemma NoDup_hubs s : relay_inv s → NoDup (hubs s).
Proof.
  intros Hs. apply NoDup_fmap_2_strong; [|apply NoDup_range].
  intros [i x] [j y] Hi%elem_of_range Hj%elem_of_range. simpl. intros <-.
  destruct (ri_reg s Hs i x Hi) as (p & Hp & <- & _).
  destruct (ri_reg s Hs j x Hj) as (q & Hq & <- & _). by simplify_eq.
Qed.

Lemma sweep_send_Some s s' :
  sweep_send s = Some s' ↔ ∃ ref rest p, rl_sweep s = ref :: rest ∧ rl_hubs s !! ref = Some p ∧
    (length (s_inbox (p_sys p)) < inboxCap)%nat ∧ s' = set_sweep (set_hub s ref (send_close p)) rest.
Proof.
  unfold sweep_send. destruct (rl_sweep s) as [|ref rest]; [naive_solver|].
  rewrite bind_Some. split.
  - intros (p & Hp & Hs). case_bool_decide; [|done]. injection Hs as <-. eauto 10.
  - intros (x & l & p & [= <- <-] & Hp & Hl & ->). exists p. split; [done|].
    by rewrite bool_decide_eq_true_2.
Qed.

Lemma sweep_done_Some s s' :
  sweep_done s = Some s' ↔ ∃ ref rest p, rl_sweep s = ref :: rest ∧ rl_hubs s !! ref = Some p ∧
    h_done (p_hub p) = true ∧ s' = set_sweep s rest.
Proof.
  unfold sweep_done. destruct (rl_sweep s) as [|ref rest]; [naive_solver|].
  rewrite bind_Some. split.
  - intros (p & Hp & Hs). destruct (h_done (p_hub p)) eqn:Hd; [|done].
    injection Hs as <-. eauto 10.
  - intros (x & l & p & [= <- <-] & Hp & Hd & ->). exists p. by rewrite Hd.
Qed.

(** The close notice is a command like any other sent into the inbox. *)
Lemma send_close_step p :
  (length (s_inbox (p_sys p)) < inboxCap)%nat → step (p_sys p) (p_sys (send_close p)).
Proof. destruct p as [[h ib fs] g]. intros. by apply st_send. Qed.

Lemma rstep_inv s s' : rstep s s' → relay_inv s → relay_inv s'.
Proof.
  intros Hst Hs. destruct Hst.
  - by apply create_inv.
  - eapply set_hub_inv; try done; simpl.
    + pose proof (step_fixed _ _ H0) as Hf. unfold fixed in Hf. congruence.
    + eapply step_inv; [done|]. by eapply (ri_sys s Hs).
  - by apply onEmpty_inv.
  - apply set_sweep_inv; [done|]. intros ref Hin.
    apply (elem_of_sweep s now) in Hin as (id & p & _ & Hp & _). by exists p.
  - apply sweep_send_Some in H as (ref & rest & p & Hsw & Hp & Hl & ->).
    apply set_sweep_inv.
    + eapply set_hub_inv; try done. eapply step_inv; [by apply send_close_step|].
      by eapply (ri_sys s Hs).
    + intros x Hx. simpl. rewrite lookup_insert. case_decide; [done|].
      apply (ri_sweep s Hs). rewrite Hsw. by right.
  - apply sweep_done_Some in H as (ref & rest & p & Hsw & Hp & _ & ->).
    apply set_sweep_inv; [done|]. intros x Hx. apply (ri_sweep s Hs). rewrite Hsw. by right.
Qed.

Lemma relay_reachable_inv m a g s :
  (0 ≤ m)%Z → rtc rstep (init_relay m a g) s → relay_inv s.
Proof.
  intros Hm Hr. eapply (rtc_ind_r (λ s, relay_inv s)), Hr; [by apply init_relay_inv|].
  intros s1 s2 _ Hst Hs. by eapply rstep_inv.
Qed.

Lemma rstep_config s s' : rstep s s' →
  r_maxCount (rl_reg s') = r_maxCount (rl_reg s) ∧ r_maxAge (rl_reg s') = r_maxAge (rl_reg s).
Proof.
  destruct 1; try done.
  - unfold create. destruct (_ !! _); [done|]. by case_bool_decide.
  - apply sweep_send_Some in H as (? & ? & ? & _ & _ & _ & ->). done.
  - apply sweep_done_Some in H as (? & ? & ? & _ & _ & _ & ->). done.
Qed.

Lemma reachable_config s s' : rtc rstep s s' →
  r_maxCount (rl_reg s') = r_maxCount (rl_reg s) ∧ r_maxAge (rl_reg s') = r_maxAge (rl_reg s).
Proof.
  induction 1 as [|s s1 s2 Hst _ [-> ->]]; [done|]. by apply rstep_config.
Qed.

(** The sweeper's send, once there is room. *)
Lemma sweep_send_room s ref rest p :
  rl_sweep s = ref :: rest → rl_hubs s !! ref = Some p →
  (length (s_inbox (p_sys p)) < inboxCap)%nat →
  rstep s (set_sweep (set_hub s ref (send_close p)) rest).
Proof. intros. apply rs_sweep_send, sweep_send_Some. eauto 10. Qed.

(** A running hub with a command waiting takes it. *)
Lemma hub_runs h c ib fs :
  h_done h = false → in_width 32 (h_nextID h + 1) →
  ∃ h', step (mkSys h (c :: ib) fs) (mkSys h' ib fs).
Proof.
  intros Hd Hw. destruct (run_iter h c) as [[h' r] []] eqn:E.
  - exists (shutdown h'). by eapply st_stop.
  - exists h'. by eapply st_run.
Qed.

Lemma sweep_moves_on s ref rest p :
  relay_inv s → rl_sweep s = ref :: rest → rl_hubs s !! ref = Some p →
  in_width 32 (h_nextID (p_hub p) + 1) →
  ∃ s' p', rtc rstep s s' ∧ rl_sweep s' = rest ∧ rl_reg s' = rl_reg s ∧
    rl_hubs s' !! ref = Some p' ∧
    (h_done (p_hub p') = true ∨ closeCmd "session expired" ∈ s_inbox (p_sys p')).
Proof.
  intros Hs Hsw Hp Hw. destruct (h_done (p_hub p)) eqn:Hd.
  { exists (set_sweep s rest), p. split_and!; auto.
    apply rtc_once, rs_sweep_done, sweep_done_Some. eauto 10. }
  destruct (decide (length (s_inbox (p_sys p)) < inboxCap)%nat) as [Hl|Hl].
  { exists (set_sweep (set_hub s ref (send_close p)) rest), (send_close p). split_and!; try done.
    - by apply rtc_once, sweep_send_room.
    - apply lookup_insert_eq.
    - right. simpl. set_solver. }
  destruct p as [[h ib fs] gone]. simpl in *. destruct ib as [|c ib]; [unfold inboxCap in Hl; simpl in Hl; lia|].
  destruct (hub_runs h c ib fs Hd Hw) as (h' & Hst).
  pose proof (si_inbox _ (ri_sys s Hs _ _ Hp)) as Hcap. simpl in Hcap.
  set (p1 := mkProc (mkSys h' ib fs) gone).
  exists (set_sweep (set_hub (set_hub s ref p1) ref (send_close p1)) rest), (send_close p1).
  split_and!; try done.
  - eapply rtc_l; [by eapply (rs_hub s ref)|]. apply rtc_once.
    apply sweep_send_room; [done|apply lookup_insert_eq|simpl; lia].
  - apply lookup_insert_eq.
  - right. simpl. set_solver.
Qed.

(** ** Properties *)

(** C15: one live hub per session, whatever the interleaving.  The registry never
    holds more than the configured number of sessions, every registered
    identifier names a hub created for it that has not yet run [onEmpty], and
    two hubs that have not run [onEmpty] never share an identifier: a session
    name is free again only after its hub has stopped. *)
Theorem registry_unique m a g s :
  (0 ≤ m)%Z → rtc rstep (init_relay m a g) s →
  (Z.of_nat (size (r_sessions (rl_reg s))) ≤ m)%Z ∧
  (∀ id ref, get s id = Some ref ↔
     ∃ p, rl_hubs s !! ref = Some p ∧ h_id (p_hub p) = id ∧ p_gone p = false) ∧
  (∀ r1 r2 p1 p2, rl_hubs s !! r1 = Some p1 → rl_hubs s !! r2 = Some p2 →
     p_gone p1 = false → p_gone p2 = false → h_id (p_hub p1) = h_id (p_hub p2) → r1 = r2).
Proof.
  intros Hm Hr. pose proof (reachable_config _ _ Hr) as [Hc _].
  apply relay_reachable_inv in Hr as [Hreg Hhub Hsz _ _]; [|done]. split; [by rewrite Hc in Hsz|].
  split.
  - intros id ref. split; [apply Hreg|]. intros (p & Hp & <- & Hg). by apply Hhub.
  - intros r1 r2 p1 p2 H1 H2 G1 G2 E. pose proof (Hhub _ _ H1 G1). pose proof (Hhub _ _ H2 G2).
    congruence.
Qed.

(** a late [onEmpty] cannot unregister somebody else's session.  When a hub
    calls back, the entry under its identifier is its own; the call deletes that
    entry and leaves every other session, and frees the identifier for
    [create] (below the session cap, which the deletion guarantees). *)
Theorem onEmpty_own m a g s ref p :
  (0 ≤ m)%Z → rtc rstep (init_relay m a g) s →
  rl_hubs s !! ref = Some p → p_gone p = false →
  let id := h_id (p_hub p) in
  let s' := onEmpty s ref p in
  get s id = Some ref ∧ get s' id = None ∧ (∀ i, i ≠ id → get s' i = get s i) ∧
  ∀ now k, ∃ ref', (create s' now id k).2 = inr ref' ∧ ref' ≠ ref.
Proof.
  intros Hm Hr Hp Hg id s'. apply relay_reachable_inv in Hr as [Hreg Hhub Hsz _ _]; [|done].
  pose proof (Hhub ref p Hp Hg) as Hid. split; [done|]. unfold get, s'. simpl.
  split; [apply lookup_delete_eq|]. split; [intros; by apply lookup_delete_ne|].
  intros now k. unfold create. simpl. rewrite lookup_delete_eq, bool_decide_eq_false_2.
  - simpl. eexists. split; [done|]. intros E.
    pose proof (is_fresh (dom (<[ref:=mkProc (p_sys p) true]> (rl_hubs s)))) as Hf.
    rewrite E in Hf. apply Hf. rewrite dom_insert_L. set_solver.
  - unfold id, get in *. rewrite map_size_delete_Some by done.
    assert (size (r_sessions (rl_reg s)) ≠ 0%nat); [|lia].
    intros Hz%map_size_empty_inv. rewrite Hz in Hid. done.
Qed.

(** the sweeper picks exactly the registered hubs older than the age cap,
    each once, and it cannot deadlock against a hub: from every reachable state
    in which it waits on a hub, it can go on to the next one, after at most one
    iteration of that hub, and by then the hub has stopped or has the close
    command in its inbox. *)
Theorem sweep_progress m a g s ref rest p :
  (0 ≤ m)%Z → rtc rstep (init_relay m a g) s →
  (∀ now, NoDup (rl_sweep (sweep s now)) ∧ ∀ x, x ∈ rl_sweep (sweep s now) ↔
     ∃ id q, get s id = Some x ∧ rl_hubs s !! x = Some q ∧
       (a < now - h_created (p_hub q))%Z) ∧
  (rl_sweep s = ref :: rest → rl_hubs s !! ref = Some p →
   in_width 32 (h_nextID (p_hub p) + 1) →
   ∃ s' p', rtc rstep s s' ∧ rl_sweep s' = rest ∧ rl_reg s' = rl_reg s ∧
     rl_hubs s' !! ref = Some p' ∧
     (h_done (p_hub p') = true ∨ closeCmd "session expired" ∈ s_inbox (p_sys p'))).
Proof.
  intros Hm Hr. pose proof (reachable_config _ _ Hr) as [_ Ha]. simpl in Ha.
  apply relay_reachable_inv in Hr as Hs; [|done]. split; [|by apply sweep_moves_on].
  intros now. split; [by apply NoDup_filter, NoDup_hubs|].
  intros x. by rewrite elem_of_sweep, Ha.
Qed.
End Registry.

(** ** A relay with one session, and its sweeper *)

#[local] Existing Instance bits_codec.
#[local] Existing Instance ex_entropy.
#[local] Existing Instance ex_range.

Definition ex_hubs_range : MapRange SessionID hub_ref := map_to_list_range SessionID hub_ref.
#[local] Existing Instance ex_hubs_range.

Definition ex_sid : SessionID := replicate 16 x07.
Definition ex_relay : relay := (create (init_relay 2 100 30) 5 ex_sid 4).1.
Definition ex_proc : hubproc :=
  mkProc (init_sys ex_sid 4 30 5 (mkEnv metrics0 ∅ ∅ 0)) false.
Definition ex_sweeping : relay := sweep ex_relay 200.

Lemma ex_relay_reachable : rtc rstep (init_relay 2 100 30) ex_relay.
Proof. apply rtc_once, rs_create. done. Qed.

Lemma ex_sweeping_reachable : rtc rstep (init_relay 2 100 30) ex_sweeping.
Proof. eapply rtc_r; [apply ex_relay_reachable|]. by apply rs_sweep. Qed.

Lemma registry_unique_witness :
  ∃ ref p, get ex_relay ex_sid = Some ref ∧ rl_hubs ex_relay !! ref = Some p ∧
    h_id (p_hub p) = ex_sid ∧ p_gone p = false.
Proof.
  destruct (registry_unique 2 100 30 ex_relay ltac:(done) ex_relay_reachable) as (_ & H & _).
  destruct (get ex_relay ex_sid) as [ref|] eqn:E; [|vm_compute in E; discriminate E].
  destruct (proj1 (H ex_sid ref) E) as (p & Hp). exists ref, p. split; [reflexivity|exact Hp].
Defined.

Lemma onEmpty_own_witness :
  get ex_relay ex_sid = Some 0 ∧ get (onEmpty ex_relay 0 ex_proc) ex_sid = None.
Proof.
  destruct (onEmpty_own 2 100 30 ex_relay 0 ex_proc ltac:(done) ex_relay_reachable
    ltac:(reflexivity) ltac:(reflexivity)) as (H1 & H2 & _).
  split; [exact H1|exact H2].
Defined.

Lemma sweep_progress_witness :
  ∃ s' p', rtc rstep ex_sweeping s' ∧ rl_sweep s' = [] ∧ rl_hubs s' !! 0 = Some p' ∧
    (h_done (p_hub p') = true ∨ closeCmd "session expired" ∈ s_inbox (p_sys p')).
Proof.
  destruct (proj2 (sweep_progress 2 100 30 ex_sweeping 0 [] ex_proc ltac:(done)
    ex_sweeping_reachable) ltac:(vm_compute; reflexivity) ltac:(reflexivity)
    ltac:(vm_compute; reflexivity)) as (s' & p' & H1 & H2 & _ & H3 & H4).
  exists s', p'. split; [exact H1|]. split; [exact H2|]. split; [exact H3|exact H4].
Defined.
