(* ===== verification/RateLimit.v ===== *)
(** * The per-address rate limiter (relay/ratelimit.go)

    Connection attempts are throttled per client address: the host part of the
    remote address ([net.SplitHostPort]) keys a map of token buckets, bounded by
    an eviction that drops idle entries first.  The buckets
    (golang.org/x/time/rate) are a parameter. *)
From S2P Require Import Prelude.

#[local] Open Scope string_scope.

(** ** [net.SplitHostPort] *)

Fixpoint index_byte (c : ascii) (s : string) : option nat :=
  match s with
  | EmptyString => None
  | String a s => if bool_decide (a = c) then Some 0 else S <$> index_byte c s
  end.

Fixpoint last_index_byte (c : ascii) (s : string) : option nat :=
  match s with
  | EmptyString => None
  | String a s =>
      match last_index_byte c s with
      | Some i => Some (S i)
      | None => if bool_decide (a = c) then Some 0 else None
      end
  end.

Fixpoint string_drop (n : nat) (s : string) : string :=
  match n, s with
  | S n, String _ s => string_drop n s
  | _, _ => s
  end.

Fixpoint string_take (n : nat) (s : string) : string :=
  match n, s with
  | S n, String c s => String c (string_take n s)
  | _, _ => ""
  end.

Inductive addr_error :=
| missingPort | tooManyColons | missingBracket | unexpectedOpen | unexpectedClose.

Definition SplitHostPort (hostport : string) : result addr_error (string * string) :=
  match last_index_byte ":" hostport with
  | None => Err missingPort
  | Some i =>
      let host_jk : result addr_error (string * nat * nat) :=
        if bool_decide (String.get 0 hostport = Some "["%char) then
          match index_byte "]" hostport with
          | None => Err missingBracket
          | Some e =>
              if bool_decide (S e = String.length hostport) then Err missingPort
              else if bool_decide (S e = i) then
                Ok (string_take (e - 1) (string_drop 1 hostport), 1, S e)
              else if bool_decide (String.get (S e) hostport = Some ":"%char)
              then Err tooManyColons
              else Err missingPort
          end
        else
          let host := string_take i hostport in
          match index_byte ":" host with
          | Some _ => Err tooManyColons
          | None => Ok (host, 0, 0)
          end in
      match host_jk with
      | Err e => Err e
      | Ok (host, j, k) =>
          match index_byte "[" (string_drop j hostport), index_byte "]" (string_drop k hostport) with
          | Some _, _ => Err unexpectedOpen
          | None, Some _ => Err unexpectedClose
          | None, None => Ok (host, string_drop (S i) hostport)
          end
      end
  end.

(** The key [allow] files a remote address under. *)
Definition client_ip (remoteAddr : string) : string :=
  match SplitHostPort remoteAddr with
  | Ok (ip, _) => ip
  | Err _ => remoteAddr
  end.

(** ** The limiter *)

(** golang.org/x/time/rate: a rate, whether it is at most zero, the rate of one
    event per interval, and a bucket made with a rate and a burst, asked for one
    token at a time. *)
Class RateLib := {
  Limit : Type;
  Limit_nonpos : Limit → bool;
  Every : Z → Limit;
  Limiter : Type;
  NewLimiter : Limit → Z → Limiter;
  AllowN : Limiter → Z → Limiter * bool
}.

Definition ipLimiterCap : nat := Z.to_nat 16384.
(** Two minutes, in nanoseconds. *)
Definition ipIdleTTL : Z := 2 * 60 * 1000000000.

Section Limiter.
Context {RL : RateLib}.

Record ipEntry := mkEntry { e_lim : Limiter; e_seen : Z }.
Record ipLimiter := mkIPLimiter {
  l_m : gmap string ipEntry; l_limit : Limit; l_burst : Z }.

Context {MR : MapRange string ipEntry}.

Definition newIPLimiter (limit : Limit) (burst : Z) : ipLimiter := mkIPLimiter ∅ limit burst.

Definition count (l : ipLimiter) : nat := size (l_m l).

Definition stale (now : Z) (e : ipEntry) : bool := bool_decide (ipIdleTTL ≤ now - e_seen e)%Z.

(** The loop of [evictLocked]: the map, the oldest key and time, [freed]. *)
Definition evict_visit (now : Z) (acc : gmap string ipEntry * string * Z * bool)
    (p : string * ipEntry) : gmap string ipEntry * string * Z * bool :=
  let '(m, oldestKey, oldestSeen, freed) := acc in
  let '(k, e) := p in
  if stale now e then (delete k m, oldestKey, oldestSeen, true)
  else if bool_decide (oldestKey = "") || bool_decide (e_seen e < oldestSeen)%Z
  then (m, k, e_seen e, freed)
  else (m, oldestKey, oldestSeen, freed).

(** [zero]: the zero [time.Time] the loop starts with. *)
Definition zero_time : Z := 0.

Definition evictLocked (now : Z) (m : gmap string ipEntry) : gmap string ipEntry :=
  let '(m, oldestKey, _, freed) := foldl (evict_visit now) (m, "", zero_time, false) (range m) in
  if negb freed && bool_decide (oldestKey ≠ "") then delete oldestKey m else m.

Definition allow (l : ipLimiter) (now : Z) (remoteAddr : string) : ipLimiter * bool :=
  let ip := client_ip remoteAddr in
  match l_m l !! ip with
  | Some e =>
      let '(lim, ok) := AllowN (e_lim e) now in
      (mkIPLimiter (<[ip := mkEntry lim now]> (l_m l)) (l_limit l) (l_burst l), ok)
  | None =>
      let m := if bool_decide (ipLimiterCap ≤ size (l_m l))%nat then evictLocked now (l_m l)
               else l_m l in
      let '(lim, ok) := AllowN (NewLimiter (l_limit l) (l_burst l)) now in
      (mkIPLimiter (<[ip := mkEntry lim now]> m) (l_limit l) (l_burst l), ok)
  end.

(** ** What the eviction keeps *)

Lemma visit_map now l m ok os fr m' ok' os' fr' :
  foldl (evict_visit now) (m, ok, os, fr) l = (m', ok', os', fr') →
  (∀ k v, m' !! k = Some v ↔ m !! k = Some v ∧ ¬ ∃ e, (k, e) ∈ l ∧ stale now e = true) ∧
  (fr' = true ↔ fr = true ∨ ∃ p, p ∈ l ∧ stale now p.2 = true).
Proof.
  revert m ok os fr. induction l as [|[k e] l IH]; intros m ok os fr; simpl.
  { intros [= <- _ _ <-]. setoid_rewrite elem_of_nil. naive_solver. }
  setoid_rewrite elem_of_cons. destruct (stale now e) eqn:Hst.
  - intros [Hm Hf]%IH. split.
    + intros x v. rewrite Hm, lookup_delete_Some. naive_solver.
    + rewrite Hf. naive_solver.
  - assert (∀ x, (∃ e', ((x, e') = (k, e) ∨ (x, e') ∈ l) ∧ stale now e' = true) ↔
      ∃ e', (x, e') ∈ l ∧ stale now e' = true) as H1.
    { intros x. split; [|intros (? & ? & ?); eauto].
      intros (e' & [[= -> ->]|?] & ?); [congruence|eauto]. }
    assert ((∃ p, (p = (k, e) ∨ p ∈ l) ∧ stale now p.2 = true) ↔
      ∃ p, p ∈ l ∧ stale now p.2 = true) as H2.
    { split; [|intros (? & ? & ?); eauto]. intros (p & [->|?] & ?); [simpl in *; congruence|eauto]. }
    rewrite H2. setoid_rewrite H1. destruct (_ || _); apply IH.
Qed.

(** With nothing stale and no empty key, the loop ends on the oldest entry. *)
Lemma visit_oldest now l m ok os fr m' ok' os' fr' :
  Forall (λ p, p.1 ≠ "" ∧ stale now p.2 = false) l → (ok ≠ "" ∨ l ≠ []) →
  foldl (evict_visit now) (m, ok, os, fr) l = (m', ok', os', fr') →
  m' = m ∧ ok' ≠ "" ∧ (∀ p, p ∈ l → (os' ≤ e_seen p.2)%Z) ∧ (ok ≠ "" → (os' ≤ os)%Z) ∧
  ((ok', os') = (ok, os) ∨ ∃ e, (ok', e) ∈ l ∧ e_seen e = os').
Proof.
  intros Hl. revert m ok os fr. induction Hl as [|[k e] l [Hk Hst] Hl IH];
    intros m ok os fr Hne; simpl in *.
  { intros [= <- <- <- <-]. destruct Hne as [Hne|?]; [|done].
    split_and!; [done..| |done|by left]. by intros p ?%elem_of_nil. }
  rewrite Hst. setoid_rewrite elem_of_cons.
  destruct (bool_decide (ok = "") || _) eqn:E;
    [intros (-> & Ho & Hmin & Hle & Hin)%IH; [|by left]|].
  - split; [done|]. split; [done|]. split; [intros p [->|?]; simpl; [by apply Hle|by apply Hmin]|].
    split; [|right; destruct Hin as [[= -> ->]|(e' & ? & ?)]; eauto].
    intros Hok. apply orb_true_iff in E as [E|E]; apply bool_decide_eq_true in E; [done|].
    specialize (Hle Hk). lia.
  - apply orb_false_iff in E as [E1 E2]. apply bool_decide_eq_false in E1, E2.
    intros (-> & Ho & Hmin & Hle & Hin)%IH; [|by left]. specialize (Hle E1).
    split; [done|]. split; [done|]. split; [intros p [->|?]; simpl; [lia|by apply Hmin]|].
    split; [done|]. destruct Hin as [?|(e' & ? & ?)]; eauto.
Qed.

Lemma evict_stale now m :
  (∃ k e, m !! k = Some e ∧ stale now e = true) →
  evictLocked now m = filter (λ p, stale now p.2 = false) m.
Proof.
  intros (k & e & Hk & Hst). unfold evictLocked.
  destruct (foldl _ _ _) as [[[m' ok'] os'] fr'] eqn:E.
  apply visit_map in E as [Hm Hf]. rewrite (proj2 Hf); simpl.
  2: { right. exists (k, e). split; [by apply elem_of_range|done]. }
  apply map_eq. intros x. apply option_eq. intros v. rewrite Hm, map_lookup_filter_Some.
  setoid_rewrite elem_of_range. simpl. split.
  - intros [Hx Hn]. split; [done|]. destruct (stale now v) eqn:E; [|done]. destruct Hn. eauto.
  - intros [Hx Hv]. split; [done|]. intros (e' & ? & ?). congruence.
Qed.

Lemma evict_oldest now m :
  m !! "" = None → m ≠ ∅ → (∀ k e, m !! k = Some e → stale now e = false) →
  ∃ k e, m !! k = Some e ∧ evictLocked now m = delete k m ∧
    ∀ k' e', m !! k' = Some e' → (e_seen e ≤ e_seen e')%Z.
Proof.
  intros H0 Hne Hst. unfold evictLocked.
  destruct (foldl _ _ _) as [[[m' ok'] os'] fr'] eqn:E.
  pose proof (visit_map _ _ _ _ _ _ _ _ _ _ E) as [_ Hf].
  assert (fr' = false) as ->.
  { destruct fr'; [|done]. destruct (proj1 Hf eq_refl) as [?|([k e] & Hin & Hs)]; [done|].
    apply elem_of_range in Hin. simpl in Hs. by rewrite (Hst k e) in Hs. }
  apply visit_oldest in E as (-> & Hok & Hmin & _ & Hin).
  - rewrite bool_decide_eq_true_2 by done. simpl.
    destruct Hin as [[= -> _]|(e & He & <-)]; [done|]. apply elem_of_range in He.
    exists ok', e. split; [done|]. split; [done|]. intros k' e' Hk'.
    apply (Hmin (k', e')). by apply elem_of_range.
  - apply Forall_forall. intros [k e] Hin%elem_of_range. simpl. split; [congruence|by eapply Hst].
  - right. intros Hr. apply Hne, map_to_list_empty_iff, Permutation_nil.
    by rewrite <- range_perm, Hr.
Qed.

Lemma stale_dec now (m : gmap string ipEntry) :
  (∃ k e, m !! k = Some e ∧ stale now e = true) ∨
  (∀ k e, m !! k = Some e → stale now e = false).
Proof.
  destruct (decide (map_Forall (λ _ e, stale now e = false) m)) as [Hf|Hf]; [by right|].
  apply map_not_Forall in Hf as (k & e & Hk & Hs); [|apply _].
  left. exists k, e. split; [done|]. by destruct (stale now e).
Qed.

(** Whom an eviction forgets: the idle, or failing that one least recently seen. *)
Lemma evict_forgets now m k e :
  m !! "" = None → m !! k = Some e →
  evictLocked now m !! k = Some e ∨
  (evictLocked now m !! k = None ∧
   (stale now e = true ∨
    ((∀ k' e', m !! k' = Some e' → stale now e' = false) ∧
     ∀ k' e', m !! k' = Some e' → (e_seen e ≤ e_seen e')%Z))).
Proof.
  intros H0 Hk. destruct (stale_dec now m) as [Hs|Hs].
  - rewrite evict_stale by done. destruct (stale now e) eqn:E.
    + right. split; [|by left]. apply map_lookup_filter_None. right. intros e' He'. simpl. congruence.
    + left. by apply map_lookup_filter_Some.
  - destruct (evict_oldest now m H0) as (k0 & e0 & Hk0 & -> & Hmin); [|done|].
    { intros ->. done. }
    rewrite lookup_delete. case_decide as Hkk; [right|by left]. subst. simplify_eq. auto.
Qed.

Lemma evict_shrinks now m :
  m !! "" = None → m ≠ ∅ → size (evictLocked now m) < size m.
Proof.
  intros H0 Hne. destruct (stale_dec now m) as [Hs|Hs].
  - rewrite evict_stale by done. destruct Hs as (k & e & Hk & Hs). apply map_subset_size.
    split; [apply map_filter_subseteq|]. intros Hsub.
    pose proof (lookup_weaken _ _ _ _ Hk Hsub) as Hf.
    apply map_lookup_filter_Some in Hf as [_ Hf]. simpl in Hf. congruence.
  - destruct (evict_oldest now m H0 Hne Hs) as (k & e & Hk & -> & _).
    rewrite map_size_delete_Some by done.
    assert (size m ≠ 0%nat) by (by intros ?%map_size_empty_inv). lia.
Qed.

Lemma evict_no_empty now m : m !! "" = None → evictLocked now m !! "" = None.
Proof.
  intros H0. destruct (decide (m = ∅)) as [->|Hne].
  { unfold evictLocked. assert (range (∅ : gmap string ipEntry) = []) as ->; [|done].
    apply Permutation_nil. by rewrite range_perm, map_to_list_empty. }
  destruct (stale_dec now m) as [Hs|Hs].
  - rewrite evict_stale by done. apply map_lookup_filter_None. by left.
  - destruct (evict_oldest now m H0 Hne Hs) as (k & e & Hk & -> & _).
    rewrite lookup_delete. by case_decide.
Qed.

(** A sequence of connection attempts: times and remote addresses. *)
Definition attempts (l : ipLimiter) (xs : list (Z * string)) : ipLimiter :=
  foldl (λ l x, (allow l x.1 x.2).1) l xs.

Lemma allow_step_bounded l now a :
  client_ip a ≠ "" → l_m l !! "" = None → (count l ≤ ipLimiterCap)%nat →
  l_m (allow l now a).1 !! "" = None ∧ (count (allow l now a).1 ≤ ipLimiterCap)%nat.
Proof.
  intros Ha H0 Hc. unfold allow, count in *. destruct (l_m l !! client_ip a) as [e|] eqn:He.
  - destruct (AllowN _ _). simpl. rewrite lookup_insert_ne, map_size_insert_Some by done. done.
  - destruct (AllowN _ _). simpl. rewrite lookup_insert_ne by done.
    case_bool_decide as Hf.
    + split; [by apply evict_no_empty|]. rewrite map_size_insert.
      assert (l_m l ≠ ∅).
      { intros Hm. rewrite Hm, map_size_empty in Hf. unfold ipLimiterCap in Hf. lia. }
      pose proof (evict_shrinks now (l_m l) H0 H). case_match; unfold Datatypes.id; lia.
    + split; [done|]. rewrite map_size_insert_None by done. lia.
Qed.

(** ** Properties *)

(** one address, one bucket.  An attempt is decided by the token bucket of
    its own address, a fresh one if the address is not tracked, and updates that
    entry alone; no other entry changes while the address is known or the map
    below its cap, and at the cap a tracked address is forgotten only if it has
    been idle for [ipIdleTTL], or, when nobody is idle, if it is the least
    recently seen: an eviction never forgives a more active address. *)
Theorem allow_spec l now a l' ok :
  l_m l !! "" = None → allow l now a = (l', ok) →
  let ip := client_ip a in
  (∃ lim, AllowN (from_option e_lim (NewLimiter (l_limit l) (l_burst l)) (l_m l !! ip)) now
            = (lim, ok) ∧ l_m l' !! ip = Some (mkEntry lim now)) ∧
  (∀ j, j ≠ ip → is_Some (l_m l !! ip) ∨ (count l < ipLimiterCap)%nat →
     l_m l' !! j = l_m l !! j) ∧
  ∀ j e, j ≠ ip → l_m l !! j = Some e →
    l_m l' !! j = Some e ∨
    (l_m l' !! j = None ∧
     (stale now e = true ∨
      ((∀ k' e', l_m l !! k' = Some e' → stale now e' = false) ∧
       ∀ k' e', l_m l !! k' = Some e' → (e_seen e ≤ e_seen e')%Z))).
Proof.
  intros H0 E ip. unfold allow in E. fold ip in E. unfold count.
  destruct (l_m l !! ip) as [e|] eqn:He; simpl in *; destruct (AllowN _ _) as [lim b];
    injection E as <- <-; simpl.
  - split; [exists lim; by rewrite lookup_insert_eq|].
    split; intros; rewrite lookup_insert_ne by done; [done|by left].
  - split; [exists lim; by rewrite lookup_insert_eq|].
    split; [intros j Hj [[]|Hc]; [done|]|intros j e Hj Hk]; rewrite lookup_insert_ne by done.
    + by rewrite bool_decide_eq_false_2 by lia.
    + case_bool_decide; [by apply evict_forgets|by left].
Qed.

(** C32: the tracking map stays bounded: after any sequence of attempts from
    addresses with a host part, at most [ipLimiterCap] addresses are tracked. *)
Theorem attempts_bounded limit burst xs :
  Forall (λ x, client_ip x.2 ≠ "") xs →
  (count (attempts (newIPLimiter limit burst) xs) ≤ ipLimiterCap)%nat.
Proof.
  intros Hxs. unfold attempts.
  assert (∀ l, l_m l !! "" = None → (count l ≤ ipLimiterCap)%nat →
    (count (foldl (λ l x, (allow l x.1 x.2).1) l xs) ≤ ipLimiterCap)%nat) as H.
  { induction Hxs as [|x xs Hx _ IH]; [done|]. intros l H0 Hc. simpl.
    destruct (allow_step_bounded l x.1 x.2 Hx H0 Hc). by apply IH. }
  apply H; [done|]. assert (count (newIPLimiter limit burst) = 0) as -> by apply map_size_empty. lia.
Qed.
End Limiter.

(** ** The address key *)

Definition no_byte (c : ascii) (s : string) : Prop := index_byte c s = None.

Lemma no_byte_cons c a s : no_byte c (String a s) ↔ a ≠ c ∧ no_byte c s.
Proof.
  unfold no_byte. simpl. case_bool_decide; [naive_solver|]. rewrite fmap_None. naive_solver.
Qed.

Lemma no_byte_app c s t : no_byte c (s +:+ t) ↔ no_byte c s ∧ no_byte c t.
Proof.
  induction s as [|a s IH]; [unfold no_byte; simpl; tauto|].
  change (String a s +:+ t) with (String a (s +:+ t)). rewrite !no_byte_cons, IH. tauto.
Qed.

Lemma last_index_none c s : no_byte c s → last_index_byte c s = None.
Proof.
  induction s as [|a s IH]; [done|]. intros [Ha Hs]%no_byte_cons. simpl.
  rewrite IH by done. by rewrite bool_decide_eq_false_2.
Qed.

Lemma last_index_app c s t :
  no_byte c t → last_index_byte c (s +:+ String c t) = Some (String.length s).
Proof.
  intros Ht. induction s as [|a s IH]; simpl; [|by rewrite IH].
  rewrite last_index_none by done. by rewrite bool_decide_eq_true_2.
Qed.

Lemma string_take_app s t : string_take (String.length s) (s +:+ t) = s.
Proof. induction s as [|a s IH]; simpl; [by destruct t|by rewrite IH]. Qed.

Lemma string_drop_app n s t :
  string_drop (String.length s + n) (s +:+ t) = string_drop n t.
Proof. induction s as [|a s IH]; simpl; [done|by rewrite IH]. Qed.

Lemma index_byte_app c s t : no_byte c s → index_byte c (s +:+ String c t) = Some (String.length s).
Proof.
  induction s as [|a s IH]; simpl; [by rewrite bool_decide_eq_true_2|].
  intros [Ha Hs]%no_byte_cons. rewrite bool_decide_eq_false_2 by done. by rewrite IH.
Qed.

Lemma String_app_assoc s t u : s +:+ (t +:+ u) = (s +:+ t) +:+ u.
Proof. induction s as [|a s IH]; [done|exact (f_equal (String a) IH)]. Qed.

Lemma String_length_app s t : String.length (s +:+ t) = String.length s + String.length t.
Proof. induction s as [|a s IH]; [done|exact (f_equal S IH)]. Qed.

Definition plain (s : string) : Prop := no_byte "[" s ∧ no_byte "]" s.

(** the port does not matter to the limiter.  For an address
    [host:port] without further colons or brackets, and for the bracketed IPv6
    form [[host]:port], the key is the host: a client cannot get a second bucket
    by connecting from another port. *)
Theorem client_ip_host host port :
  plain host → plain port → no_byte ":" port →
  (no_byte ":" host → client_ip (host +:+ ":" +:+ port) = host) ∧
  client_ip ("[" +:+ host +:+ "]:" +:+ port) = host.
Proof.
  intros [Ho Hc] [Ho' Hc'] Hp. unfold client_ip, SplitHostPort. split.
  - intros Hh. change (":" +:+ port) with (String ":" port). rewrite last_index_app by done.
    rewrite bool_decide_eq_false_2; [|destruct host as [|a host]; [done|]; simpl;
      apply no_byte_cons in Ho as [? _]; congruence].
    rewrite string_take_app, Hh. cbn [string_drop].
    assert (∀ c, c ≠ ":"%char → no_byte c host → no_byte c port →
      index_byte c (host +:+ String ":" port) = None) as H.
    { intros c Hne H1 H2. apply no_byte_app. split; [done|]. by apply no_byte_cons. }
    by rewrite !H.
  - set (F := "[" +:+ host +:+ "]:" +:+ port).
    assert (F = ("[" +:+ host +:+ "]") +:+ String ":" port) as E1
      by (unfold F; by rewrite <- !String_app_assoc).
    assert (F = ("[" +:+ host) +:+ String "]" (String ":" port)) as E2 by done.
    assert (last_index_byte ":" F = Some (2 + String.length host)) as ->.
    { rewrite E1, last_index_app by done. rewrite !String_length_app. simpl. f_equal. lia. }
    rewrite bool_decide_eq_true_2 by done.
    assert (index_byte "]" F = Some (1 + String.length host)) as ->
      by (rewrite E2, index_byte_app; [done|by apply no_byte_cons]).
    assert (String.length F = 3 + String.length host + String.length port) as ->
      by (rewrite E2, !String_length_app; simpl; lia).
    rewrite bool_decide_eq_false_2, bool_decide_eq_true_2 by lia.
    assert (string_drop 1 F = host +:+ String "]" (String ":" port)) as -> by done.
    assert (string_drop (S (1 + String.length host)) F = String ":" port) as ->.
    { change (string_drop (S (1 + String.length host)) F) with
        (string_drop (1 + String.length host) (host +:+ String "]" (String ":" port))).
      by rewrite Nat.add_comm, string_drop_app. }
    assert (∀ c, no_byte c host → c ≠ "]"%char → c ≠ ":"%char → no_byte c port →
      index_byte c (host +:+ String "]" (String ":" port)) = None) as H.
    { intros. apply no_byte_app. split; [done|]. by rewrite !no_byte_cons. }
    rewrite H by done.
    assert (index_byte "]" (String ":" port) = None) as -> by (by apply no_byte_cons).
    replace (1 + String.length host - 1) with (String.length host) by lia.
    by rewrite string_take_app.
Qed.

(** ** A concrete limiter *)

(** A bucket that never refills. *)
Definition ex_rate : RateLib :=
  {| Limit := Z; Limit_nonpos := λ z, bool_decide (z ≤ 0)%Z; Every := λ d, d;
     Limiter := Z; NewLimiter := λ _ b, b;
     AllowN := λ l _, ((l - 1)%Z, bool_decide (0 < l)%Z) |}.
#[local] Existing Instance ex_rate.
Definition ex_entries : MapRange string ipEntry := map_to_list_range string ipEntry.
#[local] Existing Instance ex_entries.

Definition ex_attempts : list (Z * string) :=
  [(0%Z, "10.0.0.1:5000"); (1%Z, "[::1]:80"); (2%Z, "10.0.0.1:5001")].
Definition ex_limiter : ipLimiter := attempts (newIPLimiter (Every 1) 2) ex_attempts.

Lemma allow_spec_witness :
  (allow ex_limiter 3 "10.0.0.1:6000").2 = false ∧
  l_m (allow ex_limiter 3 "10.0.0.1:6000").1 !! "::1" = l_m ex_limiter !! "::1".
Proof.
  split; [vm_compute; reflexivity|].
  destruct (allow ex_limiter 3 "10.0.0.1:6000") as [l' ok] eqn:E.
  destruct (allow_spec ex_limiter 3 "10.0.0.1:6000" l' ok) as (_ & H & _);
    [vm_compute; reflexivity|exact E|].
  apply (H "::1"); [vm_compute; discriminate|].
  right. apply Nat.ltb_lt. vm_compute. reflexivity.
Defined.

Lemma attempts_bounded_witness : (count ex_limiter ≤ ipLimiterCap)%nat.
Proof.
  apply (attempts_bounded (Every 1) 2 ex_attempts).
  repeat (apply Forall_cons; split; [vm_compute; discriminate|]). apply Forall_nil. exact I.
Defined.

Lemma client_ip_host_witness :
  client_ip "10.0.0.1:5000" = "10.0.0.1" ∧ client_ip "[10.0.0.1]:5000" = "10.0.0.1".
Proof.
  destruct (client_ip_host "10.0.0.1" "5000") as [H1 H2];
    [split; reflexivity|split; reflexivity|reflexivity|].
  split; [apply H1; reflexivity|exact H2].
Defined.
