(* ===== verification/Stats.v ===== *)
(** * Relay statistics (relay/stats.go)

    The dashboard's snapshot of a relay and the merge of several relays'
    snapshots into one.  Durations are nanoseconds; [AgeSeconds], a [float64] of
    seconds in the source, is kept as the duration it is computed from. *)
From S2P Require Import Prelude Wire Hub HubInv HubSpec HubLife HubSys HubExamples Registry.

Open Scope N_scope.

Record SessionStat := mkSessionStat {
  ss_ID : string;
  ss_Age : Z;
  ss_Participants : nat;
  ss_MaxParticipants : Z;
  ss_Host : N;
  ss_IDsIssued : N;
  ss_Clients : list ClientStat }.

Record Stats := mkStats {
  st_Uptime : Z;
  st_ActiveSessions : Z;
  st_MaxSessions : Z;
  st_MaxParticipants : Z;
  st_MaxAge : Z;
  st_Grace : Z;
  st_IdleTimeout : Z;
  st_TrackedIPs : Z;
  st_SessionsCreated : N;
  st_FramesForwarded : N;
  st_BytesForwarded : N;
  st_Joins : N;
  st_Resumes : N;
  st_Errors : N;
  st_Sessions : list SessionStat }.

Definition zero_stats : Stats := mkStats 0 0 0 0 0 0 0 0 0 0 0 0 0 0 [].

(** ** One hub *)

Section Snapshot.
Context {WC : WireCodec} {EN : Entropy} {MR : MapRange ParticipantID client}.

(** The command is in the inbox behind those [ahead]; [None] when the hub stops
    before it comes to ours, which [snapshot] sees because it watches [done]. *)
Fixpoint await_stats (h : hub) (ahead : list cmd) : option hubStats :=
  match ahead with
  | [] => Some (handleStats h)
  | c :: ahead =>
      let '(h, _, stop) := run_iter h c in
      if stop : bool then None else await_stats h ahead
  end.

(** [snapshot]: the send is refused by a hub that has shut down. *)
Definition snapshot (h : hub) (ahead : list cmd) : option hubStats :=
  if h_done h then None else await_stats h ahead.

(** a snapshot of a hub never hangs.  Whatever commands are ahead of it in
    the inbox, either the run loop comes to it and gives the answer of the hub as it
    then is, or the hub has stopped before, and the caller is told so. *)
Theorem snapshot_answered h ahead rest :
  h_done h = false →
  let '(h', replies, _) := run h (ahead ++ statsCmd :: rest) in
  match snapshot h ahead with
  | Some hs => replies !! length ahead = Some (Some (RStats hs))
  | None => h_done h' = true ∧ (length replies ≤ length ahead)%nat
  end.
Proof.
  unfold snapshot. intros ->. revert h. induction ahead as [|c ahead IH]; intros h; simpl.
  - unfold run_iter. simpl. destruct (drainEvictions h) as [h1 []]; [done|].
    by destruct (run h1 rest) as [[h2 rs] rest'].
  - destruct (run_iter h c) as [[h1 r] []]; [split; [done|simpl; lia]|].
    specialize (IH h1). destruct (run h1 _) as [[h2 rs] rest'].
    destruct (await_stats h1 ahead); [done|]. simpl. split; [by apply IH|].
    destruct IH as [_ Hl]. lia.
Qed.
End Snapshot.

(** ** One relay *)

Definition session_stat (now : Z) (h : hub) (hs : hubStats) : SessionStat :=
  mkSessionStat (hex_encode (h_id h)) (now - h_created h) (hs_participants hs) (h_max h)
    (hs_host hs) (wrap 32 (hs_nextID hs + (2 ^ 32 - 1))) (hs_clients hs).

Section Stats.
Context {MS : MapRange SessionID hub_ref}.

(** [Server.Stats]: the configuration, the counters, and every hub of the
    registry that answered; [answer] is what each hub replied. *)
Definition server_Stats (s : relay) (now started maxParticipants idleTimeout : Z)
    (tracked : nat) (answer : hub_ref → option hubStats) : Stats :=
  let m := r_metrics (rl_reg s) in
  let hs := hubs s in
  mkStats (now - started) (Z.of_nat (length hs)) (r_maxCount (rl_reg s)) maxParticipants
    (r_maxAge (rl_reg s)) (r_grace (rl_reg s)) idleTimeout (Z.of_nat tracked)
    (SessionsCreated m) (FramesForwarded m) (BytesForwarded m) (Joins m) (Resumes m) (Errors m)
    (omap (λ ref, p ← rl_hubs s !! ref; hs ← answer ref;
                  Some (session_stat now (p_hub p) hs)) hs).
End Stats.

(** ** A cluster *)

(** One round of [MergeStats]'s loop. *)
Definition merge_into (out p : Stats) : Stats :=
  mkStats (if bool_decide (st_Uptime out < st_Uptime p)%Z then st_Uptime p else st_Uptime out)
    (wrapz 64 (st_ActiveSessions out + st_ActiveSessions p))
    (st_MaxSessions out) (st_MaxParticipants out) (st_MaxAge out) (st_Grace out)
    (st_IdleTimeout out)
    (wrapz 64 (st_TrackedIPs out + st_TrackedIPs p))
    (wrap 64 (st_SessionsCreated out + st_SessionsCreated p))
    (wrap 64 (st_FramesForwarded out + st_FramesForwarded p))
    (wrap 64 (st_BytesForwarded out + st_BytesForwarded p))
    (wrap 64 (st_Joins out + st_Joins p))
    (wrap 64 (st_Resumes out + st_Resumes p))
    (wrap 64 (st_Errors out + st_Errors p))
    (st_Sessions out ++ st_Sessions p).

Definition MergeStats (parts : list Stats) : Stats :=
  match parts with
  | [] => zero_stats
  | p :: rest => foldl merge_into p rest
  end.

(** Merging is associative, at the width of every counter. *)
Lemma merge_into_assoc a b c : merge_into (merge_into a b) c = merge_into a (merge_into b c).
Proof.
  unfold merge_into. simpl. f_equal.
  1: repeat case_bool_decide; lia.
  all: auto using wrap_add_assoc, wrapz_add_assoc, app_assoc.
Qed.

Lemma foldl_merge a b xs : foldl merge_into (merge_into a b) xs = merge_into a (foldl merge_into b xs).
Proof.
  revert b. induction xs as [|x xs IH]; intros b; simpl; [done|].
  by rewrite merge_into_assoc, IH.
Qed.

Lemma MergeStats_app xs ys :
  xs ≠ [] → ys ≠ [] → MergeStats (xs ++ ys) = merge_into (MergeStats xs) (MergeStats ys).
Proof.
  destruct xs as [|x xs], ys as [|y ys]; try done. intros _ _. simpl.
  rewrite foldl_app. simpl. by rewrite foldl_merge.
Qed.

(** ** Properties *)

(** clusters can be aggregated in any grouping.  Merging the snapshots of
    all nodes at once, or merging groups of nodes first and then the groups'
    results, gives the same totals, sessions, uptime and configuration, whatever
    the grouping (no group empty). *)
Theorem MergeStats_grouping (groups : list (list Stats)) :
  Forall (λ g, g ≠ []) groups → MergeStats (mjoin groups) = MergeStats (MergeStats <$> groups).
Proof.
  intros Hg. destruct Hg as [|g gs Hg Hgs]; [done|]. simpl.
  revert g Hg. induction Hgs as [|g' gs Hg' _ IH]; intros g Hg; simpl.
  - by rewrite app_nil_r.
  - rewrite (assoc_L (++)), IH by (destruct g; done). by rewrite MergeStats_app.
Qed.

Definition total (f : Stats → N) (parts : list Stats) : N := foldr N.add 0 (f <$> parts).

Lemma merge_counter f p rest :
  (∀ a b, f (merge_into a b) = wrap 64 (f a + f b)) → in_width 64 (f p) →
  f (foldl merge_into p rest) = wrap 64 (f p + total f rest).
Proof.
  intros Hf. unfold total. revert p. induction rest as [|q rest IH]; intros p Hp; simpl.
  - by rewrite N.add_0_r, wrap_small.
  - rewrite IH; [|rewrite Hf; apply wrap_in_width]. rewrite Hf.
    unfold wrap. rewrite N.Div0.add_mod_idemp_l. by rewrite <- N.add_assoc.
Qed.

Definition counters (s : Stats) : list N :=
  [st_SessionsCreated s; st_FramesForwarded s; st_BytesForwarded s; st_Joins s; st_Resumes s;
   st_Errors s].

(** what a merge contains: the nodes' sessions concatenated in order, the
    six counters summed (modulo 2^64, the width of the counters), the uptime of
    the node running longest, and the first node's configuration; merging a
    single snapshot returns it unchanged. *)
Theorem MergeStats_spec p rest :
  Forall (in_width 64) (counters p) →
  let out := MergeStats (p :: rest) in
  st_Sessions out = mjoin (st_Sessions <$> p :: rest) ∧
  counters out = (λ f, wrap 64 (total f (p :: rest))) <$>
    [st_SessionsCreated; st_FramesForwarded; st_BytesForwarded; st_Joins; st_Resumes; st_Errors] ∧
  (∃ q, q ∈ p :: rest ∧ st_Uptime out = st_Uptime q) ∧
  (∀ q, q ∈ p :: rest → (st_Uptime q ≤ st_Uptime out)%Z) ∧
  (st_MaxSessions out, st_MaxParticipants out, st_MaxAge out, st_Grace out, st_IdleTimeout out)
  = (st_MaxSessions p, st_MaxParticipants p, st_MaxAge p, st_Grace p, st_IdleTimeout p) ∧
  MergeStats [p] = p.
Proof.
  intros Hw out. unfold counters in Hw. rewrite !Forall_cons in Hw.
  destruct Hw as (H1 & H2 & H3 & H4 & H5 & H6 & _).
  split_and!; [| | | | |done].
  - unfold out. simpl. clear. revert p. induction rest as [|q rest IH]; intros p; simpl;
      [by rewrite app_nil_r|]. rewrite IH. simpl. by rewrite (assoc_L (++)).
  - unfold out, counters. simpl. by rewrite !merge_counter.
  - unfold out. simpl. clear. revert p. induction rest as [|q rest IH]; intros p; simpl.
    + exists p. by split; [left|].
    + destruct (IH (merge_into p q)) as (x & Hx & ->). apply elem_of_cons in Hx as [->|Hx].
      * simpl. case_bool_decide; [exists q|exists p]; split; try done; set_solver.
      * exists x. split; [set_solver|done].
  - unfold out. simpl. clear. revert p. induction rest as [|q rest IH]; intros p x; simpl.
    + intros ->%list_elem_of_singleton. lia.
    + intros Hx. assert (∀ y, y ∈ merge_into p q :: rest →
        (st_Uptime y ≤ st_Uptime (foldl merge_into (merge_into p q) rest))%Z) as IH' by apply IH.
      assert (st_Uptime p ≤ st_Uptime (merge_into p q) ∧
        st_Uptime q ≤ st_Uptime (merge_into p q))%Z as [Hp Hq]
        by (simpl; case_bool_decide; lia).
      pose proof (IH' (merge_into p q) ltac:(by left)).
      apply elem_of_cons in Hx as [->|[->|Hx]%elem_of_cons]; [lia|lia|].
      apply IH'. by right.
  - unfold out. simpl. clear. revert p. induction rest as [|q rest IH]; intros p; simpl; [done|].
    by rewrite IH.
Qed.

(** What the dashboard may see of a participant. *)
Definition client_view (c : client) : ClientStat := mkClientStat (c_id c) (c_held c) (c_gen c).

(** the snapshot is blind.  Two hubs that agree on membership, generations,
    the held flags, the host and the next identifier give the same snapshot, up
    to the order clients are listed in: reclaim tokens, buffered frames,
    connections and counters cannot show in it. *)
Theorem handleStats_blind {MR : MapRange ParticipantID client} h1 h2 :
  client_view <$> h_clients h1 = client_view <$> h_clients h2 →
  h_host h1 = h_host h2 → h_nextID h1 = h_nextID h2 →
  hs_participants (handleStats h1) = hs_participants (handleStats h2) ∧
  hs_host (handleStats h1) = hs_host (handleStats h2) ∧
  hs_nextID (handleStats h1) = hs_nextID (handleStats h2) ∧
  hs_clients (handleStats h1) ≡ₚ hs_clients (handleStats h2).
Proof.
  intros Hv Hh Hn. unfold handleStats. simpl. split_and!; try done.
  - by rewrite <- (map_size_fmap client_view (h_clients h1)), Hv, map_size_fmap.
  - assert (∀ m : gmap ParticipantID client,
      ((λ p : N * client, mkClientStat (c_id p.2) (c_held p.2) (c_gen p.2)) <$> range m)
      ≡ₚ (map_to_list (client_view <$> m)).*2) as Hl.
    { intros m. rewrite map_to_list_fmap, <- list_fmap_compose, range_perm. done. }
    by rewrite !Hl, Hv.
Qed.

(** ** Concrete snapshots *)

Definition ex_stats (n : N) : Stats :=
  mkStats (Z.of_N n) 1 1000 16 100 30 90 2 n (2 * n) (2 ^ 63) n 0 0
    [mkSessionStat "00" 5 1 16 1 1 []].

Lemma MergeStats_grouping_witness :
  MergeStats [ex_stats 1; ex_stats 2; ex_stats 3]
  = MergeStats [MergeStats [ex_stats 1; ex_stats 2]; MergeStats [ex_stats 3]].
Proof.
  apply (MergeStats_grouping [[ex_stats 1; ex_stats 2]; [ex_stats 3]]).
  repeat (apply Forall_cons; split; [discriminate|]). apply Forall_nil. exact I.
Defined.

Lemma MergeStats_spec_witness :
  counters (MergeStats [ex_stats 1; ex_stats 2; ex_stats 3]) = [6; 12; 2 ^ 63; 6; 0; 0].
Proof.
  destruct (MergeStats_spec (ex_stats 1) [ex_stats 2; ex_stats 3]) as (_ & H & _).
  { repeat (apply Forall_cons; split; [reflexivity|]). apply Forall_nil. exact I. }
  etransitivity; [exact H|]. reflexivity.
Defined.

#[local] Existing Instance bits_codec.
#[local] Existing Instance ex_entropy.
#[local] Existing Instance ex_range.

(** The example session, with every reclaim token replaced. *)
Definition ex_retoken (c : client) : client :=
  mkClient (c_id c) (c_out c) (c_kick c) [] (c_held c) (c_gen c) (c_timer c) (c_evicting c).
Definition ex_other : hub := set_clients ex_held (ex_retoken <$> h_clients ex_held).

Lemma handleStats_blind_witness :
  hs_clients (handleStats ex_held) ≡ₚ hs_clients (handleStats ex_other).
Proof.
  refine (proj2 (proj2 (proj2 (handleStats_blind ex_held ex_other _ _ _))));
    [|reflexivity|reflexivity].
  vm_compute. reflexivity.
Defined.
