(* ===== verification/Relay.v ===== *)
(** * The relay server (relay/relay.go)

    Options, the HTTP entry point, the hello exchange that hooks a connection
    into a hub, the read loop that turns frames into commands, and the writer.
    WebSocket reads and writes are inputs of these functions: what [conn.Read]
    returned, whether [conn.Write] succeeded. *)
From S2P Require Import Prelude Wire Hub HubInv HubSpec HubLife HubSys HubExamples Registry.
From S2P Require Import RateLimit.

Open Scope N_scope.

Definition second : Z := 1000000000.

Section Options.
Context {RL : RateLib}.

Record Options := mkOptions {
  o_MaxSessions : Z;
  o_MaxParticipants : Z;
  o_MaxAge : Z;
  o_SweepEvery : Z;
  o_IdleTimeout : Z;
  o_Grace : Z;
  o_ConnRate : Limit;
  o_ConnBurst : Z }.

Definition or_default (v d : Z) : Z := if bool_decide (v ≤ 0)%Z then d else v.

Definition defaults (o : Options) : Options :=
  mkOptions (or_default (o_MaxSessions o) 1000)
    (or_default (o_MaxParticipants o) 16)
    (or_default (o_MaxAge o) (24 * 3600 * second))
    (or_default (o_SweepEvery o) (60 * second))
    (or_default (o_IdleTimeout o) (90 * second))
    (or_default (o_Grace o) (30 * second))
    (if Limit_nonpos (o_ConnRate o) then Every (12 * second) else o_ConnRate o)
    (or_default (o_ConnBurst o) 5).

(** A server.  [sv_stop]: the channel that stops the sweeper is closed. *)
Record Server := mkServer {
  sv_opts : Options; sv_relay : relay; sv_limiter : ipLimiter; sv_started : Z; sv_stop : bool }.

(** [New]: the options completed, an empty registry and limiter. *)
Definition New (now : Z) (o : Options) : Server :=
  let o := defaults o in
  mkServer o (mkRelay (newRegistry (o_MaxSessions o) (o_MaxAge o) (o_Grace o)) ∅ [])
    (newIPLimiter (o_ConnRate o) (o_ConnBurst o)) now false.

(** [Close] stops the sweeper and nothing else; [None] is the panic of a channel
    closed twice. *)
Definition Close (s : Server) : option Server :=
  if sv_stop s then None
  else Some (mkServer (sv_opts s) (sv_relay s) (sv_limiter s) (sv_started s) true).
End Options.

(** ** The HTTP entry point *)

Record RouteResult := mkRouteResult {
  rr_Replay : bool;
  rr_Header : gmap string (list string);
  rr_Status : N }.

(** The parts of a request the handler reads: the [s] query value ([""] when
    missing) and the remote address. *)
Record Request := mkRequest { rq_session : string; rq_remote : string }.

(** How [ServeHTTP] answers: an error text and status, a replay with the header
    lines added and a status, or the upgrade. *)
Inductive response :=
| HttpError (msg : string) (status : N)
| Replayed (added : list (string * string)) (status : N)
| Accept.

Definition parseSessionParam (r : Request) : option SessionID :=
  if bool_decide (rq_session r = ""%string) then None
  else match ParseSessionID (rq_session r) with
       | Ok sid => Some sid
       | Err _ => None
       end.

Section Serve.
Context {RL : RateLib} {ME : MapRange string ipEntry} {MH : MapRange string (list string)}.

Definition header_adds (h : gmap string (list string)) : list (string * string) :=
  mjoin ((λ p, (λ v, (p.1, v)) <$> p.2) <$> range h).

(** [router] is [opts.Router], an application's function. *)
Definition ServeHTTP (router : option (SessionID → Request → RouteResult)) (l : ipLimiter)
    (now : Z) (r : Request) : ipLimiter * response :=
  let limited :=
    let '(l, ok) := allow l now (rq_remote r) in
    (l, if ok : bool then Accept else HttpError "rate limited" 429) in
  match router with
  | None => limited
  | Some route =>
      match parseSessionParam r with
      | None => (l, HttpError "missing or malformed session id" 400)
      | Some sid =>
          let res := route sid r in
          if rr_Replay res then
            (l, Replayed (header_adds (rr_Header res))
                  (if bool_decide (rr_Status res = 0) then 503 else rr_Status res))
          else limited
      end
  end.
End Serve.

(** ** Hello *)

(** What [conn.Read] gives: an error with its close status, if it was a close
    frame, or a message. *)
Inductive conn_read :=
| ReadError (closeStatus : option N)
| Message (binary : bool) (data : bytes).

Inductive frame_error := ConnError (closeStatus : option N) | NonBinary | BadFrame (e : wire_error).

Definition readFrame (r : conn_read) : result frame_error (MsgType * bytes) :=
  match r with
  | ReadError st => Err (ConnError st)
  | Message false _ => Err NonBinary
  | Message true data =>
      match Decode data with
      | Ok f => Ok f
      | Err e => Err (BadFrame e)
      end
  end.

(** How far [hello] gets before it waits on a hub: it gives up, after an error
    frame or silently; or it sends a hub the join or resume command. *)
Inductive hello_action :=
| GiveUp (report : option Error)
| SendJoin (h : hub_ref) (isCreate : bool)
| SendResume (h : hub_ref) (id : ParticipantID) (token : bytes).

Section Hello.
Context {WC : WireCodec}.

(** [maxParticipants] is [s.opts.MaxParticipants]. *)
Definition clamp (requested maxParticipants : Z) : Z :=
  if bool_decide (requested ≤ 0)%Z || bool_decide (maxParticipants < requested)%Z
  then maxParticipants else requested.

Definition helloCreate (s : relay) (maxParticipants now : Z) (raw : bytes) :
    relay * result Error hub_ref :=
  match Body CreateSession raw with
  | Err _ => (s, Err (mkError ErrCodeBadFrame "bad create frame"))
  | Ok cs =>
      let maxP := clamp (Z.of_N (cs_MaxParticipants cs)) maxParticipants in
      match create s now (cs_SessionID cs) maxP with
      | (s, inr h) => (s, Ok h)
      | (s, inl (code, msg)) => (s, Err (mkError code msg))
      end
  end.

Definition helloJoin (s : relay) (raw : bytes) : result Error hub_ref :=
  match Body JoinSession raw with
  | Err _ => Err (mkError ErrCodeBadFrame "bad join frame")
  | Ok js => of_option (mkError ErrCodeSessionNotFound "session not found")
               (get s (js_SessionID js))
  end.

Definition resume (s : relay) (raw : bytes) : hello_action :=
  match Body ResumeSession raw with
  | Err _ => GiveUp (Some (mkError ErrCodeBadFrame "bad resume frame"))
  | Ok rs =>
      match get s (rs_SessionID rs) with
      | None => GiveUp (Some (mkError ErrCodeSessionNotFound "session not found"))
      | Some h => SendResume h (rs_ParticipantID rs) (rs_Token rs)
      end
  end.

Definition hello (s : relay) (maxParticipants now : Z) (r : conn_read) : relay * hello_action :=
  match readFrame r with
  | Err (BadFrame (ErrUnsupportedVersion _)) =>
      (s, GiveUp (Some (mkError ErrCodeUnsupportedVersion "unsupported protocol version")))
  | Err _ => (s, GiveUp None)
  | Ok (typ, raw) =>
      if bool_decide (typ = MsgResumeSession) then (s, resume s raw)
      else if bool_decide (typ = MsgCreateSession) then
        match helloCreate s maxParticipants now raw with
        | (s, Ok h) => (s, SendJoin h true)
        | (s, Err e) => (s, GiveUp (Some e))
        end
      else if bool_decide (typ = MsgJoinSession) then
        match helloJoin s raw with
        | Ok h => (s, SendJoin h false)
        | Err e => (s, GiveUp (Some e))
        end
      else (s, GiveUp (Some (mkError ErrCodeBadFrame "expected create or join")))
  end.

(** The rest of [hello]: [h.send] was refused ([None]), or the hub's reply.  On
    success the participant identifier and the generation. *)
Definition hello_joined (r : option joinReply) : result Error (ParticipantID * N) :=
  match r with
  | None => Err (mkError ErrCodeSessionNotFound "session closed")
  | Some jr =>
      if jrep_ok jr then Ok (jrep_id jr, jrep_gen jr)
      else Err (mkError (jrep_errC jr) (jrep_errS jr))
  end.

Definition hello_resumed (id : ParticipantID) (r : option resumeReply) :
    result Error (ParticipantID * N * option chan_ref) :=
  match r with
  | None => Err (mkError ErrCodeSessionNotFound "session closed")
  | Some rr =>
      if rrep_ok rr then Ok (id, rrep_gen rr, rrep_out rr)
      else Err (mkError (rrep_errC rr) (rrep_errS rr))
  end.

(** A fresh connection may take so long over its first frame, in nanoseconds; a read
    that times out is a read error. *)
Definition helloTimeout : Z := (10 * second)%Z.

(** [writeFrame], for replies before the writer is started: what goes out, if
    anything. *)
Definition writeFrame `{Cbor T} (t : MsgType) (body : T) : option bytes :=
  match Encode t body with Ok frame => Some frame | Err _ => None end.

(** What a connection that gives up is sent. *)
Definition hello_reply (report : option Error) : option bytes :=
  e ← report; writeFrame MsgError e.

(** ** The read loop *)

(** [queueFrame]: encode and send without blocking; a full buffer drops it. *)
Definition queueFrame `{Cbor T} (q : list bytes) (t : MsgType) (body : T) : list bytes * bool :=
  match Encode t body with
  | Err _ => (q, false)
  | Ok frame =>
      match chan_try_send sendBuffer q frame with
      | Some q => (q, true)
      | None => (q, false)
      end
  end.

Definition StatusNormalClosure : N := 1000.

(** One round: the loop ends (was it unexpected?), or it goes on with the
    connection's own buffer and perhaps a command for the hub. *)
Inductive read_round :=
| Ended (unexpected : bool)
| Continue (out : list bytes) (send : option cmd).

Definition readLoop_round (id : ParticipantID) (out : list bytes) (r : conn_read) : read_round :=
  match readFrame r with
  | Err (ConnError (Some st)) => Ended (bool_decide (st ≠ StatusNormalClosure))
  | Err _ => Ended true
  | Ok (typ, raw) =>
      if bool_decide (typ = MsgPing) then
        match Body Ping raw with
        | Ok p => Continue (queueFrame out MsgPong (mkPong (ping_Nonce p))).1 None
        | Err _ => Continue out None
        end
      else if bool_decide (typ = MsgDirect) || bool_decide (typ = MsgBroadcast) then
        Continue out (Some (frameCmd id typ raw))
      else if bool_decide (typ = MsgClaimHost) then Continue out (Some (claimHostCmd id))
      else
        Continue (queueFrame out MsgError
                    (mkError ErrCodeBadFrame "unexpected message type")).1 None
  end.

(** [readLoop] on the reads of a connection's life, then [handle]'s teardown:
    every command the connection sends, in order. *)
Fixpoint conn_cmds (id : ParticipantID) (gen : N) (out : list bytes) (reads : list conn_read) :
    list cmd :=
  match reads with
  | [] => []
  | r :: reads =>
      match readLoop_round id out r with
      | Ended u => [leaveCmd id gen u]
      | Continue out send => option_list send ++ conn_cmds id gen out reads
      end
  end.
End Hello.

(** ** The writer *)

(** [drainAndCancel]: the frames handed to [conn.Write] in order; [write] says
    which succeed.  It always ends by cancelling the connection's context. *)
Fixpoint drainAndCancel (write : bytes → bool) (out : list bytes) : list bytes :=
  match out with
  | [] => []
  | b :: out => if write b then b :: drainAndCancel write out else [b]
  end.

(** What the writer's [select] picks, round by round. *)
Inductive writer_pick := PickOut | PickKicked | PickDone.

(** [writer]: the frames handed to [conn.Write]; a pick of an empty channel
    stays blocked, and [arrivals] are the frames the hub queues before each
    round. *)
Fixpoint writer (write : bytes → bool) (out : list bytes)
    (rounds : list (list bytes * writer_pick)) : list bytes :=
  match rounds with
  | [] => []
  | (arrivals, pick) :: rounds =>
      let out := out ++ arrivals in
      match pick with
      | PickOut =>
          match out with
          | [] => writer write [] rounds
          | b :: out => if write b then b :: writer write out rounds else [b]
          end
      | PickKicked => drainAndCancel write out
      | PickDone => []
      end
  end.

Definition arrived (rounds : list (list bytes * writer_pick)) : list bytes := mjoin rounds.*1.

Lemma drain_writes_all write out :
  (∀ b, b ∈ out → write b = true) → drainAndCancel write out = out.
Proof.
  induction out as [|b out IH]; [done|]. intros Hw. simpl. rewrite Hw by set_solver.
  f_equal. apply IH. set_solver.
Qed.

Lemma drain_prefix write out : drainAndCancel write out `prefix_of` out.
Proof.
  induction out as [|b out IH]; [done|]. simpl. destruct (write b).
  - by apply prefix_cons.
  - by exists out.
Qed.

(** ** Properties *)

Section Properties.
Context {RL : RateLib} {ME : MapRange string ipEntry} {MH : MapRange string (list string)}.
Context {WC : WireCodec}.

Lemma parseSessionParam_Some r sid :
  parseSessionParam r = Some sid →
  rq_session r ≠ ""%string ∧ ParseSessionID (rq_session r) = Ok sid.
Proof.
  unfold parseSessionParam. case_bool_decide; [done|].
  destruct (ParseSessionID _); [|done]. by intros [= <-].
Qed.

(** routing comes before throttling.  A connection is accepted only if the
    limiter grants it, and, when there is a router, only if the request names a
    well-formed session (in hexadecimal) and the router keeps it here.  A request
    that is refused for its session parameter or handed to another node does not
    touch the limiter's state, and a replay always carries a status. *)
Theorem ServeHTTP_routing router l now r l' resp :
  ServeHTTP router l now r = (l', resp) →
  (resp = Accept → allow l now (rq_remote r) = (l', true) ∧
     ∀ route, router = Some route →
       ∃ sid, sid_wf sid ∧ Hex sid = string_lower (rq_session r) ∧
         rr_Replay (route sid r) = false) ∧
  ((∃ a st, resp = Replayed a st) ∨ (∃ m, resp = HttpError m 400) → l' = l) ∧
  (∀ a st, resp = Replayed a st → st ≠ 0).
Proof.
  assert (∀ s sid, ParseSessionID s = Ok sid → sid_wf sid ∧ Hex sid = string_lower s) as Hp.
  { unfold ParseSessionID. intros s sid. case_bool_decide as Hl; [done|].
    destruct (hex_decode s) as [x|] eqn:E; [|done]. intros [= ->].
    apply hex_encode_decode in E as [Hx Hlen]. split; [|done]. unfold sid_wf. lia. }
  unfold ServeHTTP. destruct (allow l now (rq_remote r)) as [l1 ok] eqn:Ea.
  destruct router as [route|]; [destruct (parseSessionParam r) as [sid|] eqn:Es;
    [destruct (rr_Replay (route sid r)) eqn:Er|]|].
  - intros [= <- <-]. split_and!; [done|done|]. intros a st [= _ <-].
    by case_bool_decide.
  - intros [= <- <-]. destruct ok; split_and!; try done.
    + intros _. split; [done|]. intros ? [= <-]. exists sid.
      apply parseSessionParam_Some in Es as [_ Es]. destruct (Hp _ _ Es). auto.
    + intros [(? & ? & ?)|(? & ?)]; done.
    + intros [(? & ? & ?)|(? & ?)]; done.
  - intros [= <- <-]. split_and!; done.
  - intros [= <- <-]. destruct ok; split_and!; try done; intros [(? & ? & ?)|(? & ?)]; done.
Qed.

(** ** Hello *)

Lemma clamp_bounds r mp : (1 ≤ mp)%Z → (1 ≤ clamp r mp ≤ mp)%Z.
Proof. unfold clamp. intros. do 2 case_bool_decide; simpl; lia. Qed.

(** what the first frame of a connection can do.  The sessions change only
    for a well-formed CreateSession whose identifier is free on a relay below its
    cap; then exactly that session is registered, with a participant cap between
    1 and the server's, and the connection goes on to join it as creator.  A
    connection that goes on to join or resume otherwise has named a registered
    session. *)
Theorem hello_spec s mp now r s' act :
  (1 ≤ mp)%Z → hello s mp now r = (s', act) →
  (s' = s ∧
   match act with
   | GiveUp _ => True
   | SendJoin h isCreate => isCreate = false ∧ ∃ id, get s id = Some h
   | SendResume h _ _ => ∃ id, get s id = Some h
   end) ∨
  ∃ id m h p, act = SendJoin h true ∧ (1 ≤ m ≤ mp)%Z ∧
    get s id = None ∧ (Z.of_nat (size (r_sessions (rl_reg s))) < r_maxCount (rl_reg s))%Z ∧
    create s now id m = (s', inr h) ∧ get s' id = Some h ∧
    (∀ i, i ≠ id → get s' i = get s i) ∧
    rl_hubs s' !! h = Some p ∧ h_id (p_hub p) = id ∧ h_max (p_hub p) = m.
Proof.
  intros Hmp. unfold hello. destruct (readFrame r) as [[typ raw]|e].
  2: { destruct e as [| |[]]; intros [= <- <-]; by left. }
  case_bool_decide; [|case_bool_decide; [|case_bool_decide]].
  - intros [= <- <-]. left. split; [done|]. unfold resume.
    destruct (Body ResumeSession raw); [|done]. destruct (get _ _) eqn:E; [eauto|done].
  - unfold helloCreate. destruct (Body CreateSession raw) as [cs|];
      [|intros [= <- <-]; by left].
    pose proof (clamp_bounds (Z.of_N (cs_MaxParticipants cs)) mp Hmp) as Hb.
    set (m := clamp _ _) in *.
    destruct (create s now (cs_SessionID cs) m) as [s1 [[code msg]|h]] eqn:Ec.
    + apply create_inl in Ec as ->. intros [= <- <-]. by left.
    + intros [= <- <-]. right. exists (cs_SessionID cs), m, h.
      pose proof (create_inr _ _ _ _ _ _ Ec) as (? & ? & ? & ? & p & ? & ? & ?).
      exists p. auto 15.
  - unfold helloJoin. destruct (Body JoinSession raw) as [js|];
      [|intros [= <- <-]; by left].
    destruct (get s (js_SessionID js)) eqn:E; intros [= <- <-]; left; eauto.
  - intros [= <- <-]. by left.
Qed.

(** ** The read loop *)

Definition own_cmd (id : ParticipantID) (c : cmd) : Prop :=
  c = claimHostCmd id ∨ ∃ typ raw, c = frameCmd id typ raw ∧ (typ = MsgDirect ∨ typ = MsgBroadcast).

Lemma readLoop_round_own id out r out' c :
  readLoop_round id out r = Continue out' (Some c) → own_cmd id c.
Proof.
  unfold readLoop_round, own_cmd. destruct (readFrame r) as [[typ raw]|[[]| |]]; try done.
  case_bool_decide; [destruct (Body Ping raw); done|].
  destruct (bool_decide (typ = MsgDirect) || bool_decide (typ = MsgBroadcast)) eqn:E.
  - intros [= _ <-]. right. exists typ, raw. split; [done|].
    apply orb_true_iff in E as [E|E]; apply bool_decide_eq_true in E; auto.
  - clear E. case_bool_decide; [|done]. intros [= _ <-]. by left.
Qed.

(** a connection speaks only for itself.  Whatever bytes a client sends
    during its connection's whole life, the commands the relay hands to the hub
    on its behalf are Direct and Broadcast frames and host claims under its own
    identifier, followed by at most one leave, the last, with its own identifier
    and generation: nobody can be made to leave, join, or be closed by a frame. *)
Theorem conn_cmds_confined id gen out reads :
  ∃ cs tail, conn_cmds id gen out reads = cs ++ tail ∧ Forall (own_cmd id) cs ∧
    (tail = [] ∨ ∃ u, tail = [leaveCmd id gen u]).
Proof.
  revert out. induction reads as [|r reads IH]; intros out; simpl.
  { exists [], []. auto. }
  destruct (readLoop_round id out r) as [u|out' c] eqn:E.
  { exists [], [leaveCmd id gen u]. eauto. }
  destruct (IH out') as (cs & tail & -> & Hcs & Ht).
  exists (option_list c ++ cs), tail. rewrite (assoc_L (++)). split; [done|]. split; [|done].
  apply Forall_app. split; [|done]. destruct c as [c|]; simpl; [|constructor].
  apply Forall_singleton. by eapply readLoop_round_own.
Qed.

(** a kick flushes before it cuts.  Whatever the writer's [select] picked
    before, the frames written are a prefix of the frames queued, in order; and
    if it ends on the kick with every write succeeding, everything the hub had
    queued by then has been written. *)
Theorem writer_flushes write out rounds arrivals :
  Forall (λ x, x.2 = PickOut) rounds →
  let queued := out ++ arrived rounds ++ arrivals in
  let written := writer write out (rounds ++ [(arrivals, PickKicked)]) in
  written `prefix_of` queued ∧
  ((∀ b, b ∈ queued → write b = true) → written = queued).
Proof.
  intros Hr. revert out. induction Hr as [|[arr pick] rounds Hp _ IH]; intros out.
  - simpl. split; [apply drain_prefix|apply drain_writes_all].
  - simpl in Hp. subst pick. unfold arrived. simpl.
    rewrite <- (assoc_L (++)), (assoc_L (++) out arr). fold (arrived rounds).
    destruct (out ++ arr) as [|b out']; [apply (IH [])|]. simpl.
    destruct (IH out') as [Hpre Hall]. destruct (write b) eqn:Hb.
    + split; [by apply prefix_cons|]. intros Hw. f_equal. apply Hall.
      intros x Hx. apply Hw. by right.
    + split; [apply prefix_cons, prefix_nil|]. intros Hw.
      rewrite (Hw b) in Hb by left. done.
Qed.
End Properties.

(** ** A concrete relay *)

#[local] Existing Instance bits_codec.
#[local] Existing Instance ex_entropy.
#[local] Existing Instance ex_range.
#[local] Existing Instance ex_hubs_range.
#[local] Existing Instance ex_rate.
#[local] Existing Instance ex_entries.

Definition ex_headers : MapRange string (list string) := map_to_list_range string (list string).
#[local] Existing Instance ex_headers.

Definition ex_options : Options := mkOptions 0 0 0 0 0 0 (Every 0) 0.

(** A router that owns the sessions whose identifier starts with a zero byte. *)
Definition ex_router (sid : SessionID) (r : Request) : RouteResult :=
  mkRouteResult (bool_decide (head sid ≠ Some x00)) {[ "Fly-Replay"%string := ["instance=b"%string] ]} 0.

Definition ex_request (s : string) : Request := mkRequest s "10.0.0.1:5000".

Lemma ServeHTTP_routing_witness :
  let l := sv_limiter (New 0 ex_options) in
  let r := ex_request "0000000000000000000000000000000A" in
  (ServeHTTP (Some ex_router) l 0 r).2 = Accept ∧
  ∃ sid, sid_wf sid ∧ Hex sid = string_lower (rq_session r) ∧
    rr_Replay (ex_router sid r) = false.
Proof.
  intros l r. destruct (ServeHTTP (Some ex_router) l 0 r) as [l' resp] eqn:E.
  assert (resp = Accept) as Hr.
  { change resp with (l', resp).2. rewrite <- E. vm_compute. reflexivity. }
  split; [exact Hr|].
  destruct (ServeHTTP_routing _ _ _ _ _ _ E) as (H & _ & _).
  exact (proj2 (H Hr) ex_router eq_refl).
Defined.

Definition ex_create : bytes :=
  default [] (match Encode MsgCreateSession (mkCreateSession ex_sid 200) with
              | Ok f => Some f | Err _ => None end).

Lemma hello_spec_witness :
  ∃ s' h, hello (init_relay 2 100 30) 16 5 (Message true ex_create) = (s', SendJoin h true) ∧
    get s' ex_sid = Some h ∧ ∃ p, rl_hubs s' !! h = Some p ∧ h_max (p_hub p) = 16%Z.
Proof.
  destruct (hello (init_relay 2 100 30) 16 5 (Message true ex_create)) as [s' act] eqn:E.
  assert (act = SendJoin 0 true ∧ get s' ex_sid = Some 0 ∧ get (init_relay 2 100 30) ex_sid = None)
    as (-> & Hg & Hn).
  { replace act with (hello (init_relay 2 100 30) 16 5 (Message true ex_create)).2
      by (rewrite E; reflexivity).
    replace s' with (hello (init_relay 2 100 30) 16 5 (Message true ex_create)).1
      by (rewrite E; reflexivity).
    split; [vm_compute; reflexivity|]. split; vm_compute; reflexivity. }
  exists s', 0. split; [reflexivity|]. split; [exact Hg|].
  destruct (hello_spec (init_relay 2 100 30) 16 5 _ _ _ ltac:(done) E)
    as [[-> [? _]]|(id & m & h & p & [= <-] & _ & _ & _ & _ & _ & _ & Hp & _ & Hm)];
    [discriminate|].
  exists p. split; [exact Hp|].
  assert ((λ p, h_max (p_hub p)) <$> (rl_hubs s' !! 0) = Some 16%Z) as Hv.
  { replace s' with (hello (init_relay 2 100 30) 16 5 (Message true ex_create)).1
      by (rewrite E; reflexivity). vm_compute. reflexivity. }
  rewrite Hp in Hv. injection Hv as Hv. exact Hv.
Defined.

Lemma writer_flushes_witness :
  writer (λ _, true) [[x01]] [([[x02]], PickOut); ([[x03]], PickKicked)] = [[x01]; [x02]; [x03]].
Proof.
  exact (proj2 (writer_flushes (λ _, true) [[x01]] [([[x02]], PickOut)] [[x03]]
    ltac:(apply Forall_cons; split; [reflexivity|apply Forall_nil; exact I])) ltac:(intros; reflexivity)).
Defined.

(** ** Who is first *)

Lemma rs_hub_steps s ref p ss :
  rl_hubs s !! ref = Some p → rtc step (p_sys p) ss →
  rtc rstep s (set_hub s ref (mkProc ss (p_gone p))).
Proof.
  intros Hp Hr. remember (p_sys p) as s0 eqn:E. revert p s Hp E.
  induction Hr as [s0|s0 s1 s2 Hst _ IH]; intros p s Hp ->.
  - replace (set_hub s ref _) with s; [done|]. destruct s, p. unfold set_hub. simpl in *.
    by rewrite insert_id.
  - eapply rtc_l; [by eapply (rs_hub s ref p)|].
    replace (set_hub s ref (mkProc s2 (p_gone p)))
      with (set_hub (set_hub s ref (mkProc s1 (p_gone p))) ref (mkProc s2 (p_gone p)))
      by (unfold set_hub; simpl; by rewrite insert_insert_eq).
    eapply (IH (mkProc s1 (p_gone p))); [apply lookup_insert_eq|done].
Qed.

(** Another connection joins between the creator's [create] and its own join. *)
Definition ex_raced : sys := do_join 1 true (do_join 2 false (p_sys ex_proc)).

Lemma ex_raced_reachable : rtc step (p_sys ex_proc) ex_raced.
Proof. unfold ex_raced. etrans; apply steps_join; reflexivity. Qed.

(** the creator is not always participant 1.  The registry shows the new hub
    before its creator has joined it; in this reachable run another connection
    joins first, is told that it is participant 1 and that participant 1 is the
    host, and the creator's own reply, SessionCreated, gives it identifier 2. *)
Theorem creator_not_first :
  ∃ s ref p t1 t2 f1 f2 c1 c2 q1 q2,
    rtc rstep (init_relay 2 100 30) s ∧ get s ex_sid = Some ref ∧
    rl_hubs s !! ref = Some p ∧ h_host (p_hub p) = 1 ∧
    Encode MsgJoinResult (mkJoinResult true "" 1 [] 1 t1) = Ok f1 ∧
    slot (p_hub p) 1 = Some (c1, f1 :: q1) ∧
    Encode MsgSessionCreated (mkSessionCreated 2 t2) = Ok f2 ∧
    slot (p_hub p) 2 = Some (c2, f2 :: q2).
Proof.
  exists (set_hub ex_relay 0 (mkProc ex_raced false)), 0, (mkProc ex_raced false).
  exists (replicate 32 x00), (replicate 32 x01).
  do 6 eexists. split.
  { etrans; [apply ex_relay_reachable|].
    apply (rs_hub_steps ex_relay 0 ex_proc); [reflexivity|apply ex_raced_reachable]. }
  split; [reflexivity|]. split; [apply lookup_insert_eq|]. split; [reflexivity|].
  split; [vm_compute; reflexivity|]. split; [vm_compute; reflexivity|].
  split; vm_compute; reflexivity.
Qed.
