(* ===== verification/RelayConn.v ===== *)
(** * A connection of the relay (relay/relay.go)

    [handle] first runs the hello, in which it may wait for the hub: for room in its
    inbox, and for its reply.  Once served, a connection has two goroutines: its own
    reads and, after them, the send of the leave; and the writer, which owns every
    write.  The hub queues frames into the connection's buffer and may kick it.  Here
    they are a transition system: [own] are the steps of the two goroutines, [let_on]
    the returns of [h.send], which need the hub, [outside] those of the peer, the hub
    and the server around them; [gstep] has the hello before all that. *)
From S2P Require Import Prelude Wire Hub Registry RateLimit Relay.

#[local] Open Scope N_scope.

(** ** State *)

(** Where [handle] is after the hello: in a read, in [h.send] with the command of a
    frame, in [h.send] with the leave, kicking, waiting for the writer, gone. *)
Inductive rphase :=
| Reading | Putting (x : cmd) | Sending (unexpected : bool) | Kicking | Waiting | Returned.
(** Where the writer is: at its [select], in a write, in [drainAndCancel] and its
    write, gone. *)
Inductive wphase := Selecting | Writing (b : bytes) | Draining | Flushing (b : bytes) | Exited.

(** [cn_kicked]: the channel [kicked] is closed; [cn_once]: [kickOnce] is spent;
    [cn_panic]: a closed channel was closed again.  The last four are history: what
    was read, what was queued, whether a write failed, whether the server's own
    context ended. *)
Record conn := mkConn {
  cn_id : ParticipantID; cn_gen : N;
  cn_reader : rphase; cn_writer : wphase; cn_cancelled : bool;
  cn_once : bool; cn_kicked : bool; cn_panic : bool; cn_closed : bool;
  cn_out : list bytes; cn_cmds : list cmd; cn_wire : list bytes;
  cn_reads : list conn_read; cn_queued : list bytes; cn_failed : bool; cn_stopped : bool }.

Definition with_reader (c : conn) (r : rphase) : conn :=
  mkConn (cn_id c) (cn_gen c) r (cn_writer c) (cn_cancelled c) (cn_once c) (cn_kicked c)
    (cn_panic c) (cn_closed c) (cn_out c) (cn_cmds c) (cn_wire c) (cn_reads c) (cn_queued c)
    (cn_failed c) (cn_stopped c).
Definition with_writer (c : conn) (w : wphase) : conn :=
  mkConn (cn_id c) (cn_gen c) (cn_reader c) w (cn_cancelled c) (cn_once c) (cn_kicked c)
    (cn_panic c) (cn_closed c) (cn_out c) (cn_cmds c) (cn_wire c) (cn_reads c) (cn_queued c)
    (cn_failed c) (cn_stopped c).
Definition with_out (c : conn) (out queued : list bytes) : conn :=
  mkConn (cn_id c) (cn_gen c) (cn_reader c) (cn_writer c) (cn_cancelled c) (cn_once c)
    (cn_kicked c) (cn_panic c) (cn_closed c) out (cn_cmds c) (cn_wire c) (cn_reads c) queued
    (cn_failed c) (cn_stopped c).
Definition with_cmds (c : conn) (cmds : list cmd) (reads : list conn_read) : conn :=
  mkConn (cn_id c) (cn_gen c) (cn_reader c) (cn_writer c) (cn_cancelled c) (cn_once c)
    (cn_kicked c) (cn_panic c) (cn_closed c) (cn_out c) cmds (cn_wire c) reads (cn_queued c)
    (cn_failed c) (cn_stopped c).
Definition with_wire (c : conn) (wire : list bytes) (failed : bool) : conn :=
  mkConn (cn_id c) (cn_gen c) (cn_reader c) (cn_writer c) (cn_cancelled c) (cn_once c)
    (cn_kicked c) (cn_panic c) (cn_closed c) (cn_out c) (cn_cmds c) wire (cn_reads c)
    (cn_queued c) failed (cn_stopped c).
Definition cancel (c : conn) (stopped : bool) : conn :=
  mkConn (cn_id c) (cn_gen c) (cn_reader c) (cn_writer c) true (cn_once c)
    (cn_kicked c) (cn_panic c) (cn_closed c) (cn_out c) (cn_cmds c) (cn_wire c) (cn_reads c)
    (cn_queued c) (cn_failed c) stopped.
Definition close_socket (c : conn) : conn :=
  mkConn (cn_id c) (cn_gen c) (cn_reader c) (cn_writer c) (cn_cancelled c) (cn_once c)
    (cn_kicked c) (cn_panic c) true (cn_out c) (cn_cmds c) (cn_wire c) (cn_reads c) (cn_queued c)
    (cn_failed c) (cn_stopped c).

(** [kick]: [kickOnce.Do(func() { close(kicked) })]. *)
Definition kick_conn (c : conn) : conn :=
  if cn_once c then c
  else mkConn (cn_id c) (cn_gen c) (cn_reader c) (cn_writer c) (cn_cancelled c) true true
         (cn_kicked c) (cn_closed c) (cn_out c) (cn_cmds c) (cn_wire c) (cn_reads c) (cn_queued c)
         (cn_failed c) (cn_stopped c).

(** After a hello that succeeded: the hub has queued its first reply into [out]; a
    kick during the hello is one of the steps that follow ([out_kick]). *)
Definition start (id : ParticipantID) (gen : N) (out : list bytes) : conn :=
  mkConn id gen Reading Selecting false false false false false out [] [] [] out false false.

(** ** The read side of [handle] *)

Section Steps.
Context {WC : WireCodec}.

(** One round of the read loop.  A read on a cancelled context only fails. *)
Definition read (c : conn) (r : conn_read) : option conn :=
  match cn_reader c with
  | Reading =>
      if cn_cancelled c && negb (match r with ReadError None => true | _ => false end) then None
      else
        let log := with_cmds c (cn_cmds c) (cn_reads c ++ [r]) in
        match readLoop_round (cn_id c) (cn_out c) r with
        | Ended u => Some (with_reader log (Sending u))
        | Continue out send =>
            let log := with_out log out (cn_queued c ++ drop (length (cn_out c)) out) in
            Some (with_reader log (match send with Some x => Putting x | None => Reading end))
        end
  | _ => None
  end.

(** [h.send] returns, the command taken, or refused because the hub has stopped; its
    answer is not looked at, and [cn_cmds] has the command either way.
    After a frame's command the loop reads on, after the leave the teardown goes on. *)
Definition h_send (c : conn) : option conn :=
  match cn_reader c with
  | Putting x => Some (with_reader (with_cmds c (cn_cmds c ++ [x]) (cn_reads c)) Reading)
  | Sending u =>
      Some (with_reader (with_cmds c (cn_cmds c ++ [leaveCmd (cn_id c) (cn_gen c) u]) (cn_reads c))
              Kicking)
  | _ => None
  end.

(** The teardown: [kick]; then, once the writer is gone, [cancel] and the closing
    handshake. *)
Definition kick_self (c : conn) : option conn :=
  match cn_reader c with Kicking => Some (with_reader (kick_conn c) Waiting) | _ => None end.
Definition finish (c : conn) : option conn :=
  match cn_reader c, cn_writer c with
  | Waiting, Exited => Some (with_reader (close_socket (cancel c (cn_stopped c))) Returned)
  | _, _ => None
  end.

(** ** The writer *)

(** A frame is there: take it and start writing. *)
Definition take (c : conn) : option conn :=
  match cn_writer c, cn_out c with
  | Selecting, b :: out => Some (with_writer (with_out c out (cn_queued c)) (Writing b))
  | Draining, b :: out => Some (with_writer (with_out c out (cn_queued c)) (Flushing b))
  | _, _ => None
  end.
(** The write returns; a failed one ends the writer. *)
Definition wrote (c : conn) (ok : bool) : option conn :=
  match cn_writer c with
  | Writing b =>
      Some (if ok then with_writer (with_wire c (cn_wire c ++ [b]) (cn_failed c)) Selecting
            else with_writer (cancel (with_wire c (cn_wire c) true) (cn_stopped c)) Exited)
  | Flushing b =>
      Some (if ok then with_writer (with_wire c (cn_wire c ++ [b]) (cn_failed c)) Draining
            else with_writer (cancel (with_wire c (cn_wire c) true) (cn_stopped c)) Exited)
  | _ => None
  end.
(** The select sees the kick, or the end of the context. *)
Definition see_kick (c : conn) : option conn :=
  match cn_writer c with
  | Selecting => if cn_kicked c then Some (with_writer c Draining) else None
  | _ => None
  end.
Definition see_done (c : conn) : option conn :=
  match cn_writer c with
  | Selecting => if cn_cancelled c then Some (with_writer c Exited) else None
  | _ => None
  end.
(** [drainAndCancel] finds nothing left. *)
Definition drained (c : conn) : option conn :=
  match cn_writer c, cn_out c with
  | Draining, [] => Some (with_writer (cancel c (cn_stopped c)) Exited)
  | _, _ => None
  end.

(** ** Around them *)

(** The hub queues a frame without blocking. *)
Definition hub_queue (c : conn) (f : bytes) : option conn :=
  match chan_try_send sendBuffer (cn_out c) f with
  | Some out => Some (with_out c out (cn_queued c ++ [f]))
  | None => None
  end.

Inductive own : conn → conn → Prop :=
| own_read c c' : cn_cancelled c = true → read c (ReadError None) = Some c' → own c c'
| own_kick c c' : kick_self c = Some c' → own c c'
| own_finish c c' : finish c = Some c' → own c c'
| own_take c c' : take c = Some c' → own c c'
| own_wrote c c' ok : wrote c ok = Some c' → own c c'
| own_see_kick c c' : see_kick c = Some c' → own c c'
| own_see_done c c' : see_done c = Some c' → own c c'
| own_drained c c' : drained c = Some c' → own c c'.

Inductive outside : conn → conn → Prop :=
| out_read c c' r : cn_cancelled c = false → read c r = Some c' → outside c c'
| out_queue c c' f : hub_queue c f = Some c' → outside c c'
| out_kick c : outside c (kick_conn c)
| out_stop c : outside c (cancel c true).

(** The hub takes a command, or has stopped. *)
Definition let_on (c c' : conn) : Prop := h_send c = Some c'.

Definition cstep (c c' : conn) : Prop := own c c' ∨ let_on c c' ∨ outside c c'.

(** ** The hello before it *)

(** In the read of the first frame; in [h.send] with the join or resume; waiting for
    the reply; given up, with what the peer is told; served. *)
Inductive greeting :=
| Helloing
| Offering (a : hello_action)
| Awaiting (a : hello_action)
| GaveUp (report : option Error)
| Served (c : conn).

Definition offer (a : hello_action) : greeting :=
  match a with GiveUp report => GaveUp report | a => Offering a end.

(** [handle] after the hello: a failed one ends it; otherwise the writer is started
    and the read loop entered. *)
Definition handle (hello : result Error (ParticipantID * N)) (out : list bytes) : greeting :=
  match hello with
  | Err e => GaveUp (Some e)
  | Ok (id, gen) => Served (start id gen out)
  end.

(** A resume's reply, less the slot's own channel. *)
Definition hello_slot (id : ParticipantID) (r : option resumeReply) : result Error (ParticipantID * N) :=
  rbind (hello_resumed id r) (λ p, Ok p.1).

(** The hub's reply comes with a channel of its own capacity. *)
Inductive gstep : greeting → greeting → Prop :=
| g_read s maxP now r s' a : hello s maxP now r = (s', a) → gstep Helloing (offer a)
| g_sent a : gstep (Offering a) (Awaiting a)
| g_refused h isCreate : gstep (Offering (SendJoin h isCreate)) (handle (hello_joined None) [])
| g_gone h id token : gstep (Offering (SendResume h id token))
    (handle (hello_slot id None) [])
| g_joined h isCreate jr out : (length out ≤ sendBuffer)%nat →
    gstep (Awaiting (SendJoin h isCreate)) (handle (hello_joined (Some jr)) out)
| g_resumed h id token rr out : (length out ≤ sendBuffer)%nat →
    gstep (Awaiting (SendResume h id token)) (handle (hello_slot id (Some rr)) out)
| g_conn c c' : cstep c c' → gstep (Served c) (Served c').

(** While the hello waits for the hub's reply nothing but the reply moves it: there is
    no timeout, and a hub that stops before it replies leaves it there. *)
Lemma awaiting_reply a g : gstep (Awaiting a) g →
  ∃ r out, (length out ≤ sendBuffer)%nat ∧ g = handle r out.
Proof. inversion 1; subst; eauto. Qed.
End Steps.

(** ** Reachable states *)

Section Properties.
Context {WC : WireCodec}.

(** The frame in the writer's hands. *)
Definition in_hand (c : conn) : list bytes :=
  match cn_writer c with Writing b | Flushing b => [b] | _ => [] end.

(** The commands of [conn_cmds] do not depend on the buffer. *)
Definition cmds_of (id : ParticipantID) (gen : N) (reads : list conn_read) : list cmd :=
  conn_cmds id gen [] reads.

Lemma round_out id out out' r :
  match readLoop_round id out r, readLoop_round id out' r with
  | Ended u, Ended u' => u = u'
  | Continue _ s, Continue _ s' => s = s'
  | _, _ => False
  end.
Proof.
  unfold readLoop_round. destruct (readFrame r) as [[typ raw]|[[]| |]]; try done.
  case_bool_decide; [by destruct (Body Ping raw)|].
  destruct (_ || _); [done|]. by case_bool_decide.
Qed.

Lemma conn_cmds_out id gen out out' reads :
  conn_cmds id gen out reads = conn_cmds id gen out' reads.
Proof.
  revert out out'. induction reads as [|r reads IH]; intros out out'; [done|]. simpl.
  pose proof (round_out id out out' r) as H.
  destruct (readLoop_round id out r), (readLoop_round id out' r); try done; subst; [done|].
  f_equal. apply IH.
Qed.

(** The reads so far have all been rounds that went on, and gave these commands. *)
Definition going (id : ParticipantID) (gen : N) (reads : list conn_read) (cmds : list cmd) : Prop :=
  ∀ rest, cmds_of id gen (reads ++ rest) = cmds ++ cmds_of id gen rest.

Lemma going_snoc id gen reads cmds r out out' send :
  going id gen reads cmds → readLoop_round id out r = Continue out' send →
  going id gen (reads ++ [r]) (cmds ++ option_list send).
Proof.
  intros Hg Hr rest. rewrite <- !(assoc_L (++)), Hg. f_equal. unfold cmds_of. simpl.
  pose proof (round_out id out [] r) as H. rewrite Hr in H.
  destruct (readLoop_round id [] r) as [|o s]; [done|]. subst s. f_equal. apply conn_cmds_out.
Qed.

Lemma going_ended id gen reads cmds r out u :
  going id gen reads cmds → readLoop_round id out r = Ended u →
  cmds_of id gen (reads ++ [r]) = cmds ++ [leaveCmd id gen u].
Proof.
  intros Hg Hr. rewrite Hg. f_equal. unfold cmds_of. simpl.
  pose proof (round_out id out [] r) as H. rewrite Hr in H.
  by destruct (readLoop_round id [] r) as [u'|]; [subst|].
Qed.

(** What the hub has been sent, by where [handle] is. *)
Definition sent_ok (c : conn) : Prop :=
  let all := cmds_of (cn_id c) (cn_gen c) (cn_reads c) in
  match cn_reader c with
  | Reading => going (cn_id c) (cn_gen c) (cn_reads c) (cn_cmds c)
  | Putting x => going (cn_id c) (cn_gen c) (cn_reads c) (cn_cmds c ++ [x])
  | Sending u => all = cn_cmds c ++ [leaveCmd (cn_id c) (cn_gen c) u]
  | _ => all = cn_cmds c
  end.

Record cinv (c : conn) : Prop := {
  ci_kick : cn_kicked c = cn_once c;
  ci_panic : cn_panic c = false;
  ci_torn : cn_reader c = Waiting ∨ cn_reader c = Returned → cn_kicked c = true;
  ci_socket : cn_closed c = true ↔ cn_reader c = Returned;
  ci_returned : cn_reader c = Returned → cn_writer c = Exited;
  ci_sent : sent_ok c;
  ci_exited : cn_writer c = Exited → cn_cancelled c = true;
  ci_cancelled : cn_cancelled c = true → cn_stopped c = false → cn_writer c = Exited;
  ci_drains : cn_writer c = Draining ∨ (∃ b, cn_writer c = Flushing b) → cn_kicked c = true;
  ci_live : cn_writer c ≠ Exited → cn_wire c ++ in_hand c ++ cn_out c = cn_queued c ∧
                                   cn_failed c = false;
  ci_prefix : cn_wire c `prefix_of` cn_queued c;
  ci_bound : (length (cn_out c) ≤ sendBuffer)%nat }.

Lemma start_cinv id gen out : (length out ≤ sendBuffer)%nat → cinv (start id gen out).
Proof.
  intros Hl. split; simpl; try done; try (by intros [|]); try (by intros [|[]]).
  apply prefix_nil.
Qed.

Lemma queueFrame_grows `{Cbor T} out t (body : T) :
  (length out ≤ sendBuffer)%nat →
  ∃ fs, (queueFrame out t body).1 = out ++ fs ∧ (length (out ++ fs) ≤ sendBuffer)%nat ∧
        (length fs ≤ 1)%nat.
Proof.
  intros Hl. unfold queueFrame. destruct (Encode t body) as [f|];
    [|exists []; rewrite app_nil_r; simpl; auto with lia].
  unfold chan_try_send. case_bool_decide; simpl.
  - exists [f]. rewrite length_app. simpl. split; [done|]. lia.
  - exists []. rewrite app_nil_r. simpl. auto with lia.
Qed.

Lemma round_grows id out r out' send :
  (length out ≤ sendBuffer)%nat → readLoop_round id out r = Continue out' send →
  ∃ fs, out' = out ++ fs ∧ (length out' ≤ sendBuffer)%nat ∧ (length fs ≤ 1)%nat.
Proof.
  intros Hl. unfold readLoop_round. destruct (readFrame r) as [[typ raw]|[[]| |]]; try done.
  assert (∃ fs, out = out ++ fs ∧ (length out ≤ sendBuffer)%nat ∧ (length fs ≤ 1)%nat) as Hsame
    by (exists []; rewrite app_nil_r; simpl; auto with lia).
  case_bool_decide.
  { destruct (Body Ping raw) as [p|]; intros [= <- _]; [|done].
    destruct (queueFrame_grows out MsgPong (mkPong (ping_Nonce p)) Hl) as (fs & E & ? & ?).
    exists fs. by rewrite E. }
  destruct (_ || _); [by intros [= <- _]|]. case_bool_decide; [by intros [= <- _]|].
  intros [= <- _]. destruct (queueFrame_grows out MsgError
    (mkError ErrCodeBadFrame "unexpected message type") Hl) as (fs & E & ? & ?).
  exists fs. by rewrite E.
Qed.

Lemma grow_cinv c fs :
  cinv c → (length (cn_out c ++ fs) ≤ sendBuffer)%nat →
  cinv (with_out c (cn_out c ++ fs) (cn_queued c ++ fs)).
Proof.
  intros [] Hl. split; try done; simpl.
  - intros Hw. destruct (ci_live0 Hw) as [<- ?]. split; [|done]. by rewrite <- !(assoc_L (++)).
  - by apply prefix_app_r.
Qed.

Lemma kick_cinv c : cinv c → cinv (kick_conn c).
Proof.
  intros Hi. pose proof Hi as []. unfold kick_conn. destruct (cn_once c) eqn:E; [done|].
  by split.
Qed.

Lemma cancel_cinv c : cinv c → cinv (cancel c true).
Proof. intros []. by split. Qed.

Lemma read_cinv c r c' : cinv c → read c r = Some c' → cinv c'.
Proof.
  intros Hi H. unfold read in H. destruct (cn_reader c) eqn:Er; try done.
  destruct (_ && _); [done|]. pose proof Hi as []. unfold sent_ok in *. rewrite Er in *.
  destruct (readLoop_round _ _ _) as [u|out send] eqn:Hr; injection H as <-.
  - split; try done; simpl; try (by intros [|]); [by split; [intros ?%ci_socket0|]|].
    unfold sent_ok. simpl. by eapply going_ended.
  - destruct (round_grows _ _ _ _ _ ci_bound0 Hr) as (fs & -> & Hl & _).
    rewrite drop_app_length. pose proof (grow_cinv c fs Hi Hl) as [].
    pose proof (going_snoc _ _ _ _ _ _ _ _ ci_sent0 Hr) as Hg.
    split; try done; simpl; unfold sent_ok; simpl; destruct send; rewrite ?app_nil_r in Hg; try done;
      try (by intros [|]); by split; [intros ?%ci_socket0|].
Qed.

Ltac step_cases H :=
  repeat match type of H with
         | match ?x with _ => _ end = _ => destruct x eqn:?; try done
         | (if ?x then _ else _) = _ => destruct x eqn:?; try done
         end;
  simplify_eq.

Lemma teardown_cinv c c' :
  cinv c → h_send c = Some c' ∨ kick_self c = Some c' ∨ finish c = Some c' → cinv c'.
Proof.
  intros Hi [H|[H|H]].
  - unfold h_send in H. step_cases H; destruct Hi; unfold sent_ok in *; rewrite Heqr in *;
      (split; try done; simpl; try (by intros [|]); by split; [intros ?%ci_socket0|]).
  - unfold kick_self in H. step_cases H. pose proof (kick_cinv c Hi) as Hk.
    assert (cn_kicked (kick_conn c) = true) as Ek.
    { unfold kick_conn. destruct (cn_once c) eqn:E; [|done]. by rewrite (ci_kick _ Hi). }
    assert (cn_reader (kick_conn c) = Kicking) as Er
      by (unfold kick_conn; by destruct (cn_once c)).
    destruct Hk. unfold sent_ok in *. rewrite Er in *. split; try done; simpl.
    by split; [intros ?%ci_socket0|].
  - unfold finish in H. step_cases H. destruct Hi. unfold sent_ok in *. rewrite Heqr, Heqw in *.
    split; try done; simpl; rewrite ?Heqw; try done. intros _. apply ci_torn0. by left.
Qed.

(** What the writer does not touch. *)
Definition aside (c : conn) :=
  (cn_id c, cn_gen c, cn_reader c, cn_once c, cn_kicked c, cn_panic c, cn_closed c, cn_cmds c,
   cn_reads c, cn_queued c, cn_stopped c).

Lemma moved_cinv c c' :
  cinv c → cn_writer c ≠ Exited → aside c' = aside c →
  (cn_writer c' = Exited ∧ cn_cancelled c' = true ∨
   cn_writer c' ≠ Exited ∧ cn_cancelled c' = cn_cancelled c ∧ cn_failed c' = cn_failed c ∧
     cn_wire c' ++ in_hand c' ++ cn_out c' = cn_queued c) →
  (cn_writer c' = Draining ∨ (∃ b, cn_writer c' = Flushing b) → cn_kicked c = true) →
  cn_wire c' `prefix_of` cn_queued c → (length (cn_out c') ≤ sendBuffer)%nat → cinv c'.
Proof.
  intros Hi Hw E Hx Hd Hp Hl.
  assert (cn_reader c ≠ Returned) as Hr by (intros ?%(ci_returned c Hi); done).
  destruct Hi. unfold aside in E. injection E as E1 E2 E3 E4 E5 E6 E7 E8 E9 E10 E11.
  unfold sent_ok in *.
  split; unfold sent_ok; rewrite ?E1, ?E2, ?E3, ?E4, ?E5, ?E6, ?E7, ?E8, ?E9, ?E10, ?E11; try done.
  - by destruct Hx as [[? ?]|[? _]].
  - intros Hc Hs. destruct Hx as [[? ?]|(_ & Ec & _)]; [done|].
    rewrite Ec in Hc. destruct Hw. by apply ci_cancelled0.
  - intros Hw'. destruct Hx as [[? ?]|(_ & _ & -> & ->)]; [done|]. split; [done|]. by apply ci_live0.
Qed.

Ltac wsolve :=
  first [done|lia|congruence|by left|by right|by right; split_and!; rewrite <- ?(assoc_L (++))
        |by intros [|[]]|intros _; eauto|idtac].

Lemma writer_cinv c c' :
  cinv c →
  take c = Some c' ∨ (∃ ok, wrote c ok = Some c') ∨ see_kick c = Some c' ∨ see_done c = Some c' ∨
  drained c = Some c' →
  cinv c'.
Proof.
  intros Hi H. assert (cn_writer c ≠ Exited) as Hw.
  { intros E. destruct H as [H|[[ok H]|[H|[H|H]]]];
      [unfold take in H|unfold wrote in H|unfold see_kick in H|unfold see_done in H|unfold drained in H];
      by rewrite E in H. }
  destruct (ci_live c Hi Hw) as [Hq Hf]. pose proof (ci_bound c Hi) as Hl.
  pose proof (ci_drains c Hi) as Hd. pose proof (ci_prefix c Hi) as Hp. unfold in_hand in Hq.
  destruct H as [H|[[ok H]|[H|[H|H]]]].
  - unfold take in H. step_cases H; apply (moved_cinv c); simpl in *; wsolve.
  - unfold wrote in H. step_cases H; destruct ok; apply (moved_cinv c); simpl; wsolve;
      rewrite <- Hq, (assoc_L (++)); by apply prefix_app_r.
  - unfold see_kick in H. step_cases H. apply (moved_cinv c); simpl; wsolve.
  - unfold see_done in H. step_cases H. apply (moved_cinv c); simpl; wsolve.
  - unfold drained in H. step_cases H. apply (moved_cinv c); simpl; wsolve.
Qed.

Lemma own_cinv c c' : cinv c → own c c' → cinv c'.
Proof.
  intros Hi H. inversion H; subst;
    [by eapply read_cinv|eapply teardown_cinv..|eapply writer_cinv|eapply writer_cinv|
     eapply writer_cinv|eapply writer_cinv|eapply writer_cinv]; eauto 10.
Qed.

Lemma outside_cinv c c' : cinv c → outside c c' → cinv c'.
Proof.
  intros Hi H. inversion H; subst; [by eapply read_cinv| |by apply kick_cinv|by apply cancel_cinv].
  unfold hub_queue in *. destruct (chan_try_send _ _ _) as [out|] eqn:E; [|done]. simplify_eq.
  apply chan_try_send_Some in E as [Hl ->]. apply grow_cinv; [done|]. rewrite length_app. simpl. lia.
Qed.

Lemma cstep_cinv c c' : cinv c → cstep c c' → cinv c'.
Proof.
  intros Hi [H|[H|H]]; [by eapply own_cinv| |by eapply outside_cinv].
  eapply teardown_cinv; [done|by left].
Qed.

(** Reachable by a served connection, from the beginning of [handle]. *)
Definition reaches (c : conn) : Prop := rtc gstep Helloing (Served c).

Lemma handle_cinv r out c : (length out ≤ sendBuffer)%nat → handle r out = Served c → cinv c.
Proof.
  intros Hl. unfold handle. destruct r as [[id gen]|]; [|done]. intros [= <-]. by apply start_cinv.
Qed.

Lemma gstep_cinv g g' :
  gstep g g' → (∀ c, g = Served c → cinv c) → ∀ c, g' = Served c → cinv c.
Proof.
  intros H Hi c E. destruct H as [s m n r s' a _|a|h b|h i t|h b jr out Hl|h i t rr out Hl|c1 c2 H].
  - by destruct a.
  - done.
  - by eapply (handle_cinv _ []); [simpl; lia|].
  - by eapply (handle_cinv _ []); [simpl; lia|].
  - by eapply handle_cinv.
  - by eapply handle_cinv.
  - injection E as <-. eapply cstep_cinv; [by apply Hi|done].
Qed.

Lemma reaches_cinv c : reaches c → cinv c.
Proof.
  intros H. assert (∀ g g', rtc gstep g g' → (∀ c, g = Served c → cinv c) →
    ∀ c, g' = Served c → cinv c) as Hr.
  { induction 1; [done|]. eauto using gstep_cinv. }
  by eapply Hr.
Qed.

(** A connection is orderly whatever happens to it.  However the peer, the hub
    and the server interleave with the two goroutines of a connection, [kicked] is
    closed at most once; what has been written is a prefix of what was queued, in
    order, and nothing is lost between them while the writer lives; the hub is offered
    the commands of the frames read, and the leave once, as the last; and the socket
    is closed only when the writer is gone and the leave has been sent. *)
Theorem connection_orderly c :
  reaches c →
  cn_panic c = false ∧ cn_wire c `prefix_of` cn_queued c ∧
  (cn_writer c ≠ Exited → cn_wire c ++ in_hand c ++ cn_out c = cn_queued c) ∧
  (cn_reader c = Reading → ∀ rest, conn_cmds (cn_id c) (cn_gen c) [] (cn_reads c ++ rest)
     = cn_cmds c ++ conn_cmds (cn_id c) (cn_gen c) [] rest) ∧
  (cn_closed c = true → cn_writer c = Exited ∧
     cn_cmds c = conn_cmds (cn_id c) (cn_gen c) [] (cn_reads c)).
Proof.
  intros Hi%reaches_cinv. split; [apply Hi|]. split; [apply Hi|].
  split; [by intros Hw; apply Hi|]. pose proof (ci_sent c Hi) as Hs. unfold sent_ok in Hs. split.
  - intros Hr. by rewrite Hr in Hs.
  - intros Hr%(ci_socket c Hi). split; [by apply (ci_returned c Hi)|]. by rewrite Hr in Hs.
Qed.

(** ** A kick flushes *)

(** [q] has been queued while the writer lived; it is written, or something failed. *)
Definition covered (q : list bytes) (c : conn) : Prop :=
  match cn_writer c with
  | Exited => cn_failed c = false → cn_stopped c = false → q `prefix_of` cn_wire c
  | _ => q `prefix_of` cn_queued c
  end.

(** Steps that are not the writer's. *)
Lemma covered_grows q c c' fs :
  cn_writer c' = cn_writer c → cn_wire c' = cn_wire c → cn_failed c' = cn_failed c →
  (cn_stopped c' = false → cn_stopped c = false) → cn_queued c' = cn_queued c ++ fs →
  covered q c → covered q c'.
Proof.
  unfold covered. intros -> -> -> Hs ->. destruct (cn_writer c); try apply prefix_app_r. eauto.
Qed.

Lemma read_covered q c r c' : cinv c → read c r = Some c' → covered q c → covered q c'.
Proof.
  intros Hi H. unfold read in H. destruct (cn_reader c); try done. destruct (_ && _); [done|].
  destruct (readLoop_round _ _ _) as [u|out send] eqn:Hr; injection H as <-.
  - apply (covered_grows q c _ []); try done. simpl. by rewrite app_nil_r.
  - by eapply (covered_grows q c).
Qed.

Lemma covered_same q c c' :
  cn_writer c' = cn_writer c → cn_wire c' = cn_wire c → cn_failed c' = cn_failed c →
  (cn_stopped c' = false → cn_stopped c = false) → cn_queued c' = cn_queued c →
  covered q c → covered q c'.
Proof. intros ???? E. apply (covered_grows q c c' []); try done. by rewrite app_nil_r. Qed.

Lemma kick_covered q c : covered q c → covered q (kick_conn c).
Proof. unfold kick_conn. destruct (cn_once c); [done|]. by apply covered_same. Qed.

Lemma own_covered q c c' : cinv c → own c c' → covered q c → covered q c'.
Proof.
  intros Hi H Hq. inversion H as [? ? _ H1|? ? H1|? ? H1|? ? H1|? ? ok H1|? ? H1|? ? H1|? ? H1];
    subst.
  - by eapply read_covered.
  - unfold kick_self in H1. destruct (cn_reader c); try done. injection H1 as <-.
    apply (covered_same q (kick_conn c)); [done..|by apply kick_covered].
  - unfold finish in H1. destruct (cn_reader c); try done. destruct (cn_writer c) eqn:Ew; try done.
    injection H1 as <-. by apply (covered_same q c).
  - unfold take in H1. unfold covered in *.
    destruct (cn_writer c); try done; destruct (cn_out c); try done; by injection H1 as <-.
  - unfold wrote in H1. unfold covered in *.
    destruct (cn_writer c); try done; injection H1 as <-; by destruct ok.
  - unfold see_kick in H1. unfold covered in *.
    destruct (cn_writer c); try done; destruct (cn_kicked c); try done; by injection H1 as <-.
  - unfold see_done in H1. unfold covered in *. destruct (cn_writer c) eqn:Ew; try done.
    destruct (cn_cancelled c) eqn:Ec; [|done]. injection H1 as <-. simpl. intros _ Hs.
    by rewrite (ci_cancelled c Hi Ec Hs) in Ew.
  - unfold drained in H1. unfold covered in *. destruct (cn_writer c) eqn:Ew; try done.
    destruct (cn_out c) eqn:Eo; [|done]. injection H1 as <-. simpl. intros _ _.
    destruct (ci_live c Hi) as [Hl _]; [by rewrite Ew|]. unfold in_hand in Hl.
    by rewrite Ew, Eo, app_nil_r in Hl; rewrite Hl.
Qed.

Lemma cstep_covered q c c' : cinv c → cstep c c' → covered q c → covered q c'.
Proof.
  intros Hi [H|[H|H]] Hq; [by eapply own_covered| |].
  { unfold let_on, h_send in H. destruct (cn_reader c); try done; injection H as <-;
      by apply (covered_same q c). }
  inversion H as [? ? ? _ H1|? ? f H1| |]; subst.
  - by eapply read_covered.
  - unfold hub_queue in H1. destruct (chan_try_send _ _ _); [|done]. injection H1 as <-.
    by eapply (covered_grows q c).
  - by apply kick_covered.
  - by apply (covered_same q c).
Qed.

(** C10: a kick flushes before it cuts.  Everything queued for a connection while
    its writer lived, so everything the hub queued before it kicked, is on the wire
    when [handle] returns, in order and first, unless a write failed or the server's
    own context ended.  So the notice that the session has closed reaches the client. *)
Theorem kick_flushes c c' :
  reaches c → cn_writer c ≠ Exited → rtc cstep c c' → cn_reader c' = Returned →
  cn_failed c' = false → cn_stopped c' = false → cn_queued c `prefix_of` cn_wire c'.
Proof.
  intros Hi%reaches_cinv Hw Hs Hr Hf Hst.
  assert (cinv c' ∧ covered (cn_queued c) c') as [Hi' Hc].
  { assert (covered (cn_queued c) c) as Hc by (unfold covered; by destruct (cn_writer c)).
    clear Hw Hr Hf Hst. revert Hc. generalize (cn_queued c) as q. intros q Hc.
    induction Hs as [|c c1 c' H _ IH]; [done|].
    apply IH; [by eapply cstep_cinv|by eapply cstep_covered]. }
  unfold covered in Hc. rewrite (ci_returned c' Hi' Hr) in Hc. by apply Hc.
Qed.

(** ** [handle] returns *)

Definition rwork (r : rphase) : nat :=
  match r with
  | Putting _ => 5 | Reading => 4 | Sending _ => 3 | Kicking => 2 | Waiting => 1 | Returned => 0
  end.
Definition wwork (w : wphase) : nat :=
  match w with Selecting => 2 | Writing _ => 4 | Draining => 1 | Flushing _ => 3 | Exited => 0 end.

(** The steps the two goroutines can still take, if nothing more is queued. *)
Definition work (c : conn) : nat :=
  (3 * length (cn_out c) + rwork (cn_reader c) + wwork (cn_writer c))%nat.

(** The end has begun: a kick, the end of the context, or of the read loop. *)
Definition closing (c : conn) : Prop :=
  cn_kicked c = true ∨ cn_cancelled c = true ∨
  match cn_reader c with Reading | Putting _ => False | _ => True end.

(** Frames queued cost three steps each, reads that go on one. *)
Definition fed (c : conn) : nat := (3 * length (cn_queued c) + length (cn_reads c))%nat.

Lemma read_work c r c' :
  cinv c → read c r = Some c' →
  (work c' + fed c ≤ work c + fed c')%nat ∧
  (r = ReadError None → S (work c' + fed c) ≤ work c + fed c')%nat.
Proof.
  intros Hi H. unfold read in H. destruct (cn_reader c) eqn:Er; try done.
  destruct (_ && _); [done|]. unfold work, fed.
  destruct (readLoop_round _ _ _) as [u|out send] eqn:Hr; injection H as <-; simpl; rewrite ?Er.
  - rewrite length_app. simpl. lia.
  - destruct (round_grows _ _ _ _ _ (ci_bound c Hi) Hr) as (fs & -> & _ & _).
    rewrite drop_app_length, !length_app. split; [destruct send; simpl; lia|by intros ->].
Qed.

Lemma own_work c c' : cinv c → own c c' → (S (work c' + fed c) ≤ work c + fed c')%nat.
Proof.
  intros Hi H. inversion H as [? ? _ H1|? ? H1|? ? H1|? ? H1|? ? ok H1|? ? H1|? ? H1|? ? H1];
    subst; [by eapply read_work|..]; unfold work, fed.
  - unfold kick_self in H1. step_cases H1. unfold kick_conn. destruct (cn_once c); simpl; lia.
  - unfold finish in H1. step_cases H1. simpl. rewrite Heqw. simpl. lia.
  - unfold take in H1. step_cases H1; simpl; lia.
  - unfold wrote in H1. step_cases H1; destruct ok; simpl; lia.
  - unfold see_kick in H1. step_cases H1. simpl. lia.
  - unfold see_done in H1. step_cases H1. simpl. lia.
  - unfold drained in H1. step_cases H1. simpl. rewrite Heql. simpl. lia.
Qed.

Lemma let_on_work c c' : let_on c c' → (S (work c' + fed c) ≤ work c + fed c')%nat.
Proof. unfold let_on, h_send. intros H. step_cases H; unfold work, fed; simpl; rewrite Heqr; simpl; lia. Qed.

Lemma outside_work c c' :
  cinv c → outside c c' → (work c' + fed c ≤ work c + fed c')%nat.
Proof.
  intros Hi H. inversion H as [? ? ? _ H1|? ? f H1| |]; subst; [by eapply read_work| | |done].
  - unfold hub_queue in H1. destruct (chan_try_send _ _ _) as [out|] eqn:E; [|done].
    injection H1 as <-. apply chan_try_send_Some in E as [_ ->]. unfold work, fed. simpl.
    rewrite !length_app. simpl. lia.
  - unfold kick_conn. destruct (cn_once c); done.
Qed.

Lemma writer_progress c :
  cinv c → cn_kicked c = true → cn_writer c ≠ Exited → ∃ c', own c c'.
Proof.
  intros Hi Hk Hw. destruct (cn_writer c) eqn:Ew; try done.
  - eexists. apply own_see_kick. unfold see_kick. by rewrite Ew, Hk.
  - eexists. apply (own_wrote _ _ true). unfold wrote. by rewrite Ew.
  - destruct (cn_out c) eqn:Eo.
    + eexists. apply own_drained. unfold drained. by rewrite Ew, Eo.
    + eexists. apply own_take. unfold take. by rewrite Ew, Eo.
  - eexists. apply (own_wrote _ _ true). unfold wrote. by rewrite Ew.
Qed.

(** In [h.send]. *)
Definition in_send (c : conn) : Prop :=
  match cn_reader c with Putting _ | Sending _ => True | _ => False end.

Lemma in_send_lets c : in_send c → ∃ c', let_on c c'.
Proof. unfold in_send, let_on, h_send. destruct (cn_reader c); try done; by eexists. Qed.

(** No deadlock between the two: once the end has begun, one of them can go on, or
    the connection is in [h.send]. *)
Lemma closing_progress c :
  cinv c → closing c → cn_reader c ≠ Returned → (∃ c', own c c') ∨ in_send c.
Proof.
  intros Hi Hc Hr. unfold in_send. destruct (cn_reader c) eqn:Er; try done; try (by right); left.
  - destruct (cn_cancelled c) eqn:Ec.
    + assert (is_Some (read c (ReadError None))) as [c' Hc'].
      { unfold read. rewrite Er, Ec. simpl. by eexists. }
      exists c'. by apply own_read.
    + destruct Hc as [Hk|[?|Hc]]; [|congruence|by rewrite Er in Hc].
      apply writer_progress; [done..|]. intros ?%(ci_exited c Hi). congruence.
  - eexists. apply own_kick. unfold kick_self. by rewrite Er.
  - destruct (cn_writer c) eqn:Ew; try (apply writer_progress; [done|apply Hi; by left|congruence]).
    eexists. apply own_finish. unfold finish. by rewrite Er, Ew.
Qed.

(** The end stays begun. *)
Lemma closing_stays c c' : closing c → cstep c c' → closing c'.
Proof.
  unfold closing. intros Hc [H|[H|H]].
  - inversion H as [? ? _ H1|? ? H1|? ? H1|? ? H1|? ? ok H1|? ? H1|? ? H1|? ? H1]; subst;
      [unfold read in H1|unfold kick_self, kick_conn in H1|unfold finish in H1
      |unfold take in H1|unfold wrote in H1|unfold see_kick in H1|unfold see_done in H1
      |unfold drained in H1];
      step_cases H1; try destruct ok; simpl in *; try destruct (cn_once c); simpl; tauto.
  - unfold let_on, h_send in H. step_cases H; simpl in *; tauto.
  - inversion H as [? ? ? _ H1|? ? f H1| |]; subst;
      [unfold read in H1|unfold hub_queue in H1|unfold kick_conn; destruct (cn_once c)|];
      try step_cases H1; simpl in *; tauto.
Qed.

(** Runs, with the number of the connection's own steps: its two goroutines', and
    the returns of [h.send]. *)
Inductive runs : nat → conn → conn → Prop :=
| runs_done c : runs 0 c c
| runs_own n c c1 c2 : own c c1 → runs n c1 c2 → runs (S n) c c2
| runs_let n c c1 c2 : let_on c c1 → runs n c1 c2 → runs (S n) c c2
| runs_outside n c c1 c2 : outside c c1 → runs n c1 c2 → runs n c c2.

Lemma runs_work n c c' :
  cinv c → closing c → runs n c c' →
  (n + work c' + fed c ≤ work c + fed c')%nat ∧ cinv c' ∧ closing c'.
Proof.
  intros Hi Hc Hr. induction Hr as [c|n c c1 c2 H Hr IH|n c c1 c2 H Hr IH|n c c1 c2 H Hr IH].
  - split; [lia|done].
  - pose proof (own_work c c1 Hi H) as Hw.
    destruct IH as [Hn ?]; [by eapply own_cinv|eapply closing_stays; [done|by left]|]. split; [lia|done].
  - pose proof (let_on_work c c1 H) as Hw.
    assert (cstep c c1) by (right; by left).
    destruct IH as [Hn ?]; [by eapply cstep_cinv|by eapply closing_stays|]. split; [lia|done].
  - pose proof (outside_work c c1 Hi H) as Hw. assert (cstep c c1) by (right; by right).
    destruct IH as [Hn ?]; [by eapply cstep_cinv|by eapply closing_stays|]. split; [lia|done].
Qed.

(** C11: a served connection that is ending comes to its end, unless the hub holds it
    up.  Once the hello has succeeded, and the connection has been kicked, or its
    context or its read loop has ended, its two goroutines never block each other:
    until [handle] has returned, one of them can take a step of its own, or it is
    in [h.send], which returns when the hub takes the command or has stopped (a
    running hub always takes the next, [HubSys.inbox_drains]).  And however the others
    interleave, the connection takes at most 201 steps, plus three for every frame
    that is still queued for it and one for every frame still read from it.  Before
    that, in the hello, [handle] may wait for the hub's reply for ever
    ([awaiting_reply]). *)
Theorem handle_returns c n c' :
  reaches c → closing c → runs n c c' →
  (cn_reader c' = Returned ∨ (∃ c'', own c' c'') ∨ in_send c' ∧ ∃ c'', let_on c' c'') ∧
  (n + 3 * length (cn_queued c) + length (cn_reads c) ≤
     201 + 3 * length (cn_queued c') + length (cn_reads c'))%nat.
Proof.
  intros Hi%reaches_cinv Hc Hr. destruct (runs_work n c c' Hi Hc Hr) as (Hn & Hi' & Hc'). split.
  - assert (cn_reader c' = Returned ∨ cn_reader c' ≠ Returned) as [Er|Er]
      by (destruct (cn_reader c'); auto); [by left|right].
    destruct (closing_progress c' Hi' Hc' Er); [by left|right]. eauto using in_send_lets.
  - assert (work c ≤ 201)%nat; [|unfold fed in Hn; lia]. unfold work.
    pose proof (ci_bound c Hi) as Hb. change sendBuffer with 64%nat in Hb.
    destruct (cn_reader c), (cn_writer c); simpl; lia.
Qed.
End Properties.

(** ** A connection that is kicked *)

#[local] Existing Instance bits_codec.

(** A peer creates a session; the hub answers, queues a notice, and kicks. *)
Definition rc_reply : bytes := [x01; x02].
Definition rc_notice : bytes := [x01; x03].
Definition rc_answer : joinReply := mkJoinReply true 0 EmptyString 1 0.
Definition rc_start : conn := start 1 0 [rc_reply].
Definition rc_queued : conn := with_out rc_start [rc_reply; rc_notice] [rc_reply; rc_notice].
Definition rc_kicked : conn := kick_conn rc_queued.

Lemma rc_served : rtc gstep Helloing (Served rc_start).
Proof.
  eapply rtc_l.
  { eapply (g_read (init_relay 2 100 30) 16 5 (Message true ex_create) _ (SendJoin 0 true)).
    vm_compute. reflexivity. }
  eapply rtc_l; [apply g_sent|].
  eapply rtc_l; [apply (g_joined 0 true rc_answer [rc_reply]); vm_compute; lia|apply rtc_refl].
Qed.

Lemma rc_reaches : reaches rc_kicked.
Proof.
  unfold reaches. etrans; [apply rc_served|].
  eapply rtc_l; [apply g_conn; right; right; apply (out_queue _ _ rc_notice); reflexivity|].
  apply rtc_once, g_conn. right. right. apply out_kick.
Qed.

(** It drains, cancels, and [handle] returns. *)
Definition rc_ops : list (conn → option conn) :=
  [see_kick; take; λ c, wrote c true; take; λ c, wrote c true; drained;
   λ c, read c (ReadError None); h_send; kick_self; finish].
Definition rc_end : conn := default rc_kicked (foldl (λ c op, c ≫= op) (Some rc_kicked) rc_ops).

Lemma rc_runs : runs 10 rc_kicked rc_end.
Proof.
  let e := eval vm_compute in rc_end in change rc_end with e.
  eapply runs_own; [apply own_see_kick; vm_compute; reflexivity|].
  eapply runs_own; [apply own_take; vm_compute; reflexivity|].
  eapply runs_own; [apply (own_wrote _ _ true); vm_compute; reflexivity|].
  eapply runs_own; [apply own_take; vm_compute; reflexivity|].
  eapply runs_own; [apply (own_wrote _ _ true); vm_compute; reflexivity|].
  eapply runs_own; [apply own_drained; vm_compute; reflexivity|].
  eapply runs_own; [apply own_read; vm_compute; reflexivity|].
  eapply runs_let; [vm_compute; reflexivity|].
  eapply runs_own; [apply own_kick; vm_compute; reflexivity|].
  eapply runs_own; [apply own_finish; vm_compute; reflexivity|]. apply runs_done.
Qed.

Lemma runs_rtc n c c' : runs n c c' → rtc cstep c c'.
Proof.
  induction 1; [done|eapply rtc_l; [|done]..]; [by left|right; by left|right; by right].
Qed.

Lemma connection_orderly_witness : cn_panic rc_kicked = false ∧
  cn_wire rc_kicked ++ in_hand rc_kicked ++ cn_out rc_kicked = [rc_reply; rc_notice].
Proof.
  destruct (connection_orderly rc_kicked rc_reaches) as (H1 & _ & H2 & _).
  split; [exact H1|apply H2; discriminate].
Defined.

Lemma kick_flushes_witness : cn_wire rc_end = [rc_reply; rc_notice].
Proof.
  destruct (kick_flushes rc_kicked rc_end rc_reaches ltac:(discriminate)
    (runs_rtc _ _ _ rc_runs) eq_refl eq_refl eq_refl) as [l Hl].
  destruct l as [|x l]; [exact Hl|]. exfalso. apply (f_equal length) in Hl. discriminate Hl.
Defined.

Lemma handle_returns_witness :
  ((∃ c, own rc_kicked c) ∨ in_send rc_kicked) ∧ cn_reader rc_end = Returned ∧
  (10 + 3 * 2 ≤ 201 + 3 * 2 + 1)%nat.
Proof.
  destruct (handle_returns rc_kicked 0 rc_kicked rc_reaches ltac:(by left) (runs_done _))
    as [[Hr|[H|[H _]]] _]; [discriminate Hr| |];
    destruct (handle_returns rc_kicked 10 rc_end rc_reaches ltac:(by left) rc_runs) as [_ Hn];
    (split; [by auto|split; [reflexivity|exact Hn]]).
Defined.
