(* ===== verification/Crypto.v ===== *)
(** * The security boundary (crypto/crypto.go)

    Pairwise PAKE, key derivation, the wrapped group key and sealed frames.  The
    primitives (schollz/pake, XChaCha20-Poly1305, HKDF) are parameters; what the
    package adds (what is bound to what, in which order, with which errors) is
    modelled.  Randomness is the [Entropy] of the prelude: a function that draws
    takes the index of its draw. *)
From S2P Require Import Prelude Wire.

#[local] Open Scope N_scope.

(** ** Primitives *)

(** [chacha20poly1305.NewX]: sealing and opening under a 32-byte key, a nonce and
    associated data. *)
Class Aead := {
  aead_seal : bytes → bytes → bytes → bytes → bytes;
  aead_open : bytes → bytes → bytes → bytes → option bytes
}.

(** [cipher.AEAD]'s documentation: [Open] authenticates the ciphertext and the
    associated data; key, nonce and data must match what [Seal] was given, and
    then the plaintext comes back. *)
Class AeadSpec `{Aead} := {
  open_seal k n p ad : aead_open k n (aead_seal k n p ad) ad = Some p;
  open_authentic k n p ad k' n' ad' p' :
    aead_open k' n' (aead_seal k n p ad) ad' = Some p' → k' = k ∧ n' = n ∧ ad' = ad
}.

(** HKDF-SHA256: input key material, salt, info, read for 32 bytes. *)
Class Hkdf := {
  hkdf_read : bytes → bytes → string → bytes;
  hkdf_length raw salt info : length (hkdf_read raw salt info) = 32%nat
}.

(** schollz/pake: [InitCurve] with a weak secret and a role, [Bytes], [Update]
    (which mutates the exchange and may fail) and [SessionKey].  The first
    argument is the library's own randomness. *)
Class Pake_lib := {
  pake : Type;
  pake_init : N → string → N → option pake;
  pake_bytes : pake → bytes;
  pake_update : N → pake → bytes → pake * bool;
  pake_key : pake → option bytes
}.

(** The library's promise: two ends with the same secret agree on the key. *)
Class PakeSpec `{Pake_lib} := {
  pake_agree i1 i2 i3 i4 secret j h h' j' :
    pake_init i1 secret 0 = Some j → pake_init i2 secret 1 = Some h →
    pake_update i3 h (pake_bytes j) = (h', true) →
    pake_update i4 j (pake_bytes h') = (j', true) →
    pake_key j' = pake_key h'
}.

(** ** Keys and errors *)

Definition KeySize : nat := 32.
Abbreviation Key := bytes.
Definition key_wf (k : Key) : Prop := length k = KeySize.

Inductive crypto_error :=
| PakeInit | PakeUpdate | PakeKey | RandError | BadKeySize | ErrUnwrap | ErrOpen.

(** [chacha20poly1305.NewX] refuses a key of another size. *)
Definition NewX (k : Key) : result crypto_error Key :=
  if bool_decide (length k = KeySize) then Ok k else Err BadKeySize.

(** ** Associated data *)

Definition wrapAD (sid : SessionID) (joinerID : ParticipantID) : bytes :=
  sid ++ [Version] ++ be32 joinerID.

Definition frameAD (sid : SessionID) (sender : ParticipantID) : bytes :=
  sid ++ [Version] ++ be32 sender.

(** The HKDF info string: the protocol label and the pair, smaller first. *)
Definition pairwise_info (protocol : string) (a b : ParticipantID) : string :=
  let '(lo, hi) := if bool_decide (b < a) then (b, a) else (a, b) in
  (protocol +:+ "/pairwise/" +:+ decimal lo +:+ "/" +:+ decimal hi)%string.

Section Crypto.
Context {AE : Aead} {HK : Hkdf} {PK : Pake_lib} {EN : Entropy}.

Definition derivePairwise (protocol : string) (raw : bytes) (sid : SessionID)
    (a b : ParticipantID) : Key :=
  hkdf_read raw sid (pairwise_info protocol a b).

(** ** The handshake *)

Record Joiner := mkJoiner { j_p : pake; j_protocol : string; j_Flight1 : bytes }.

Definition NewJoiner (i : N) (protocol phrase : string) : result crypto_error Joiner :=
  match pake_init i phrase 0 with
  | None => Err PakeInit
  | Some p => Ok (mkJoiner p protocol (pake_bytes p))
  end.

(** [Finish]: the joiner's exchange is updated whether or not it succeeds. *)
Definition Finish (i : N) (j : Joiner) (flight2 : bytes) (sid : SessionID)
    (joinerID hostID : ParticipantID) : Joiner * result crypto_error Key :=
  let '(p, ok) := pake_update i (j_p j) flight2 in
  let j := mkJoiner p (j_protocol j) (j_Flight1 j) in
  (j,
   if negb ok then Err PakeUpdate
   else match pake_key p with
        | None => Err PakeKey
        | Some raw => Ok (derivePairwise (j_protocol j) raw sid joinerID hostID)
        end).

Definition HostExchange (i : N) (protocol phrase : string) (flight1 : bytes) (sid : SessionID)
    (joinerID hostID : ParticipantID) : result crypto_error (Key * bytes) :=
  match pake_init i phrase 1 with
  | None => Err PakeInit
  | Some p =>
      let '(p, ok) := pake_update i p flight1 in
      if negb ok then Err PakeUpdate
      else match pake_key p with
           | None => Err PakeKey
           | Some raw => Ok (derivePairwise protocol raw sid joinerID hostID, pake_bytes p)
           end
  end.

(** ** The group key *)

Definition NewGroupKey (i : N) : result crypto_error Key :=
  of_option RandError (rand_read i KeySize).

Definition WrapGroupKey (i : N) (pairwise groupKey : Key) (role : byte) (sid : SessionID)
    (joinerID : ParticipantID) : result crypto_error GroupKey :=
  match NewX pairwise with
  | Err e => Err e
  | Ok k =>
      match rand_read i nonce_len with
      | None => Err RandError
      | Some nonce =>
          Ok (mkGroupKey nonce (aead_seal k nonce (groupKey ++ [role]) (wrapAD sid joinerID)))
      end
  end.

Definition UnwrapGroupKey (pairwise : Key) (gk : GroupKey) (sid : SessionID)
    (joinerID : ParticipantID) : result crypto_error (Key * byte) :=
  match NewX pairwise with
  | Err e => Err e
  | Ok k =>
      match aead_open k (gk_Nonce gk) (gk_Ciphertext gk) (wrapAD sid joinerID) with
      | None => Err ErrUnwrap
      | Some plaintext =>
          if bool_decide (length plaintext ≠ KeySize + 1)%nat then Err ErrUnwrap
          else Ok (take KeySize plaintext, default x00 (plaintext !! KeySize))
      end
  end.

(** ** Service traffic *)

Definition Seal (i : N) (groupKey : Key) (plaintext : bytes) (sid : SessionID)
    (sender : ParticipantID) : result crypto_error SealedFrame :=
  match NewX groupKey with
  | Err e => Err e
  | Ok k =>
      match rand_read i nonce_len with
      | None => Err RandError
      | Some nonce => Ok (mkSealedFrame nonce (aead_seal k nonce plaintext (frameAD sid sender)))
      end
  end.

Definition Open (groupKey : Key) (sf : SealedFrame) (sid : SessionID) (sender : ParticipantID) :
    result crypto_error bytes :=
  match NewX groupKey with
  | Err e => Err e
  | Ok k => of_option ErrOpen (aead_open k (sf_Nonce sf) (sf_Ciphertext sf) (frameAD sid sender))
  end.
End Crypto.

(** ** Binding *)

(** The associated data identifies the session and the participant. *)
Lemma ad_inj sid sid' p p' :
  sid_wf sid → sid_wf sid' → pid_wf p → pid_wf p' →
  sid ++ [Version] ++ be32 p = sid' ++ [Version] ++ be32 p' → sid = sid' ∧ p = p'.
Proof.
  intros Hs Hs' Hp Hp' E. apply app_inj_1 in E as [-> E]; [|by rewrite Hs, Hs'].
  split; [done|]. apply (app_inv_head [Version]) in E. by apply be32_inj.
Qed.

Lemma slash_not_digit n : "/"%char ∉ decimal_chars n.
Proof. intros [Hin _]%decimal_chars_digits. by apply Hin. Qed.

Lemma pairwise_info_inj protocol protocol' a b a' b' :
  pairwise_info protocol a b = pairwise_info protocol' a' b' →
  protocol = protocol' ∧ ((a = a' ∧ b = b') ∨ (a = b' ∧ b = a')).
Proof.
  unfold pairwise_info. set (p := if bool_decide (b < a) then _ else _).
  set (p' := if bool_decide (b' < a') then _ else _).
  assert (p = (a, b) ∨ p = (b, a)) as Hp by (unfold p; case_bool_decide; auto).
  assert (p' = (a', b') ∨ p' = (b', a')) as Hp' by (unfold p'; case_bool_decide; auto).
  assert ((p.1 ≤ p.2) ∧ (p'.1 ≤ p'.2)) as [Hle Hle']
    by (unfold p, p'; do 2 case_bool_decide; simpl; lia).
  destruct p as [lo hi], p' as [lo' hi']. simpl in Hle, Hle'.
  intros E%(f_equal String.list_ascii_of_string). rewrite !chars_app in E.
  unfold decimal in E. rewrite !String.list_ascii_of_string_of_list_ascii in E.
  set (P := String.list_ascii_of_string protocol) in *.
  set (P' := String.list_ascii_of_string protocol') in *.
  set (W := String.list_ascii_of_string "/pairwise") in *.
  assert ((P ++ W ++ "/"%char :: decimal_chars lo) ++ "/"%char :: decimal_chars hi
    = (P' ++ W ++ "/"%char :: decimal_chars lo') ++ "/"%char :: decimal_chars hi') as E1
    by (rewrite <- !(assoc_L (++)); exact E).
  apply app_sep_inj in E1 as [E1 Eh%decimal_inj]; [|apply slash_not_digit..].
  rewrite !(assoc_L (++)) in E1. apply app_sep_inj in E1 as [E1 El%decimal_inj];
    [|apply slash_not_digit..].
  apply app_inv_tail in E1. split.
  - rewrite <- (String.string_of_list_ascii_of_string protocol),
      <- (String.string_of_list_ascii_of_string protocol'). unfold P, P' in E1. by rewrite E1.
  - subst lo' hi'. destruct Hp as [[= -> ->]|[= -> ->]], Hp' as [[= -> ->]|[= -> ->]]; auto.
Qed.

Lemma pairwise_info_sym protocol a b : pairwise_info protocol a b = pairwise_info protocol b a.
Proof.
  unfold pairwise_info. do 2 case_bool_decide; try done; try lia.
  assert (a = b) as -> by lia. done.
Qed.

(** ** Properties *)

Section Properties.
Context {AE : Aead} {AS : AeadSpec} {HK : Hkdf} {PK : Pake_lib} {PS : PakeSpec} {EN : Entropy}.

Lemma NewX_Ok k k' : NewX k = Ok k' ↔ k' = k ∧ key_wf k.
Proof. unfold NewX, key_wf. case_bool_decide; naive_solver. Qed.

Lemma derivePairwise_wf protocol raw sid a b : key_wf (derivePairwise protocol raw sid a b).
Proof. apply hkdf_length. Qed.

Lemma Wrap_Ok i k gk role sid id w :
  WrapGroupKey i k gk role sid id = Ok w →
  key_wf k ∧ w = mkGroupKey (gk_Nonce w) (aead_seal k (gk_Nonce w) (gk ++ [role]) (wrapAD sid id)).
Proof.
  unfold WrapGroupKey. destruct (NewX k) as [k'|] eqn:E; [|done].
  apply NewX_Ok in E as [-> ?]. destruct (rand_read i nonce_len); [|done]. by intros [= <-].
Qed.

Lemma Unwrap_Wrap i k gk role sid id w :
  key_wf gk → WrapGroupKey i k gk role sid id = Ok w →
  UnwrapGroupKey k w sid id = Ok (gk, role).
Proof.
  intros Hgk (Hk & ->)%Wrap_Ok. unfold UnwrapGroupKey. simpl.
  rewrite (proj2 (NewX_Ok k k)), open_seal by done.
  unfold key_wf in Hgk. rewrite bool_decide_eq_false_2.
  - rewrite <- Hgk, take_app_length, list_lookup_middle by done. done.
  - intros Hn. apply Hn. by rewrite length_app, Hgk.
Qed.

Lemma Seal_Ok i k p sid s f :
  Seal i k p sid s = Ok f →
  key_wf k ∧ f = mkSealedFrame (sf_Nonce f) (aead_seal k (sf_Nonce f) p (frameAD sid s)).
Proof.
  unfold Seal. destruct (NewX k) as [k'|] eqn:E; [|done].
  apply NewX_Ok in E as [-> ?]. destruct (rand_read i nonce_len); [|done]. by intros [= <-].
Qed.

Lemma Open_Seal i k p sid s f : Seal i k p sid s = Ok f → Open k f sid s = Ok p.
Proof.
  intros (Hk & ->)%Seal_Ok. unfold Open. simpl.
  by rewrite (proj2 (NewX_Ok k k)), open_seal by done.
Qed.

Lemma Open_only i k p sid s f k' sid' s' p' :
  sid_wf sid → sid_wf sid' → pid_wf s → pid_wf s' →
  Seal i k p sid s = Ok f → Open k' f sid' s' = Ok p' →
  k' = k ∧ sid' = sid ∧ s' = s ∧ p' = p.
Proof.
  intros Hs Hs' Hp Hp' (Hk & ->)%Seal_Ok. unfold Open. simpl.
  destruct (NewX k') as [k1|] eqn:E; [|done]. apply NewX_Ok in E as [-> _].
  destruct (aead_open _ _ _ _) as [p1|] eqn:Eo; [|done]. intros [= <-].
  pose proof (open_authentic _ _ _ _ _ _ _ _ Eo) as (-> & _ & Ead).
  apply ad_inj in Ead as [-> ->]; try done. rewrite open_seal in Eo. by simplify_eq.
Qed.

Lemma handshake_keys i1 i2 i3 protocol phrase sid a b j kh f2 j' kj :
  NewJoiner i1 protocol phrase = Ok j →
  HostExchange i2 protocol phrase (j_Flight1 j) sid a b = Ok (kh, f2) →
  Finish i3 j f2 sid a b = (j', Ok kj) → kj = kh ∧ key_wf kh.
Proof.
  unfold NewJoiner, HostExchange, Finish.
  destruct (pake_init i1 phrase 0) as [pj|] eqn:Ej; [|done]. intros [= <-]. simpl.
  destruct (pake_init i2 phrase 1) as [ph|] eqn:Eh; [|done].
  destruct (pake_update i2 ph (pake_bytes pj)) as [ph' []] eqn:Eu; simpl; [|done].
  destruct (pake_key ph') as [raw|] eqn:Ek; [|done]. intros [= <- <-].
  destruct (pake_update i3 pj (pake_bytes ph')) as [pj' []] eqn:Eu'; simpl; [|done].
  rewrite (pake_agree _ _ _ _ _ _ _ _ _ Ej Eh Eu Eu'), Ek. intros [= <- <-].
  split; [done|apply derivePairwise_wf].
Qed.

(** the key exchange delivers.  When both ends use the same phrase and
    protocol label, the joiner derives the pairwise key the host derived, and the
    group key and role the host wraps for it unwrap to exactly those. *)
Theorem handshake_delivers i1 i2 i3 i4 protocol phrase sid joinerID hostID j kh f2 j' kj gk role w :
  NewJoiner i1 protocol phrase = Ok j →
  HostExchange i2 protocol phrase (j_Flight1 j) sid joinerID hostID = Ok (kh, f2) →
  Finish i3 j f2 sid joinerID hostID = (j', Ok kj) →
  key_wf gk → WrapGroupKey i4 kh gk role sid joinerID = Ok w →
  kj = kh ∧ UnwrapGroupKey kj w sid joinerID = Ok (gk, role).
Proof.
  intros Hj Hh Hf Hgk Hw. destruct (handshake_keys _ _ _ _ _ _ _ _ _ _ _ _ _ Hj Hh Hf) as [-> _].
  split; [done|]. by eapply Unwrap_Wrap.
Qed.

(** a wrapped key is bound to its recipient.  Unwrapping succeeds only under
    the pairwise key, the session and the participant identifier it was wrapped
    for, and then yields the key and role that were wrapped. *)
Theorem wrapped_key_bound i k gk role sid id w k' sid' id' gk' role' :
  sid_wf sid → sid_wf sid' → pid_wf id → pid_wf id' → key_wf gk →
  WrapGroupKey i k gk role sid id = Ok w → UnwrapGroupKey k' w sid' id' = Ok (gk', role') →
  k' = k ∧ sid' = sid ∧ id' = id ∧ gk' = gk ∧ role' = role.
Proof.
  intros Hs Hs' Hp Hp' Hgk Hw Hu. pose proof (Wrap_Ok _ _ _ _ _ _ _ Hw) as (_ & Ew).
  assert (k' = k ∧ sid' = sid ∧ id' = id) as (-> & -> & ->).
  { unfold UnwrapGroupKey in Hu. destruct (NewX k') as [k1|] eqn:E; [|done].
    apply NewX_Ok in E as [-> _]. rewrite Ew in Hu. simpl in Hu.
    destruct (aead_open _ _ _ _) as [p1|] eqn:Eo; [|done].
    pose proof (open_authentic _ _ _ _ _ _ _ _ Eo) as (-> & _ & Ead).
    by apply ad_inj in Ead as [-> ->]. }
  rewrite (Unwrap_Wrap i k gk role sid id w) in Hu by done. by simplify_eq.
Qed.

(** frames cannot be replayed across sessions or reflected as another
    participant.  A sealed frame opens for the session and sender it was sealed
    with, to the plaintext sealed, and under no other key, session or sender. *)
Theorem sealed_frame_bound i k p sid s f :
  sid_wf sid → pid_wf s → Seal i k p sid s = Ok f →
  Open k f sid s = Ok p ∧
  ∀ k' sid' s' p', sid_wf sid' → pid_wf s' → Open k' f sid' s' = Ok p' →
    k' = k ∧ sid' = sid ∧ s' = s ∧ p' = p.
Proof.
  intros Hs Hp Hf. split; [by eapply Open_Seal|].
  intros k' sid' s' p' Hs' Hp' Ho. by eapply Open_only.
Qed.

(** pairwise keys are derived per pair and per application.  Both ends of a
    pair derive with the same HKDF info, whichever order they name the two
    identifiers in, and different pairs or different protocol labels never share
    an info string. *)
Theorem derivePairwise_separates protocol raw sid a b :
  derivePairwise protocol raw sid a b = derivePairwise protocol raw sid b a ∧
  ∀ protocol' a' b', pairwise_info protocol a b = pairwise_info protocol' a' b' →
    protocol = protocol' ∧ ((a = a' ∧ b = b') ∨ (a = b' ∧ b = a')).
Proof.
  split; [unfold derivePairwise; by rewrite pairwise_info_sym|]. intros. by apply pairwise_info_inj.
Qed.
End Properties.

(** ** Concrete primitives

    An ideal cipher (the ciphertext is the encoding of what was sealed), a key
    derivation that pads its input, and an exchange of nonces. *)

Abbreviation sealed_tuple := (bytes * bytes * bytes * bytes)%type.

Definition ideal_seal (k n p ad : bytes) : bytes := bits_of_positive (encode (k, n, p, ad)).

Definition ideal_open (k n c ad : bytes) : option bytes :=
  t ← positive_of_bits c ≫= decode (A := sealed_tuple);
  let '(k', n', p', ad') := t in
  if bool_decide (k' = k ∧ n' = n ∧ ad' = ad) then Some p' else None.

Definition ideal_aead : Aead := {| aead_seal := ideal_seal; aead_open := ideal_open |}.

Lemma ideal_open_seal k n p ad k' n' ad' :
  ideal_open k' n' (ideal_seal k n p ad) ad' =
  if bool_decide (k = k' ∧ n = n' ∧ ad = ad') then Some p else None.
Proof.
  unfold ideal_open, ideal_seal. rewrite positive_of_bits_of. cbn [mbind option_bind].
  by rewrite decode_encode.
Qed.

Lemma ideal_aead_spec : @AeadSpec ideal_aead.
Proof.
  constructor; intros; simpl in *; rewrite ideal_open_seal in *.
  - by rewrite bool_decide_eq_true_2.
  - case_bool_decide; naive_solver.
Qed.

Definition pad_hkdf : Hkdf.
Proof.
  refine {| hkdf_read raw salt info := resize 32 x00 (raw ++ salt) |}.
  intros. apply length_resize.
Defined.

(** Secret, role, own nonce and the peer's. *)
Record nonce_pake := mkNoncePake {
  np_secret : string; np_role : N; np_own : bytes; np_peer : option bytes }.

Definition nonce_pake_lib : Pake_lib := {|
  pake := nonce_pake;
  pake_init i secret role := Some (mkNoncePake secret role (be32 i) None);
  pake_bytes := np_own;
  pake_update _ p bs := (mkNoncePake (np_secret p) (np_role p) (np_own p) (Some bs), true);
  pake_key p :=
    peer ← np_peer p;
    let s := bits_of_positive (encode (np_secret p)) in
    Some (if (np_role p =? 0) then np_own p ++ peer ++ s else peer ++ np_own p ++ s)
|}.

Lemma nonce_pake_spec : @PakeSpec nonce_pake_lib.
Proof. constructor. simpl. intros. simplify_eq. done. Qed.

(** ** The exchange on concrete inputs *)

Definition ex_crypto_rand : Entropy.
Proof.
  refine {| rand_read i n := Some (replicate n (byte_of_N i)) |}.
  intros i n bs [= <-]. apply length_replicate.
Defined.

#[local] Existing Instance ideal_aead.
#[local] Existing Instance ideal_aead_spec.
#[local] Existing Instance pad_hkdf.
#[local] Existing Instance nonce_pake_lib.
#[local] Existing Instance nonce_pake_spec.
#[local] Existing Instance ex_crypto_rand.

Definition ok_or {E A} (d : A) (r : result E A) : A := match r with Ok a => a | Err _ => d end.

Definition ex_sid0 : SessionID := replicate 16 x0a.
Definition ex_joiner : Joiner := ok_or (mkJoiner (mkNoncePake "" 0 [] None) "" [])
  (NewJoiner 1 "parley/v1" "lion-42-maple").
Definition ex_exchange : Key * bytes := ok_or ([], [])
  (HostExchange 2 "parley/v1" "lion-42-maple" (j_Flight1 ex_joiner) ex_sid0 2 1).
Definition ex_group : Key := replicate 32 x11.
Definition ex_wrapped : GroupKey := ok_or (mkGroupKey [] [])
  (WrapGroupKey 4 ex_exchange.1 ex_group x02 ex_sid0 2).

Lemma handshake_delivers_witness :
  UnwrapGroupKey ex_exchange.1 ex_wrapped ex_sid0 2 = Ok (ex_group, x02).
Proof.
  destruct (Finish 3 ex_joiner ex_exchange.2 ex_sid0 2 1) as [j' r] eqn:E.
  assert (r = Ok ex_exchange.1) as ->.
  { replace r with (Finish 3 ex_joiner ex_exchange.2 ex_sid0 2 1).2 by (rewrite E; reflexivity).
    vm_compute. reflexivity. }
  refine (proj2 (handshake_delivers 1 2 3 4 "parley/v1" "lion-42-maple" ex_sid0 2 1 ex_joiner
    ex_exchange.1 ex_exchange.2 j' ex_exchange.1 ex_group x02 ex_wrapped _ _ _ _ _));
    [reflexivity|vm_compute; reflexivity|exact E|reflexivity|vm_compute; reflexivity].
Defined.

Lemma wrapped_key_bound_witness :
  ex_exchange.1 = ex_exchange.1 ∧ ex_sid0 = ex_sid0 ∧ 2 = 2 ∧ ex_group = ex_group ∧ x02 = x02.
Proof.
  apply (wrapped_key_bound 4 ex_exchange.1 ex_group x02 ex_sid0 2 ex_wrapped
    ex_exchange.1 ex_sid0 2 ex_group x02); try reflexivity; vm_compute; reflexivity.
Defined.

Definition ex_frame : SealedFrame := ok_or (mkSealedFrame [] [])
  (Seal 5 ex_group [x68; x69] ex_sid0 2).

Lemma sealed_frame_bound_witness :
  Open ex_group ex_frame ex_sid0 2 = Ok [x68; x69].
Proof.
  refine (proj1 (sealed_frame_bound 5 ex_group [x68; x69] ex_sid0 2 ex_frame _ _ _));
    [reflexivity|reflexivity|vm_compute; reflexivity].
Defined.

(** Another sender or another session does not open it. *)
Example ex_frame_reflected :
  Open ex_group ex_frame ex_sid0 3 = Err ErrOpen ∧
  Open ex_group ex_frame (replicate 16 x0b) 2 = Err ErrOpen.
Proof. split; vm_compute; reflexivity. Qed.

Lemma derivePairwise_separates_witness :
  derivePairwise "parley/v1" [x01] ex_sid0 2 1 = derivePairwise "parley/v1" [x01] ex_sid0 1 2 ∧
  ("parley/v1" = "parley/v1" ∧ ((2 = 1 ∧ 1 = 2) ∨ (2 = 2 ∧ 1 = 1)))%string.
Proof.
  destruct (derivePairwise_separates "parley/v1" [x01] ex_sid0 2 1) as [H1 H2].
  split; [exact H1|]. exact (H2 "parley/v1"%string 1 2 eq_refl).
Defined.
