(* ===== verification/Phrase.v ===== *)
(** * Code phrases (phrase/phrase.go)

    Canonical form, session identifiers and fresh phrases.  SHA-256 is a
    parameter; the embedded word list is an argument of the functions that read
    it. *)
From S2P Require Import Prelude Wire Words.

#[local] Open Scope N_scope.

(** ** Canonical form *)

(** [unicode.IsSpace], by the bytes of the rune's encoding: one byte (tab, newline,
    vertical tab, form feed, carriage return, space), two (U+0085, U+00A0) or three
    (U+1680, U+2000 to U+200A, U+2028, U+2029, U+202F, U+205F, U+3000). *)
Definition within (lo hi : N) (c : ascii) : bool := (lo <=? N_of_ascii c) && (N_of_ascii c <=? hi).

Definition is_space (a : ascii) : bool := within 0x20 0x20 a || within 0x09 0x0D a.
Definition is_space2 (a b : ascii) : bool :=
  within 0xC2 0xC2 a && (within 0x85 0x85 b || within 0xA0 0xA0 b).
Definition is_space3 (a b c : ascii) : bool :=
  within 0xE1 0xE1 a && within 0x9A 0x9A b && within 0x80 0x80 c
  || within 0xE2 0xE2 a && within 0x80 0x80 b
     && (within 0x80 0x8A c || within 0xA8 0xA9 c || within 0xAF 0xAF c)
  || within 0xE2 0xE2 a && within 0x81 0x81 b && within 0x9F 0x9F c
  || within 0xE3 0xE3 a && within 0x80 0x80 b && within 0x80 0x80 c.

Fixpoint trim_left (s : string) : string :=
  match s with
  | EmptyString => EmptyString
  | String a s1 =>
      if is_space a then trim_left s1
      else
        match s1 with
        | EmptyString => s
        | String b s2 =>
            if is_space2 a b then trim_left s2
            else
              match s2 with
              | EmptyString => s
              | String c s3 => if is_space3 a b c then trim_left s3 else s
              end
        end
  end.

(** The first suffix that is all white space goes: no byte that begins the encoding
    of a white-space rune is inside another rune's. *)
Fixpoint trim_right (s : string) : string :=
  match s with
  | EmptyString => EmptyString
  | String a s1 =>
      match trim_left s with
      | EmptyString => EmptyString
      | _ => String a (trim_right s1)
      end
  end.

(** [strings.TrimSpace]. *)
Definition TrimSpace (s : string) : string := trim_right (trim_left s).

(** [strings.ToLower], of the ASCII letters; other runes are taken to have no lower
    case of their own. *)
Definition Canonical (phrase : string) : string := string_lower (TrimSpace phrase).

(** ** Session identifiers *)

Class Sha256 := {
  sha256 : list ascii → bytes;
  sha256_length s : length (sha256 s) = 32%nat
}.

Definition nul : string := String "000"%char EmptyString.

Definition session_preimage (protocol phrase : string) : string :=
  (protocol +:+ "/session-id" +:+ nul +:+ Canonical phrase)%string.

Definition SessionIDOf `{Sha256} (protocol phrase : string) : SessionID :=
  take 16 (sha256 (String.list_ascii_of_string (session_preimage protocol phrase))).

(** ** Fresh phrases *)

Definition is_alpha (c : ascii) : bool :=
  let n := N_of_ascii c in (97 <=? n) && (n <=? 122).

Fixpoint string_forallb (f : ascii → bool) (s : string) : bool :=
  match s with
  | EmptyString => true
  | String c s => f c && string_forallb f s
  end.

(** [words]: of the fields of the embedded file, those all in [a-z]. *)
Definition words (fields : list string) : list string :=
  filter (λ w, w ≠ EmptyString ∧ string_forallb is_alpha w = true) fields.

(** [%02d] *)
Definition two_digits (n : N) : string :=
  if n <? 10 then ("0" +:+ decimal n)%string else decimal n.

(** The phrase three draws select. *)
Definition phrase_of (ws : list string) (i n j : N) : option string :=
  a ← ws !! N.to_nat i;
  b ← ws !! N.to_nat j;
  Some (a +:+ "-" +:+ two_digits n +:+ "-" +:+ b)%string.

(** [New]: three draws of [randInt] (the first argument numbers the draw, the
    second bounds it); a failing source panics. *)
Definition New (ws : list string) (randInt : N → N → option N) : option string :=
  i ← randInt 0 (N.of_nat (length ws));
  n ← randInt 1 100;
  j ← randInt 2 (N.of_nat (length ws));
  phrase_of ws i n j.

(** [strings.FieldsSeq] on ASCII: the maximal runs without white space. *)
Fixpoint fields_from (cur : string) (s : string) : list string :=
  match s with
  | EmptyString => match cur with EmptyString => [] | _ => [cur] end
  | String c s =>
      if is_space c then match cur with
                         | EmptyString => fields_from EmptyString s
                         | _ => cur :: fields_from EmptyString s
                         end
      else fields_from (cur +:+ String c EmptyString)%string s
  end.

Definition FieldsSeq (s : string) : list string := fields_from EmptyString s.

(** ** Canonical form is canonical *)

Lemma within_spec lo hi c : within lo hi c = true ↔ lo ≤ N_of_ascii c ∧ N_of_ascii c ≤ hi.
Proof. unfold within. by rewrite andb_true_iff, !N.leb_le. Qed.

Lemma within_false lo hi c : within lo hi c = false ↔ N_of_ascii c < lo ∨ hi < N_of_ascii c.
Proof. rewrite <- not_true_iff_false, within_spec. lia. Qed.

(** What is left behind a rune of white space at the head. *)
Definition space_head (s : string) : option string :=
  match s with
  | EmptyString => None
  | String a s1 =>
      if is_space a then Some s1
      else
        match s1 with
        | EmptyString => None
        | String b s2 =>
            if is_space2 a b then Some s2
            else
              match s2 with
              | EmptyString => None
              | String c s3 => if is_space3 a b c then Some s3 else None
              end
        end
  end.

Definition all_space (s : string) : Prop := trim_left s = EmptyString.
Definition is_ascii (s : string) : Prop := string_forallb (λ c, N_of_ascii c <? 128) s = true.

Lemma trim_left_head s :
  trim_left s = match space_head s with Some r => trim_left r | None => s end.
Proof.
  destruct s as [|a [|b [|c s]]]; [done|..]; cbn [trim_left space_head]; destruct (is_space a);
    try done; destruct (is_space2 a b); try done; by destruct (is_space3 a b c).
Qed.

Lemma space_head_length s r : space_head s = Some r → (String.length r < String.length s)%nat.
Proof.
  unfold space_head. destruct s as [|a [|b [|c s]]]; [done|..]; simpl;
    repeat (case_match; try done); intros; simplify_eq; simpl; lia.
Qed.

(** From the left, rune of white space by rune. *)
Lemma spaces_ind (P : string → Prop) :
  (∀ s, space_head s = None → P s) → (∀ s r, space_head s = Some r → P r → P s) → ∀ s, P s.
Proof.
  intros H0 H1 s. remember (String.length s) as n eqn:Hn. revert s Hn.
  induction (lt_wf n) as [n _ IH]. intros s ->. destruct (space_head s) as [r|] eqn:E; [|auto].
  eapply H1; [done|]. eapply IH; [|done]. by apply space_head_length.
Qed.

Lemma trim_left_fix s : space_head (trim_left s) = None.
Proof.
  induction s as [s E|s r E IH] using spaces_ind; rewrite trim_left_head, E; [by rewrite E|done].
Qed.

(** *** Letter case *)

Lemma lower_within lo hi c : 128 ≤ lo → within lo hi (ascii_lower c) = within lo hi c.
Proof.
  intros Hlo. assert (ascii_lower c = c ∨ N_of_ascii c < 128 ∧ N_of_ascii (ascii_lower c) < 128)
    as [->|[H1 H2]]; [|done|].
  { destruct c as [[] [] [] [] [] [] [] []]; vm_compute; auto. }
  unfold within. do 2 rewrite (proj2 (N.leb_gt lo _)) by lia. done.
Qed.

Lemma lower_space c : is_space (ascii_lower c) = is_space c.
Proof. destruct c as [[] [] [] [] [] [] [] []]; reflexivity. Qed.

Lemma lower_idem c : ascii_lower (ascii_lower c) = ascii_lower c.
Proof. destruct c as [[] [] [] [] [] [] [] []]; reflexivity. Qed.

Lemma string_lower_idem s : string_lower (string_lower s) = string_lower s.
Proof. induction s as [|c s IH]; simpl; [done|]. by rewrite lower_idem, IH. Qed.

Lemma lower_space_head s : space_head (string_lower s) = string_lower <$> space_head s.
Proof.
  unfold space_head, is_space2, is_space3.
  destruct s as [|a [|b [|c s]]]; [done|..]; cbn [string_lower]; rewrite lower_space;
    rewrite ?lower_within by done; repeat case_match; done.
Qed.

Lemma lower_trim_left s : string_lower (trim_left s) = trim_left (string_lower s).
Proof.
  induction s as [s E|s r E IH] using spaces_ind;
    rewrite (trim_left_head s), (trim_left_head (string_lower s)), lower_space_head, E; done.
Qed.

Lemma lower_trim_right s : string_lower (trim_right s) = trim_right (string_lower s).
Proof.
  induction s as [|a s IH]; [done|]. cbn [string_lower trim_right].
  change (String (ascii_lower a) (string_lower s)) with (string_lower (String a s)).
  rewrite <- lower_trim_left. destruct (trim_left (String a s)); simpl; [done|]. by rewrite IH.
Qed.

(** *** Padding *)

Lemma space_head_app s r w : space_head s = Some r → space_head (s +:+ w) = Some (r +:+ w).
Proof.
  unfold space_head. destruct s as [|a s]; [done|].
  change (String a s +:+ w) with (String a (s +:+ w)); cbv iota.
  destruct (is_space a); [by intros [= <-]|]. destruct s as [|b s]; [done|].
  change (String b s +:+ w) with (String b (s +:+ w)); cbv iota.
  destruct (is_space2 a b); [by intros [= <-]|]. destruct s as [|c s]; [done|].
  change (String c s +:+ w) with (String c (s +:+ w)); cbv iota.
  destruct (is_space3 a b c); [by intros [= <-]|done].
Qed.

Lemma trim_left_spaces w s : all_space w → trim_left (w +:+ s) = trim_left s.
Proof.
  unfold all_space. induction w as [w E|w r E IH] using spaces_ind; rewrite (trim_left_head w), E.
  - by intros ->.
  - intros Hr. rewrite (trim_left_head (w +:+ s)), (space_head_app _ _ _ E). auto.
Qed.

(** The first byte of white space is none of the others. *)
Lemma space_head_lead b w : all_space (String b w) → within 0x80 0xC1 b = false.
Proof.
  unfold all_space. rewrite trim_left_head. destruct (space_head (String b w)) as [r|] eqn:E; [|done].
  intros _. apply within_false. revert E. unfold space_head, is_space, is_space2, is_space3.
  destruct w as [|c [|d w]]; repeat case_match; try done; intros _;
    rewrite ?orb_true_iff, ?andb_true_iff, ?within_spec in *; lia.
Qed.

Lemma not_inside lo hi c :
  within 0x80 0xC1 c = false → 0x80 ≤ lo → hi ≤ 0xC1 → within lo hi c = false.
Proof. rewrite !within_false. lia. Qed.

Lemma space_head_split a s w r :
  all_space w → space_head (String a s +:+ w) = Some r →
  ∃ r', space_head (String a s) = Some r' ∧ r = r' +:+ w.
Proof.
  intros Hw. change (String a s +:+ w) with (String a (s +:+ w)). unfold space_head.
  destruct (is_space a); [intros [= <-]; by eexists|].
  destruct s as [|b s].
  - change ("" +:+ w) with w; cbv iota. destruct w as [|b w]; [done|]. apply space_head_lead in Hw.
    assert (is_space2 a b = false) as ->
      by (unfold is_space2; by rewrite !(not_inside _ _ b), ?andb_false_r).
    destruct w as [|c w]; [done|]. assert (is_space3 a b c = false) as ->; [|done].
    unfold is_space3. by rewrite !(not_inside _ _ b), ?andb_false_r.
  - change (String b s +:+ w) with (String b (s +:+ w)); cbv iota.
    destruct (is_space2 a b); [intros [= <-]; by eexists|]. destruct s as [|c s].
    + change ("" +:+ w) with w; cbv iota. destruct w as [|c w]; [done|]. apply space_head_lead in Hw.
      assert (is_space3 a b c = false) as ->; [|done].
      unfold is_space3. by rewrite !(not_inside _ _ c), ?andb_false_r.
    + change (String c s +:+ w) with (String c (s +:+ w)); cbv iota.
      destruct (is_space3 a b c); [intros [= <-]; by eexists|done].
Qed.

Lemma all_space_app s w : all_space w → all_space (s +:+ w) ↔ all_space s.
Proof.
  intros Hw. induction s as [s E|s r E IH] using spaces_ind; unfold all_space in *.
  - rewrite (trim_left_head s), E. destruct s as [|a s]; [done|].
    rewrite trim_left_head. destruct (space_head (String a s +:+ w)) as [r|] eqn:E'; [|done].
    apply space_head_split in E' as (r' & ? & _); [congruence|done].
  - by rewrite (trim_left_head s), (trim_left_head (s +:+ w)), E, (space_head_app _ _ _ E).
Qed.

Lemma trim_right_cases a s :
  (all_space (String a s) ∧ trim_right (String a s) = EmptyString) ∨
  (¬ all_space (String a s) ∧ trim_right (String a s) = String a (trim_right s)).
Proof.
  cbn [trim_right]. unfold all_space.
  destruct (trim_left (String a s)) as [|c t] eqn:E; [by left|by right].
Qed.

Lemma trim_right_spaces w : all_space w → trim_right w = EmptyString.
Proof. destruct w as [|a w]; [done|]. destruct (trim_right_cases a w) as [[_ ?]|[? _]]; done. Qed.

Lemma trim_right_app s w : all_space w → trim_right (s +:+ w) = trim_right s.
Proof.
  intros Hw. induction s as [|a s IH]; [by apply trim_right_spaces|].
  change (String a s +:+ w) with (String a (s +:+ w)).
  pose proof (all_space_app (String a s) w Hw) as H.
  change (String a s +:+ w) with (String a (s +:+ w)) in H.
  destruct (trim_right_cases a s) as [[? ->]|[? ->]],
    (trim_right_cases a (s +:+ w)) as [[? ->]|[? ->]]; try tauto. by rewrite IH.
Qed.

Lemma trim_left_app s w :
  all_space w → trim_right (trim_left (s +:+ w)) = trim_right (trim_left s).
Proof.
  intros Hw. induction s as [s E|s r E IH] using spaces_ind.
  - rewrite (trim_left_head s), E. destruct s as [|a s].
    { change ("" +:+ w) with w. by rewrite Hw. }
    rewrite trim_left_head. destruct (space_head (String a s +:+ w)) as [r|] eqn:E'.
    + apply space_head_split in E' as (r' & ? & _); [congruence|done].
    + by apply trim_right_app.
  - by rewrite (trim_left_head s), (trim_left_head (s +:+ w)), E, (space_head_app _ _ _ E).
Qed.

Lemma trim_right_split s : ∃ w, s = trim_right s +:+ w ∧ all_space w.
Proof.
  induction s as [|a s (w & E & Hw)]; [by exists EmptyString|].
  destruct (trim_right_cases a s) as [[? ->]|[_ ->]]; [by eexists|].
  exists w. split; [|done]. change (String a s = String a (trim_right s +:+ w)). by rewrite <- E.
Qed.

Lemma TrimSpace_idem s : TrimSpace (TrimSpace s) = TrimSpace s.
Proof.
  unfold TrimSpace. set (t := trim_left s). destruct (trim_right_split t) as (w & E & Hw).
  assert (space_head (trim_right t) = None) as Hn.
  { destruct (space_head (trim_right t)) as [r|] eqn:Er; [|done].
    apply (space_head_app _ _ w) in Er. rewrite <- E in Er. unfold t in Er.
    by rewrite trim_left_fix in Er. }
  rewrite trim_left_head, Hn. rewrite <- (trim_right_app (trim_right t) w) by done. by rewrite <- E.
Qed.

Lemma lower_TrimSpace s : string_lower (TrimSpace s) = TrimSpace (string_lower s).
Proof. unfold TrimSpace. by rewrite lower_trim_right, lower_trim_left. Qed.

Lemma Canonical_idem s : Canonical (Canonical s) = Canonical s.
Proof. unfold Canonical. by rewrite <- lower_TrimSpace, string_lower_idem, TrimSpace_idem. Qed.

(** what a user types does not depend on case or surrounding white space.
    For ASCII phrases, padding with white space and changing letter case leave
    the canonical phrase and the session identifier as they are, and
    canonicalising twice (as [dial] does through [SessionID]) is canonicalising
    once. *)
Theorem Canonical_typed `{Sha256} protocol s s' w w' :
  is_ascii s → is_ascii s' → all_space w → all_space w' → string_lower s = string_lower s' →
  Canonical (w +:+ s' +:+ w') = Canonical s ∧
  SessionIDOf protocol (w +:+ s' +:+ w') = SessionIDOf protocol s ∧
  SessionIDOf protocol (Canonical s) = SessionIDOf protocol s ∧
  sid_wf (SessionIDOf protocol s).
Proof.
  intros _ _ Hw Hw' Hl.
  assert (Canonical (w +:+ s' +:+ w') = Canonical s) as E.
  { unfold Canonical. assert (TrimSpace (w +:+ s' +:+ w') = TrimSpace s') as ->.
    { unfold TrimSpace. rewrite trim_left_spaces by done. by apply trim_left_app. }
    by rewrite !lower_TrimSpace, Hl. }
  unfold SessionIDOf, session_preimage. rewrite E, Canonical_idem. split_and!; try done.
  unfold sid_wf. rewrite length_take, sha256_length. done.
Qed.

(** ** Domain separation *)

Definition chars := String.list_ascii_of_string.
Definition no_nul (s : string) : Prop := "000"%char ∉ chars s.

#[global] Instance no_nul_dec s : Decision (no_nul s).
Proof. unfold no_nul. apply _. Defined.

(** applications and phrases do not mix.  For protocol labels without a NUL
    byte, the text hashed into the session identifier determines both the label
    and the canonical phrase: two different pairs are never hashed as one. *)
Theorem session_preimage_inj protocol phrase protocol' phrase' :
  no_nul protocol → no_nul protocol' →
  session_preimage protocol phrase = session_preimage protocol' phrase' →
  protocol = protocol' ∧ Canonical phrase = Canonical phrase'.
Proof.
  unfold no_nul, chars, session_preimage. intros Hp Hp' E%(f_equal String.list_ascii_of_string).
  rewrite !chars_app in E. set (L := String.list_ascii_of_string "/session-id") in *.
  assert ("000"%char ∉ L) as HL by (apply (bool_decide_unpack _); vm_compute; exact I).
  rewrite !(assoc_L (++)), <- !(assoc_L (++) _ (String.list_ascii_of_string nul)) in E.
  apply app_sep_inj_l in E as [E1 E2];
    [|rewrite elem_of_app; tauto..].
  apply app_inv_tail in E1. split; by apply list_ascii_inj.
Qed.

(** ** Fresh phrases *)

Definition word_ok (w : string) : Prop := w ≠ EmptyString ∧ string_forallb is_alpha w = true.

Lemma words_ok fields : Forall word_ok (words fields).
Proof. apply Forall_forall. intros w Hw. by apply list_elem_of_filter in Hw as [? _]. Qed.

(** Characters that canonicalisation leaves alone. *)
Definition settled (c : ascii) : bool :=
  (N_of_ascii c <? 128) && negb (is_space c) && bool_decide (ascii_lower c = c).

Lemma forallb_app f s t :
  string_forallb f (s +:+ t) = string_forallb f s && string_forallb f t.
Proof.
  induction s as [|c s IH]; [done|]. change (String c s +:+ t) with (String c (s +:+ t)).
  simpl. by rewrite IH, andb_assoc.
Qed.

Lemma forallb_mono (f g : ascii → bool) s :
  (∀ c, f c = true → g c = true) → string_forallb f s = true → string_forallb g s = true.
Proof.
  intros Hfg. induction s as [|c s IH]; simpl; [done|].
  intros [Hc Hs]%andb_true_iff. by rewrite Hfg, IH.
Qed.

Lemma settled_head c s : settled c = true → space_head (String c s) = None.
Proof.
  unfold settled, space_head, is_space2, is_space3. intros [[Hc Hs%negb_true_iff]%andb_true_iff _]%andb_true_iff.
  rewrite Hs. assert (∀ lo hi, 128 ≤ lo → within lo hi c = false) as Hw.
  { intros lo hi Hlo. apply within_false. apply N.ltb_lt in Hc. lia. }
  destruct s as [|b [|d s]]; [done|..]; by rewrite ?Hw.
Qed.

Lemma settled_canonical s : string_forallb settled s = true → Canonical s = s.
Proof.
  intros Hs. unfold Canonical, TrimSpace.
  assert (string_lower s = s ∧ trim_right s = s ∧ trim_left s = s) as (El & Er & Et).
  { induction s as [|c s IH]; [done|]. cbn [string_forallb] in Hs.
    apply andb_true_iff in Hs as [Hc Hs]. destruct (IH Hs) as (E1 & E2 & _).
    pose proof (settled_head c s Hc) as Hh. unfold settled in Hc.
    apply andb_true_iff in Hc as [_ Hl%bool_decide_eq_true].
    assert (trim_left (String c s) = String c s) as Et by (by rewrite trim_left_head, Hh).
    split; [cbn [string_lower]; by rewrite Hl, E1|]. split; [|done].
    cbn [trim_right]. by rewrite Et, E2. }
  by rewrite Et, Er, El.
Qed.

Lemma alpha_settled c : is_alpha c = true → settled c = true.
Proof. destruct c as [[] [] [] [] [] [] [] []]; vm_compute; done. Qed.

Lemma alpha_no_dash w : string_forallb is_alpha w = true → "-"%char ∉ chars w.
Proof.
  induction w as [|c w IH]; simpl; [by intros _ ?%elem_of_nil|].
  intros [Hc Hw]%andb_true_iff. intros [<-|Hin]%elem_of_cons; [done|]. by apply IH.
Qed.

(** The hundred two-digit numbers, checked by computation. *)
Definition hundred : list N := N.of_nat <$> seq 0 100.

Lemma elem_of_hundred n : n < 100 → n ∈ hundred.
Proof.
  intros Hn. apply list_elem_of_fmap. exists (N.to_nat n). rewrite elem_of_seq. lia.
Qed.

Lemma two_digits_ok n : n < 100 →
  string_forallb settled (two_digits n) = true ∧ "-"%char ∉ chars (two_digits n).
Proof.
  intros Hn%elem_of_hundred. revert n Hn. apply Forall_forall.
  apply (bool_decide_unpack _). vm_compute. exact I.
Qed.

Lemma two_digits_inj n m : n < 100 → m < 100 → two_digits n = two_digits m → n = m.
Proof.
  intros Hn%elem_of_hundred Hm%elem_of_hundred E.
  assert (NoDup (two_digits <$> hundred)) as Hnd
    by (apply (bool_decide_unpack _); vm_compute; exact I).
  apply list_elem_of_lookup in Hn as [i Hi], Hm as [j Hj].
  assert (i = j) as <-.
  { apply (NoDup_lookup _ i j (two_digits n) Hnd); rewrite list_lookup_fmap;
      [by rewrite Hi|rewrite Hj; simpl; by rewrite E]. }
  congruence.
Qed.

(** every draw gives its own phrase, in canonical form.  With distinct words
    in [a-z], two draws (word, two-digit number, word) that give the same phrase
    are the same draw, so there are exactly as many phrases as draws; and the
    phrase shown is already canonical. *)
Theorem phrases_distinct ws i n j i' n' j' p :
  NoDup ws → Forall word_ok ws → n < 100 → n' < 100 →
  phrase_of ws i n j = Some p → phrase_of ws i' n' j' = Some p →
  (i = i' ∧ n = n' ∧ j = j') ∧ Canonical p = p.
Proof.
  intros Hnd Hok Hn Hn'. unfold phrase_of. rewrite Forall_forall in Hok.
  intros (a & Ha & (b & Hb & [= <-])%bind_Some)%bind_Some.
  intros (a' & Ha' & (b' & Hb' & [= E])%bind_Some)%bind_Some.
  assert (∀ k w, ws !! k = Some w → word_ok w) as Hw
    by (intros k w Hk; apply Hok; by eapply list_elem_of_lookup_2).
  destruct (two_digits_ok n Hn) as [Sn Dn], (two_digits_ok n' Hn') as [_ Dn'].
  split.
  - apply (f_equal chars) in E. unfold chars in E. rewrite !chars_app in E.
    apply app_sep_inj_l in E as [Ea E]; [|by eapply alpha_no_dash, Hw..].
    apply app_sep_inj_l in E as [En Eb]; [|done..].
    apply list_ascii_inj in Ea, Eb, En. subst a' b'.
    apply two_digits_inj in En; [|done..].
    pose proof (NoDup_lookup _ _ _ _ Hnd Ha Ha'). pose proof (NoDup_lookup _ _ _ _ Hnd Hb Hb').
    split_and!; [lia|done|lia].
  - apply settled_canonical. rewrite !forallb_app, Sn.
    rewrite (forallb_mono is_alpha settled a), (forallb_mono is_alpha settled b);
      try apply alpha_settled; [done|by eapply Hw..].
Qed.

(** the list used has 1295 distinct words of letters only (the file's 1296
    less the hyphenated one), so [New] chooses among 1295 * 100 * 1295 phrases. *)
Theorem words_1295 :
  let ws := words (FieldsSeq wordsFile) in
  length (FieldsSeq wordsFile) = 1296%nat ∧ length ws = 1295%nat ∧ NoDup ws ∧
  Forall word_ok ws ∧ "yo-yo"%string ∈ FieldsSeq wordsFile ∧ "yo-yo"%string ∉ ws.
Proof.
  intros ws. split; [vm_compute; reflexivity|]. split; [vm_compute; reflexivity|].
  split; [|split; [apply words_ok|split]].
  - apply (bool_decide_unpack _). vm_compute. exact I.
  - apply (bool_decide_unpack _). vm_compute. exact I.
  - unfold ws, words. rewrite list_elem_of_filter. by intros [[_ ?] _].
Qed.

(** ** On concrete phrases *)

Definition ex_sha : Sha256.
Proof.
  refine {| sha256 s := resize 32 x00 ((λ c, byte_of_N (N_of_ascii c)) <$> s) |}.
  intros. apply length_resize.
Defined.
#[local] Existing Instance ex_sha.

Lemma Canonical_typed_witness :
  Canonical " Lion-42-Maple  " = "lion-42-maple"%string ∧
  SessionIDOf "parley/v1" " Lion-42-Maple  " = SessionIDOf "parley/v1" "lion-42-maple".
Proof.
  destruct (Canonical_typed "parley/v1" "lion-42-maple" "Lion-42-Maple" " " "  ")
    as (H1 & H2 & _); [reflexivity..|]. split; [exact H1|exact H2].
Defined.

Lemma session_preimage_inj_witness :
  ("parley/v1" = "parley/v1" ∧ Canonical "A " = Canonical "a")%string.
Proof.
  apply (session_preimage_inj "parley/v1" "A " "parley/v1" "a");
    [apply (bool_decide_unpack _); vm_compute; exact I..|]. vm_compute. reflexivity.
Defined.

Lemma phrases_distinct_witness :
  ((0 = 0 ∧ 7 = 7 ∧ 1 = 1) ∧ Canonical "lion-07-maple" = "lion-07-maple"%string).
Proof.
  apply (phrases_distinct ["lion"%string; "maple"%string] 0 7 1 0 7 1);
    [|repeat (apply Forall_cons; split; [split; [discriminate|reflexivity]|]); apply Forall_nil; exact I
     |reflexivity..].
  apply (bool_decide_unpack _). vm_compute. exact I.
Defined.

(** White space of one, two and three bytes goes; a byte that is no encoding stays. *)
Example ex_trim :
  let nbsp := String "194"%char (String "160"%char EmptyString) in
  let wide := String "227"%char (String "128"%char (String "128"%char EmptyString)) in
  TrimSpace (nbsp +:+ " a b" +:+ wide +:+ nbsp) = "a b"%string ∧ TrimSpace (wide +:+ nbsp) = ""%string ∧
  TrimSpace ("a" +:+ String "160"%char EmptyString) = ("a" +:+ String "160"%char EmptyString)%string.
Proof. split_and!; reflexivity. Qed.
