(* ===== verification/Prog.v ===== *)
(** * Goroutines over shared state

    A goroutine as the sequence of its critical sections.  [Sec f k] is one
    section, run under the lock on the shared state, and what the goroutine does
    with its answer; nothing else runs meanwhile.  Between two sections any other
    goroutine may run its own.  [exec] runs a goroutine alone, [play] a pool of
    them under a schedule; [wp] is a rely-guarantee precondition and [play_wp] its
    soundness: what each goroutine guarantees the others may rely on, under every
    schedule. *)
From S2P Require Import Prelude.

Inductive prog (S A : Type) :=
| Ret (a : A)
| Sec {B : Type} (f : S → S * B) (k : B → prog S A).
Arguments Ret {S A} a.
Arguments Sec {S A B} f k.

Section Prog.
Context {S : Type}.

Fixpoint pbind {A B} (p : prog S A) (k : A → prog S B) : prog S B :=
  match p with
  | Ret a => k a
  | Sec f k' => Sec f (λ b, pbind (k' b) k)
  end.

Definition atomic {A} (f : S → S * A) : prog S A := Sec f Ret.

(** Alone, undisturbed. *)
Fixpoint exec {A} (p : prog S A) (s : S) : S * A :=
  match p with
  | Ret a => (s, a)
  | Sec f k => exec (k (f s).2) (f s).1
  end.

Lemma exec_pbind {A B} (p : prog S A) (k : A → prog S B) s :
  exec (pbind p k) s = exec (k (exec p s).2) (exec p s).1.
Proof. revert s. induction p as [a|C f k' IH]; intros s; simpl; [done|apply IH]. Qed.

(** ** A pool under a schedule *)

Context {A : Type}.

(** One turn of goroutine [i]; a turn of one that has ended does nothing. *)
Definition turn (i : nat) (c : S * list (prog S A)) : S * list (prog S A) :=
  match c.2 !! i with
  | Some (Sec f k) => ((f c.1).1, <[i := k (f c.1).2]> c.2)
  | _ => c
  end.

Lemma turn_Sec {B} i s ps (f : S → S * B) k :
  ps !! i = Some (Sec f k) → turn i (s, ps) = ((f s).1, <[i := k (f s).2]> ps).
Proof. intros E. unfold turn. simpl. by rewrite E. Qed.

Lemma turn_Ret i s ps a : ps !! i = Some (Ret a) → turn i (s, ps) = (s, ps).
Proof. intros E. unfold turn. simpl. by rewrite E. Qed.

Fixpoint play (sched : list nat) (c : S * list (prog S A)) : S * list (prog S A) :=
  match sched with
  | [] => c
  | i :: sched => play sched (turn i c)
  end.

Lemma play_app l1 l2 c : play (l1 ++ l2) c = play l2 (play l1 c).
Proof. revert c. induction l1; simpl; auto. Qed.

Lemma turn_length i c : length (turn i c).2 = length c.2.
Proof. unfold turn. destruct (c.2 !! i) as [[]|]; simpl; by rewrite ?length_insert. Qed.

Lemma play_length sched c : length (play sched c).2 = length c.2.
Proof. revert c. induction sched as [|i sched IH]; intros c; simpl; [done|]. by rewrite IH, turn_length. Qed.

Lemma turn_other i j c : i ≠ j → (turn i c).2 !! j = c.2 !! j.
Proof.
  intros Hij. unfold turn. destruct (c.2 !! i) as [[]|]; simpl; [done| |done].
  by rewrite list_lookup_insert_ne.
Qed.

(** Left alone for long enough, a goroutine ends as [exec] says. *)
Lemma play_alone i p s ps :
  ps !! i = Some p →
  ∃ n, play (replicate n i) (s, ps) = ((exec p s).1, <[i := Ret (exec p s).2]> ps).
Proof.
  revert s ps. induction p as [a|B f k IH]; intros s ps Hi.
  - exists 0. simpl. by rewrite list_insert_id.
  - destruct (IH (f s).2 (f s).1 (<[i := k (f s).2]> ps)) as [n Hn].
    { apply list_lookup_insert_eq. by eapply lookup_lt_Some. }
    exists (Datatypes.S n). simpl. unfold turn. simpl. rewrite Hi, Hn. simpl.
    by rewrite list_insert_insert_eq.
Qed.

(** ** Rely and guarantee *)

(** From [s], whatever steps in [R] the others take before each section, the
    section keeps the invariant and takes a step in [G], and at the end [Q]. *)
Fixpoint wp (I : S → Prop) (R G : S → S → Prop) {A} (p : prog S A) (Q : A → S → Prop) (s : S) :
    Prop :=
  match p with
  | Ret a => ∀ s', R s s' → I s' → Q a s'
  | Sec f k => ∀ s', R s s' → I s' →
      I (f s').1 ∧ G s' (f s').1 ∧ wp I R G (k (f s').2) Q (f s').1
  end.

End Prog.
Global Arguments wp {S} I R G {A} p Q s.

(** Every section of a goroutine takes a step in [P], whatever it finds. *)
Fixpoint all_sections {S} (P : S → S → Prop) {A} (p : prog S A) : Prop :=
  match p with
  | Ret _ => True
  | Sec f k => (∀ s, P s (f s).1) ∧ ∀ b, all_sections P (k b)
  end.

#[global] Instance prog_bind {S} : MBind (prog S) := λ A B k p, pbind p k.
#[global] Instance prog_ret {S} : MRet (prog S) := λ A a, Ret a.

Section Rules.
Context {S : Type}.
Variables (I : S → Prop) (R G : S → S → Prop).
Context {Rpre : PreOrder R}.

Lemma wp_stable {A} (p : prog S A) Q s s' : R s s' → wp I R G p Q s → wp I R G p Q s'.
Proof. intros Hs. destruct p; simpl; intros H s2 Hr Hi; (apply H; [by etrans|done]). Qed.

Lemma wp_mono {A} (p : prog S A) (Q Q' : A → S → Prop) s :
  (∀ a s, I s → Q a s → Q' a s) → wp I R G p Q s → wp I R G p Q' s.
Proof.
  intros HQ. revert s. induction p as [a|B f k IH]; simpl; intros s H s' Hr Hi; [auto|].
  destruct (H s' Hr Hi) as (? & ? & ?). auto.
Qed.

Lemma wp_guarantee (G' : S → S → Prop) {A} (p : prog S A) Q s :
  (∀ s s', G s s' → G' s s') → wp I R G p Q s → wp I R G' p Q s.
Proof.
  intros HG. revert s. induction p as [a|B f k IH]; simpl; intros s H; [done|].
  intros s' Hr Hi. destruct (H s' Hr Hi) as (? & ? & ?). auto.
Qed.

Lemma wp_bind {A B} (p : prog S A) (k : A → prog S B) Q s :
  I s → wp I R G p (λ a, wp I R G (k a) Q) s → wp I R G (pbind p k) Q s.
Proof.
  revert s. induction p as [a|C f k' IH]; simpl; intros s Hi H; [by apply H|].
  intros s' Hr Hi'. destruct (H s' Hr Hi') as (? & ? & ?). auto.
Qed.

Lemma wp_mbind {A B} (p : prog S A) (k : A → prog S B) Q s :
  I s → wp I R G p (λ a, wp I R G (k a) Q) s → wp I R G (p ≫= k) Q s.
Proof. apply wp_bind. Qed.

Lemma wp_ret {A} (a : A) Q s : (∀ s', R s s' → I s' → Q a s') → wp I R G (mret a) Q s.
Proof. done. Qed.

Lemma wp_forall {A X} (x0 : X) (p : prog S A) (Q : X → A → S → Prop) s :
  (∀ x, wp I R G p (Q x) s) → wp I R G p (λ a s, ∀ x, Q x a s) s.
Proof.
  revert s. induction p as [a|B f k IH]; simpl; intros s H s' Hr Hi; [by intros x; apply H|].
  destruct (H x0 s' Hr Hi) as (? & ? & _). split; [done|]. split; [done|]. apply IH.
  intros x. by apply (H x).
Qed.

(** What nobody destroys is still there at the end. *)
Lemma wp_frame {A} (p : prog S A) Q (P : S → Prop) s :
  (∀ s s', R s s' → P s → P s') → (∀ s s', G s s' → P s → P s') →
  P s → wp I R G p Q s → wp I R G p (λ a s, Q a s ∧ P s) s.
Proof.
  intros HR HG. revert s. induction p as [a|B f k IH]; simpl; intros s HP H s' Hr Hi; [eauto|].
  destruct (H s' Hr Hi) as (? & ? & ?). eauto 10.
Qed.

Lemma wp_atomic {A} (f : S → S * A) Q s :
  (∀ s', R s s' → I s' → I (f s').1 ∧ G s' (f s').1 ∧
     ∀ s2, R (f s').1 s2 → I s2 → Q (f s').2 s2) →
  wp I R G (atomic f) Q s.
Proof. intros H s' Hr Hi. simpl. by apply H. Qed.

(** What a goroutine achieves, if nobody interferes. *)
Lemma wp_exec {A} (p : prog S A) Q s :
  I s → wp I R G p Q s → I (exec p s).1 ∧ Q (exec p s).2 (exec p s).1.
Proof.
  revert s. induction p as [a|B f k IH]; simpl; intros s Hi H; [by split; [|apply H]|].
  destruct (H s (reflexivity s) Hi) as (? & _ & ?). auto.
Qed.
End Rules.

Lemma all_sections_bind {S A B} (P : S → S → Prop) (p : prog S A) (k : A → prog S B) :
  all_sections P p → (∀ a, all_sections P (k a)) → all_sections P (p ≫= k).
Proof.
  intros H Hk. induction p as [a|C f k' IH]; [apply Hk|]. destruct H as [Hf H].
  split; [exact Hf|]. intros b. by apply IH.
Qed.

Lemma all_sections_mono {S A} (P P' : S → S → Prop) (p : prog S A) :
  (∀ s s', P s s' → P' s s') → all_sections P p → all_sections P' p.
Proof. intros HP. induction p as [a|B f k IH]; simpl; [done|]. intros [Hf Hk]. auto. Qed.

(** A pool whose goroutines each keep to their kind of step. *)
Definition pool_sections {S A} (P : nat → S → S → Prop) (ps : list (prog S A)) : Prop :=
  ∀ i p, ps !! i = Some p → all_sections (P i) p.

Lemma turn_sections {S A} (P : nat → S → S → Prop) i (c : S * list (prog S A)) :
  (∀ s, P i s s) → pool_sections P c.2 → P i c.1 (turn i c).1 ∧ pool_sections P (turn i c).2.
Proof.
  intros Hr H. unfold turn. destruct (c.2 !! i) as [[a|B f k]|] eqn:Ei; [by split| |by split].
  destruct (H i _ Ei) as [Hf Hk]. split; [apply Hf|]. intros j p Hj.
  apply list_lookup_insert_Some in Hj as [(<- & <- & _)|[_ Hj]]; [apply Hk|by apply H].
Qed.

Lemma wp_sections {S A} (I : S → Prop) (R G P : S → S → Prop) (p : prog S A) s :
  (∀ s s', I s → P s s' → I s' ∧ G s s') → all_sections P p → wp I R G p (λ _ _, True) s.
Proof.
  intros HP. revert s. induction p as [a|B f k IH]; simpl; [done|]. intros s [Hf Hk] s' _ Hi.
  destruct (HP s' (f s').1 Hi (Hf s')). auto.
Qed.

(** ** Soundness *)

Section Sound.
Context {S A : Type}.
Variables (I : S → Prop) (R G : nat → S → S → Prop) (Q : nat → A → S → Prop).
Context {Rpre : ∀ i, PreOrder (R i)}.

(** What one goroutine guarantees every other relies on. *)
Hypothesis compatible : ∀ i j s s', i ≠ j → G i s s' → R j s s'.

Definition pool_ok (c : S * list (prog S A)) : Prop :=
  I c.1 ∧ ∀ i p, c.2 !! i = Some p → wp I (R i) (G i) p (Q i) c.1.

Lemma turn_ok i c : pool_ok c → pool_ok (turn i c).
Proof.
  intros [Hi Hall]. unfold turn. destruct (c.2 !! i) as [[a|B f k]|] eqn:Ei; try by split.
  destruct (Hall i _ Ei c.1 (reflexivity _) Hi) as (Hi' & Hg & Hk). split; [done|]. simpl.
  intros j p Hj. destruct (decide (i = j)) as [->|Hne].
  - rewrite list_lookup_insert_eq in Hj by (by eapply lookup_lt_Some). by injection Hj as <-.
  - rewrite list_lookup_insert_ne in Hj by done.
    apply (wp_stable I (R j) (G j) _ _ c.1); [by eapply compatible|by apply Hall].
Qed.

Lemma turn_guarantee i c : (∀ s, G i s s) → pool_ok c → G i c.1 (turn i c).1.
Proof.
  intros Hg [Hi Hall]. unfold turn. destruct (c.2 !! i) as [[a|B f k]|] eqn:Ei; try apply Hg.
  apply (Hall i _ Ei c.1 (reflexivity _) Hi).
Qed.

(** Every schedule keeps the invariant, and a goroutine that has ended did what
    its precondition promised, whatever has happened since. *)
Lemma play_wp sched c :
  pool_ok c →
  pool_ok (play sched c) ∧ ∀ i a, (play sched c).2 !! i = Some (Ret a) → Q i a (play sched c).1.
Proof.
  intros Hc. assert (pool_ok (play sched c)) as H.
  { revert c Hc. induction sched as [|i sched IH]; simpl; [done|]. intros c Hc.
    by apply IH, turn_ok. }
  split; [done|]. intros i a Hia. destruct H as [Hi Hall].
  exact (Hall i _ Hia _ (reflexivity _) Hi).
Qed.
End Sound.
#[global] Arguments wp {S} I R G {A} p Q s : simpl never.
