(* ===== verification/Session.v ===== *)
(** * The session client (session/client.go, session/handshake.go)

    One end of a session: the hello exchange, the PAKE and group-key handshake on
    both sides, sealing and opening service traffic, key rotation when a member
    leaves and the re-keying after a host migration.  Handlers are functions on
    the client record, which also carries what they do to the outside: the frames
    written, the events emitted and how much randomness was drawn. *)
From S2P Require Import Prelude Wire Crypto Words Phrase.

#[local] Open Scope N_scope.

(** ** Roles and events *)

(** A [uint8]. *)
Abbreviation Role := byte.
Definition RoleNone : Role := x00.
Definition RoleHost : Role := x01.
Definition RoleMember : Role := x02.
Definition RoleObserver : Role := x03.

Inductive Event :=
| MemberJoined (id : ParticipantID)
| MemberKeyed (id : ParticipantID) (role : Role)
| MemberLeft (id : ParticipantID)
| Frame (from : ParticipantID) (envelope : Envelope)
| Closed (reason : string).

Definition prevKeyRing : nat := 8.
Definition DefaultProtocol : string := "parley/v1".

Definition DefaultRolePolicy (joiner : ParticipantID) (observer : bool)
    (assigned : gmap ParticipantID Role) : Role :=
  if observer then RoleObserver else RoleMember.

(** ** Errors *)

Inductive session_error :=
| NotKeyed
| WireError (e : wire_error)
| CryptoError (e : crypto_error)
| WriteError
| ReadFailed
| RelayError (code : N) (msg : string)
| RelayErrorUnreadable
| Refused (msg : string)
| UnexpectedReply (got want : MsgType)
| ClosedDuringHandshake
| KeyBeforePake
| EmptyPhrase.

Definition lift_crypto {A} (r : result crypto_error A) : result session_error A :=
  match r with Ok a => Ok a | Err e => Err (CryptoError e) end.
Definition lift_wire {A} (r : result wire_error A) : result session_error A :=
  match r with Ok a => Ok a | Err e => Err (WireError e) end.

(** relayerror.go: the sentinels a relay error matches. *)
Inductive sentinel := ErrSessionNotFound | ErrSessionExists | ErrSessionFull | ErrRateLimited.

Definition Is (code : N) (target : sentinel) : bool :=
  match target with
  | ErrSessionNotFound => code =? ErrCodeSessionNotFound
  | ErrSessionExists => code =? ErrCodeSessionExists
  | ErrSessionFull => code =? ErrCodeSessionFull
  | ErrRateLimited => code =? ErrCodeRateLimited
  end.

(** ** The client *)

(** What one read of the connection gives; [None] is an error. *)
Abbreviation read := (option bytes).

(** Whether the [n]-th write on the connection succeeds. *)
Class Conn := conn_write : N → bool.

Section Client.
Context {PK : Pake_lib}.

(** The fields of the source's [Client], then the outside: the number of random
    draws and of writes so far, the frames written and the events emitted. *)
Record Client := mkCl {
  cl_proto : string;
  cl_sid : SessionID;
  cl_phraseC : string;
  cl_self : ParticipantID;
  cl_hostID : ParticipantID;
  cl_role : Role;
  cl_resumeToken : bytes;
  cl_observer : bool;
  cl_groupKey : Key;
  cl_keyed : bool;
  cl_prevKeys : list Key;
  cl_pairwise : gmap ParticipantID Key;
  cl_hostPairwise : Key;
  cl_haveHostPairwise : bool;
  cl_rekeyJoiner : option Joiner;
  cl_seqs : gmap string N;
  cl_joiners : gmap ParticipantID Role;
  cl_draws : N;
  cl_writes : N;
  cl_sent : list bytes;
  cl_events : list Event }.

Definition put_self (c : Client) x : Client :=
  mkCl (cl_proto c) (cl_sid c) (cl_phraseC c) x (cl_hostID c) (cl_role c)
    (cl_resumeToken c) (cl_observer c) (cl_groupKey c) (cl_keyed c) (cl_prevKeys c)
    (cl_pairwise c) (cl_hostPairwise c) (cl_haveHostPairwise c) (cl_rekeyJoiner c)
    (cl_seqs c) (cl_joiners c) (cl_draws c) (cl_writes c) (cl_sent c) (cl_events c).
Definition put_hostID (c : Client) x : Client :=
  mkCl (cl_proto c) (cl_sid c) (cl_phraseC c) (cl_self c) x (cl_role c)
    (cl_resumeToken c) (cl_observer c) (cl_groupKey c) (cl_keyed c) (cl_prevKeys c)
    (cl_pairwise c) (cl_hostPairwise c) (cl_haveHostPairwise c) (cl_rekeyJoiner c)
    (cl_seqs c) (cl_joiners c) (cl_draws c) (cl_writes c) (cl_sent c) (cl_events c).
Definition put_role (c : Client) x : Client :=
  mkCl (cl_proto c) (cl_sid c) (cl_phraseC c) (cl_self c) (cl_hostID c) x
    (cl_resumeToken c) (cl_observer c) (cl_groupKey c) (cl_keyed c) (cl_prevKeys c)
    (cl_pairwise c) (cl_hostPairwise c) (cl_haveHostPairwise c) (cl_rekeyJoiner c)
    (cl_seqs c) (cl_joiners c) (cl_draws c) (cl_writes c) (cl_sent c) (cl_events c).
Definition put_resumeToken (c : Client) x : Client :=
  mkCl (cl_proto c) (cl_sid c) (cl_phraseC c) (cl_self c) (cl_hostID c) (cl_role c) x
    (cl_observer c) (cl_groupKey c) (cl_keyed c) (cl_prevKeys c) (cl_pairwise c)
    (cl_hostPairwise c) (cl_haveHostPairwise c) (cl_rekeyJoiner c) (cl_seqs c)
    (cl_joiners c) (cl_draws c) (cl_writes c) (cl_sent c) (cl_events c).
Definition put_groupKey (c : Client) x : Client :=
  mkCl (cl_proto c) (cl_sid c) (cl_phraseC c) (cl_self c) (cl_hostID c) (cl_role c)
    (cl_resumeToken c) (cl_observer c) x (cl_keyed c) (cl_prevKeys c) (cl_pairwise c)
    (cl_hostPairwise c) (cl_haveHostPairwise c) (cl_rekeyJoiner c) (cl_seqs c)
    (cl_joiners c) (cl_draws c) (cl_writes c) (cl_sent c) (cl_events c).
Definition put_keyed (c : Client) x : Client :=
  mkCl (cl_proto c) (cl_sid c) (cl_phraseC c) (cl_self c) (cl_hostID c) (cl_role c)
    (cl_resumeToken c) (cl_observer c) (cl_groupKey c) x (cl_prevKeys c) (cl_pairwise c)
    (cl_hostPairwise c) (cl_haveHostPairwise c) (cl_rekeyJoiner c) (cl_seqs c)
    (cl_joiners c) (cl_draws c) (cl_writes c) (cl_sent c) (cl_events c).
Definition put_prevKeys (c : Client) x : Client :=
  mkCl (cl_proto c) (cl_sid c) (cl_phraseC c) (cl_self c) (cl_hostID c) (cl_role c)
    (cl_resumeToken c) (cl_observer c) (cl_groupKey c) (cl_keyed c) x (cl_pairwise c)
    (cl_hostPairwise c) (cl_haveHostPairwise c) (cl_rekeyJoiner c) (cl_seqs c)
    (cl_joiners c) (cl_draws c) (cl_writes c) (cl_sent c) (cl_events c).
Definition put_pairwise (c : Client) x : Client :=
  mkCl (cl_proto c) (cl_sid c) (cl_phraseC c) (cl_self c) (cl_hostID c) (cl_role c)
    (cl_resumeToken c) (cl_observer c) (cl_groupKey c) (cl_keyed c) (cl_prevKeys c) x
    (cl_hostPairwise c) (cl_haveHostPairwise c) (cl_rekeyJoiner c) (cl_seqs c)
    (cl_joiners c) (cl_draws c) (cl_writes c) (cl_sent c) (cl_events c).
Definition put_hostPairwise (c : Client) x : Client :=
  mkCl (cl_proto c) (cl_sid c) (cl_phraseC c) (cl_self c) (cl_hostID c) (cl_role c)
    (cl_resumeToken c) (cl_observer c) (cl_groupKey c) (cl_keyed c) (cl_prevKeys c)
    (cl_pairwise c) x (cl_haveHostPairwise c) (cl_rekeyJoiner c) (cl_seqs c) (cl_joiners c)
    (cl_draws c) (cl_writes c) (cl_sent c) (cl_events c).
Definition put_haveHostPairwise (c : Client) x : Client :=
  mkCl (cl_proto c) (cl_sid c) (cl_phraseC c) (cl_self c) (cl_hostID c) (cl_role c)
    (cl_resumeToken c) (cl_observer c) (cl_groupKey c) (cl_keyed c) (cl_prevKeys c)
    (cl_pairwise c) (cl_hostPairwise c) x (cl_rekeyJoiner c) (cl_seqs c) (cl_joiners c)
    (cl_draws c) (cl_writes c) (cl_sent c) (cl_events c).
Definition put_rekeyJoiner (c : Client) x : Client :=
  mkCl (cl_proto c) (cl_sid c) (cl_phraseC c) (cl_self c) (cl_hostID c) (cl_role c)
    (cl_resumeToken c) (cl_observer c) (cl_groupKey c) (cl_keyed c) (cl_prevKeys c)
    (cl_pairwise c) (cl_hostPairwise c) (cl_haveHostPairwise c) x (cl_seqs c) (cl_joiners c)
    (cl_draws c) (cl_writes c) (cl_sent c) (cl_events c).
Definition put_seqs (c : Client) x : Client :=
  mkCl (cl_proto c) (cl_sid c) (cl_phraseC c) (cl_self c) (cl_hostID c) (cl_role c)
    (cl_resumeToken c) (cl_observer c) (cl_groupKey c) (cl_keyed c) (cl_prevKeys c)
    (cl_pairwise c) (cl_hostPairwise c) (cl_haveHostPairwise c) (cl_rekeyJoiner c) x
    (cl_joiners c) (cl_draws c) (cl_writes c) (cl_sent c) (cl_events c).
Definition put_joiners (c : Client) x : Client :=
  mkCl (cl_proto c) (cl_sid c) (cl_phraseC c) (cl_self c) (cl_hostID c) (cl_role c)
    (cl_resumeToken c) (cl_observer c) (cl_groupKey c) (cl_keyed c) (cl_prevKeys c)
    (cl_pairwise c) (cl_hostPairwise c) (cl_haveHostPairwise c) (cl_rekeyJoiner c)
    (cl_seqs c) x (cl_draws c) (cl_writes c) (cl_sent c) (cl_events c).
Definition put_draws (c : Client) x : Client :=
  mkCl (cl_proto c) (cl_sid c) (cl_phraseC c) (cl_self c) (cl_hostID c) (cl_role c)
    (cl_resumeToken c) (cl_observer c) (cl_groupKey c) (cl_keyed c) (cl_prevKeys c)
    (cl_pairwise c) (cl_hostPairwise c) (cl_haveHostPairwise c) (cl_rekeyJoiner c)
    (cl_seqs c) (cl_joiners c) x (cl_writes c) (cl_sent c) (cl_events c).
Definition put_writes (c : Client) x : Client :=
  mkCl (cl_proto c) (cl_sid c) (cl_phraseC c) (cl_self c) (cl_hostID c) (cl_role c)
    (cl_resumeToken c) (cl_observer c) (cl_groupKey c) (cl_keyed c) (cl_prevKeys c)
    (cl_pairwise c) (cl_hostPairwise c) (cl_haveHostPairwise c) (cl_rekeyJoiner c)
    (cl_seqs c) (cl_joiners c) (cl_draws c) x (cl_sent c) (cl_events c).
Definition put_sent (c : Client) x : Client :=
  mkCl (cl_proto c) (cl_sid c) (cl_phraseC c) (cl_self c) (cl_hostID c) (cl_role c)
    (cl_resumeToken c) (cl_observer c) (cl_groupKey c) (cl_keyed c) (cl_prevKeys c)
    (cl_pairwise c) (cl_hostPairwise c) (cl_haveHostPairwise c) (cl_rekeyJoiner c)
    (cl_seqs c) (cl_joiners c) (cl_draws c) (cl_writes c) x (cl_events c).
Definition put_events (c : Client) x : Client :=
  mkCl (cl_proto c) (cl_sid c) (cl_phraseC c) (cl_self c) (cl_hostID c) (cl_role c)
    (cl_resumeToken c) (cl_observer c) (cl_groupKey c) (cl_keyed c) (cl_prevKeys c)
    (cl_pairwise c) (cl_hostPairwise c) (cl_haveHostPairwise c) (cl_rekeyJoiner c)
    (cl_seqs c) (cl_joiners c) (cl_draws c) (cl_writes c) (cl_sent c) x.

Definition emit (c : Client) (e : Event) : Client := put_events c (cl_events c ++ [e]).

(** The next draw of randomness. *)
Definition draw (c : Client) : Client * N := (put_draws c (cl_draws c + 1), cl_draws c).
End Client.

Section Ops.
Context {WC : WireCodec} {AE : Aead} {HK : Hkdf} {PK : Pake_lib} {EN : Entropy} {CN : Conn}.
Context {MK : MapRange ParticipantID Key}.

(** [writeFrame]: encode, then one write. *)
Definition writeFrame `{Cbor T} (c : Client) (t : MsgType) (body : T) :
    Client * result session_error unit :=
  match Encode t body with
  | Err e => (c, Err (WireError e))
  | Ok frame =>
      let ok := conn_write (cl_writes c) in
      let c := put_writes c (cl_writes c + 1) in
      if ok then (put_sent c (cl_sent c ++ [frame]), Ok tt) else (c, Err WriteError)
  end.

(** ** Sealing and opening *)

Definition seal (c : Client) (serviceID : string) (body : bytes) :
    Client * result session_error bytes :=
  if negb (cl_keyed c) then (c, Err NotKeyed)
  else
    let seq := wrap 64 (default 0 (cl_seqs c !! serviceID) + 1) in
    let c := put_seqs c (<[serviceID := seq]> (cl_seqs c)) in
    match Marshal (mkEnvelope serviceID seq body) with
    | None => (c, Err (WireError ErrEncode))
    | Some plain =>
        let '(c, i) := draw c in
        match Seal i (cl_groupKey c) plain (cl_sid c) (cl_self c) with
        | Err e => (c, Err (CryptoError e))
        | Ok sf => (c, lift_wire (EncodePayload KindSealed sf))
        end
    end.

Definition BroadcastMsg (c : Client) (serviceID : string) (body : bytes) :
    Client * result session_error unit :=
  match seal c serviceID body with
  | (c, Err e) => (c, Err e)
  | (c, Ok payload) => writeFrame c MsgBroadcast (mkBroadcast 0 payload)
  end.

Definition SendTo (c : Client) (to : ParticipantID) (serviceID : string) (body : bytes) :
    Client * result session_error unit :=
  match seal c serviceID body with
  | (c, Err e) => (c, Err e)
  | (c, Ok payload) => writeFrame c MsgDirect (mkDirect to 0 payload)
  end.

(** The first key that opens the frame. *)
Fixpoint open_any (keys : list Key) (sf : SealedFrame) (sid : SessionID) (sender : ParticipantID) :
    option bytes :=
  match keys with
  | [] => None
  | k :: keys =>
      match Open k sf sid sender with
      | Ok plain => Some plain
      | Err _ => open_any keys sf sid sender
      end
  end.

Definition openFrame (c : Client) (sf : SealedFrame) (sender : ParticipantID) : option bytes :=
  if negb (cl_keyed c) then None
  else open_any (cl_groupKey c :: cl_prevKeys c) sf (cl_sid c) sender.

(** ** Rotating the group key *)

Definition pushPrevKeyLocked (c : Client) (old : Key) : Client :=
  put_prevKeys c (take prevKeyRing (old :: cl_prevKeys c)).

(** The wraps of [rekeyAfterLeave], one draw each; one failure abandons all. *)
Fixpoint wrap_all (i : N) (newKey : Key) (sid : SessionID) (l : list (ParticipantID * Key)) :
    N * option (list (ParticipantID * GroupKey)) :=
  match l with
  | [] => (i, Some [])
  | (id, pw) :: l =>
      match WrapGroupKey i pw newKey RoleNone sid id with
      | Err _ => (i + 1, None)
      | Ok gk =>
          let '(i, outs) := wrap_all (i + 1) newKey sid l in
          (i, outs ← outs; Some ((id, gk) :: outs))
      end
  end.

Definition send_rekey (c : Client) (o : ParticipantID * GroupKey) : Client :=
  match EncodePayload KindRekey o.2 with
  | Err _ => c
  | Ok payload => (writeFrame c MsgDirect (mkDirect o.1 0 payload)).1
  end.

Definition rekeyAfterLeave (c : Client) : Client :=
  if bool_decide (cl_role c ≠ RoleHost) || bool_decide (cl_hostID c ≠ cl_self c)
     || bool_decide (size (cl_pairwise c) = 0%nat) then c
  else
    let '(c, i) := draw c in
    match NewGroupKey i with
    | Err _ => c
    | Ok newKey =>
        let '(i, outs) := wrap_all (cl_draws c) newKey (cl_sid c) (range (cl_pairwise c)) in
        let c := put_draws c i in
        match outs with
        | None => c
        | Some outs =>
            let c := foldl send_rekey c outs in
            put_groupKey (pushPrevKeyLocked c (cl_groupKey c)) newKey
        end
    end.

Definition handleRekey (c : Client) (from : ParticipantID) (praw : bytes) : Client :=
  if cl_haveHostPairwise c && bool_decide (from = cl_hostID c) then
    match Body GroupKey praw with
    | Err _ => c
    | Ok gk =>
        match UnwrapGroupKey (cl_hostPairwise c) gk (cl_sid c) (cl_self c) with
        | Err _ => c
        | Ok (key, role) =>
            let c := put_groupKey (pushPrevKeyLocked c (cl_groupKey c)) key in
            if bool_decide (role ≠ RoleNone) then put_role c role else c
        end
    end
  else c.

(** ** Host migration *)

Definition BecomeHost (c : Client) : Client := put_hostID (put_role c RoleHost) (cl_self c).
Definition SetHostID (c : Client) (id : ParticipantID) : Client := put_hostID c id.
Definition ClaimHostMsg (c : Client) : Client * result session_error unit :=
  writeFrame c MsgClaimHost mkClaimHost.

Definition RotateForMigration (c : Client) : Client :=
  if bool_decide (cl_role c ≠ RoleHost) || bool_decide (cl_hostID c ≠ cl_self c) then c
  else
    let '(c, i) := draw c in
    match NewGroupKey i with
    | Err _ => c
    | Ok newKey =>
        put_pairwise (put_groupKey (pushPrevKeyLocked c (cl_groupKey c)) newKey) ∅
    end.

Definition RekeyWithNewHost (c : Client) : Client * result session_error unit :=
  if bool_decide (cl_role c = RoleHost) || bool_decide (cl_hostID c = cl_self c)
     || negb (cl_keyed c) then (c, Ok tt)
  else
    let host := cl_hostID c in
    let '(c, i) := draw c in
    match NewJoiner i (cl_proto c) (cl_phraseC c) with
    | Err e => (c, Err (CryptoError e))
    | Ok j =>
        let c := put_rekeyJoiner c (Some j) in
        match EncodePayload KindRekeyPake1 (mkPake (j_Flight1 j) false) with
        | Err e => (c, Err (WireError e))
        | Ok payload => writeFrame c MsgDirect (mkDirect host 0 payload)
        end
    end.

(** ** The joiner's handshake *)


Definition readFrameConn (r : read) : result session_error (MsgType * bytes) :=
  match r with
  | None => Err ReadFailed
  | Some data => lift_wire (Decode data)
  end.

Definition relayError (raw : bytes) : session_error :=
  match Body Error raw with
  | Err _ => RelayErrorUnreadable
  | Ok e => RelayError (e_Code e) (e_Msg e)
  end.

(** [awaitReply] on the reads to come: [None] while it still waits, otherwise its
    result and the reads it left. *)
Fixpoint awaitReply (want : MsgType) (reads : list read) :
    option (result session_error bytes * list read) :=
  match reads with
  | [] => None
  | r :: reads =>
      match readFrameConn r with
      | Err e => Some (Err e, reads)
      | Ok (typ, raw) =>
          if bool_decide (typ = want) then Some (Ok raw, reads)
          else if bool_decide (typ = MsgError) then Some (Err (relayError raw), reads)
          else if bool_decide (typ = MsgBroadcast) || bool_decide (typ = MsgDirect)
                  || bool_decide (typ = MsgParticipantJoined)
                  || bool_decide (typ = MsgParticipantLeft)
          then awaitReply want reads
          else Some (Err (UnexpectedReply typ want), reads)
      end
  end.

(** [hostHello], after the create has been written. *)
Definition hostHello_reply (c : Client) (reads : list read) :
    Client * option (result session_error unit * list read) :=
  match awaitReply MsgSessionCreated reads with
  | None => (c, None)
  | Some (Err e, rest) => (c, Some (Err e, rest))
  | Some (Ok raw, rest) =>
      match Body SessionCreated raw with
      | Err e => (c, Some (Err (WireError e), rest))
      | Ok sc =>
          let c := put_self c (sc_ParticipantID sc) in
          let c := put_hostID c (sc_ParticipantID sc) in
          let c := put_resumeToken c (sc_ResumeToken sc) in
          let '(c, i) := draw c in
          match NewGroupKey i with
          | Err e => (c, Some (Err (CryptoError e), rest))
          | Ok key =>
              (put_role (put_keyed (put_groupKey c key) true) RoleHost, Some (Ok tt, rest))
          end
      end
  end.

Definition hostHello (c : Client) (reads : list read) :
    Client * option (result session_error unit * list read) :=
  match writeFrame c MsgCreateSession (mkCreateSession (cl_sid c) 0) with
  | (c, Err e) => (c, Some (Err e, reads))
  | (c, Ok _) => hostHello_reply c reads
  end.

Definition joinRequest (c : Client) (reads : list read) :
    Client * option (result session_error unit * list read) :=
  match writeFrame c MsgJoinSession (mkJoinSession (cl_sid c)) with
  | (c, Err e) => (c, Some (Err e, reads))
  | (c, Ok _) =>
      match awaitReply MsgJoinResult reads with
      | None => (c, None)
      | Some (Err e, rest) => (c, Some (Err e, rest))
      | Some (Ok raw, rest) =>
          match Body JoinResult raw with
          | Err e => (c, Some (Err (WireError e), rest))
          | Ok jr =>
              if negb (jr_OK jr) then (c, Some (Err (Refused (jr_Err jr)), rest))
              else
                (put_resumeToken (put_hostID (put_self c (jr_ParticipantID jr)) (jr_HostID jr))
                   (jr_ResumeToken jr), Some (Ok tt, rest))
          end
      end
  end.

Definition sendPake1 (c : Client) : Client * result session_error Joiner :=
  let '(c, i) := draw c in
  match NewJoiner i (cl_proto c) (cl_phraseC c) with
  | Err e => (c, Err (CryptoError e))
  | Ok j =>
      match EncodePayload KindPake1 (mkPake (j_Flight1 j) (cl_observer c)) with
      | Err e => (c, Err (WireError e))
      | Ok payload =>
          match writeFrame c MsgDirect (mkDirect (cl_hostID c) 0 payload) with
          | (c, Err e) => (c, Err e)
          | (c, Ok _) => (c, Ok j)
          end
      end
  end.

(** The loop's local state: the joiner's exchange and the pairwise key, once it
    has one. *)
Record drive := mkDrive { dr_j : Joiner; dr_pairwise : option Key }.

Definition joinHandleDirect (c : Client) (d : drive) (kind : PayloadKind) (praw : bytes) :
    Client * drive * result session_error unit :=
  if bool_decide (kind = KindPake2) then
    match Body Pake praw with
    | Err e => (c, d, Err (WireError e))
    | Ok p =>
        let '(c, i) := draw c in
        let '(j, r) := Finish i (dr_j d) (pk_Data p) (cl_sid c) (cl_self c) (cl_hostID c) in
        match r with
        | Err e => (c, mkDrive j (dr_pairwise d), Err (CryptoError e))
        | Ok pw => (c, mkDrive j (Some pw), Ok tt)
        end
    end
  else if bool_decide (kind = KindGroupKey) then
    match dr_pairwise d with
    | None => (c, d, Err KeyBeforePake)
    | Some pairwise =>
        match Body GroupKey praw with
        | Err e => (c, d, Err (WireError e))
        | Ok gk =>
            match UnwrapGroupKey pairwise gk (cl_sid c) (cl_self c) with
            | Err e => (c, d, Err (CryptoError e))
            | Ok (key, role) =>
                let c := put_groupKey c key in
                let c := put_role c role in
                let c := put_keyed c true in
                let c := put_hostPairwise c pairwise in
                (put_haveHostPairwise c true, d, Ok tt)
            end
        end
    end
  else (c, d, Ok tt).

Fixpoint joinDriveHandshake (c : Client) (d : drive) (reads : list read) :
    Client * option (result session_error unit * list read) :=
  if cl_keyed c then (c, Some (Ok tt, reads))
  else match reads with
  | [] => (c, None)
  | r :: reads =>
      match readFrameConn r with
      | Err e => (c, Some (Err e, reads))
      | Ok (typ, raw) =>
          if bool_decide (typ = MsgSessionClosed) then
            (c, Some (Err ClosedDuringHandshake, reads))
          else if bool_decide (typ ≠ MsgDirect) then joinDriveHandshake c d reads
          else
            match Body Direct raw with
            | Err _ => joinDriveHandshake c d reads
            | Ok dir =>
                if bool_decide (d_From dir ≠ cl_hostID c) then joinDriveHandshake c d reads
                else match DecodePayload (d_Payload dir) with
                | Err _ => joinDriveHandshake c d reads
                | Ok (kind, praw) =>
                    match joinHandleDirect c d kind praw with
                    | (c, d, Ok _) => joinDriveHandshake c d reads
                    | (c, d, Err e) => (c, Some (Err e, reads))
                    end
                end
            end
      end
  end.

Definition joinHello (c : Client) (reads : list read) :
    Client * option (result session_error unit * list read) :=
  match joinRequest c reads with
  | (c, Some (Ok _, rest)) =>
      match sendPake1 c with
      | (c, Err e) => (c, Some (Err e, rest))
      | (c, Ok j) => joinDriveHandshake c (mkDrive j None) rest
      end
  | other => other
  end.

(** ** The host's side *)

(** [c.rolePolicy]: the application's. *)
Variable rolePolicy : ParticipantID → bool → gmap ParticipantID Role → Role.

(** The reserved roles are not the policy's to give. *)
Definition assign_role (c : Client) (from : ParticipantID) (spectate : bool) : Role :=
  let role := rolePolicy from spectate (cl_joiners c) in
  if bool_decide (role = RoleNone) || bool_decide (role = RoleHost) then RoleMember else role.

Definition handleHandshakeDirect (c : Client) (from : ParticipantID) (kind : PayloadKind)
    (praw : bytes) : Client :=
  if bool_decide (cl_role c ≠ RoleHost) || bool_decide (kind ≠ KindPake1) then c
  else match Body Pake praw with
  | Err _ => c
  | Ok p =>
      let '(c, i) := draw c in
      match HostExchange i (cl_proto c) (cl_phraseC c) (pk_Data p) (cl_sid c) from (cl_self c) with
      | Err _ => c
      | Ok (pairwise, flight2) =>
          let role := assign_role c from (pk_Spectate p) in
          let c := put_joiners c (<[from := role]> (cl_joiners c)) in
          let c := put_pairwise c (<[from := pairwise]> (cl_pairwise c)) in
          match EncodePayload KindPake2 (mkPake flight2 false) with
          | Err _ => c
          | Ok reply =>
              match writeFrame c MsgDirect (mkDirect from 0 reply) with
              | (c, Err _) => c
              | (c, Ok _) =>
                  let '(c, i) := draw c in
                  match WrapGroupKey i pairwise (cl_groupKey c) role (cl_sid c) from with
                  | Err _ => c
                  | Ok wrapped =>
                      match EncodePayload KindGroupKey wrapped with
                      | Err _ => c
                      | Ok gkPayload =>
                          match writeFrame c MsgDirect (mkDirect from 0 gkPayload) with
                          | (c, Err _) => c
                          | (c, Ok _) => emit c (MemberKeyed from role)
                          end
                      end
                  end
              end
          end
      end
  end.

Definition handleRekeyPake1 (c : Client) (from : ParticipantID) (praw : bytes) : Client :=
  if bool_decide (cl_role c ≠ RoleHost) || bool_decide (cl_hostID c ≠ cl_self c) then c
  else match Body Pake praw with
  | Err _ => c
  | Ok p =>
      let '(c, i) := draw c in
      match HostExchange i (cl_proto c) (cl_phraseC c) (pk_Data p) (cl_sid c) from (cl_self c) with
      | Err _ => c
      | Ok (pairwise, flight2) =>
          let c := put_pairwise c (<[from := pairwise]> (cl_pairwise c)) in
          match EncodePayload KindRekeyPake2 (mkPake flight2 false) with
          | Err _ => c
          | Ok reply =>
              match writeFrame c MsgDirect (mkDirect from 0 reply) with
              | (c, Err _) => c
              | (c, Ok _) =>
                  let '(c, i) := draw c in
                  match WrapGroupKey i pairwise (cl_groupKey c) RoleNone (cl_sid c) from with
                  | Err _ => c
                  | Ok wrapped =>
                      match EncodePayload KindRekey wrapped with
                      | Err _ => c
                      | Ok gkPayload =>
                          (writeFrame c MsgDirect (mkDirect from 0 gkPayload)).1
                      end
                  end
              end
          end
      end
  end.

Definition handleRekeyPake2 (c : Client) (from : ParticipantID) (praw : bytes) : Client :=
  match cl_rekeyJoiner c with
  | None => c
  | Some j =>
      if bool_decide (from ≠ cl_hostID c) then c
      else match Body Pake praw with
      | Err _ => c
      | Ok p =>
          let '(c, i) := draw c in
          let '(j, r) := Finish i j (pk_Data p) (cl_sid c) (cl_self c) (cl_hostID c) in
          match r with
          | Err _ => put_rekeyJoiner c (Some j)
          | Ok pairwise =>
              put_rekeyJoiner (put_haveHostPairwise (put_hostPairwise c pairwise) true) None
          end
      end
  end.

(** ** Dispatch *)

Definition handlePayload (c : Client) (from : ParticipantID) (payload : bytes) : Client :=
  match DecodePayload payload with
  | Err _ => c
  | Ok (kind, praw) =>
      if bool_decide (kind = KindRekey) then handleRekey c from praw
      else if bool_decide (kind = KindRekeyPake1) then handleRekeyPake1 c from praw
      else if bool_decide (kind = KindRekeyPake2) then handleRekeyPake2 c from praw
      else if bool_decide (kind ≠ KindSealed) then handleHandshakeDirect c from kind praw
      else
        match Body SealedFrame praw with
        | Err _ => c
        | Ok sf =>
            match openFrame c sf from with
            | None => c
            | Some plain =>
                match Body Envelope plain with
                | Err _ => c
                | Ok env => emit c (Frame from env)
                end
            end
        end
  end.

Definition dispatchFrame (c : Client) (typ : MsgType) (raw : bytes) : Client * bool :=
  if bool_decide (typ = MsgParticipantJoined) then
    match Body ParticipantJoined raw with
    | Ok pj => (emit c (MemberJoined (pj_ParticipantID pj)), false)
    | Err _ => (c, false)
    end
  else if bool_decide (typ = MsgParticipantLeft) then
    match Body ParticipantLeft raw with
    | Ok pl =>
        let id := pl_ParticipantID pl in
        let c := put_joiners c (delete id (cl_joiners c)) in
        let c := put_pairwise c (delete id (cl_pairwise c)) in
        (rekeyAfterLeave (emit c (MemberLeft id)), false)
    | Err _ => (c, false)
    end
  else if bool_decide (typ = MsgSessionClosed) then
    let reason := match Body SessionClosed raw with
                  | Ok sc => cl_Reason sc
                  | Err _ => EmptyString
                  end in
    (emit c (Closed reason), true)
  else if bool_decide (typ = MsgDirect) then
    match Body Direct raw with
    | Ok d => (handlePayload c (d_From d) (d_Payload d), false)
    | Err _ => (c, false)
    end
  else if bool_decide (typ = MsgBroadcast) then
    match Body Wire.Broadcast raw with
    | Ok b => (handlePayload c (b_From b) (b_Payload b), false)
    | Err _ => (c, false)
    end
  else (c, false).

(** [readLoop]; the flag says that it has ended (and closed the events). *)
Fixpoint readLoop (c : Client) (reads : list read) : Client * bool :=
  match reads with
  | [] => (c, false)
  | r :: reads =>
      match readFrameConn r with
      | Err _ => (emit c (Closed "connection lost"), true)
      | Ok (typ, raw) =>
          match dispatchFrame c typ raw with
          | (c, true) => (c, true)
          | (c, false) => readLoop c reads
          end
      end
  end.

(** ** Reconnecting *)

(** [Reconnect] once the relay has been re-dialled; a fresh event stream. *)
Definition Reconnect (c : Client) (reads : list read) :
    Client * option (result session_error unit * list read) :=
  match writeFrame c MsgResumeSession
          (mkResumeSession (cl_sid c) (cl_self c) (cl_resumeToken c)) with
  | (c, Err e) => (c, Some (Err e, reads))
  | (c, Ok _) =>
      match awaitReply MsgJoinResult reads with
      | None => (c, None)
      | Some (Err e, rest) => (c, Some (Err e, rest))
      | Some (Ok raw, rest) =>
          match Body JoinResult raw with
          | Err e => (c, Some (Err (WireError e), rest))
          | Ok jr =>
              if negb (jr_OK jr) then (c, Some (Err (Refused (jr_Err jr)), rest))
              else
                let c := if bool_decide (jr_ResumeToken jr = []) then c
                         else put_resumeToken c (jr_ResumeToken jr) in
                (put_events c [], Some (Ok tt, rest))
          end
      end
  end.

(** ** Starting a session *)

Context {SH : Sha256}.

Definition zero_key : Key := replicate KeySize x00.

(** [dial]: the client of a freshly dialled connection. *)
Definition dial (protocol phraseText : string) (observer : bool) : Client :=
  let canonical := Canonical phraseText in
  mkCl protocol (SessionIDOf protocol canonical) canonical 0 0 RoleNone [] observer
    zero_key false [] ∅ zero_key false None ∅ ∅ 0 0 [] [].

Definition HostWithPhrase (protocol phraseText : string) (reads : list read) :
    result session_error (Client * option (result session_error unit * list read)) :=
  if bool_decide (Canonical phraseText = EmptyString) then Err EmptyPhrase
  else Ok (hostHello (dial protocol phraseText false) reads).

Definition Join (protocol phraseText : string) (observer : bool) (reads : list read) :
    Client * option (result session_error unit * list read) :=
  joinHello (dial protocol phraseText observer) reads.
End Ops.
