(* ===== verification/SessionSpec.v ===== *)
(** * Session traffic and keys

    What the client's operations guarantee: who can open what, what a member's
    departure does to the keys, and that the handshakes deliver. *)
From S2P Require Import Prelude Wire Crypto Words Phrase Session.

#[local] Open Scope N_scope.

Section Spec.
Context {WC : WireCodec} {WS : WireCodecSpec} {AE : Aead} {AS : AeadSpec} {HK : Hkdf}.
Context {PK : Pake_lib} {PS : PakeSpec} {EN : Entropy} {CN : Conn}.
Context {MK : MapRange ParticipantID Key}.
Variable rolePolicy : ParticipantID → bool → gmap ParticipantID Role → Role.

Abbreviation handlePayload := (handlePayload rolePolicy).
Abbreviation dispatchFrame := (dispatchFrame rolePolicy).
Abbreviation readLoop := (readLoop rolePolicy).

(** The keys a client tries, newest first. *)
Definition keys_of (c : Client) : list Key := cl_groupKey c :: cl_prevKeys c.

(** ** Payloads *)

Lemma payload_decodes `{CborSpec T} k (body : T) p :
  cbor_wf body → EncodePayload k body = Ok p →
  ∃ raw, DecodePayload p = Ok (k, raw) ∧ Body T raw = Ok body.
Proof.
  intros Hwf. unfold EncodePayload. destruct (marshal body) as [raw|] eqn:E; [|done].
  intros [= <-]. exists raw. split; [done|]. unfold Body. by rewrite (unmarshal_marshal body raw).
Qed.

Lemma Seal_nonce i k p sid s f : Seal i k p sid s = Ok f → cbor_wf f.
Proof.
  unfold Seal. destruct (NewX k); [|done].
  destruct (rand_read i nonce_len) as [n|] eqn:E; [|done]. intros [= <-].
  by eapply rand_read_length.
Qed.

Lemma Wrap_nonce i k gk role sid id w : WrapGroupKey i k gk role sid id = Ok w → cbor_wf w.
Proof.
  unfold WrapGroupKey. destruct (NewX k); [|done].
  destruct (rand_read i nonce_len) as [n|] eqn:E; [|done]. intros [= <-].
  by eapply rand_read_length.
Qed.

(** ** Sealing *)

Definition next_seq (c : Client) (svc : string) : N :=
  wrap 64 (default 0 (cl_seqs c !! svc) + 1).

Lemma seal_Ok c svc body c' payload :
  seal c svc body = (c', Ok payload) →
  cl_keyed c = true ∧ ∃ plain sf,
    Marshal (mkEnvelope svc (next_seq c svc) body) = Some plain ∧
    Seal (cl_draws c) (cl_groupKey c) plain (cl_sid c) (cl_self c) = Ok sf ∧
    EncodePayload KindSealed sf = Ok payload ∧
    c' = put_draws (put_seqs c (<[svc := next_seq c svc]> (cl_seqs c))) (cl_draws c + 1).
Proof.
  unfold seal. destruct (cl_keyed c) eqn:Hk; simpl; [|done].
  destruct (Marshal _) as [plain|] eqn:Em; [|done]. simpl.
  destruct (Seal _ _ _ _ _) as [sf|] eqn:Es; [|done].
  destruct (EncodePayload KindSealed sf) as [p|] eqn:Ee; [|done].
  intros [= <- <-]. eauto 10.
Qed.

Lemma open_any_sealed i k p sid s f keys sid' s' :
  sid_wf sid → sid_wf sid' → pid_wf s → pid_wf s' → Seal i k p sid s = Ok f →
  open_any keys f sid' s' =
    if bool_decide (k ∈ keys ∧ sid' = sid ∧ s' = s) then Some p else None.
Proof.
  intros Hs Hs' Hp Hp' Hf. induction keys as [|k0 keys IH]; cbn [open_any].
  { rewrite bool_decide_eq_false_2; [done|]. by intros [?%elem_of_nil _]. }
  destruct (Open k0 f sid' s') as [p'|] eqn:Eo.
  - destruct (Open_only _ _ _ _ _ _ _ _ _ _ Hs Hs' Hp Hp' Hf Eo) as (-> & -> & -> & ->).
    rewrite bool_decide_eq_true_2; [done|]. split; [by left|done].
  - rewrite IH, (bool_decide_ext (k ∈ k0 :: keys ∧ sid' = sid ∧ s' = s)
      (k ∈ keys ∧ sid' = sid ∧ s' = s)); [done|]. rewrite elem_of_cons.
    split; [|tauto]. intros ([->|Hin] & -> & ->); [|done].
    by rewrite (Open_Seal _ _ _ _ _ _ Hf) in Eo.
Qed.

(** A sealed payload at a receiver: the seal is opened by those who hold the key,
    and only as the true sender's. *)
Lemma sealed_parts i k sid self env plain sf payload r from :
  sid_wf sid → sid_wf (cl_sid r) → pid_wf self → pid_wf from → cbor_wf env →
  Marshal env = Some plain → Seal i k plain sid self = Ok sf →
  EncodePayload KindSealed sf = Ok payload →
  handlePayload r from payload =
    if bool_decide (cl_keyed r = true ∧ k ∈ keys_of r ∧ cl_sid r = sid ∧ from = self)
    then emit r (Frame from env) else r.
Proof.
  intros Hs Hs' Hp Hp' He Em Es Ee.
  destruct (payload_decodes KindSealed sf payload (Seal_nonce _ _ _ _ _ _ Es) Ee)
    as (raw & Ed & Eb).
  unfold Session.handlePayload. rewrite Ed. simpl. rewrite Eb. unfold openFrame.
  destruct (cl_keyed r) eqn:Hk; cbn [negb].
  2: { rewrite bool_decide_eq_false_2; [done|]. by intros [? _]. }
  change (cl_groupKey r :: cl_prevKeys r) with (keys_of r).
  rewrite (open_any_sealed _ _ _ _ _ _ _ _ _ Hs Hs' Hp Hp' Es).
  rewrite (bool_decide_ext (true = true ∧ k ∈ keys_of r ∧ cl_sid r = sid ∧ from = self)
    (k ∈ keys_of r ∧ cl_sid r = sid ∧ from = self)) by tauto.
  case_bool_decide; [|done]. unfold Body. by rewrite (unmarshal_marshal env plain).
Qed.

Lemma sealed_payload c svc body c' payload r from :
  sid_wf (cl_sid c) → sid_wf (cl_sid r) → pid_wf (cl_self c) → pid_wf from → utf8_valid svc →
  seal c svc body = (c', Ok payload) →
  handlePayload r from payload =
    if bool_decide (cl_keyed r = true ∧ cl_groupKey c ∈ keys_of r ∧
                    cl_sid r = cl_sid c ∧ from = cl_self c)
    then emit r (Frame from (mkEnvelope svc (next_seq c svc) body)) else r.
Proof.
  intros Hs Hs' Hp Hp' Hu (_ & plain & sf & Em & Es & Ee & _)%seal_Ok.
  assert (cbor_wf (mkEnvelope svc (next_seq c svc) body)) as He by (split; [done|apply wrap_in_width]).
  exact (sealed_parts _ _ _ _ _ _ _ _ r from Hs Hs' Hp Hp' He Em Es Ee).
Qed.

(** C2: a sealed message is for those who hold its key, and carries its true
    sender.  A payload produced by [seal], handed by the relay to a client as
    coming from [from], is delivered as an event exactly if the receiver is in
    the same session, holds the sender's group key (as the current or a retained
    one) and [from] is the sender's own identifier; then the event is the
    sender's service, sequence number and body, and nothing else changes.
    Otherwise the receiver's state does not change at all. *)
Theorem sealed_delivery c svc body c' payload r from :
  sid_wf (cl_sid c) → sid_wf (cl_sid r) → pid_wf (cl_self c) → pid_wf from → utf8_valid svc →
  seal c svc body = (c', Ok payload) →
  handlePayload r from payload =
    if bool_decide (cl_keyed r = true ∧ cl_groupKey c ∈ keys_of r ∧
                    cl_sid r = cl_sid c ∧ from = cl_self c)
    then emit r (Frame from (mkEnvelope svc (next_seq c svc) body)) else r.
Proof. apply sealed_payload. Qed.

(** ** What an operation writes *)

(** Everything but the outside: draws, writes, frames and events. *)
Definition core (c : Client) : Client :=
  put_events (put_sent (put_writes (put_draws c 0) 0) []) [].

Lemma writeFrame_cases `{Cbor T} c t (body : T) :
  (∃ frame, Encode t body = Ok frame ∧ conn_write (cl_writes c) = true ∧
     writeFrame c t body = (put_sent (put_writes c (cl_writes c + 1)) (cl_sent c ++ [frame]), Ok tt)) ∨
  (∃ e w, writeFrame c t body = (put_writes c w, Err e)).
Proof.
  unfold writeFrame. destruct (Encode t body) as [frame|e] eqn:E.
  - destruct (conn_write (cl_writes c)) eqn:Ew; simpl; [left; eauto|right; eauto].
  - right. exists (WireError e), (cl_writes c). by destruct c.
Qed.

Lemma writeFrame_core `{Cbor T} c t (body : T) : core (writeFrame c t body).1 = core c.
Proof. destruct (writeFrame_cases c t body) as [(f & _ & _ & ->)|(e & w & ->)]; done. Qed.

Lemma wrap_all_spec l i newKey sid i' outs :
  wrap_all i newKey sid l = (i', Some outs) →
  Forall2 (λ (p : ParticipantID * Key) (o : ParticipantID * GroupKey), o.1 = p.1 ∧
    ∃ j, WrapGroupKey j p.2 newKey RoleNone sid p.1 = Ok o.2) l outs.
Proof.
  revert i i' outs. induction l as [|[id pw] l IH]; intros i i' outs; simpl.
  { intros [= _ <-]. constructor. }
  destruct (WrapGroupKey _ _ _ _ _ _) as [gk|] eqn:Ew; [|done].
  destruct (wrap_all (i + 1) newKey sid l) as [i1 [outs1|]] eqn:E; simpl; [|done].
  intros [= _ <-]. constructor; [|by eapply IH]. simpl. eauto.
Qed.

(** A frame that delivers [newKey] to one member. *)
Definition rekey_frame (sid : SessionID) (newKey : Key) (id : ParticipantID) (pw : Key)
    (frame : bytes) : Prop :=
  ∃ j gk payload, WrapGroupKey j pw newKey RoleNone sid id = Ok gk ∧
    EncodePayload KindRekey gk = Ok payload ∧ Encode MsgDirect (mkDirect id 0 payload) = Ok frame.

Lemma send_rekey_cases c o :
  (∃ payload frame, EncodePayload KindRekey o.2 = Ok payload ∧
     Encode MsgDirect (mkDirect o.1 0 payload) = Ok frame ∧
     send_rekey c o = put_sent (put_writes c (cl_writes c + 1)) (cl_sent c ++ [frame])) ∨
  ∃ w, send_rekey c o = put_writes c w.
Proof.
  unfold send_rekey. destruct (EncodePayload KindRekey o.2) as [payload|] eqn:Ep.
  - destruct (writeFrame_cases c MsgDirect (mkDirect o.1 0 payload))
      as [(f & Ef & _ & ->)|(e & w & ->)]; [left|right]; eauto.
  - right. exists (cl_writes c). by destruct c.
Qed.

Lemma send_rekey_core c o : core (send_rekey c o) = core c.
Proof. destruct (send_rekey_cases c o) as [(? & ? & _ & _ & ->)|(w & ->)]; done. Qed.

Lemma send_rekeys_core outs c : core (foldl send_rekey c outs) = core c.
Proof.
  revert c. induction outs as [|o outs IH]; intros c; simpl; [done|].
  by rewrite IH, send_rekey_core.
Qed.

Lemma send_rekeys_events outs c : cl_events (foldl send_rekey c outs) = cl_events c.
Proof.
  revert c. induction outs as [|o outs IH]; intros c; simpl; [done|]. rewrite IH.
  destruct (send_rekey_cases c o) as [(? & ? & _ & _ & ->)|(w & ->)]; done.
Qed.

(** A link on which every write succeeds, and a working random source. *)
Definition healthy : Prop :=
  (∀ n, conn_write n = true) ∧ ∀ i n, is_Some (rand_read i n).

(** What a batch of rekeys writes: each frame is for a member of the batch, and on
    a working link every member gets its frame. *)
Definition rekey_for (o : ParticipantID * GroupKey) (f : bytes) : Prop :=
  ∃ payload, EncodePayload KindRekey o.2 = Ok payload ∧
    Encode MsgDirect (mkDirect o.1 0 payload) = Ok f.

Lemma send_rekeys_sent outs c :
  ∃ fs, cl_sent (foldl send_rekey c outs) = cl_sent c ++ fs ∧
    Forall (λ f, ∃ o, o ∈ outs ∧ rekey_for o f) fs ∧
    (healthy → ∀ o f, o ∈ outs → rekey_for o f → f ∈ fs).
Proof.
  revert c. induction outs as [|o outs IH]; intros c; simpl.
  { exists []. rewrite app_nil_r. split_and!; [done..|]. by intros _ o f ?%elem_of_nil. }
  destruct (IH (send_rekey c o)) as (fs & -> & Hfs & Hall).
  assert (Forall (λ f, ∃ o', o' ∈ o :: outs ∧ rekey_for o' f) fs) as Hfs'.
  { eapply Forall_impl; [exact Hfs|]. intros f (o' & ? & ?). exists o'. split; [by right|done]. }
  destruct (send_rekey_cases c o) as [(p & f & Ep & Ef & ->)|(w & E)].
  - exists (f :: fs). simpl. rewrite <- (assoc_L (++)). split; [done|]. split.
    + constructor; [|done]. exists o. split; [by left|]. by exists p.
    + intros Hh o' f' [->|Ho]%elem_of_cons Hf; [|right; by eapply Hall].
      destruct Hf as (p' & Ep' & Ef').
      rewrite Ep in Ep'. injection Ep' as <-. rewrite Ef in Ef'. injection Ef' as <-. by left.
  - exists fs. rewrite E. simpl. split; [done|]. split; [done|].
    intros Hh o' f' [->|Ho]%elem_of_cons Hf; [|by eapply Hall].
    exfalso. destruct Hf as (p & Ep & Ef). destruct Hh as [Hw _].
    apply (f_equal cl_sent) in E. simpl in E. unfold send_rekey in E. rewrite Ep in E.
    unfold writeFrame in E. rewrite Ef, Hw in E. simpl in E.
    apply (f_equal length) in E. rewrite length_app in E. simpl in E. lia.
Qed.

(** ** Rotation when a member leaves *)

Definition rotated (c : Client) (newKey : Key) : Client :=
  put_groupKey (put_prevKeys c (take prevKeyRing (cl_groupKey c :: cl_prevKeys c))) newKey.

Definition can_rotate (c : Client) : Prop :=
  cl_role c = RoleHost ∧ cl_hostID c = cl_self c ∧ cl_pairwise c ≠ ∅.

Lemma core_eq_fields c c' :
  core c = core c' →
  cl_groupKey c = cl_groupKey c' ∧ cl_prevKeys c = cl_prevKeys c' ∧
  cl_sid c = cl_sid c' ∧ cl_self c = cl_self c' ∧ cl_role c = cl_role c' ∧
  cl_hostID c = cl_hostID c' ∧ cl_keyed c = cl_keyed c' ∧ cl_pairwise c = cl_pairwise c' ∧
  cl_seqs c = cl_seqs c' ∧ cl_hostPairwise c = cl_hostPairwise c' ∧
  cl_haveHostPairwise c = cl_haveHostPairwise c' ∧ cl_joiners c = cl_joiners c' ∧
  cl_rekeyJoiner c = cl_rekeyJoiner c'.
Proof. destruct c, c'. unfold core. simpl. intros [= ]. by subst. Qed.

Lemma rotated_core c c2 newKey :
  core c2 = core c →
  core (put_groupKey (pushPrevKeyLocked c2 (cl_groupKey c2)) newKey) = core (rotated c newKey).
Proof.
  intros E. pose proof (core_eq_fields _ _ E) as (Eg & Ep & _). unfold rotated, pushPrevKeyLocked.
  rewrite Eg, Ep. destruct c2, c. unfold core in *. simpl in *. injection E as ?. by subst.
Qed.

(** Either nothing but randomness changes, or the key is rotated and each frame
    written takes the new key to a member the host has a pairwise key with. *)
Lemma rekey_cases c :
  (∃ n, rekeyAfterLeave c = put_draws c n) ∨
  (can_rotate c ∧ ∃ newKey fs,
     rand_read (cl_draws c) KeySize = Some newKey ∧
     core (rekeyAfterLeave c) = core (rotated c newKey) ∧
     cl_events (rekeyAfterLeave c) = cl_events c ∧
     cl_sent (rekeyAfterLeave c) = cl_sent c ++ fs ∧
     Forall (λ f, ∃ id pw, cl_pairwise c !! id = Some pw ∧
       rekey_frame (cl_sid c) newKey id pw f) fs).
Proof.
  unfold rekeyAfterLeave.
  destruct (_ || _ || _) eqn:Hg.
  { left. exists (cl_draws c). by destruct c. }
  apply orb_false_iff in Hg as [[H1 H2]%orb_false_iff H3].
  apply bool_decide_eq_false in H1, H2, H3. apply dec_stable in H1, H2.
  assert (can_rotate c) as Hcan.
  { split_and!; [done|done|]. intros E. apply H3. by rewrite E, map_size_empty. }
  unfold draw, NewGroupKey. cbn beta zeta iota.
  destruct (rand_read (cl_draws c) KeySize) as [newKey|] eqn:Er; simpl; [|left; eauto].
  destruct (wrap_all _ _ _ _) as [i [outs|]] eqn:Ew; [|left; eauto].
  right. split; [done|]. apply wrap_all_spec in Ew.
  set (c1 := put_draws _ i). destruct (send_rekeys_sent outs c1) as (fs & Hs & Hfs & _).
  exists newKey, fs. split; [done|].
  pose proof (send_rekeys_core outs c1) as Hc.
  split; [by apply rotated_core|]. split; [|split; [done|]].
  - simpl. by rewrite send_rekeys_events.
  - eapply Forall_impl; [exact Hfs|]. intros f (o & Ho & payload & Ep & Ef).
    apply list_elem_of_lookup in Ho as [k Hk].
    destruct (Forall2_lookup_r _ _ _ _ _ Ew Hk) as ([id pw] & Hl & Eid & j & Hw). simpl in *.
    exists id, pw. apply list_elem_of_lookup_2, elem_of_range in Hl.
    split; [done|]. subst id. by exists j, o.2, payload.
Qed.

Lemma ring_bound (k : Key) l : (length (take prevKeyRing (k :: l)) ≤ prevKeyRing)%nat.
Proof. rewrite length_take. lia. Qed.

(** The key material of a client: what it can open, and with whom it shares. *)
Lemma rekey_prev_bound c :
  (length (cl_prevKeys c) ≤ prevKeyRing)%nat →
  (length (cl_prevKeys (rekeyAfterLeave c)) ≤ prevKeyRing)%nat.
Proof.
  intros Hl. destruct (rekey_cases c) as [(n & ->)|(_ & k & fs & _ & Hc & _)]; [done|].
  apply core_eq_fields in Hc as (_ & -> & _). apply ring_bound.
Qed.

Lemma WrapGroupKey_total j pw k role sid id :
  healthy → key_wf pw → ∃ gk, WrapGroupKey j pw k role sid id = Ok gk.
Proof.
  intros [_ Hr] Hpw. unfold WrapGroupKey. rewrite (proj2 (NewX_Ok pw pw)) by done.
  destruct (Hr j nonce_len) as [n ->]. eauto.
Qed.

Lemma wrap_all_total l i newKey sid :
  healthy → Forall (λ p, key_wf p.2) l → ∃ i' outs, wrap_all i newKey sid l = (i', Some outs).
Proof.
  intros Hh Hl. revert i. induction Hl as [|[id pw] l Hp _ IH]; intros i; simpl; [eauto|].
  destruct (WrapGroupKey_total i pw newKey RoleNone sid id Hh Hp) as [gk ->].
  destruct (IH (i + 1)) as (i' & outs & ->). simpl. eauto.
Qed.

Lemma can_rotate_guard c : can_rotate c →
  bool_decide (cl_role c ≠ RoleHost) || bool_decide (cl_hostID c ≠ cl_self c)
  || bool_decide (size (cl_pairwise c) = 0%nat) = false.
Proof.
  intros (Hr & Hs & Hp). rewrite !bool_decide_eq_false_2; [done| |tauto|tauto].
  by intros ?%map_size_empty_inv.
Qed.

(** On a working link a host with members left always rotates, and every member
    it has a pairwise key with gets the new key. *)
Lemma rekey_reaches c :
  healthy → can_rotate c → map_Forall (λ _, key_wf) (cl_pairwise c) →
  ∃ newKey fs, rand_read (cl_draws c) KeySize = Some newKey ∧
    core (rekeyAfterLeave c) = core (rotated c newKey) ∧
    cl_sent (rekeyAfterLeave c) = cl_sent c ++ fs ∧
    Forall (λ f, ∃ id pw, cl_pairwise c !! id = Some pw ∧
      rekey_frame (cl_sid c) newKey id pw f) fs ∧
    ∀ id pw, cl_pairwise c !! id = Some pw → ∃ j gk,
      WrapGroupKey j pw newKey RoleNone (cl_sid c) id = Ok gk ∧
      ∀ f, rekey_for (id, gk) f → f ∈ fs.
Proof.
  intros Hh Hcan Hwf.
  assert (∀ l : list (ParticipantID * Key), range (cl_pairwise c) = l → Forall (λ p, key_wf p.2) l)
    as Hall.
  { intros l <-. apply Forall_forall. intros [i k] Hin%elem_of_range. by apply (Hwf i). }
  unfold rekeyAfterLeave. rewrite can_rotate_guard by done. unfold draw, NewGroupKey.
  cbn beta zeta iota.
  destruct (proj2 Hh (cl_draws c) KeySize) as [newKey Ek]. rewrite Ek. simpl of_option.
  cbn beta zeta iota. simpl cl_draws. simpl cl_sid. simpl cl_pairwise.
  destruct (wrap_all_total (range (cl_pairwise c)) (cl_draws c + 1) newKey (cl_sid c) Hh
    (Hall _ eq_refl)) as (i & outs & Ew).
  rewrite Ew. pose proof (wrap_all_spec _ _ _ _ _ _ Ew) as Hw.
  set (c1 := put_draws _ i). destruct (send_rekeys_sent outs c1) as (fs & Hs & Hfs & Hreach).
  exists newKey, fs. split; [done|]. split; [apply rotated_core; by rewrite send_rekeys_core|].
  split; [exact Hs|]. split.
  - eapply Forall_impl; [exact Hfs|]. intros f (o & Ho & payload & Ep & Ef).
    apply list_elem_of_lookup in Ho as [k Hk].
    destruct (Forall2_lookup_r _ _ _ _ _ Hw Hk) as ([id pw] & Hl & Eid & j & Hj). simpl in *.
    exists id, pw. apply list_elem_of_lookup_2, elem_of_range in Hl.
    split; [done|]. subst id. by exists j, o.2, payload.
  - intros id pw Hid. apply elem_of_range, list_elem_of_lookup in Hid as [k Hk].
    destruct (Forall2_lookup_l _ _ _ _ _ Hw Hk) as ([id' gk] & Ho & Eid & j & Hj).
    simpl in Eid, Hj. subst id'. exists j, gk. split; [done|]. intros f Hf.
    apply (Hreach Hh (id, gk)); [by eapply list_elem_of_lookup_2|done].
Qed.

Definition with_role (c : Client) (role : Role) : Client :=
  if bool_decide (role ≠ RoleNone) then put_role c role else c.

(** A member installs the key its host wrapped for it. *)
Lemma handlePayload_rekey m from j pw newKey role id gk payload :
  cl_haveHostPairwise m = true → cl_hostPairwise m = pw → from = cl_hostID m →
  cl_self m = id → key_wf newKey →
  WrapGroupKey j pw newKey role (cl_sid m) id = Ok gk → EncodePayload KindRekey gk = Ok payload →
  handlePayload m from payload = with_role (rotated m newKey) role.
Proof.
  intros Hh <- -> <- Hk Hw He.
  destruct (payload_decodes KindRekey gk payload (Wrap_nonce _ _ _ _ _ _ _ Hw) He)
    as (raw & Ed & Eb).
  unfold Session.handlePayload. rewrite Ed. simpl. unfold handleRekey.
  rewrite Hh, Eb, bool_decide_eq_true_2 by done. simpl.
  by rewrite (Unwrap_Wrap j _ newKey role).
Qed.

(** The host's state when [x]'s departure has been taken off its books. *)
Definition forget (c : Client) (x : ParticipantID) : Client :=
  emit (put_pairwise (put_joiners c (delete x (cl_joiners c))) (delete x (cl_pairwise c)))
    (MemberLeft x).

Lemma dispatch_left c raw x :
  Body ParticipantLeft raw = Ok (mkParticipantLeft x) →
  dispatchFrame c MsgParticipantLeft raw = (rekeyAfterLeave (forget c x), false).
Proof. intros Hb. unfold Session.dispatchFrame. simpl. by rewrite Hb. Qed.

(** A host that others remain with, on a working link, when [x] leaves. *)
Record departure (c : Client) (x : ParticipantID) (raw : bytes) : Prop := {
  dp_left : Body ParticipantLeft raw = Ok (mkParticipantLeft x);
  dp_healthy : healthy;
  dp_host : cl_role c = RoleHost ∧ cl_hostID c = cl_self c;
  dp_keys : map_Forall (λ _, key_wf) (cl_pairwise c);
  dp_others : delete x (cl_pairwise c) ≠ ∅
}.

Lemma departure_rotates c x raw :
  departure c x raw → can_rotate (forget c x) ∧ map_Forall (λ _, key_wf) (cl_pairwise (forget c x)).
Proof.
  intros [_ _ [Hr Hs] Hk Ho]. split; [done|]. simpl. by apply map_Forall_delete.
Qed.

Lemma departure_key c x raw :
  departure c x raw →
  let c' := (dispatchFrame c MsgParticipantLeft raw).1 in
  ∃ newKey fs, rand_read (cl_draws c) KeySize = Some newKey ∧
    core c' = core (rotated (forget c x) newKey) ∧ cl_sent c' = cl_sent c ++ fs ∧
    Forall (λ f, ∃ id pw, id ≠ x ∧ cl_pairwise c !! id = Some pw ∧
      rekey_frame (cl_sid c) newKey id pw f) fs ∧
    ∀ id pw, id ≠ x → cl_pairwise c !! id = Some pw → ∃ j gk,
      WrapGroupKey j pw newKey RoleNone (cl_sid c) id = Ok gk ∧
      ∀ f, rekey_for (id, gk) f → f ∈ fs.
Proof.
  intros Hd c'. destruct (departure_rotates _ _ _ Hd) as [Hcan Hk]. unfold c'.
  rewrite (dispatch_left c raw x) by apply Hd. simpl fst.
  destruct (rekey_reaches (forget c x) (dp_healthy _ _ _ Hd) Hcan Hk)
    as (newKey & fs & Hn & Hc & Hs & Hfs & Hall).
  exists newKey, fs. split; [done|]. split; [done|]. split; [done|]. split.
  - eapply Forall_impl; [exact Hfs|]. simpl. intros f (i & p & Hi & Hf).
    apply lookup_delete_Some in Hi as [Hne Hi]. exists i, p. auto.
  - intros id pw Hne Hid. apply Hall. simpl. by rewrite lookup_delete_ne.
Qed.

(** C8: forward secrecy on a leave.  When the host learns that [x] has left and
    others remain, it switches to a fresh random group key; every frame it writes
    for that goes to one remaining member and carries the new key wrapped under
    that member's pairwise key, none goes to [x]; and whatever the host seals from
    then on changes nothing in any client that does not hold the new key, whoever
    the relay says it is from. *)
Theorem leave_locks_out c x raw :
  departure c x raw → sid_wf (cl_sid c) → pid_wf (cl_self c) →
  let c' := (dispatchFrame c MsgParticipantLeft raw).1 in
  ∃ newKey fs, rand_read (cl_draws c) KeySize = Some newKey ∧ cl_groupKey c' = newKey ∧
    cl_sent c' = cl_sent c ++ fs ∧
    Forall (λ f, ∃ id pw, id ≠ x ∧ cl_pairwise c !! id = Some pw ∧
      rekey_frame (cl_sid c) newKey id pw f) fs ∧
    ∀ svc body c'' payload r from,
      utf8_valid svc → seal c' svc body = (c'', Ok payload) →
      sid_wf (cl_sid r) → pid_wf from → newKey ∉ keys_of r → handlePayload r from payload = r.
Proof.
  intros Hd Hsid Hself c'. destruct (departure_key c x raw Hd) as (k & fs & Hk & Hc & Hs & Hfs & _).
  apply core_eq_fields in Hc as (Eg & _ & Esid & Eself & _). fold c' in Eg, Esid, Eself, Hs.
  exists k, fs. split; [done|]. split; [done|]. split; [done|]. split; [done|].
  intros svc body c'' payload r from Hu Hseal Hr Hfrom Hk'.
  rewrite (sealed_payload c' svc body c'' payload r from); try done.
  - rewrite bool_decide_eq_false_2; [done|]. rewrite Eg. tauto.
  - by rewrite Esid.
  - by rewrite Eself.
Qed.

(** survivors follow the rotation without a gap.  For every member the host
    has a pairwise key with, the fresh key is wrapped under it, the frame that
    carries the wrap to the member (when it fits a frame) is among those written,
    and when the relay delivers it the member holds the host's new key as its
    current one, its role untouched, and still holds the key it had before (so
    frames sealed before the rotation and still in flight open too). *)
Theorem survivors_rekeyed c x raw id pw m :
  departure c x raw → id ≠ x → cl_pairwise c !! id = Some pw →
  cl_haveHostPairwise m = true → cl_hostPairwise m = pw → cl_hostID m = cl_self c →
  cl_self m = id → cl_sid m = cl_sid c →
  let c' := (dispatchFrame c MsgParticipantLeft raw).1 in
  ∃ j gk, WrapGroupKey j pw (cl_groupKey c') RoleNone (cl_sid c) id = Ok gk ∧
  ∀ payload f, EncodePayload KindRekey gk = Ok payload →
    Encode MsgDirect (mkDirect id 0 payload) = Ok f →
    f ∈ cl_sent c' ∧
    let m' := handlePayload m (cl_self c) payload in
    cl_groupKey m' = cl_groupKey c' ∧ cl_role m' = cl_role m ∧
    cl_groupKey m ∈ keys_of m' ∧ cl_keyed m' = cl_keyed m.
Proof.
  intros Hd Hne Hid Hh Hpw Hhost Hself Hsid c'.
  destruct (departure_key c x raw Hd) as (k & fs & Hk & Hc & Hs & _ & Hall).
  fold c' in Hc, Hs. apply core_eq_fields in Hc as (Eg & _). simpl in Eg.
  destruct (Hall id pw Hne Hid) as (j & gk & Hw & Hin).
  exists j, gk. rewrite Eg. split; [done|]. intros payload f Ep Ef.
  split; [rewrite Hs; apply elem_of_app; right; apply Hin; by exists payload|]. cbv zeta.
  rewrite (handlePayload_rekey m (cl_self c) j pw k RoleNone id gk payload); try done.
  - split; [done|]. split; [done|]. split; [|done]. right. by left.
  - by eapply rand_read_length.
  - by rewrite Hsid.
Qed.

(** no rotation without members to tell.  If the departing member was the
    only one the host shared a pairwise key with, the host keeps its group key:
    what it seals afterwards is still opened by a client holding the old key, the
    departed one included. *)
Theorem lone_host_keeps_key c x raw svc body c'' payload r :
  Body ParticipantLeft raw = Ok (mkParticipantLeft x) → delete x (cl_pairwise c) = ∅ →
  let c' := (dispatchFrame c MsgParticipantLeft raw).1 in
  sid_wf (cl_sid c) → pid_wf (cl_self c) → utf8_valid svc →
  seal c' svc body = (c'', Ok payload) →
  cl_keyed r = true → cl_sid r = cl_sid c → cl_groupKey r = cl_groupKey c →
  cl_groupKey c' = cl_groupKey c ∧
  handlePayload r (cl_self c) payload
  = emit r (Frame (cl_self c) (mkEnvelope svc (next_seq c svc) body)).
Proof.
  intros Hb Hp c' Hs Hi Hu Hseal Hr Hrs Hrk. subst c'. rewrite (dispatch_left c raw x Hb) in *.
  simpl fst in *. assert (∃ n, rekeyAfterLeave (forget c x) = put_draws (forget c x) n) as [n E].
  { destruct (rekey_cases (forget c x)) as [?|((_ & _ & Hn) & _)]; [done|]. by destruct Hn. }
  rewrite E in *. split; [done|].
  rewrite (sealed_payload (put_draws (forget c x) n) svc body c'' payload r (cl_self c));
    try done; [|by rewrite Hrs].
  rewrite bool_decide_eq_true_2; [done|]. simpl. rewrite <- Hrk. split_and!; try done. by left.
Qed.

(** ** The join handshake *)

Lemma frame_reads `{CborSpec T} t (body : T) f :
  cbor_wf body → Encode t body = Ok f →
  ∃ raw, readFrameConn (Some f) = Ok (t, raw) ∧ Body T raw = Ok body.
Proof.
  intros Hwf He. destruct (framed t body f Hwf He) as (raw & Hd & Hb). exists raw.
  unfold readFrameConn. by rewrite Hd.
Qed.

(** What a joiner waiting for its host lets pass. *)
Definition skippable (host : ParticipantID) (r : read) : Prop :=
  ∃ typ raw, readFrameConn r = Ok (typ, raw) ∧ typ ≠ MsgSessionClosed ∧
    (typ = MsgDirect → ∀ d, Body Direct raw = Ok d → d_From d ≠ host).

Lemma drive_skip c d noise reads :
  Forall (skippable (cl_hostID c)) noise → cl_keyed c = false →
  joinDriveHandshake c d (noise ++ reads) = joinDriveHandshake c d reads.
Proof.
  intros Hn Hk. induction Hn as [|r noise (typ & raw & Hr & Hc & Hd) _ IH]; [done|].
  simpl. rewrite Hk, Hr, bool_decide_eq_false_2 by done.
  case_bool_decide as Ht; [done|]. specialize (Hd Ht).
  destruct (Body Direct raw) as [dir|]; [|done]. by rewrite bool_decide_eq_true_2 by auto.
Qed.

(** One Direct payload from the host. *)
Lemma drive_step c d p r reads kind praw :
  cl_keyed c = false → pid_wf (cl_self c) → pid_wf (cl_hostID c) →
  Encode MsgDirect (mkDirect (cl_self c) (cl_hostID c) p) = Ok r →
  DecodePayload p = Ok (kind, praw) →
  joinDriveHandshake c d (Some r :: reads) =
    match joinHandleDirect c d kind praw with
    | (c, d, Ok _) => joinDriveHandshake c d reads
    | (c, d, Err e) => (c, Some (Err e, reads))
    end.
Proof.
  intros Hk Hs Hh He Hp.
  destruct (frame_reads MsgDirect (mkDirect (cl_self c) (cl_hostID c) p) r) as (raw & Hr & Hb);
    [by split|done|].
  cbn [joinDriveHandshake]. rewrite Hk, Hr.
  rewrite bool_decide_eq_false_2, bool_decide_eq_false_2 by (by intros ?).
  rewrite Hb. cbn [d_From d_Payload]. by rewrite bool_decide_eq_false_2, Hp by tauto.
Qed.

Lemma sendPake1_Ok c c1 jn :
  sendPake1 c = (c1, Ok jn) →
  NewJoiner (cl_draws c) (cl_proto c) (cl_phraseC c) = Ok jn ∧
  ∃ p f, EncodePayload KindPake1 (mkPake (j_Flight1 jn) (cl_observer c)) = Ok p ∧
    Encode MsgDirect (mkDirect (cl_hostID c) 0 p) = Ok f ∧
    c1 = put_sent (put_writes (put_draws c (cl_draws c + 1)) (cl_writes c + 1)) (cl_sent c ++ [f]).
Proof.
  unfold sendPake1, draw. cbn beta zeta iota. simpl cl_proto. simpl cl_phraseC.
  destruct (NewJoiner _ _ _) as [j|]; [|done].
  destruct (EncodePayload KindPake1 _) as [p|] eqn:Ep; [|done].
  destruct (writeFrame_cases (put_draws c (cl_draws c + 1)) MsgDirect (mkDirect (cl_hostID c) 0 p))
    as [(f & Ef & _ & E)|(e & w & E)]; simpl cl_hostID; rewrite E; [|done].
  intros [= <- <-]. split; [done|]. exists p, f. done.
Qed.

Lemma assign_role_unreserved c from b :
  assign_role rolePolicy c from b ≠ RoleNone ∧ assign_role rolePolicy c from b ≠ RoleHost.
Proof.
  unfold assign_role. destruct (_ || _) eqn:E; [done|].
  apply orb_false_iff in E as [E1 E2]. by apply bool_decide_eq_false in E1, E2.
Qed.

(** Two ends of one handshake: a joiner that has its identity, and the host. *)
Record pairing (j h : Client) : Prop := {
  pr_keyed : cl_keyed j = false;
  pr_host : cl_role h = RoleHost;
  pr_proto : cl_proto j = cl_proto h;
  pr_phrase : cl_phraseC j = cl_phraseC h;
  pr_sid : cl_sid j = cl_sid h;
  pr_hostID : cl_hostID j = cl_self h;
  pr_self_wf : pid_wf (cl_self j);
  pr_host_wf : pid_wf (cl_self h);
  pr_key : key_wf (cl_groupKey h)
}.

Lemma writeFrame_ok `{Cbor T} c t (body : T) f :
  healthy → Encode t body = Ok f →
  writeFrame c t body = (put_sent (put_writes c (cl_writes c + 1)) (cl_sent c ++ [f]), Ok tt).
Proof. intros [Hw _] He. unfold writeFrame. by rewrite He, Hw. Qed.

Lemma host_answers h id jn p1 spectate kh f2 p2 g2 w p3 g3 :
  healthy → cl_role h = RoleHost →
  EncodePayload KindPake1 (mkPake (j_Flight1 jn) spectate) = Ok p1 →
  HostExchange (cl_draws h) (cl_proto h) (cl_phraseC h) (j_Flight1 jn) (cl_sid h) id (cl_self h)
    = Ok (kh, f2) →
  let role := assign_role rolePolicy h id spectate in
  EncodePayload KindPake2 (mkPake f2 false) = Ok p2 → Encode MsgDirect (mkDirect id 0 p2) = Ok g2 →
  WrapGroupKey (cl_draws h + 1) kh (cl_groupKey h) role (cl_sid h) id = Ok w →
  EncodePayload KindGroupKey w = Ok p3 → Encode MsgDirect (mkDirect id 0 p3) = Ok g3 →
  let h' := handlePayload h id p1 in
  cl_sent h' = cl_sent h ++ [g2; g3] ∧ cl_events h' = cl_events h ++ [MemberKeyed id role] ∧
  cl_pairwise h' = <[id := kh]> (cl_pairwise h) ∧ cl_joiners h' = <[id := role]> (cl_joiners h) ∧
  cl_groupKey h' = cl_groupKey h.
Proof.
  intros Hw Hr Ep1 Hx role Ep2 Eg2 Ew Ep3 Eg3 h'.
  destruct (payload_decodes KindPake1 (mkPake (j_Flight1 jn) spectate) p1 I Ep1) as (raw & Ed & Eb).
  assert (∃ n, h' = emit (put_sent (put_writes (put_draws (put_pairwise (put_joiners h
    (<[id := role]> (cl_joiners h))) (<[id := kh]> (cl_pairwise h))) n) (cl_writes h + 1 + 1))
    ((cl_sent h ++ [g2]) ++ [g3])) (MemberKeyed id role)) as [n ->].
  2: { simpl. by rewrite <- (assoc_L (++)). }
  exists (cl_draws h + 1 + 1). unfold h', Session.handlePayload. rewrite Ed. simpl bool_decide.
  cbn iota. unfold handleHandshakeDirect. rewrite Hr. simpl orb. cbn iota.
  rewrite Eb. unfold draw. cbn beta zeta iota. cbn [pk_Data pk_Spectate]. simpl cl_proto.
  simpl cl_phraseC. simpl cl_sid. simpl cl_self. rewrite Hx.
  change (assign_role rolePolicy (put_draws h (cl_draws h + 1)) id spectate) with role.
  rewrite Ep2, (writeFrame_ok _ _ _ g2) by done. cbn beta zeta iota.
  simpl cl_draws. simpl cl_groupKey. simpl cl_sid. rewrite Ew, Ep3.
  by rewrite (writeFrame_ok _ _ _ g3) by done.
Qed.


Definition seated (c : Client) (key : Key) (role : Role) (pairwise : Key) : Client :=
  put_haveHostPairwise (put_hostPairwise (put_keyed (put_role (put_groupKey c key) role) true)
    pairwise) true.

(** The two answers of the host, with anything skippable around them, seat the
    joiner. *)
Lemma drive_completes c jn j' f2 pw w key role p2 p3 r2 r3 noise1 noise2 rest :
  cl_keyed c = false → pid_wf (cl_self c) → pid_wf (cl_hostID c) →
  Finish (cl_draws c) jn f2 (cl_sid c) (cl_self c) (cl_hostID c) = (j', Ok pw) →
  UnwrapGroupKey pw w (cl_sid c) (cl_self c) = Ok (key, role) → cbor_wf w →
  EncodePayload KindPake2 (mkPake f2 false) = Ok p2 → EncodePayload KindGroupKey w = Ok p3 →
  Encode MsgDirect (mkDirect (cl_self c) (cl_hostID c) p2) = Ok r2 →
  Encode MsgDirect (mkDirect (cl_self c) (cl_hostID c) p3) = Ok r3 →
  Forall (skippable (cl_hostID c)) noise1 → Forall (skippable (cl_hostID c)) noise2 →
  joinDriveHandshake c (mkDrive jn None) (noise1 ++ Some r2 :: noise2 ++ Some r3 :: rest)
  = (seated (put_draws c (cl_draws c + 1)) key role pw, Some (Ok tt, rest)).
Proof.
  intros Hk Hs Hh Hf Hu Hw Ep2 Ep3 Er2 Er3 Hn1 Hn2.
  destruct (payload_decodes KindPake2 (mkPake f2 false) p2 I Ep2) as (raw2 & Ed2 & Eb2).
  destruct (payload_decodes KindGroupKey w p3 Hw Ep3) as (raw3 & Ed3 & Eb3).
  rewrite drive_skip by done. rewrite (drive_step c _ p2 r2 _ KindPake2 raw2) by done.
  unfold joinHandleDirect at 1. cbn [bool_decide]. rewrite bool_decide_eq_true_2 by done.
  rewrite Eb2. unfold draw. cbn beta zeta iota. cbn [pk_Data dr_j].
  set (c1 := put_draws c (cl_draws c + 1)).
  change (cl_sid c1) with (cl_sid c). change (cl_self c1) with (cl_self c).
  change (cl_hostID c1) with (cl_hostID c). rewrite Hf.
  rewrite (drive_skip c1) by done. rewrite (drive_step c1 _ p3 r3 _ KindGroupKey raw3) by done.
  unfold joinHandleDirect. rewrite bool_decide_eq_false_2, bool_decide_eq_true_2 by done.
  cbn [dr_pairwise]. rewrite Eb3. change (cl_sid c1) with (cl_sid c).
  change (cl_self c1) with (cl_self c). rewrite Hu. by destruct rest.
Qed.

(** C7: the join handshake completes.  A joiner that knows the phrase sends its
    first flight; the host answers it with exactly two frames, assigns the role
    its policy gives (never a reserved one) and remembers the pairwise key; and
    when the relay delivers those frames as the host's, in order but with any
    membership notices, broadcasts or other members' traffic in between, the
    joiner is keyed: it holds the host's group key, the assigned role, and the
    very pairwise key the host remembers for it. *)
Theorem join_completes j h j1 jn kh f2 j' kj p2 p3 w g2 g3 r2 r3 noise1 noise2 rest :
  pairing j h → healthy → sendPake1 j = (j1, Ok jn) →
  let id := cl_self j in
  let role := assign_role rolePolicy h id (cl_observer j) in
  HostExchange (cl_draws h) (cl_proto h) (cl_phraseC h) (j_Flight1 jn) (cl_sid h) id (cl_self h)
    = Ok (kh, f2) →
  Finish (cl_draws j1) jn f2 (cl_sid j) id (cl_hostID j) = (j', Ok kj) →
  EncodePayload KindPake2 (mkPake f2 false) = Ok p2 →
  WrapGroupKey (cl_draws h + 1) kh (cl_groupKey h) role (cl_sid h) id = Ok w →
  EncodePayload KindGroupKey w = Ok p3 →
  Encode MsgDirect (mkDirect id 0 p2) = Ok g2 → Encode MsgDirect (mkDirect id 0 p3) = Ok g3 →
  Encode MsgDirect (mkDirect id (cl_self h) p2) = Ok r2 →
  Encode MsgDirect (mkDirect id (cl_self h) p3) = Ok r3 →
  Forall (skippable (cl_self h)) noise1 → Forall (skippable (cl_self h)) noise2 →
  ∃ p1 f1, cl_sent j1 = cl_sent j ++ [f1] ∧ Encode MsgDirect (mkDirect (cl_self h) 0 p1) = Ok f1 ∧
    let h' := handlePayload h id p1 in
    let '(jk, res) := joinDriveHandshake j1 (mkDrive jn None)
                        (noise1 ++ Some r2 :: noise2 ++ Some r3 :: rest) in
    cl_sent h' = cl_sent h ++ [g2; g3] ∧ cl_events h' = cl_events h ++ [MemberKeyed id role] ∧
    res = Some (Ok tt, rest) ∧ cl_keyed jk = true ∧ cl_groupKey jk = cl_groupKey h' ∧
    cl_role jk = role ∧ role ≠ RoleNone ∧ role ≠ RoleHost ∧
    cl_haveHostPairwise jk = true ∧ cl_pairwise h' !! id = Some (cl_hostPairwise jk).
Proof.
  intros [Hk Hr Hpr Hph Hsid Hhost Hsw Hhw Hkey] Hh Hsend id role Hx Hf Ep2 Ew Ep3 Eg2 Eg3 Er2 Er3
    Hn1 Hn2.
  apply sendPake1_Ok in Hsend as (Hj & p1 & f1 & Ep1 & Ef1 & Ej1).
  rewrite Hpr, Hph in Hj. rewrite Hsid, Hhost in Hf. rewrite Hhost in Ef1.
  destruct (handshake_keys _ _ _ _ _ _ _ _ _ _ _ _ _ Hj Hx Hf) as [-> Hkh].
  exists p1, f1. split; [by rewrite Ej1|]. split; [done|]. cbv zeta.
  destruct (host_answers h id jn p1 (cl_observer j) kh f2 p2 g2 w p3 g3 Hh Hr Ep1 Hx Ep2 Eg2 Ew Ep3 Eg3)
    as (Hs & He & Hp & _ & Hg).
  assert (cl_keyed j1 = false ∧ cl_self j1 = id ∧ cl_hostID j1 = cl_self h ∧ cl_sid j1 = cl_sid h)
    as (K1 & K2 & K3 & K4) by (rewrite Ej1; simpl; auto).
  rewrite (drive_completes j1 jn j' f2 kh w (cl_groupKey h) role p2 p3 r2 r3);
    rewrite ?K2, ?K3, ?K4; try done.
  - destruct (assign_role_unreserved h id (cl_observer j)). rewrite Hp, lookup_insert_eq.
    split_and!; done.
  - by eapply Unwrap_Wrap.
  - by eapply Wrap_nonce.
Qed.
End Spec.
