(* ===== verification/Sections.v ===== *)
(** * The client's critical sections (session/client.go, session/handshake.go)

    The client is used by several goroutines at once: its read loop, the mux, and
    whoever broadcasts.  Here every operation is written as the sequence of its
    critical sections: what it does under [c.mu] in one stretch, each write under
    [writeMu], each draw of randomness, each event.  [exec_dispatchFrame] and its
    like show that an operation that is left alone is the one of [Session]. *)
From S2P Require Import Prelude Wire Crypto Words Phrase Prog Session SessionSpec.

#[local] Open Scope N_scope.

Section Sections.
Context {WC : WireCodec} {AE : Aead} {HK : Hkdf} {PK : Pake_lib} {EN : Entropy} {CN : Conn}.
Context {MK : MapRange ParticipantID Key}.
Variable rolePolicy : ParticipantID → bool → gmap ParticipantID Role → Role.

Abbreviation go := (prog Client).

(** ** The kinds of section *)

Definition reads {A} (f : Client → A) : go A := atomic (λ c, (c, f c)).
Definition updates (f : Client → Client) : go unit := atomic (λ c, (f c, tt)).

(** A draw; it comes with the fields that are fixed once the client is keyed. *)
Record fixed := mkFixed { fx_proto : string; fx_phrase : string; fx_sid : SessionID;
                          fx_self : ParticipantID }.
Definition fixed_of (c : Client) : fixed :=
  mkFixed (cl_proto c) (cl_phraseC c) (cl_sid c) (cl_self c).
Definition draws : go (N * fixed) := atomic (λ c, let '(c, i) := draw c in (c, (i, fixed_of c))).

Definition writeFrame_p `{Cbor T} (t : MsgType) (body : T) : go (result session_error unit) :=
  atomic (λ c, writeFrame c t body).

Definition emit_p (e : Event) : go unit := updates (λ c, emit c e).

(** ** Sealing: numbered and keyed under the lock, written later *)

Definition seal_number (serviceID : string) (body : bytes) (c : Client) :
    Client * result session_error (Envelope * Key) :=
  if negb (cl_keyed c) then (c, Err NotKeyed)
  else
    let seq := wrap 64 (default 0 (cl_seqs c !! serviceID) + 1) in
    (put_seqs c (<[serviceID := seq]> (cl_seqs c)), Ok (mkEnvelope serviceID seq body, cl_groupKey c)).

Definition seal_p (serviceID : string) (body : bytes) : go (result session_error bytes) :=
  x ← atomic (seal_number serviceID body);
  match x with
  | Err e => mret (Err e)
  | Ok (env, key) =>
      match Marshal env with
      | None => mret (Err (WireError ErrEncode))
      | Some plain =>
          d ← draws;
          match Seal d.1 key plain (fx_sid d.2) (fx_self d.2) with
          | Err e => mret (Err (CryptoError e))
          | Ok sf => mret (lift_wire (EncodePayload KindSealed sf))
          end
      end
  end.

Definition Broadcast_p (serviceID : string) (body : bytes) : go (result session_error unit) :=
  x ← seal_p serviceID body;
  match x with
  | Err e => mret (Err e)
  | Ok payload => writeFrame_p MsgBroadcast (mkBroadcast 0 payload)
  end.

Definition SendTo_p (to : ParticipantID) (serviceID : string) (body : bytes) :
    go (result session_error unit) :=
  x ← seal_p serviceID body;
  match x with
  | Err e => mret (Err e)
  | Ok payload => writeFrame_p MsgDirect (mkDirect to 0 payload)
  end.

(** ** Rotation *)

Definition send_rekey_p (o : ParticipantID * GroupKey) : go unit :=
  match EncodePayload KindRekey o.2 with
  | Err _ => mret tt
  | Ok payload => _ ← writeFrame_p MsgDirect (mkDirect o.1 0 payload); mret tt
  end.

Fixpoint send_rekeys_p (outs : list (ParticipantID * GroupKey)) : go unit :=
  match outs with
  | [] => mret tt
  | o :: outs => _ ← send_rekey_p o; send_rekeys_p outs
  end.

(** The first section of [rekeyAfterLeave]: the fresh key and its wraps. *)
Definition rekey_prepare (c : Client) : Client * option (list (ParticipantID * GroupKey) * Key) :=
  if bool_decide (cl_role c ≠ RoleHost) || bool_decide (cl_hostID c ≠ cl_self c)
     || bool_decide (size (cl_pairwise c) = 0%nat) then (c, None)
  else
    let '(c, i) := draw c in
    match NewGroupKey i with
    | Err _ => (c, None)
    | Ok newKey =>
        let '(i, outs) := wrap_all (cl_draws c) newKey (cl_sid c) (range (cl_pairwise c)) in
        (put_draws c i, outs ← outs; Some (outs, newKey))
    end.

Definition install (key : Key) (c : Client) : Client :=
  put_groupKey (pushPrevKeyLocked c (cl_groupKey c)) key.

Definition rekeyAfterLeave_p : go unit :=
  x ← atomic rekey_prepare;
  match x with
  | None => mret tt
  | Some (outs, newKey) => _ ← send_rekeys_p outs; updates (install newKey)
  end.

Definition handleRekey_p (from : ParticipantID) (praw : bytes) : go unit :=
  g ← reads (λ c, (cl_haveHostPairwise c && bool_decide (from = cl_hostID c),
                   cl_hostPairwise c, fixed_of c));
  let '(ok, pw, fx) := g in
  if (ok : bool) then
    match Body GroupKey praw with
    | Err _ => mret tt
    | Ok gk =>
        match UnwrapGroupKey pw gk (fx_sid fx) (fx_self fx) with
        | Err _ => mret tt
        | Ok (key, role) =>
            updates (λ c, let c := install key c in
                          if bool_decide (role ≠ RoleNone) then put_role c role else c)
        end
    end
  else mret tt.

(** ** Migration *)

Definition BecomeHost_p : go unit := updates BecomeHost.
Definition SetHostID_p (id : ParticipantID) : go unit := updates (λ c, SetHostID c id).
Definition RotateForMigration_p : go unit := updates RotateForMigration.
Definition ClaimHost_p : go (result session_error unit) := writeFrame_p MsgClaimHost mkClaimHost.

Definition rekey_begin (c : Client) : Client * option (result session_error (ParticipantID * Joiner)) :=
  if bool_decide (cl_role c = RoleHost) || bool_decide (cl_hostID c = cl_self c)
     || negb (cl_keyed c) then (c, None)
  else
    let host := cl_hostID c in
    let '(c, i) := draw c in
    match NewJoiner i (cl_proto c) (cl_phraseC c) with
    | Err e => (c, Some (Err (CryptoError e)))
    | Ok j => (put_rekeyJoiner c (Some j), Some (Ok (host, j)))
    end.

Definition RekeyWithNewHost_p : go (result session_error unit) :=
  x ← atomic rekey_begin;
  match x with
  | None => mret (Ok tt)
  | Some (Err e) => mret (Err e)
  | Some (Ok (host, j)) =>
      match EncodePayload KindRekeyPake1 (mkPake (j_Flight1 j) false) with
      | Err e => mret (Err (WireError e))
      | Ok payload => writeFrame_p MsgDirect (mkDirect host 0 payload)
      end
  end.

(** ** The host's answers *)

(** After the store: the flight, then the key, wrapped as the kind says. *)
Definition answer_p (from : ParticipantID) (kind2 kindKey : PayloadKind) (flight2 : bytes)
    (pairwise key : Key) (role : Role) (k : go unit) : go unit :=
  match EncodePayload kind2 (mkPake flight2 false) with
  | Err _ => mret tt
  | Ok reply =>
      r ← writeFrame_p MsgDirect (mkDirect from 0 reply);
      match r with
      | Err _ => mret tt
      | Ok _ =>
          d ← draws;
          match WrapGroupKey d.1 pairwise key role (fx_sid d.2) from with
          | Err _ => mret tt
          | Ok wrapped =>
              match EncodePayload kindKey wrapped with
              | Err _ => mret tt
              | Ok gkPayload =>
                  r ← writeFrame_p MsgDirect (mkDirect from 0 gkPayload);
                  match r with
                  | Err _ => mret tt
                  | Ok _ => k
                  end
              end
          end
      end
  end.

Definition handleHandshakeDirect_p (from : ParticipantID) (kind : PayloadKind) (praw : bytes) :
    go unit :=
  isHost ← reads (λ c, bool_decide (cl_role c = RoleHost));
  if negb isHost || bool_decide (kind ≠ KindPake1) then mret tt
  else match Body Pake praw with
  | Err _ => mret tt
  | Ok p =>
      d ← draws;
      match HostExchange d.1 (fx_proto d.2) (fx_phrase d.2) (pk_Data p) (fx_sid d.2) from
              (fx_self d.2) with
      | Err _ => mret tt
      | Ok (pairwise, flight2) =>
          assigned ← reads cl_joiners;
          let role := rolePolicy from (pk_Spectate p) assigned in
          let role := if bool_decide (role = RoleNone) || bool_decide (role = RoleHost)
                      then RoleMember else role in
          key ← atomic (λ c, (put_pairwise (put_joiners c (<[from := role]> (cl_joiners c)))
                                (<[from := pairwise]> (cl_pairwise c)), cl_groupKey c));
          answer_p from KindPake2 KindGroupKey flight2 pairwise key role
            (emit_p (MemberKeyed from role))
      end
  end.

Definition handleRekeyPake1_p (from : ParticipantID) (praw : bytes) : go unit :=
  isHost ← reads (λ c, bool_decide (cl_role c = RoleHost) && bool_decide (cl_hostID c = cl_self c));
  if negb isHost then mret tt
  else match Body Pake praw with
  | Err _ => mret tt
  | Ok p =>
      d ← draws;
      match HostExchange d.1 (fx_proto d.2) (fx_phrase d.2) (pk_Data p) (fx_sid d.2) from
              (fx_self d.2) with
      | Err _ => mret tt
      | Ok (pairwise, flight2) =>
          key ← atomic (λ c, (put_pairwise c (<[from := pairwise]> (cl_pairwise c)), cl_groupKey c));
          answer_p from KindRekeyPake2 KindRekey flight2 pairwise key RoleNone (mret tt)
      end
  end.

(** [j.Finish] reads [c.hostID] outside the lock, and advances [j] in place: the
    client's exchange if that is still [j], told by its flight. *)
Definition handleRekeyPake2_p (from : ParticipantID) (praw : bytes) : go unit :=
  g ← reads (λ c, (cl_rekeyJoiner c, bool_decide (from = cl_hostID c)));
  match g with
  | (Some j, true) =>
      match Body Pake praw with
      | Err _ => mret tt
      | Ok p =>
          r ← atomic (λ c,
                let '(c, i) := draw c in
                let '(j', r) := Finish i j (pk_Data p) (cl_sid c) (cl_self c) (cl_hostID c) in
                (if bool_decide (j_Flight1 <$> cl_rekeyJoiner c = Some (j_Flight1 j))
                 then put_rekeyJoiner c (Some j') else c, r));
          match r with
          | Err _ => mret tt
          | Ok pairwise =>
              updates (λ c, put_rekeyJoiner (put_haveHostPairwise (put_hostPairwise c pairwise) true)
                              None)
          end
      end
  | _ => mret tt
  end.

(** ** The read loop *)

Definition openFrame_p (sf : SealedFrame) (sender : ParticipantID) : go (option bytes) :=
  g ← reads (λ c, (cl_keyed c, cl_groupKey c :: cl_prevKeys c, cl_sid c));
  let '(keyed, keys, sid) := g in
  if negb (keyed : bool) then mret None else mret (open_any keys sf sid sender).

Definition handlePayload_p (from : ParticipantID) (payload : bytes) : go unit :=
  match DecodePayload payload with
  | Err _ => mret tt
  | Ok (kind, praw) =>
      if bool_decide (kind = KindRekey) then handleRekey_p from praw
      else if bool_decide (kind = KindRekeyPake1) then handleRekeyPake1_p from praw
      else if bool_decide (kind = KindRekeyPake2) then handleRekeyPake2_p from praw
      else if bool_decide (kind ≠ KindSealed) then handleHandshakeDirect_p from kind praw
      else
        match Body SealedFrame praw with
        | Err _ => mret tt
        | Ok sf =>
            plain ← openFrame_p sf from;
            match plain with
            | None => mret tt
            | Some plain =>
                match Body Envelope plain with
                | Err _ => mret tt
                | Ok env => emit_p (Frame from env)
                end
            end
        end
  end.

Definition dispatchFrame_p (typ : MsgType) (raw : bytes) : go bool :=
  if bool_decide (typ = MsgParticipantJoined) then
    match Body ParticipantJoined raw with
    | Ok pj => _ ← emit_p (MemberJoined (pj_ParticipantID pj)); mret false
    | Err _ => mret false
    end
  else if bool_decide (typ = MsgParticipantLeft) then
    match Body ParticipantLeft raw with
    | Ok pl =>
        let id := pl_ParticipantID pl in
        _ ← updates (λ c, let c := put_joiners c (delete id (cl_joiners c)) in
                          put_pairwise c (delete id (cl_pairwise c)));
        _ ← emit_p (MemberLeft id);
        _ ← rekeyAfterLeave_p;
        mret false
    | Err _ => mret false
    end
  else if bool_decide (typ = MsgSessionClosed) then
    let reason := match Body SessionClosed raw with
                  | Ok sc => cl_Reason sc
                  | Err _ => EmptyString
                  end in
    _ ← emit_p (Closed reason); mret true
  else if bool_decide (typ = MsgDirect) then
    match Body Direct raw with
    | Ok d => _ ← handlePayload_p (d_From d) (d_Payload d); mret false
    | Err _ => mret false
    end
  else if bool_decide (typ = MsgBroadcast) then
    match Body Wire.Broadcast raw with
    | Ok b => _ ← handlePayload_p (b_From b) (b_Payload b); mret false
    | Err _ => mret false
    end
  else mret false.

Fixpoint readLoop_p (reads : list read) : go bool :=
  match reads with
  | [] => mret false
  | r :: reads =>
      match readFrameConn r with
      | Err _ => _ ← emit_p (Closed "connection lost"); mret true
      | Ok (typ, raw) =>
          stop ← dispatchFrame_p typ raw;
          if (stop : bool) then mret true else readLoop_p reads
      end
  end.

(** ** Left alone, they are the operations of [Session] *)

Lemma exec_mbind {A B} (p : go A) (k : A → go B) c :
  exec (x ← p; k x) c = exec (k (exec p c).2) (exec p c).1.
Proof. apply exec_pbind. Qed.

Lemma exec_seal svc body c : exec (seal_p svc body) c = seal c svc body.
Proof.
  unfold seal_p, seal. rewrite exec_mbind. simpl. unfold seal_number.
  destruct (negb (cl_keyed c)); [done|]. simpl. destruct (Marshal _) as [plain|]; [|done]. simpl.
  by destruct (Seal _ _ _ _ _).
Qed.

Lemma exec_Broadcast svc body c : exec (Broadcast_p svc body) c = BroadcastMsg c svc body.
Proof.
  unfold Broadcast_p, BroadcastMsg. rewrite exec_mbind, exec_seal.
  destruct (seal c svc body) as [c' [p|e]]; [|done]. simpl. by destruct (writeFrame _ _ _).
Qed.

Lemma exec_SendTo to svc body c : exec (SendTo_p to svc body) c = SendTo c to svc body.
Proof.
  unfold SendTo_p, SendTo. rewrite exec_mbind, exec_seal.
  destruct (seal c svc body) as [c' [p|e]]; [|done]. simpl. by destruct (writeFrame _ _ _).
Qed.

Lemma exec_send_rekeys outs c : exec (send_rekeys_p outs) c = (foldl send_rekey c outs, tt).
Proof.
  revert c. induction outs as [|o outs IH]; intros c; [done|]. simpl. rewrite exec_mbind.
  rewrite IH. unfold send_rekey_p, send_rekey. by destruct (EncodePayload KindRekey o.2).
Qed.

Lemma exec_rekeyAfterLeave c : exec rekeyAfterLeave_p c = (rekeyAfterLeave c, tt).
Proof.
  unfold rekeyAfterLeave_p, rekeyAfterLeave. rewrite exec_mbind. simpl. unfold rekey_prepare.
  destruct (_ || _); [done|]. simpl. destruct (NewGroupKey _) as [k|]; [|done].
  destruct (wrap_all _ _ _ _) as [i [outs|]]; [|done].
  simpl fst. simpl snd. cbn iota. by rewrite exec_mbind, exec_send_rekeys.
Qed.

Lemma exec_handleRekey from praw c : exec (handleRekey_p from praw) c = (handleRekey c from praw, tt).
Proof.
  unfold handleRekey_p, handleRekey. rewrite exec_mbind. simpl. destruct (_ && _); [|done].
  destruct (Body GroupKey praw) as [gk|]; [|done].
  by destruct (UnwrapGroupKey _ _ _ _) as [[key role]|].
Qed.

Lemma exec_RekeyWithNewHost c : exec RekeyWithNewHost_p c = RekeyWithNewHost c.
Proof.
  unfold RekeyWithNewHost_p, RekeyWithNewHost. rewrite exec_mbind. simpl. unfold rekey_begin.
  destruct (_ || _); [done|]. simpl. destruct (NewJoiner _ _ _) as [j|]; [|done]. simpl.
  destruct (EncodePayload _ _) as [p|]; [|done]. simpl. by destruct (writeFrame _ _ _).
Qed.

(** A write leaves what the answers are made of alone. *)
Lemma writeFrame_answers `{Cbor T} c t (body : T) c1 r :
  writeFrame c t body = (c1, r) → cl_groupKey c1 = cl_groupKey c ∧ fixed_of c1 = fixed_of c.
Proof.
  intros E. destruct (writeFrame_cases c t body) as [(f & _ & _ & E')|(e & w & E')];
    rewrite E' in E; by injection E as <- _.
Qed.

Lemma exec_answer from k2 kk f2 pw role k c :
  exec (answer_p from k2 kk f2 pw (cl_groupKey c) role k) c =
  match EncodePayload k2 (mkPake f2 false) with
  | Err _ => (c, tt)
  | Ok reply =>
      match writeFrame c MsgDirect (mkDirect from 0 reply) with
      | (c, Err _) => (c, tt)
      | (c, Ok _) =>
          let '(c, i) := draw c in
          match WrapGroupKey i pw (cl_groupKey c) role (cl_sid c) from with
          | Err _ => (c, tt)
          | Ok wrapped =>
              match EncodePayload kk wrapped with
              | Err _ => (c, tt)
              | Ok gkPayload =>
                  match writeFrame c MsgDirect (mkDirect from 0 gkPayload) with
                  | (c, Err _) => (c, tt)
                  | (c, Ok _) => exec k c
                  end
              end
          end
      end
  end.
Proof.
  unfold answer_p. destruct (EncodePayload k2 _) as [reply|]; [|done]. simpl.
  destruct (writeFrame _ _ _) as [c1 [[]|]] eqn:Ew; [|done]. simpl.
  apply writeFrame_answers in Ew as [<- _].
  destruct (WrapGroupKey _ _ _ _ _ _) as [w|]; [|done].
  destruct (EncodePayload kk w) as [gp|]; [|done]. simpl.
  by destruct (writeFrame _ _ (mkDirect from 0 gp)) as [c2 [[]|]].
Qed.

Lemma exec_handleRekeyPake1 from praw c :
  exec (handleRekeyPake1_p from praw) c = (handleRekeyPake1 c from praw, tt).
Proof.
  unfold handleRekeyPake1_p, handleRekeyPake1. simpl.
  rewrite !bool_decide_not, <- negb_andb. destruct (negb _); [done|].
  destruct (Body Pake praw) as [p|]; [|done]. simpl.
  destruct (HostExchange _ _ _ _ _ _ _) as [[pw f2]|]; [|done]. simpl.
  set (c1 := put_pairwise _ _). change (cl_groupKey c) with (cl_groupKey c1). rewrite exec_answer.
  repeat (simpl; case_match; simplify_eq/=; try done).
Qed.

Lemma exec_handleHandshakeDirect from kind praw c :
  exec (handleHandshakeDirect_p from kind praw) c
  = (handleHandshakeDirect rolePolicy c from kind praw, tt).
Proof.
  unfold handleHandshakeDirect_p, handleHandshakeDirect. simpl. rewrite !bool_decide_not.
  destruct (negb _ || negb _); [done|]. destruct (Body Pake praw) as [p|]; [|done]. simpl.
  destruct (HostExchange _ _ _ _ _ _ _) as [[pw f2]|]; [|done]. simpl.
  set (c1 := put_pairwise _ _). change (cl_groupKey c) with (cl_groupKey c1).
  change (cl_joiners c) with (cl_joiners (put_draws c (cl_draws c + 1))).
  fold (assign_role rolePolicy (put_draws c (cl_draws c + 1)) from (pk_Spectate p)) in c1 |- *.
  rewrite exec_answer.
  repeat (simpl; case_match; simplify_eq/=; try done).
Qed.

Lemma exec_handleRekeyPake2 from praw c :
  exec (handleRekeyPake2_p from praw) c = (handleRekeyPake2 c from praw, tt).
Proof.
  unfold handleRekeyPake2_p, handleRekeyPake2. simpl. rewrite bool_decide_not.
  destruct (cl_rekeyJoiner c) as [j|] eqn:Ej; [|done].
  destruct (bool_decide (from = cl_hostID c)); [|done]. simpl.
  destruct (Body Pake praw) as [p|]; [|done]. simpl.
  destruct (Finish _ _ _ _ _ _) as [j' r]. simpl. rewrite Ej, bool_decide_eq_true_2 by done.
  by destruct r.
Qed.

Lemma exec_handlePayload from payload c :
  exec (handlePayload_p from payload) c = (handlePayload rolePolicy c from payload, tt).
Proof.
  unfold handlePayload_p, handlePayload. destruct (DecodePayload payload) as [[kind praw]|]; [|done].
  case_bool_decide; [apply exec_handleRekey|]. case_bool_decide; [apply exec_handleRekeyPake1|].
  case_bool_decide; [apply exec_handleRekeyPake2|].
  case_bool_decide; [apply exec_handleHandshakeDirect|].
  destruct (Body SealedFrame praw) as [sf|]; [|done]. rewrite exec_mbind. unfold openFrame_p, openFrame.
  simpl. destruct (negb (cl_keyed c)); [done|]. simpl.
  by repeat (case_match; simplify_eq/=).
Qed.

(** The sections of a frame's handling, run without interruption, are
    [dispatchFrame]. *)
Lemma exec_dispatchFrame typ raw c :
  exec (dispatchFrame_p typ raw) c = dispatchFrame rolePolicy c typ raw.
Proof.
  unfold dispatchFrame_p, dispatchFrame.
  case_bool_decide; [by destruct (Body ParticipantJoined raw)|].
  case_bool_decide.
  { destruct (Body ParticipantLeft raw) as [pl|]; [|done].
    by rewrite !exec_mbind, exec_rekeyAfterLeave. }
  case_bool_decide; [done|].
  case_bool_decide.
  { destruct (Body Direct raw) as [d|]; [|done]. by rewrite exec_mbind, exec_handlePayload. }
  case_bool_decide; [|done].
  destruct (Body Wire.Broadcast raw) as [b|]; [|done]. by rewrite exec_mbind, exec_handlePayload.
Qed.

Lemma exec_readLoop reads c : exec (readLoop_p reads) c = readLoop rolePolicy c reads.
Proof.
  revert c. induction reads as [|r reads IH]; intros c; [done|]. simpl.
  destruct (readFrameConn r) as [[typ raw]|]; [|done]. rewrite exec_mbind, exec_dispatchFrame.
  destruct (dispatchFrame rolePolicy c typ raw) as [c' []]; simpl; [done|apply IH].
Qed.
End Sections.
