(* ===== verification/Interleave.v ===== *)
(** * A host among its goroutines

    While a host's read loop rotates the group key, other goroutines of the same
    client broadcast.  Their critical sections ([Sections]) interleave in any
    order, and a member only sees the frames in the order in which they were
    written.  The member follows all the same: everything written for it opens. *)
From S2P Require Import Prelude Wire Crypto Words Phrase Prog Session SessionSpec Sections.

#[local] Open Scope N_scope.

Section Interleave.
Context {WC : WireCodec} {WS : WireCodecSpec} {AE : Aead} {AS : AeadSpec} {HK : Hkdf}.
Context {PK : Pake_lib} {PS : PakeSpec} {EN : Entropy} {CN : Conn}.
Context {MK : MapRange ParticipantID Key}.
Variable rolePolicy : ParticipantID → bool → gmap ParticipantID Role → Role.

Abbreviation handlePayload := (handlePayload rolePolicy).

(** ** What a member makes of the frames its host has written *)

(** The payload of a host's frame that the relay hands to [id]. *)
Definition inner (id : ParticipantID) (f : bytes) : option bytes :=
  match readFrameConn (Some f) with
  | Err _ => None
  | Ok (typ, raw) =>
      if bool_decide (typ = MsgDirect) then
        match Body Direct raw with
        | Ok d => if bool_decide (d_To d = id) then Some (d_Payload d) else None
        | Err _ => None
        end
      else if bool_decide (typ = MsgBroadcast) then
        match Body Wire.Broadcast raw with Ok b => Some (b_Payload b) | Err _ => None end
      else None
  end.

Definition kind_of (p : bytes) : option PayloadKind :=
  match DecodePayload p with Ok (k, _) => Some k | Err _ => None end.

Definition hears (self id : ParticipantID) (m : Client) (f : bytes) : Client :=
  match inner id f with Some p => handlePayload m self p | None => m end.

Definition count (id : ParticipantID) (k : PayloadKind) (fs : list bytes) : nat :=
  length (filter (λ f, inner id f ≫= kind_of = Some k) fs).

Lemma count_app id k fs fs' : count id k (fs ++ fs') = (count id k fs + count id k fs')%nat.
Proof. unfold count. by rewrite filter_app, length_app. Qed.

Lemma count_one id k f : count id k [f] = if decide (inner id f ≫= kind_of = Some k) then 1%nat else 0%nat.
Proof. unfold count. rewrite filter_cons. by destruct (decide _). Qed.

Lemma inner_direct id to p f :
  pid_wf to → Encode MsgDirect (mkDirect to 0 p) = Ok f →
  inner id f = if bool_decide (to = id) then Some p else None.
Proof.
  intros Hto Ef. destruct (frame_reads MsgDirect (mkDirect to 0 p) f) as (raw & Hr & Hb);
    [by split|done|]. unfold inner. by rewrite Hr, bool_decide_eq_true_2, Hb.
Qed.

Lemma inner_broadcast id p f :
  Encode MsgBroadcast (mkBroadcast 0 p) = Ok f → inner id f = Some p.
Proof.
  intros Ef. destruct (frame_reads MsgBroadcast (mkBroadcast 0 p) f) as (raw & Hr & Hb);
    [done|done|]. unfold inner. rewrite Hr, bool_decide_eq_false_2 by done.
  by rewrite bool_decide_eq_true_2, Hb.
Qed.

Lemma kind_of_Encode `{Cbor T} k (body : T) p : EncodePayload k body = Ok p → kind_of p = Some k.
Proof. unfold EncodePayload, kind_of. destruct (marshal body); [|done]. by intros [= <-]. Qed.

(** ** The host and one of its members *)

(** The host before, the member then, and the pairwise key they share. *)
Variables (c0 m0 : Client) (id : ParticipantID) (pw : Key).
Abbreviation self := (cl_self c0).

Definition news (c : Client) : list bytes := drop (length (cl_sent c0)) (cl_sent c).
Definition view (c : Client) : Client := foldl (hears self id) m0 (news c).
Definition rot (c : Client) : nat := count id KindRekey (news c).
Definition msgs (c : Client) : nat := count id KindSealed (news c).

(** The keys the member has had since the beginning, and then some. *)
Definition known (c : Client) : list Key := take (1 + rot c) (keys_of (view c)).

(** What a member must keep to follow its host. *)
Record follows_host (m : Client) : Prop := {
  fh_keyed : cl_keyed m = true;
  fh_sid : cl_sid m = cl_sid c0;
  fh_host : cl_hostID m = self;
  fh_self : cl_self m = id;
  fh_have : cl_haveHostPairwise m = true;
  fh_pw : cl_hostPairwise m = pw }.

(** What the host's own sections preserve about the host. *)
Definition stat (c : Client) :=
  (fixed_of c, cl_keyed c, cl_role c, cl_hostID c, cl_groupKey c, cl_pairwise c).

Record host_wf (c : Client) : Prop := {
  hw_fixed : fixed_of c = fixed_of c0;
  hw_keyed : cl_keyed c = true;
  hw_role : cl_role c = RoleHost;
  hw_host : cl_hostID c = self;
  hw_pw : cl_pairwise c !! id = Some pw;
  hw_ids : map_Forall (λ i _, pid_wf i) (cl_pairwise c) }.

Record inv (c : Client) : Prop := {
  in_sent : cl_sent c0 `prefix_of` cl_sent c;
  in_host : host_wf c;
  in_view : follows_host (view c);
  in_key : cl_groupKey c ∈ known c;
  in_rot : (rot c ≤ prevKeyRing)%nat;
  in_heard : ∃ es, cl_events (view c) = cl_events m0 ++ es ∧ length es = msgs c ∧
    Forall (λ e, ∃ env, e = Frame self env) es }.

(** What every section does at most, and what those of the senders do at most. *)
Record ext (c c' : Client) : Prop := {
  ex_sent : cl_sent c `prefix_of` cl_sent c';
  ex_known : known c ⊆ known c';
  ex_events : cl_events (view c) `prefix_of` cl_events (view c') }.

Record calm (c c' : Client) : Prop := {
  ca_ext : ext c c';
  ca_stat : stat c' = stat c;
  ca_rot : rot c' = rot c;
  ca_keys : keys_of (view c') = keys_of (view c) }.

#[global] Instance ext_preorder : PreOrder ext.
Proof.
  split; [by split|]. intros c1 c2 c3 [A1 A2 A3] [B1 B2 B3].
  split; [by etrans|set_solver|by etrans].
Qed.

#[global] Instance calm_preorder : PreOrder calm.
Proof.
  split; [intros c; by split|]. intros c1 c2 c3 [A1 A2 A3 A4] [B1 B2 B3 B4].
  split; [by etrans|congruence..].
Qed.

(** The numbers the member has seen for a service. *)
Definition numbers (svc : string) (c : Client) : list N :=
  omap (λ e, match e with
             | Frame _ env => if bool_decide (env_ServiceID env = svc) then Some (env_Seq env) else None
             | _ => None
             end) (cl_events (view c)).

Definition quiet_on (svc : string) (c c' : Client) : Prop :=
  cl_seqs c' !! svc = cl_seqs c !! svc ∧ numbers svc c' = numbers svc c.

(** What a sender that uses the services [P] does. *)
Record speaks (P : string → Prop) (c c' : Client) : Prop := {
  sp_calm : calm c c';
  sp_quiet : ∀ svc, ¬ P svc → quiet_on svc c c' }.

(** What the reader does: it neither numbers nor seals. *)
Record rotates (c c' : Client) : Prop := {
  ro_ext : ext c c';
  ro_seqs : cl_seqs c' = cl_seqs c;
  ro_events : cl_events (view c') = cl_events (view c) }.

Lemma rotates_quiet svc c c' : rotates c c' → quiet_on svc c c'.
Proof. intros [_ Hs He]. unfold quiet_on, numbers. by rewrite Hs, He. Qed.

(** *** One more frame *)

Section Append.
Variables (c c' : Client) (f : bytes).
Hypothesis Hsent : cl_sent c0 `prefix_of` cl_sent c.
Hypothesis Happ : cl_sent c' = cl_sent c ++ [f].

Lemma news_app : news c' = news c ++ [f].
Proof.
  unfold news. rewrite Happ, drop_app_le; [done|]. by apply prefix_length.
Qed.

Lemma view_app : view c' = hears self id (view c) f.
Proof. unfold view. by rewrite news_app, foldl_app. Qed.

Lemma rot_app : rot c' = (rot c + count id KindRekey [f])%nat.
Proof. unfold rot. by rewrite news_app, count_app. Qed.

Lemma msgs_app : msgs c' = (msgs c + count id KindSealed [f])%nat.
Proof. unfold msgs. by rewrite news_app, count_app. Qed.
End Append.

(** No frame at all. *)
Lemma same_sent c c' :
  cl_sent c' = cl_sent c → view c' = view c ∧ rot c' = rot c ∧ msgs c' = msgs c ∧ known c' = known c.
Proof. intros E. unfold known, rot, msgs, view, news. by rewrite E. Qed.

Lemma stat_fields c c' :
  stat c' = stat c →
  fixed_of c' = fixed_of c ∧ cl_keyed c' = cl_keyed c ∧ cl_role c' = cl_role c ∧
  cl_hostID c' = cl_hostID c ∧ cl_groupKey c' = cl_groupKey c ∧ cl_pairwise c' = cl_pairwise c.
Proof.
  intros E. pose proof (λ A (f : _ → A), f_equal f E) as P. split_and!.
  - exact (P _ (λ x, x.1.1.1.1.1)).
  - exact (P _ (λ x, x.1.1.1.1.2)).
  - exact (P _ (λ x, x.1.1.1.2)).
  - exact (P _ (λ x, x.1.1.2)).
  - exact (P _ (λ x, x.1.2)).
  - exact (P _ (λ x, x.2)).
Qed.

Lemma host_wf_stat c c' : host_wf c → stat c' = stat c → host_wf c'.
Proof. intros [] (? & ? & ? & ? & _ & E)%stat_fields. split; rewrite ?E; first [done|congruence]. Qed.

Lemma stat_key c c' : stat c' = stat c → cl_groupKey c' = cl_groupKey c.
Proof. intros H%stat_fields. apply H. Qed.

Lemma ext_quiet c c' : cl_sent c' = cl_sent c → ext c c'.
Proof. intros E. destruct (same_sent c c' E) as (Ev & _ & _ & Ek). by split; rewrite ?E, ?Ev, ?Ek. Qed.

(** A section that writes nothing: on the sender's side, and on the reader's. *)
Lemma inv_silent c c' :
  inv c → cl_sent c' = cl_sent c → host_wf c' → cl_groupKey c' ∈ known c → inv c'.
Proof.
  intros [] E Hw Hk. destruct (same_sent c c' E) as (Ev & Er & Em & Ek).
  split; rewrite ?E, ?Ev, ?Er, ?Em, ?Ek; done.
Qed.

Lemma inv_quiet c c' : inv c → stat c' = stat c → cl_sent c' = cl_sent c → inv c' ∧ calm c c'.
Proof.
  intros Hi Hs E. destruct (same_sent c c' E) as (Ev & Er & _). split.
  - apply (inv_silent c); [done|done|by eapply host_wf_stat; [apply Hi|]|].
    rewrite (stat_key _ _ Hs). apply Hi.
  - split; [by apply ext_quiet|done|done|by rewrite Ev].
Qed.

(** A frame that is not for the member. *)
Lemma inv_skip c c' f :
  inv c → stat c' = stat c → cl_sent c' = cl_sent c ++ [f] → inner id f = None →
  inv c' ∧ calm c c' ∧ view c' = view c.
Proof.
  intros Hi Hs E Hf. pose proof (in_sent c Hi) as Hp.
  pose proof (view_app c c' f Hp E) as Ev. pose proof (rot_app c c' f Hp E) as Er.
  pose proof (msgs_app c c' f Hp E) as Em. unfold hears in Ev. rewrite count_one, Hf in *.
  simpl in *. rewrite Nat.add_0_r in *.
  assert (known c' = known c) as Ek by (unfold known; by rewrite Ev, Er).
  split; [|split; [|done]]; split; rewrite ?E, ?Ev, ?Er, ?Em, ?Ek, ?(stat_key _ _ Hs);
    try apply Hi; try done.
  - etrans; [exact Hp|by apply prefix_app_r].
  - by eapply host_wf_stat; [apply Hi|].
  - split; rewrite ?E, ?Ev, ?Ek; try done. by apply prefix_app_r.
Qed.

Hypothesis Hsid : sid_wf (cl_sid c0).
Hypothesis Hself : pid_wf self.

Lemma known_held c k : k ∈ known c → k ∈ keys_of (view c).
Proof. unfold known. apply subseteq_take. Qed.

(** A sealed frame for the member, under a key it has. *)
Lemma inv_sealed c c' f i k env plain sf payload :
  inv c → stat c' = stat c → cl_sent c' = cl_sent c ++ [f] → k ∈ known c →
  inner id f = Some payload → cbor_wf env → Marshal env = Some plain →
  Seal i k plain (cl_sid c0) self = Ok sf → EncodePayload KindSealed sf = Ok payload →
  inv c' ∧ calm c c' ∧ cl_events (view c') = cl_events (view c) ++ [Frame self env].
Proof.
  intros Hi Hs E Hk Hf Hwf Em Es Ee. pose proof (in_sent c Hi) as Hp.
  pose proof (view_app c c' f Hp E) as Ev. pose proof (rot_app c c' f Hp E) as Er.
  pose proof (msgs_app c c' f Hp E) as En. destruct (in_view c Hi) as [V1 V2 V3 V4 V5 V6].
  pose proof (kind_of_Encode _ _ _ Ee) as Hkd.
  unfold hears in Ev. rewrite count_one, Hf in *. simpl in *. rewrite Hkd in *.
  rewrite (sealed_parts rolePolicy i k (cl_sid c0) self env plain sf payload) in Ev
    by (by rewrite ?V2).
  rewrite bool_decide_eq_true_2 in Ev by (split_and!; try done; by apply known_held).
  simpl in *. rewrite Nat.add_0_r in Er.
  assert (known c' = known c) as Ek by (unfold known; by rewrite Ev, Er).
  destruct (in_heard c Hi) as (es & H1 & H2 & H3).
  assert (cl_events (view c') = cl_events (view c) ++ [Frame self env]) as Hev by (by rewrite Ev).
  split; [|split].
  - split; rewrite ?E, ?Er, ?En, ?Ek, ?(stat_key _ _ Hs); try apply Hi.
    + etrans; [exact Hp|by apply prefix_app_r].
    + by eapply host_wf_stat; [apply Hi|].
    + by rewrite Ev.
    + exists (es ++ [Frame self env]). rewrite Hev, H1, length_app, (assoc_L (++)). simpl.
      split; [done|]. split; [by rewrite H2|]. apply Forall_app. split; [done|].
      constructor; [by exists env|done].
  - split; [|done|done|by rewrite Ev]. split; rewrite ?E, ?Ek, ?Hev; try done; by apply prefix_app_r.
  - done.
Qed.

(** The frame that brings the member the next key. *)
Lemma inv_rekey c c' f i k gk payload :
  inv c → stat c' = stat c → cl_sent c' = cl_sent c ++ [f] → (rot c < prevKeyRing)%nat →
  inner id f = Some payload → key_wf k → WrapGroupKey i pw k RoleNone (cl_sid c0) id = Ok gk →
  EncodePayload KindRekey gk = Ok payload →
  inv c' ∧ ext c c' ∧ rot c' = (rot c + 1)%nat ∧ k ∈ known c' ∧ cl_groupKey (view c') = k ∧
  cl_events (view c') = cl_events (view c).
Proof.
  intros Hi Hs E Hr Hf Hkw Ew Ee. pose proof (in_sent c Hi) as Hp.
  pose proof (view_app c c' f Hp E) as Ev. pose proof (rot_app c c' f Hp E) as Er.
  pose proof (msgs_app c c' f Hp E) as En. destruct (in_view c Hi) as [V1 V2 V3 V4 V5 V6].
  pose proof (kind_of_Encode _ _ _ Ee) as Hkd.
  unfold hears in Ev. rewrite count_one, Hf in *. simpl in *. rewrite Hkd in *.
  rewrite (handlePayload_rekey rolePolicy (view c) self i pw k RoleNone id gk payload) in Ev
    by (by rewrite ?V2).
  unfold with_role in Ev. simpl in *. rewrite Nat.add_0_r in En.
  assert (known c' = k :: known c) as Ek.
  { trans (take (S (1 + rot c)) (k :: take prevKeyRing (keys_of (view c)))).
    { unfold known. rewrite Er, Ev. f_equal. lia. }
    rewrite firstn_cons, take_take, Nat.min_l by lia. done. }
  split; [|split; [|split; [done|split; [rewrite Ek; by left|split; by rewrite Ev]]]].
  - split; rewrite ?E, ?Er, ?En, ?Ek, ?(stat_key _ _ Hs); try apply Hi.
    + etrans; [exact Hp|by apply prefix_app_r].
    + by eapply host_wf_stat; [apply Hi|].
    + by rewrite Ev.
    + right. apply Hi.
    + lia.
    + rewrite Ev. apply Hi.
  - split; rewrite ?E, ?Ek, ?Ev; [by apply prefix_app_r|set_solver|done].
Qed.

(** ** Those who broadcast *)

Inductive utterance :=
| Say (svc : string) (body : bytes)
| Tell (to : ParticipantID) (svc : string) (body : bytes).

Definition said (u : utterance) : string * bytes :=
  match u with Say svc body | Tell _ svc body => (svc, body) end.
Definition for_member (u : utterance) : Prop :=
  match u with Say _ _ => True | Tell to _ _ => to = id end.
Definition utterance_wf (u : utterance) : Prop :=
  utf8_valid (said u).1 ∧ match u with Say _ _ => True | Tell to _ _ => pid_wf to end.
Definition heard (u : utterance) (c : Client) : Prop :=
  ∃ seq, Frame self (mkEnvelope (said u).1 seq (said u).2) ∈ cl_events (view c).

(** Whether the call returned without error. *)
Definition utter (u : utterance) : prog Client bool :=
  r ← match u with
      | Say svc body => Broadcast_p svc body
      | Tell to svc body => SendTo_p to svc body
      end;
  mret (match r with Ok _ => true | Err _ => false end).

Fixpoint talk (us : list utterance) : prog Client (list bool) :=
  match us with
  | [] => mret []
  | u :: us => r ← utter u; rs ← talk us; mret (r :: rs)
  end.

#[global] Instance for_member_dec u : Decision (for_member u).
Proof. destruct u; apply _. Defined.

Lemma heard_ext u c c' : ext c c' → heard u c → heard u c'.
Proof. intros [_ _ [l E]] [seq H]. exists seq. rewrite E. set_solver. Qed.

(** A payload that is sealed and not yet written. *)
Definition sealed_for (env : Envelope) (payload : bytes) (c : Client) : Prop :=
  ∃ i k plain sf, k ∈ known c ∧ in_width 64 (env_Seq env) ∧ Marshal env = Some plain ∧
    Seal i k plain (cl_sid c0) self = Ok sf ∧ EncodePayload KindSealed sf = Ok payload.

Lemma sealed_ext env payload c c' : ext c c' → sealed_for env payload c → sealed_for env payload c'.
Proof. intros [_ Hk _] (i & k & plain & sf & Hin & H). exists i, k, plain, sf. set_solver. Qed.

Lemma fixed_sid c : inv c → fx_sid (fixed_of c) = cl_sid c0 ∧ fx_self (fixed_of c) = self.
Proof. intros [_ [-> _ _ _ _ _] _ _ _ _]. done. Qed.

Lemma numbers_same svc c c' : view c' = view c → numbers svc c' = numbers svc c.
Proof. intros E. unfold numbers. by rewrite E. Qed.

Lemma numbers_frame svc c c' env :
  cl_events (view c') = cl_events (view c) ++ [Frame self env] →
  numbers svc c' = numbers svc c ++
    (if bool_decide (env_ServiceID env = svc) then [env_Seq env] else []).
Proof. intros E. unfold numbers. rewrite E, omap_app. simpl. by case_bool_decide. Qed.

Hypothesis writes : ∀ n, conn_write n = true.

Lemma writeFrame_writes `{Cbor T} c t (body : T) :
  writeFrame c t body = match Encode t body with
  | Err e => (c, Err (WireError e))
  | Ok f => (put_sent (put_writes c (cl_writes c + 1)) (cl_sent c ++ [f]), Ok tt)
  end.
Proof. unfold writeFrame. rewrite writes. by destruct (Encode t body). Qed.

(** A goroutine that uses the services [P], among which [O] are its alone. *)
Section Speaker.
Variables P O : string → Prop.

Record undisturbed (c c' : Client) : Prop := {
  un_ext : ext c c';
  un_own : ∀ svc, O svc → quiet_on svc c c' }.

#[local] Instance undisturbed_preorder : PreOrder undisturbed.
Proof.
  split; [intros c; by split|]. intros c1 c2 c3 [A1 A2] [B1 B2]. split; [by etrans|].
  intros svc Hs. destruct (A2 svc Hs), (B2 svc Hs). split; congruence.
Qed.

Abbreviation wp_sender := (wp inv undisturbed (speaks P)).

Lemma sender_bind {A B} (p : prog Client A) (k : A → prog Client B) Q c :
  inv c → wp_sender p (λ a, wp_sender (k a) Q) c → wp_sender (p ≫= k) Q c.
Proof. apply wp_mbind, _. Qed.

(** One of its services, its last number, and those the member has seen. *)
Variable s : string.
Definition track (n : N) (ns : list N) (c : Client) : Prop :=
  O s → default 0 (cl_seqs c !! s) = n ∧ numbers s c = ns.

Lemma track_rely n ns c c' : undisturbed c c' → track n ns c → track n ns c'.
Proof. intros [_ Hq] Ht Ho. destruct (Hq s Ho) as [-> ->]. by apply Ht. Qed.

Lemma track_same n ns c c' :
  cl_seqs c' = cl_seqs c → view c' = view c → track n ns c → track n ns c'.
Proof. intros Es Ev Ht Ho. rewrite Es, (numbers_same _ _ _ Ev). by apply Ht. Qed.

Definition bump (svc : string) (n : N) : N := if bool_decide (svc = s) then wrap 64 (n + 1) else n.

Lemma wp_seal svc body n ns c :
  P svc → inv c → track n ns c →
  wp_sender (seal_p svc body) (λ r c, track (bump svc n) ns c ∧ ∀ payload, r = Ok payload →
    ∃ seq, sealed_for (mkEnvelope svc seq body) payload c ∧ (svc = s → O s → seq = bump svc n)) c.
Proof.
  intros HP _ Ht c1 Hr1 Hi1. apply (track_rely _ _ _ _ Hr1) in Ht.
  unfold seal_number. rewrite (hw_keyed _ (in_host _ Hi1)). simpl.
  set (seq := wrap 64 _). set (c2 := put_seqs _ _).
  destruct (inv_quiet c1 c2) as [Hi2 Hg]; [done..|]. split; [done|]. split.
  { split; [done|]. intros svc' Hne. split; [|by apply numbers_same, same_sent].
    simpl. rewrite lookup_insert_ne; [done|]. by intros ->. }
  assert (svc = s → O s → seq = bump svc n) as Hseq.
  { intros -> Ho. destruct (Ht Ho) as [<- _]. unfold bump. by rewrite bool_decide_eq_true_2. }
  assert (track (bump svc n) ns c2) as Ht2.
  { intros Ho. destruct (Ht Ho) as [Hn <-]. split; [|by apply numbers_same, same_sent].
    unfold bump. simpl. case_bool_decide as Es; [subst svc|by rewrite lookup_insert_ne].
    rewrite lookup_insert_eq. simpl. rewrite Hseq by done. unfold bump.
    by rewrite bool_decide_eq_true_2. }
  assert (in_width 64 seq) as Hw by apply wrap_in_width.
  assert (cl_groupKey c1 ∈ known c2) as Hk by apply (in_key _ Hi2). clearbody c2 seq.
  destruct (Marshal _) as [plain|] eqn:Em.
  2: { intros c3 Hr3 _. split; [by eapply track_rely|done]. }
  simpl. intros c3 Hr Hi3. apply (track_rely _ _ _ _ Hr) in Ht2. set (c4 := put_draws c3 _).
  destruct (inv_quiet c3 c4) as [Hi4 Hg4]; [done..|]. split; [done|].
  split; [split; [done|]; split; [done|by apply numbers_same, same_sent]|].
  assert (track (bump svc n) ns c4) as Ht4 by (by eapply track_same; [| |exact Ht2]).
  destruct (fixed_sid c3 Hi3) as [Es Ep]. simpl in Es, Ep. simpl. rewrite Es, Ep.
  destruct (Seal _ _ _ _ _) as [sf|] eqn:Es'.
  2: { intros c5 Hr5 _. split; [by eapply track_rely|done]. }
  simpl. intros c5 Hr5 Hi5. split; [by eapply track_rely|]. intros p Hp.
  destruct (EncodePayload KindSealed sf) as [p'|] eqn:Ee; [|done]. injection Hp as ->.
  exists seq. split; [|done]. exists (cl_draws c3), (cl_groupKey c1), plain, sf.
  split; [|split; [|done]].
  - apply (ex_known _ _ (un_ext _ _ Hr5)), (ex_known _ _ (ca_ext _ _ Hg4)),
      (ex_known _ _ (un_ext _ _ Hr)), Hk.
  - done.
Qed.

(** What a call adds to the numbers seen, if it succeeds. *)
Definition adds (u : utterance) (ok : bool) (n : N) : list N :=
  if bool_decide ((said u).1 = s ∧ ok = true ∧ for_member u) then [bump (said u).1 n] else [].

Definition is_ok {E} (r : result E unit) : bool := match r with Ok _ => true | Err _ => false end.

(** The write that follows. *)
Lemma wp_sealed_write `{Cbor T} u t (body : T) payload seq n ns c :
  P (said u).1 → sealed_for (mkEnvelope (said u).1 seq (said u).2) payload c → utterance_wf u →
  ((said u).1 = s → O s → seq = bump (said u).1 n) → track (bump (said u).1 n) ns c →
  (∀ f, Encode t body = Ok f →
     (for_member u ∧ inner id f = Some payload) ∨ (inner id f = None ∧ ¬ for_member u)) →
  wp_sender (writeFrame_p t body) (λ r c, (is_ok r = true → for_member u → heard u c) ∧
    track (bump (said u).1 n) (ns ++ adds u (is_ok r) n) c) c.
Proof.
  intros HP Hs Hu Hseq Ht Hf. apply wp_atomic. intros c1 Hr Hi1. apply (track_rely _ _ _ _ Hr) in Ht.
  apply (sealed_ext _ _ _ _ (un_ext _ _ Hr)) in Hs as (i & k & plain & sf & Hk & Hw & Em & Es & Ee).
  rewrite writeFrame_writes. destruct (Encode t body) as [f|] eqn:Ef; simpl.
  2: { split; [done|]. split; [split; [reflexivity|done]|]. intros c3 Hr3 _. split; [done|].
    unfold adds. rewrite bool_decide_eq_false_2, app_nil_r by (by intros (_ & ? & _)).
    by eapply track_rely. }
  set (c2 := put_sent _ _). destruct (Hf f eq_refl) as [[Hm Hin]|[Hin Hnot]].
  - destruct (inv_sealed c1 c2 f i k (mkEnvelope (said u).1 seq (said u).2) plain sf payload)
      as (Hi2 & Hg & Hev); try done; [by split; [apply Hu|]|].
    assert (∀ svc, numbers svc c2 = numbers svc c1 ++
      (if bool_decide ((said u).1 = svc) then [seq] else [])) as Hnum
      by (intros svc; exact (numbers_frame svc _ _ _ Hev)).
    split; [done|]. split.
    + split; [done|]. intros svc Hsvc. split; [done|]. rewrite Hnum.
      rewrite bool_decide_eq_false_2 by (by intros <-). by rewrite app_nil_r.
    + intros c3 Hr3 _. split.
      * intros _ _. eapply heard_ext; [apply Hr3|]. exists seq. rewrite Hev.
        apply elem_of_app. right. by left.
      * apply (track_rely _ _ _ _ Hr3). intros Ho. destruct (Ht Ho) as [Hn Hns].
        split; [done|]. rewrite Hnum, Hns. unfold adds. f_equal.
        case_bool_decide as Esvc; [|by rewrite bool_decide_eq_false_2 by tauto].
        rewrite bool_decide_eq_true_2 by done. by rewrite Hseq.
  - destruct (inv_skip c1 c2 f) as (Hi2 & Hg & Ev); [done..|]. split; [done|]. split.
    + split; [done|]. split; [done|by apply numbers_same].
    + intros c3 Hr3 _. split; [done|]. unfold adds.
      rewrite bool_decide_eq_false_2, app_nil_r by tauto. eapply track_rely; [done|].
      by eapply track_same; [| |exact Ht].
Qed.

Lemma wp_utter u n ns c :
  P (said u).1 → inv c → utterance_wf u → track n ns c →
  wp_sender (utter u) (λ ok c, (ok = true → for_member u → heard u c) ∧
    track (bump (said u).1 n) (ns ++ adds u ok n) c) c.
Proof.
  intros HP Hi Hu Ht.
  assert (wp_sender (match u with Say svc body => Broadcast_p svc body
                               | Tell to svc body => SendTo_p to svc body end)
    (λ r c, (is_ok r = true → for_member u → heard u c) ∧
       track (bump (said u).1 n) (ns ++ adds u (is_ok r) n) c) c) as Hp.
  { destruct u as [svc body|to svc body]; (apply sender_bind; [done|]);
      (eapply wp_mono; [|by apply (wp_seal svc body n ns)]); intros [payload|e] c1 Hi1 [Ht1 Hs].
    all: try (intros c2 Hr2 _; split; [done|]; unfold adds;
      rewrite bool_decide_eq_false_2, app_nil_r by (by intros (_ & ? & _)); by eapply track_rely).
    - destruct (Hs payload eq_refl) as (seq & Hse & Hseq).
      apply (wp_sealed_write (Say svc body) _ _ payload seq); [done..|].
      intros f Ef. left. split; [done|by apply inner_broadcast].
    - destruct (Hs payload eq_refl) as (seq & Hse & Hseq).
      apply (wp_sealed_write (Tell to svc body) _ _ payload seq); [done..|].
      intros f Ef. rewrite (inner_direct id to payload f) by (done || apply Hu).
      simpl. case_bool_decide; [by left|by right]. }
  apply sender_bind; [done|]. eapply wp_mono; [|exact Hp]. intros r c1 Hi1 [Hh1 Ht1] c2 Hx Hi2.
  change (match r with Ok _ => true | Err _ => false end) with (is_ok r).
  split; [|by eapply track_rely]. intros Hok Hm. eapply heard_ext; [apply Hx|]. by apply Hh1.
Qed.

(** The numbers a goroutine's calls add, in order; a failed call uses one up. *)
Fixpoint expected (n : N) (us : list utterance) (rs : list bool) : list N :=
  match us, rs with
  | u :: us, r :: rs => adds u r n ++ expected (bump (said u).1 n) us rs
  | _, _ => []
  end.

Lemma wp_talk us n ns c :
  inv c → Forall utterance_wf us → Forall (λ u, P (said u).1) us → track n ns c →
  wp_sender (talk us) (λ rs c,
    (∀ k u, us !! k = Some u → rs !! k = Some true → for_member u → heard u c) ∧
    ∃ n', track n' (ns ++ expected n us rs) c) c.
Proof.
  intros Hi Hus HP. revert n ns c Hi. induction Hus as [|u us Hu _ IH]; intros n ns c Hi Ht.
  { intros c' Hr _. split; [done|]. exists n. rewrite app_nil_r. by eapply track_rely. }
  simpl. apply Forall_cons in HP as [HPu HP]. specialize (IH HP).
  apply sender_bind; [done|]. eapply wp_mono; [|by apply (wp_utter u n ns)].
  intros r c1 Hi1 [Hr Ht1]. apply sender_bind; [done|]. eapply wp_mono;
    [|eapply (wp_frame _ _ _ _ _ (λ c, r = true → for_member u → heard u c));
      [| |done|by apply IH]].
  - intros rs c2 _ [[Hrs [n' Ht2]] Hu2] c3 Hx _. split.
    + intros [|k] v Hv Hk Hm; simpl in *; simplify_eq;
        (eapply heard_ext; [exact (un_ext _ _ Hx)|]); eauto.
    + exists n'. simpl. rewrite (assoc_L (++)). by eapply track_rely.
  - intros c2 c3 [Hx _] H ??. eapply heard_ext; eauto.
  - intros c2 c3 [[Hx _ _ _] _] H ??. eapply heard_ext; eauto.
Qed.
End Speaker.

(** ** The read loop *)

(** What the reader's bookkeeping survives: the senders' steps, and its own
    sections that are not part of a rotation. *)
Record keeps (c c' : Client) : Prop := {
  ke_ext : ext c c';
  ke_rot : rot c' = rot c;
  ke_keys : keys_of (view c') = keys_of (view c);
  ke_key : cl_groupKey c' = cl_groupKey c }.

Lemma calm_keeps c c' : calm c c' → keeps c c'.
Proof. intros [? ? ? ?]. split; try done. by apply stat_key. Qed.

Record works (c c' : Client) : Prop := {
  wk_keeps : keeps c c';
  wk_seqs : cl_seqs c' = cl_seqs c;
  wk_events : cl_events (view c') = cl_events (view c) }.

Lemma works_rotates c c' : works c c' → rotates c c'.
Proof. by intros [[]]. Qed.

Lemma calm_works c c' : calm c c' → cl_seqs c' = cl_seqs c → view c' = view c → works c c'.
Proof. intros H%calm_keeps Hs Hv. split; [done..|by rewrite Hv]. Qed.

Lemma inv_works c c' :
  inv c → cl_sent c' = cl_sent c → cl_seqs c' = cl_seqs c → host_wf c' →
  cl_groupKey c' = cl_groupKey c → inv c' ∧ works c c'.
Proof.
  intros Hi E Hs Hw Hk. destruct (same_sent c c' E) as (Ev & Er & _).
  split; [apply (inv_silent c); try done; rewrite Hk; apply Hi|].
  split; [|done|by rewrite Ev]. split; [by apply ext_quiet|done|by rewrite Ev|done].
Qed.

Abbreviation wp_handler := (wp inv calm works).

Lemma handler_bind {A B} (p : prog Client A) (k : A → prog Client B) Q c :
  inv c → wp_handler p (λ a, wp_handler (k a) Q) c → wp_handler (p ≫= k) Q c.
Proof. apply wp_mbind, _. Qed.

Definition any {A} (_ : A) (_ : Client) : Prop := True.

(** A section that leaves the books and the frames alone. *)
Lemma wp_quiet {A B} (f : Client → Client * A) (k : A → prog Client B) c :
  (∀ c, inv c → stat (f c).1 = stat c ∧ cl_sent (f c).1 = cl_sent c ∧
     cl_seqs (f c).1 = cl_seqs c) →
  (∀ c, inv c → wp_handler (k (f c).2) any (f c).1) → wp_handler (atomic f ≫= k) any c.
Proof.
  intros Hf Hk c1 _ Hi1. destruct (Hf c1 Hi1) as (Hs & E & Eq).
  destruct (inv_quiet c1 _ Hi1 Hs E) as [Hi2 Hc]. split; [done|].
  split; [apply calm_works; [done|done|by apply same_sent]|].
  by apply Hk.
Qed.

(** A frame for somebody else. *)
Lemma wp_direct_other {B} to p (k : _ → prog Client B) c :
  to ≠ id → pid_wf to → (∀ r c, inv c → wp_handler (k r) any c) →
  wp_handler (writeFrame_p MsgDirect (mkDirect to 0 p) ≫= k) any c.
Proof.
  intros Hne Hto Hk c1 _ Hi1. rewrite writeFrame_writes.
  destruct (Encode _ _) as [f|e] eqn:Ef; simpl.
  - set (c2 := put_sent _ _). destruct (inv_skip c1 c2 f) as (Hi2 & Hc & Ev); [done..| |].
    { rewrite (inner_direct id to p f Hto Ef). by rewrite bool_decide_eq_false_2. }
    split; [done|]. split; [by apply calm_works|]. by apply Hk.
  - split; [done|]. split; [by apply calm_works|]. by apply Hk.
Qed.

Lemma wp_any {A} (a : A) c : wp_handler (mret a) any c.
Proof. by intros c' _ _. Qed.

Lemma wp_emit e c : inv c → wp_handler (emit_p e) any c.
Proof.
  intros _ c1 _ Hi1. destruct (inv_quiet c1 (emit c1 e)) as [? ?]; [done..|].
  split; [done|]. split; [by apply calm_works|done].
Qed.

Lemma wp_answer from k2 kk f2 pwf key role k c :
  from ≠ id → pid_wf from → (∀ c, inv c → wp_handler k any c) → inv c →
  wp_handler (answer_p from k2 kk f2 pwf key role k) any c.
Proof.
  intros Hne Hf Hk Hi. unfold answer_p. destruct (EncodePayload k2 _); [|apply wp_any].
  apply wp_direct_other; [done..|]. intros [[]|] c1 Hi1; [|apply wp_any].
  apply wp_quiet; [done|]. intros c2 Hi2. destruct (WrapGroupKey _ _ _ _ _ _); [|apply wp_any].
  destruct (EncodePayload kk _); [|apply wp_any].
  apply wp_direct_other; [done..|]. intros [[]|] c3 Hi3; [by apply Hk|apply wp_any].
Qed.

(** The store of a pairwise key for another member. *)
Lemma host_wf_pairwise c from k js :
  host_wf c → from ≠ id → pid_wf from →
  host_wf (put_pairwise (put_joiners c js) (<[from := k]> (cl_pairwise c))).
Proof.
  intros [] Hne Hf. split; try done; simpl; [by rewrite lookup_insert_ne|].
  by apply map_Forall_insert_2.
Qed.

Lemma wp_store {B} (f : Client → Client * Key) from k js (kont : Key → prog Client B) c :
  (∀ c, f c = (put_pairwise (put_joiners c (js c)) (<[from := k]> (cl_pairwise c)), cl_groupKey c)) →
  from ≠ id → pid_wf from → (∀ key c, inv c → wp_handler (kont key) any c) →
  wp_handler (atomic f ≫= kont) any c.
Proof.
  intros Ef Hne Hf Hk c1 _ Hi1. rewrite Ef. simpl.
  destruct (inv_works c1 (put_pairwise (put_joiners c1 (js c1)) (<[from := k]> (cl_pairwise c1))))
    as [Hi2 Hke]; [done|done|done|by apply host_wf_pairwise; [apply Hi1| |]|done|].
  split; [done|]. split; [done|]. by apply Hk.
Qed.

(** What the relay may deliver: nothing as from the host itself, and only sealed
    payloads from the member.  A relay that stamps senders does so for a member that
    is keyed and stays. *)
Definition calm_payload (from : ParticipantID) (p : bytes) : Prop :=
  pid_wf from ∧ from ≠ self ∧ (from = id → ∀ k, kind_of p = Some k → k = KindSealed).

Lemma wp_handleRekeyPake1 from praw c :
  from ≠ id → pid_wf from → inv c → wp_handler (handleRekeyPake1_p from praw) any c.
Proof.
  intros Hne Hf Hi. apply wp_quiet; [done|]. intros c1 Hi1. simpl.
  destruct (negb _); [apply wp_any|]. destruct (Body Pake praw) as [p|]; [|apply wp_any].
  apply wp_quiet; [done|]. intros c2 Hi2. simpl.
  destruct (HostExchange _ _ _ _ _ _ _) as [[k f2]|]; [|apply wp_any].
  apply (wp_store _ from k cl_joiners); [by intros []|done|done|].
  intros key c3 Hi3. apply wp_answer; [done|done| |done]. intros c4 _. apply wp_any.
Qed.

Lemma wp_handleHandshakeDirect from kind praw c :
  from ≠ id → pid_wf from → inv c →
  wp_handler (handleHandshakeDirect_p rolePolicy from kind praw) any c.
Proof.
  intros Hne Hf Hi. apply wp_quiet; [done|]. intros c1 Hi1. simpl.
  destruct (negb _ || _); [apply wp_any|]. destruct (Body Pake praw) as [p|]; [|apply wp_any].
  apply wp_quiet; [done|]. intros c2 Hi2. simpl.
  destruct (HostExchange _ _ _ _ _ _ _) as [[k f2]|]; [|apply wp_any].
  apply wp_quiet; [done|]. intros c3 Hi3. simpl.
  match goal with |- context [if ?b then RoleMember else ?r] => set (role := if b then RoleMember else r) end.
  apply (wp_store _ from k (λ c, <[from := role]> (cl_joiners c))); [done..|].
  intros key c4 Hi4. apply wp_answer; [done|done| |done]. intros c5 Hi5. by apply wp_emit.
Qed.

Lemma wp_handlePayload from p c :
  calm_payload from p → inv c → wp_handler (handlePayload_p rolePolicy from p) any c.
Proof.
  intros (Hf & Hns & Hid) Hi. unfold handlePayload_p, kind_of in *.
  destruct (DecodePayload p) as [[kind praw]|]; [|apply wp_any].
  assert (kind ≠ KindSealed → from ≠ id) as Hne by (intros Hk ->; by apply Hk, Hid).
  case_bool_decide as H1.
  { apply wp_quiet; [done|]. intros c1 Hi1. simpl. destruct (in_host _ Hi1) as [_ _ _ -> _ _].
    rewrite (bool_decide_eq_false_2 (from = _)), andb_false_r by done. apply wp_any. }
  case_bool_decide as H2; [apply wp_handleRekeyPake1; [apply Hne; by rewrite H2|done..]|].
  case_bool_decide as H3.
  { apply wp_quiet; [done|]. intros c1 Hi1. simpl. destruct (in_host _ Hi1) as [_ _ _ -> _ _].
    rewrite (bool_decide_eq_false_2 (from = _)) by done. destruct (cl_rekeyJoiner _); apply wp_any. }
  case_bool_decide as H4; [by apply wp_handleHandshakeDirect; [apply Hne| |]|].
  destruct (Body SealedFrame praw) as [sf|]; [|apply wp_any].
  unfold openFrame_p. simpl. apply wp_quiet; [done|]. intros c1 Hi1. simpl.
  destruct (negb _); simpl; [apply wp_any|].
  repeat case_match; first [apply wp_any|by apply wp_emit].
Qed.

(** *** A rotation *)

(** The reader at rest: so many rotations are behind, and the member is level. *)
Definition level (n : nat) (c : Client) : Prop :=
  (rot c ≤ n)%nat ∧ cl_groupKey (view c) = cl_groupKey c.

Lemma level_keeps n c c' : keeps c c' → level n c → level n c'.
Proof. intros [_ Hr Hk Hg] [H1 H2]. injection Hk as Hk _. split; [by rewrite Hr|congruence]. Qed.

Abbreviation wp_reader := (wp inv calm rotates).

Lemma reader_bind {A B} (p : prog Client A) (k : A → prog Client B) Q c :
  inv c → wp_reader p (λ a, wp_reader (k a) Q) c → wp_reader (p ≫= k) Q c.
Proof. apply wp_mbind, _. Qed.

(** What the handlers keep is still there after one of them. *)
Lemma wp_keeping {A} (p : prog Client A) (P : Client → Prop) c :
  (∀ c c', keeps c c' → P c → P c') → P c → wp_handler p any c → wp_reader p (λ _, P) c.
Proof.
  intros HP Hc Hp. apply (wp_guarantee _ _ works); [apply works_rotates|].
  eapply wp_mono; [|eapply (wp_frame _ _ _ _ _ P); [| |done|exact Hp]].
  - by intros a s _ [_ H].
  - intros s s' Hs. by apply HP, calm_keeps.
  - intros s s' Hs. by apply HP, wk_keeps.
Qed.

(** Every wrap for the member fits a frame. *)
Hypothesis fits : ∀ j k i gk, NewGroupKey j = Ok k →
  WrapGroupKey i pw k RoleNone (cl_sid c0) id = Ok gk → ∃ f, rekey_for (id, gk) f.

Definition wrap_ok (k : Key) (o : ParticipantID * GroupKey) : Prop :=
  pid_wf o.1 ∧ (o.1 = id → ∃ i, WrapGroupKey i pw k RoleNone (cl_sid c0) id = Ok o.2).

(** The member has been given [k], the host does not use it yet. *)
Definition given (n : nat) (k : Key) (c : Client) : Prop :=
  (rot c ≤ n)%nat ∧ k ∈ known c ∧ cl_groupKey (view c) = k.

Lemma given_keeps n k c c' : keeps c c' → given n k c → given n k c'.
Proof.
  intros [[_ Hk _] Hr Hv _] (H1 & H2 & H3). injection Hv as Hv _.
  split; [by rewrite Hr|]. split; [set_solver|congruence].
Qed.

Definition distributing (n : nat) (k : Key) (outs : list (ParticipantID * GroupKey)) (c : Client) :
    Prop :=
  if decide (id ∈ outs.*1) then (rot c ≤ n)%nat else given (n + 1) k c.

Lemma distributing_keeps n k outs c c' :
  keeps c c' → distributing n k outs c → distributing n k outs c'.
Proof.
  intros Hc. unfold distributing. destruct (decide _); [by rewrite (ke_rot _ _ Hc)|].
  by apply given_keeps.
Qed.

Lemma wp_send_rekeys j k outs n c :
  NewGroupKey j = Ok k → key_wf k → (n < prevKeyRing)%nat →
  NoDup outs.*1 → Forall (wrap_ok k) outs → inv c → distributing n k outs c →
  wp_reader (send_rekeys_p outs) (λ _, given (n + 1) k) c.
Proof.
  intros Hj Hk Hn. revert c. induction outs as [|o outs IH]; intros c Hnd Hok Hi Hd.
  { intros c1 Hr _. eapply given_keeps; [by apply calm_keeps|]. exact Hd. }
  simpl in *. apply NoDup_cons in Hnd as [Hno Hnd]. apply Forall_cons in Hok as [[Ho1 Ho2] Hok].
  unfold send_rekey_p. destruct (decide (o.1 = id)) as [Eo|Eo].
  - destruct (Ho2 Eo) as [i Hw]. destruct (fits j k i o.2 Hj Hw) as (f & p & Ep & Ef).
    simpl in Ep, Ef. rewrite Ep. rewrite <- Eo in Ef. intros c1 Hr Hi1.
    rewrite writeFrame_writes, Ef. simpl. set (c2 := put_sent _ _).
    apply (distributing_keeps _ _ _ _ _ (calm_keeps _ _ Hr)) in Hd. unfold distributing in Hd. simpl in Hd.
    rewrite decide_True in Hd by (rewrite Eo; by left).
    destruct (inv_rekey c1 c2 f i k o.2 p) as (Hi2 & Hx & Hr2 & Hk2 & Hv2 & Hev2); try done; [lia| |].
    { rewrite (inner_direct id o.1 p f Ho1 Ef). by rewrite bool_decide_eq_true_2. }
    split; [done|]. split; [by split|]. apply IH; [done..|]. unfold distributing.
    rewrite decide_False by (by rewrite <- Eo). split; [lia|done].
  - assert (∀ c', distributing n k (o :: outs) c' → distributing n k outs c') as Hd'.
    { intros c'. unfold distributing. simpl. do 2 destruct (decide _); set_solver. }
    apply reader_bind; [done|].
    eapply wp_mono; [|eapply (wp_keeping _ (distributing n k outs)); [|by apply Hd'|]].
    + intros [] c1 Hi1 Hd1. by apply IH.
    + apply distributing_keeps.
    + destruct (EncodePayload _ _); [|apply wp_any].
      apply wp_direct_other; [done..|]. intros r c1 _. apply wp_any.
Qed.

(** What the first section of a rotation prepares. *)
Lemma rekey_prepare_spec c :
  inv c →
  (∃ d, (rekey_prepare c).1 = put_draws c d) ∧
  ∀ outs k, (rekey_prepare c).2 = Some (outs, k) →
    (∃ j, NewGroupKey j = Ok k) ∧ key_wf k ∧ NoDup outs.*1 ∧ id ∈ outs.*1 ∧ Forall (wrap_ok k) outs.
Proof.
  intros Hi. unfold rekey_prepare. destruct (_ || _).
  { split; [exists (cl_draws c); by destruct c|done]. }
  simpl. destruct (NewGroupKey (cl_draws c)) as [k|] eqn:Ek; [|by split; [eexists|]].
  destruct (wrap_all _ _ _ _) as [i [outs|]] eqn:Ew; simpl; (split; [by eexists|]); [|done].
  intros outs' k' [= <- <-]. apply wrap_all_spec in Ew.
  assert (outs.*1 = (range (cl_pairwise c)).*1) as E1.
  { clear -Ew. induction Ew as [|p o l l' [H _] _ IH]; [done|]. by rewrite !fmap_cons, H, IH. }
  destruct (in_host _ Hi) as [Hf _ _ _ Hpw Hids]. split; [by eexists|]. split.
  { unfold NewGroupKey in Ek. destruct (rand_read _ _) eqn:Er; [|done]. simpl in Ek.
    injection Ek as <-. by eapply rand_read_length. }
  rewrite E1. split; [|split].
  - rewrite range_perm. apply NoDup_fst_map_to_list.
  - apply list_elem_of_fmap. exists (id, pw). split; [done|]. by apply elem_of_range.
  - apply Forall_lookup. intros n o Ho.
    destruct (Forall2_lookup_r _ _ _ _ _ Ew Ho) as ([i' p] & Hl & E & j & Hj). simpl in *.
    apply list_elem_of_lookup_2, elem_of_range in Hl. split; [rewrite E; by apply (Hids i' p)|].
    intros Ho1. rewrite Ho1 in E. rewrite <- E in Hl, Hj. rewrite Hpw in Hl. injection Hl as <-. exists j.
    injection Hf as _ _ <- _. exact Hj.
Qed.

Lemma wp_rekeyAfterLeave n c :
  (n < prevKeyRing)%nat → inv c → level n c → wp_reader rekeyAfterLeave_p (λ _, level (n + 1)) c.
Proof.
  intros Hn Hi Hl c1 Hr Hi1. apply (level_keeps _ _ _ (calm_keeps _ _ Hr)) in Hl.
  destruct (rekey_prepare_spec c1 Hi1) as [[d Ed] Hout]. rewrite Ed.
  destruct (inv_quiet c1 (put_draws c1 d)) as [Hi2 Hc]; [done..|].
  split; [done|]. split; [by apply works_rotates, calm_works|]. apply (level_keeps _ _ _ (calm_keeps _ _ Hc)) in Hl.
  destruct (rekey_prepare c1).2 as [[outs k]|] eqn:Eo.
  2: { intros c3 Hr3 _. apply (level_keeps _ _ _ (calm_keeps _ _ Hr3)) in Hl as [??]. split; [lia|done]. }
  destruct (Hout outs k eq_refl) as ([j Hj] & Hk & Hnd & Hin & Hok).
  apply reader_bind; [done|]. eapply wp_mono; [|eapply (wp_send_rekeys j k outs n); try done].
  2: { unfold distributing. rewrite decide_True by done. apply Hl. }
  intros [] c3 Hi3 Hg c4 Hr4 Hi4. 
  destruct (given_keeps _ _ _ _ (calm_keeps _ _ Hr4) Hg) as (G1 & G2 & G3).
  simpl. set (c5 := install k c4). destruct (same_sent c4 c5 eq_refl) as (Ev & Er & _).
  assert (inv c5) as Hi5.
  { apply (inv_silent c4); [done|done| |done]. destruct (in_host _ Hi4). by split. }
  split; [done|]. split; [split; [by apply ext_quiet|done|by rewrite Ev]|]. intros c6 Hr6 _.
  apply (level_keeps _ _ _ (calm_keeps _ _ Hr6)). split; [by rewrite Er|by rewrite Ev].
Qed.

(** *** The loop *)

Definition is_left (r : read) : bool :=
  match readFrameConn r with
  | Ok (typ, _) => bool_decide (typ = MsgParticipantLeft)
  | Err _ => false
  end.

(** A read that leaves the member's place in the session alone. *)
Definition calm_read (r : read) : Prop :=
  ∀ typ raw, readFrameConn r = Ok (typ, raw) →
  (typ = MsgParticipantLeft → ∀ x, Body ParticipantLeft raw = Ok (mkParticipantLeft x) → x ≠ id) ∧
  (typ = MsgDirect → ∀ d, Body Direct raw = Ok d → calm_payload (d_From d) (d_Payload d)) ∧
  (typ = MsgBroadcast → ∀ b, Body Wire.Broadcast raw = Ok b → calm_payload (b_From b) (b_Payload b)).

Definition lefts (reads : list read) : nat := length (filter (λ r, is_left r = true) reads).

Lemma wp_forget x (k : unit → prog Client bool) Q n c :
  x ≠ id → inv c → level n c → (∀ c, inv c → level n c → wp_reader (k tt) Q c) →
  wp_reader (updates (λ c, let c := put_joiners c (delete x (cl_joiners c)) in
                           put_pairwise c (delete x (cl_pairwise c))) ≫= k) Q c.
Proof.
  intros Hx Hi Hl Hk c1 Hr Hi1. apply (level_keeps _ _ _ (calm_keeps _ _ Hr)) in Hl. simpl.
  set (c2 := put_pairwise _ _). destruct (inv_works c1 c2) as [Hi2 Hke]; [done|done|done| |done|].
  { destruct (in_host _ Hi1). split; try done; simpl; [by rewrite lookup_delete_ne|].
    by apply map_Forall_delete. }
  split; [done|]. split; [by apply works_rotates|]. apply Hk; [done|].
  by eapply level_keeps; [apply Hke|].
Qed.

Lemma wp_leveled {A B} (p : prog Client A) (k : A → prog Client B) n Q c :
  inv c → level n c → wp_handler p any c → (∀ a c, inv c → level n c → wp_reader (k a) Q c) →
  wp_reader (p ≫= k) Q c.
Proof.
  intros Hi Hl Hp Hk. apply reader_bind; [done|]. eapply wp_mono;
    [|apply (wp_keeping _ (level n)); [apply level_keeps|done|exact Hp]]. auto.
Qed.

Lemma wp_level {A} (a : A) n c : level n c → wp_reader (mret a) (λ _, level n) c.
Proof. intros Hl c' Hr _. eapply level_keeps; [by apply calm_keeps|done]. Qed.

Lemma wp_dispatchFrame r typ raw n c :
  calm_read r → readFrameConn r = Ok (typ, raw) → (n + lefts [r] ≤ prevKeyRing)%nat →
  inv c → level n c →
  wp_reader (dispatchFrame_p rolePolicy typ raw) (λ _, level (n + lefts [r])) c.
Proof.
  intros Hc Hrd Hn Hi Hl. destruct (Hc typ raw Hrd) as (C1 & C2 & C3).
  assert (∀ {A} (a : A) c, level n c → wp_reader (mret a) (λ _, level (n + lefts [r])) c) as Hret.
  { intros A a c1 [H1 H2]. apply wp_level. split; [lia|done]. }
  unfold dispatchFrame_p. case_bool_decide.
  { destruct (Body ParticipantJoined raw); [|by apply Hret].
    apply (wp_leveled _ _ n); [done|done|by apply wp_emit|]. intros _ c1 _ Hl1. by apply Hret. }
  case_bool_decide as H2.
  { subst typ. destruct (Body ParticipantLeft raw) as [[x]|] eqn:Eb; [|by apply Hret].
    assert (lefts [r] = 1%nat) as El.
    { unfold lefts. rewrite filter_cons, decide_True; [done|]. unfold is_left. by rewrite Hrd. }
    rewrite El in *. apply (wp_forget x _ _ n); [by apply (C1 eq_refl x)|done|done|].
    intros c1 Hi1 Hl1. apply (wp_leveled _ _ n); [done|done|by apply wp_emit|].
    intros _ c2 Hi2 Hl2. apply reader_bind; [done|].
    eapply wp_mono; [|apply (wp_rekeyAfterLeave n); [lia|done|done]].
    intros ? c3 _ Hl3. by apply wp_level. }
  case_bool_decide.
  { apply (wp_leveled _ _ n); [done|done|by apply wp_emit|]. intros _ c1 _ Hl1. by apply Hret. }
  case_bool_decide.
  { destruct (Body Direct raw) as [d|] eqn:Eb; [|by apply Hret].
    apply (wp_leveled _ _ n); [done|done|apply wp_handlePayload; auto|]. intros _ c1 _ Hl1. by apply Hret. }
  case_bool_decide; [|by apply Hret].
  destruct (Body Wire.Broadcast raw) as [b|] eqn:Eb; [|by apply Hret].
  apply (wp_leveled _ _ n); [done|done|apply wp_handlePayload; auto|]. intros _ c1 _ Hl1. by apply Hret.
Qed.

Lemma lefts_cons r reads : lefts (r :: reads) = (lefts [r] + lefts reads)%nat.
Proof. unfold lefts. change (r :: reads) with ([r] ++ reads). by rewrite filter_app, length_app. Qed.

Lemma wp_readLoop reads n c :
  Forall calm_read reads → (n + lefts reads ≤ prevKeyRing)%nat → inv c → level n c →
  wp_reader (readLoop_p rolePolicy reads) (λ _, level prevKeyRing) c.
Proof.
  intros Hc. revert n c. induction Hc as [|r reads Hr _ IH]; intros n c Hn Hi Hl.
  { apply wp_level. destruct Hl. split; [lia|done]. }
  rewrite lefts_cons in Hn. cbn [readLoop_p]. destruct (readFrameConn r) as [[typ raw]|e] eqn:Er.
  - apply reader_bind; [done|]. eapply wp_mono; [|eapply (wp_dispatchFrame r typ raw n); try done; lia].
    intros [] c1 Hi1 Hl1; [|apply (IH (n + lefts [r])%nat); [lia|done..]].
    apply wp_level. destruct Hl1. split; [lia|done].
  - apply (wp_leveled _ _ n); [done|done|by apply wp_emit|]. intros _ c1 _ [??].
    apply wp_level. split; [lia|done].
Qed.

(** ** All together *)

(** A host and a member that are in step: the member has its key from it. *)
Record in_step : Prop := {
  st_keyed : cl_keyed c0 = true;
  st_role : cl_role c0 = RoleHost;
  st_host : cl_hostID c0 = self;
  st_pw : cl_pairwise c0 !! id = Some pw;
  st_ids : map_Forall (λ i _, pid_wf i) (cl_pairwise c0);
  st_member : follows_host m0;
  st_key : cl_groupKey m0 = cl_groupKey c0 }.

Lemma start_inv : in_step → inv c0 ∧ level 0 c0.
Proof.
  intros []. assert (news c0 = []) as E by (unfold news; by rewrite drop_all).
  assert (view c0 = m0 ∧ rot c0 = 0%nat ∧ msgs c0 = 0%nat) as (Ev & Er & Em)
    by (unfold view, rot, msgs; by rewrite E).
  split; [|unfold level; by rewrite Ev, Er].
  split; rewrite ?Ev, ?Er, ?Em; try done.
  - unfold known. rewrite Er, Ev, <- st_key0. by left.
  - lia.
  - exists []. rewrite app_nil_r. split; [done|]. split; [done|constructor].
Qed.

(** Who relies on what: goroutine 0 reads, the others talk.  A service belongs to a
    goroutine if no other uses it. *)
Section Crew.
Variable uss : list (list utterance).

Definition uses (i : nat) (svc : string) : Prop :=
  ∃ us u, uss !! i = Some us ∧ u ∈ us ∧ (said u).1 = svc.
Definition owns (i : nat) (svc : string) : Prop := ∀ j, j ≠ i → ¬ uses j svc.

Definition rely (i : nat) : Client → Client → Prop :=
  match i with O => calm | S i => undisturbed (owns i) end.
Definition guarantee (i : nat) : Client → Client → Prop :=
  match i with O => rotates | S i => speaks (uses i) end.

#[local] Instance rely_preorder i : PreOrder (rely i).
Proof. destruct i; [apply _|apply undisturbed_preorder]. Qed.

Lemma crew_compatible i j c c' : i ≠ j → guarantee i c c' → rely j c c'.
Proof.
  destruct i as [|i], j as [|j]; intros Hij H; simpl in *; [done| |apply H|].
  - split; [apply H|]. intros svc _. by apply rotates_quiet.
  - destruct H as [[Hx _ _ _] Hq]. split; [done|]. intros svc Ho. apply Hq, Ho. congruence.
Qed.

Definition achieved (i : nat) (rs : list bool) (c : Client) : Prop :=
  match i with
  | O => level prevKeyRing c
  | S i => ∀ us, uss !! i = Some us →
      (∀ k u, us !! k = Some u → rs !! k = Some true → for_member u → heard u c) ∧
      ∀ svc, owns i svc → numbers svc c = numbers svc c0 ++
        expected svc (default 0 (cl_seqs c0 !! svc)) us rs
  end.

Definition crew (reads : list read) : list (prog Client (list bool)) :=
  (_ ← readLoop_p rolePolicy reads; mret []) :: (talk <$> uss).

Lemma crew_ok reads :
  in_step → Forall calm_read reads → (lefts reads ≤ prevKeyRing)%nat →
  Forall (Forall utterance_wf) uss → pool_ok inv rely guarantee achieved (c0, crew reads).
Proof.
  intros Hst Hc Hn Hus. destruct (start_inv Hst) as [Hi Hl]. split; [done|].
  intros [|i] p Hp; simpl in Hp.
  - injection Hp as <-. apply reader_bind; [done|].
    eapply wp_mono; [|by apply (wp_readLoop reads 0)]. intros a c1 Hi1 Hl1. by apply wp_level.
  - rewrite list_lookup_fmap in Hp. destruct (uss !! i) as [us|] eqn:Eu; [|done].
    injection Hp as <-.
    assert (∀ svc, wp inv (undisturbed (owns i)) (speaks (uses i)) (talk us) (λ rs c,
      (∀ k u, us !! k = Some u → rs !! k = Some true → for_member u → heard u c) ∧
      (owns i svc → numbers svc c = numbers svc c0 ++
         expected svc (default 0 (cl_seqs c0 !! svc)) us rs)) c0) as Hw.
    { intros svc. eapply wp_mono; [|apply (wp_talk (uses i) (owns i) svc us
        (default 0 (cl_seqs c0 !! svc)) (numbers svc c0) c0 Hi)]; [|by eapply Forall_lookup_1| |done].
      - intros rs c1 _ [Hh [n' Ht]]. split; [done|]. intros Ho. by apply Ht.
      - apply Forall_forall. intros u Hu. by exists us, u. }
    eapply wp_mono; [|exact (wp_forall _ _ _ EmptyString _ _ _ Hw)].
    intros rs c1 _ H us' Hu'. rewrite Eu in Hu'. injection Hu' as <-. split; [apply (H EmptyString)|]. intros svc. apply (H svc).
Qed.

Lemma crew_plays reads sched :
  in_step → Forall calm_read reads → (lefts reads ≤ prevKeyRing)%nat →
  Forall (Forall utterance_wf) uss →
  let r := play sched (c0, crew reads) in
  inv r.1 ∧ ∀ i rs, r.2 !! i = Some (Ret rs) → achieved i rs r.1.
Proof.
  intros Hst Hc Hn Hus. destruct (play_wp inv rely guarantee achieved crew_compatible sched _
    (crew_ok reads Hst Hc Hn Hus)) as [[Hi _] HQ]. by split.
Qed.

(** C4: a member that stays follows its host through rotations, under every schedule.
    The host and the member are in step: the member's key is the host's, and they
    share a pairwise key.  Every write of the host succeeds, and every wrap of a
    fresh key for the member fits a frame.  The host's read loop handles frames that
    do not concern the member's own place in the session: the member does not leave;
    whatever comes in its name is sealed (a handshake flight in its name would
    replace the pairwise key the host has for it); nothing comes in the host's name;
    others may join, leave (up to eight of them), run handshakes and send anything.
    Other goroutines of the host broadcast and send at the same time, for services
    whose names are valid UTF-8, their critical sections interleaved in any order.  Then every sealed frame written for the
    member opens at the member, in the order of writing and as the host's; what any
    goroutine's call sent without error has been heard, once it is done; and once the
    read loop is done the member's current key is the host's. *)
Theorem rotation_gapless reads sched :
  in_step → Forall calm_read reads → (lefts reads ≤ prevKeyRing)%nat →
  Forall (Forall utterance_wf) uss →
  let r := play sched (c0, crew reads) in let c := r.1 in
  (∃ es, cl_events (view c) = cl_events m0 ++ es ∧ length es = msgs c ∧
     Forall (λ e, ∃ env, e = Frame self env) es) ∧
  (∀ i us rs k u, uss !! i = Some us → r.2 !! S i = Some (Ret rs) → us !! k = Some u →
     rs !! k = Some true → for_member u → heard u c) ∧
  (∀ rs, r.2 !! 0%nat = Some (Ret rs) → cl_groupKey (view c) = cl_groupKey c).
Proof.
  intros Hst Hc Hn Hus r c. destruct (crew_plays reads sched Hst Hc Hn Hus) as [Hi HQ].
  split; [apply Hi|]. split.
  - intros i us rs k u Hus' Hps. by apply (HQ (S i) rs Hps us Hus').
  - intros rs Hps. apply (HQ 0%nat rs Hps).
Qed.

End Crew.
End Interleave.
