(* ===== verification/SessionKeys.v ===== *)
(** * Keys across a session's life

    Re-keying after a host migration, who may change a client's keys, and what
    survives a reconnect. *)
From S2P Require Import Prelude Wire Crypto Words Phrase Session SessionSpec.

#[local] Open Scope N_scope.

Section Keys.
Context {WC : WireCodec} {WS : WireCodecSpec} {AE : Aead} {AS : AeadSpec} {HK : Hkdf}.
Context {PK : Pake_lib} {PS : PakeSpec} {EN : Entropy} {CN : Conn}.
Context {MK : MapRange ParticipantID Key}.
Variable rolePolicy : ParticipantID → bool → gmap ParticipantID Role → Role.

Abbreviation handlePayload := (handlePayload rolePolicy).
Abbreviation dispatchFrame := (dispatchFrame rolePolicy).
Abbreviation readLoop := (readLoop rolePolicy).

(** ** Migration *)

Lemma RotateForMigration_promoted c k :
  rand_read (cl_draws c) KeySize = Some k →
  RotateForMigration (BecomeHost c)
  = put_pairwise (rotated (put_draws (BecomeHost c) (cl_draws c + 1)) k) ∅.
Proof.
  intros Hk. unfold RotateForMigration, BecomeHost. simpl cl_role. simpl cl_hostID. simpl cl_self.
  rewrite !bool_decide_eq_false_2 by tauto. simpl orb. unfold draw, NewGroupKey.
  cbn beta zeta iota. simpl cl_draws. by rewrite Hk.
Qed.

Lemma RekeyWithNewHost_Ok c c1 :
  cl_role c ≠ RoleHost → cl_hostID c ≠ cl_self c → cl_keyed c = true →
  RekeyWithNewHost c = (c1, Ok tt) →
  ∃ jn p f, NewJoiner (cl_draws c) (cl_proto c) (cl_phraseC c) = Ok jn ∧
    EncodePayload KindRekeyPake1 (mkPake (j_Flight1 jn) false) = Ok p ∧
    Encode MsgDirect (mkDirect (cl_hostID c) 0 p) = Ok f ∧
    c1 = put_sent (put_writes (put_rekeyJoiner (put_draws c (cl_draws c + 1)) (Some jn))
           (cl_writes c + 1)) (cl_sent c ++ [f]).
Proof.
  intros Hr Hs Hk. unfold RekeyWithNewHost.
  rewrite !bool_decide_eq_false_2, Hk by done. simpl orb. unfold draw. cbn beta zeta iota.
  simpl cl_proto. simpl cl_phraseC.
  destruct (NewJoiner _ _ _) as [j|]; [|done].
  destruct (EncodePayload KindRekeyPake1 _) as [p|] eqn:Ep; [|done].
  destruct (writeFrame_cases (put_rekeyJoiner (put_draws c (cl_draws c + 1)) (Some j))
    MsgDirect (mkDirect (cl_hostID c) 0 p)) as [(f & Ef & _ & E)|(e & w & E)]; rewrite E; [|done].
  intros [= <-]. exists j, p, f. done.
Qed.

Lemma handleRekeyPake1_answers h id jn p1 kh f2 p2 g2 w p3 g3 :
  healthy → cl_role h = RoleHost → cl_hostID h = cl_self h →
  EncodePayload KindRekeyPake1 (mkPake (j_Flight1 jn) false) = Ok p1 →
  HostExchange (cl_draws h) (cl_proto h) (cl_phraseC h) (j_Flight1 jn) (cl_sid h) id (cl_self h)
    = Ok (kh, f2) →
  EncodePayload KindRekeyPake2 (mkPake f2 false) = Ok p2 →
  Encode MsgDirect (mkDirect id 0 p2) = Ok g2 →
  WrapGroupKey (cl_draws h + 1) kh (cl_groupKey h) RoleNone (cl_sid h) id = Ok w →
  EncodePayload KindRekey w = Ok p3 → Encode MsgDirect (mkDirect id 0 p3) = Ok g3 →
  ∃ d, handlePayload h id p1
    = put_sent (put_writes (put_draws (put_pairwise h (<[id := kh]> (cl_pairwise h))) d)
        (cl_writes h + 1 + 1)) (cl_sent h ++ [g2; g3]).
Proof.
  intros Hw Hr Hs Ep1 Hx Ep2 Eg2 Ew Ep3 Eg3.
  destruct (payload_decodes KindRekeyPake1 (mkPake (j_Flight1 jn) false) p1 I Ep1)
    as (raw & Ed & Eb).
  change [g2; g3] with ([g2] ++ [g3]). rewrite (assoc_L (++)).
  exists (cl_draws h + 1 + 1). unfold Session.handlePayload. rewrite Ed. simpl bool_decide.
  cbn iota. unfold handleRekeyPake1. rewrite Hr, Hs, !bool_decide_eq_false_2 by tauto.
  simpl orb. cbn iota.
  rewrite Eb. unfold draw. cbn beta zeta iota. cbn [pk_Data]. simpl cl_proto.
  simpl cl_phraseC. simpl cl_sid. simpl cl_self. rewrite Hx.
  rewrite Ep2, (writeFrame_ok _ _ _ g2) by done. cbn beta zeta iota.
  simpl cl_draws. simpl cl_groupKey. simpl cl_sid. rewrite Ew, Ep3.
  by rewrite (writeFrame_ok _ _ _ g3) by done.
Qed.

Lemma handleRekeyPake2_finishes c from jn j' pw f2 p2 :
  cl_rekeyJoiner c = Some jn → from = cl_hostID c →
  EncodePayload KindRekeyPake2 (mkPake f2 false) = Ok p2 →
  Finish (cl_draws c) jn f2 (cl_sid c) (cl_self c) (cl_hostID c) = (j', Ok pw) →
  handlePayload c from p2 = put_rekeyJoiner (put_haveHostPairwise (put_hostPairwise
    (put_draws c (cl_draws c + 1)) pw) true) None.
Proof.
  intros Hj -> Ep2 Hf.
  destruct (payload_decodes KindRekeyPake2 (mkPake f2 false) p2 I Ep2) as (raw & Ed & Eb).
  unfold Session.handlePayload. rewrite Ed. simpl bool_decide. cbn iota.
  unfold handleRekeyPake2. rewrite Hj, bool_decide_eq_false_2, Eb by tauto.
  unfold draw. cbn beta zeta iota. cbn [pk_Data].
  simpl cl_sid. simpl cl_self. simpl cl_hostID. by rewrite Hf.
Qed.

(** A survivor [c] and the host [h] it now points at, across the exchange: the
    host's books gain the pairwise key, the survivor ends with it and the host's
    group key. *)
Lemma rekey_exchange c h s1 jn p1 f1 j' kh kj f2 p2 g2 w p3 g3 :
  cl_keyed c = true → cl_role c ≠ RoleHost → cl_hostID c = cl_self h → cl_self h ≠ cl_self c →
  cl_proto c = cl_proto h → cl_phraseC c = cl_phraseC h → cl_sid c = cl_sid h →
  healthy → cl_role h = RoleHost → cl_hostID h = cl_self h → key_wf (cl_groupKey h) →
  let id := cl_self c in
  RekeyWithNewHost c = (s1, Ok tt) →
  cl_rekeyJoiner s1 = Some jn → cl_sent s1 = cl_sent c ++ [f1] →
  EncodePayload KindRekeyPake1 (mkPake (j_Flight1 jn) false) = Ok p1 →
  HostExchange (cl_draws h) (cl_proto h) (cl_phraseC h) (j_Flight1 jn) (cl_sid h) id (cl_self h)
    = Ok (kh, f2) →
  Finish (cl_draws s1) jn f2 (cl_sid c) id (cl_self h) = (j', Ok kj) →
  EncodePayload KindRekeyPake2 (mkPake f2 false) = Ok p2 →
  WrapGroupKey (cl_draws h + 1) kh (cl_groupKey h) RoleNone (cl_sid h) id = Ok w →
  EncodePayload KindRekey w = Ok p3 →
  Encode MsgDirect (mkDirect id 0 p2) = Ok g2 → Encode MsgDirect (mkDirect id 0 p3) = Ok g3 →
  Encode MsgDirect (mkDirect (cl_self h) 0 p1) = Ok f1 ∧
  (∃ d, handlePayload h id p1
     = put_sent (put_writes (put_draws (put_pairwise h (<[id := kh]> (cl_pairwise h))) d)
         (cl_writes h + 1 + 1)) (cl_sent h ++ [g2; g3])) ∧
  ∃ d, handlePayload (handlePayload s1 (cl_self h) p2) (cl_self h) p3
    = rotated (put_rekeyJoiner (put_haveHostPairwise (put_hostPairwise (put_draws s1 d) kh) true)
        None) (cl_groupKey h).
Proof.
  intros Hk Hr Hhost Hne Hpr Hph Hsid Hh Hrh Hself Hwf id Hrk Hj Hs Ep1 Hx Hf Ep2 Ew Ep3 Eg2 Eg3.
  apply RekeyWithNewHost_Ok in Hrk as (jn' & p & f & Hnj & Ep & Ef & Es1); try done;
    [|by rewrite Hhost].
  rewrite Es1 in Hj. injection Hj as ->. rewrite Ep1 in Ep. injection Ep as <-.
  rewrite Es1 in Hs. simpl in Hs. apply app_inv_head in Hs. injection Hs as ->.
  rewrite Hhost in Ef. split; [done|]. split; [by eapply handleRekeyPake1_answers|].
  rewrite Hpr, Hph in Hnj. rewrite Hsid in Hf.
  destruct (handshake_keys _ _ _ _ _ _ _ _ _ _ _ _ _ Hnj Hx Hf) as [-> _].
  assert (cl_self s1 = id ∧ cl_sid s1 = cl_sid h ∧ cl_hostID s1 = cl_self h)
    as (E1 & E2 & E3) by (by rewrite Es1).
  rewrite (handleRekeyPake2_finishes s1 (cl_self h) jn j' kh f2 p2);
    [|by rewrite Es1|done|done|by rewrite E1, E2, E3].
  rewrite (handlePayload_rekey rolePolicy _ (cl_self h) (cl_draws h + 1) kh (cl_groupKey h)
    RoleNone id w p3); try done; [|simpl; by rewrite E2].
  by eexists.
Qed.

(** Two members after their host has gone: the one promoted, and a survivor. *)
Record migration (s n : Client) : Prop := {
  mg_keyed : cl_keyed s = true;
  mg_role : cl_role s ≠ RoleHost;
  mg_other : cl_self n ≠ cl_self s;
  mg_proto : cl_proto s = cl_proto n;
  mg_phrase : cl_phraseC s = cl_phraseC n;
  mg_sid : cl_sid s = cl_sid n
}.

(** a migration re-keys the survivors.  The promoted member mints a fresh
    group key; a survivor pointed at it runs the PAKE again, and when the relay
    has delivered the survivor's flight and the new host's two answers, the
    survivor holds the fresh key as its current one, keeps its role and its old
    key, and shares with the new host the pairwise key that host will use for the
    next rotation. *)
Theorem migration_rekeys s n k s1 jn p1 f1 j' kh kj f2 p2 g2 w p3 g3 :
  migration s n → healthy → rand_read (cl_draws n) KeySize = Some k →
  let h := RotateForMigration (BecomeHost n) in
  let id := cl_self s in
  RekeyWithNewHost (SetHostID s (cl_self n)) = (s1, Ok tt) →
  cl_rekeyJoiner s1 = Some jn → cl_sent s1 = cl_sent s ++ [f1] →
  EncodePayload KindRekeyPake1 (mkPake (j_Flight1 jn) false) = Ok p1 →
  HostExchange (cl_draws h) (cl_proto h) (cl_phraseC h) (j_Flight1 jn) (cl_sid h) id (cl_self h)
    = Ok (kh, f2) →
  Finish (cl_draws s1) jn f2 (cl_sid s) id (cl_self n) = (j', Ok kj) →
  EncodePayload KindRekeyPake2 (mkPake f2 false) = Ok p2 →
  WrapGroupKey (cl_draws h + 1) kh (cl_groupKey h) RoleNone (cl_sid h) id = Ok w →
  EncodePayload KindRekey w = Ok p3 →
  Encode MsgDirect (mkDirect id 0 p2) = Ok g2 → Encode MsgDirect (mkDirect id 0 p3) = Ok g3 →
  Encode MsgDirect (mkDirect (cl_self n) 0 p1) = Ok f1 ∧
  let h' := handlePayload h id p1 in
  let s3 := handlePayload (handlePayload s1 (cl_self n) p2) (cl_self n) p3 in
  cl_sent h' = cl_sent h ++ [g2; g3] ∧
  cl_groupKey h' = k ∧ cl_groupKey n ∈ keys_of h' ∧
  cl_groupKey s3 = k ∧ cl_role s3 = cl_role s ∧ cl_groupKey s ∈ keys_of s3 ∧
  cl_haveHostPairwise s3 = true ∧ cl_pairwise h' !! id = Some (cl_hostPairwise s3).
Proof.
  intros [Hk Hr Hne Hpr Hph Hsid] Hh Hrand h id Hrk Hj Hs Ep1 Hx Hf Ep2 Ew Ep3 Eg2 Eg3.
  assert (h = put_pairwise (rotated (put_draws (BecomeHost n) (cl_draws n + 1)) k) ∅) as Eh
    by (by apply RotateForMigration_promoted).
  clearbody h. assert (cl_groupKey h = k) as Ek by (by rewrite Eh).
  destruct (rekey_exchange (SetHostID s (cl_self n)) h s1 jn p1 f1 j' kh kj f2 p2 g2 w p3 g3)
    as (Ef & [d1 Eh'] & [d2 Es3]); try done; try (by rewrite Eh).
  - rewrite Ek. by eapply rand_read_length.
  - assert (cl_self h = cl_self n) as E by (by rewrite Eh). rewrite E in *.
    change (cl_self (SetHostID s (cl_self n))) with id in Eh'. rewrite Eh', Es3, Ek.
    apply RekeyWithNewHost_Ok in Hrk as (? & ? & ? & _ & _ & _ & ->); try done.
    split; [done|]. cbv zeta. simpl. rewrite lookup_insert_eq, Ek.
    split_and!; try done; [|right; by left]. rewrite Eh. right. by left.
Qed.

(** a flight that is early is lost.  The promoted member becomes host on its
    mux's goroutine, and reads the survivors' flights on its client's.  A flight
    read before the promotion is dropped without an answer, and no other is sent:
    the new host then holds the fresh key and no pairwise key to hand it out with,
    and the survivor, unless it happens to hold that key, can open nothing that
    the new host seals. *)
Theorem early_flight_lost s n k s1 jn p1 :
  migration s n → cl_role n ≠ RoleHost → rand_read (cl_draws n) KeySize = Some k →
  RekeyWithNewHost (SetHostID s (cl_self n)) = (s1, Ok tt) → cl_rekeyJoiner s1 = Some jn →
  EncodePayload KindRekeyPake1 (mkPake (j_Flight1 jn) false) = Ok p1 →
  let n1 := handlePayload n (cl_self s) p1 in
  let h := RotateForMigration (BecomeHost n1) in
  n1 = n ∧ cl_groupKey h = k ∧ cl_pairwise h = ∅ ∧ cl_sent h = cl_sent n ∧
  (k ∉ keys_of s → sid_wf (cl_sid n) → pid_wf (cl_self n) →
   ∀ svc body h' payload, utf8_valid svc → seal h svc body = (h', Ok payload) →
     handlePayload s1 (cl_self n) payload = s1).
Proof.
  intros [Hk Hr Hne Hpr Hph Hsid] Hn Hrand Hrk Hj Ep1 n1 h.
  assert (n1 = n) as En.
  { destruct (payload_decodes KindRekeyPake1 (mkPake (j_Flight1 jn) false) p1 I Ep1)
      as (raw & Ed & _).
    unfold n1, Session.handlePayload. rewrite Ed. simpl bool_decide. cbn iota.
    unfold handleRekeyPake1. by rewrite bool_decide_eq_true_2. }
  assert (h = put_pairwise (rotated (put_draws (BecomeHost n) (cl_draws n + 1)) k) ∅) as Eh
    by (unfold h; rewrite En; by apply RotateForMigration_promoted).
  split; [done|]. rewrite Eh. split; [done|]. split; [done|]. split; [done|].
  intros Hkey Hs Hp svc body h' payload Hu Hseal.
  apply RekeyWithNewHost_Ok in Hrk as (jn' & p & f & _ & _ & _ & Es1); try done.
  assert (sid_wf (cl_sid s1)) as Hs1 by (rewrite Es1; simpl; by rewrite Hsid).
  set (c := put_pairwise _ _) in Hseal.
  rewrite (sealed_payload rolePolicy c svc body h' payload s1 (cl_self n) Hs Hs1 Hp Hp Hu Hseal).
  rewrite bool_decide_eq_false_2; [done|]. intros (_ & Hin & _). apply Hkey.
  rewrite Es1 in Hin. exact Hin.
Qed.

(** ** Who may change a client's keys *)

(** What a client decrypts with, acts as and is. *)
Definition key_state (c : Client) :=
  (cl_groupKey c, cl_prevKeys c, cl_role c, cl_keyed c, cl_hostPairwise c,
   cl_haveHostPairwise c, (cl_hostID c, cl_self c, cl_sid c, cl_seqs c)).

Lemma writeFrame_key_state `{Cbor T} c t (body : T) c' r :
  writeFrame c t body = (c', r) → key_state c' = key_state c.
Proof.
  intros E. destruct (writeFrame_cases c t body) as [(f & _ & _ & E')|(e & w & E')];
    rewrite E' in E; by simplify_eq.
Qed.

Lemma handleHandshakeDirect_key_state c from kind raw :
  key_state (handleHandshakeDirect rolePolicy c from kind raw) = key_state c.
Proof.
  unfold handleHandshakeDirect. destruct (_ || _); [done|]. destruct (Body Pake raw); [|done].
  unfold draw. cbn beta zeta iota. destruct (HostExchange _ _ _ _ _ _ _) as [[pw f2]|]; [|done].
  set (c1 := put_pairwise _ _). assert (key_state c1 = key_state c) as Hc1 by done.
  destruct (EncodePayload KindPake2 _) as [p2|]; [|done].
  destruct (writeFrame c1 _ _) as [c2 [[]|]] eqn:E2; apply writeFrame_key_state in E2; [|congruence].
  destruct (WrapGroupKey _ _ _ _ _ _); [|by rewrite <- Hc1, <- E2].
  destruct (EncodePayload KindGroupKey _) as [p3|]; [|by rewrite <- Hc1, <- E2].
  destruct (writeFrame (put_draws c2 _) _ _) as [c3 [[]|]] eqn:E3;
    apply writeFrame_key_state in E3; rewrite <- Hc1, <- E2; exact E3.
Qed.

Lemma handleRekeyPake1_key_state c from raw :
  key_state (handleRekeyPake1 c from raw) = key_state c.
Proof.
  unfold handleRekeyPake1. destruct (_ || _); [done|]. destruct (Body Pake raw); [|done].
  unfold draw. cbn beta zeta iota. destruct (HostExchange _ _ _ _ _ _ _) as [[pw f2]|]; [|done].
  set (c1 := put_pairwise _ _). assert (key_state c1 = key_state c) as Hc1 by done.
  destruct (EncodePayload KindRekeyPake2 _) as [p2|]; [|done].
  destruct (writeFrame c1 _ _) as [c2 [[]|]] eqn:E2; apply writeFrame_key_state in E2; [|congruence].
  destruct (WrapGroupKey _ _ _ _ _ _); [|by rewrite <- Hc1, <- E2].
  destruct (EncodePayload KindRekey _) as [p3|]; [|by rewrite <- Hc1, <- E2].
  destruct (writeFrame (put_draws c2 _) _ _) as [c3 [[]|]] eqn:E3;
    apply writeFrame_key_state in E3; simpl; rewrite <- Hc1, <- E2; exact E3.
Qed.

(** C29: only the host re-keys.  Whatever payload a client receives from anybody
    but the participant it takes for the host, its group key, retained keys,
    role, pairwise key, idea of the host and sequence numbers stay as they are;
    and unless it is a host itself, nothing at all changes but the events it
    has emitted. *)
Theorem only_host_rekeys c from payload :
  from ≠ cl_hostID c →
  let c' := handlePayload c from payload in
  key_state c' = key_state c ∧
  (cl_role c ≠ RoleHost → ∃ es, c' = put_events c (cl_events c ++ es)).
Proof.
  intros Hne. assert (c = put_events c (cl_events c ++ [])) as Hid
    by (rewrite app_nil_r; by destruct c).
  unfold Session.handlePayload. destruct (DecodePayload payload) as [[kind raw]|]; [|eauto].
  case_bool_decide.
  { unfold handleRekey. rewrite (bool_decide_eq_false_2 (from = _)), andb_false_r by done. eauto. }
  case_bool_decide.
  { split; [apply handleRekeyPake1_key_state|]. intros Hr. exists [].
    unfold handleRekeyPake1. by rewrite (bool_decide_eq_true_2 (_ ≠ RoleHost)). }
  case_bool_decide.
  { unfold handleRekeyPake2. destruct (cl_rekeyJoiner c); [|eauto].
    rewrite bool_decide_eq_true_2 by done. eauto. }
  case_bool_decide.
  { split; [apply handleHandshakeDirect_key_state|]. intros Hr. exists [].
    unfold handleHandshakeDirect. by rewrite (bool_decide_eq_true_2 (_ ≠ RoleHost)). }
  destruct (Body SealedFrame raw); [|eauto]. destruct (openFrame _ _ _); [|eauto].
  destruct (Body Envelope _); [|eauto]. split; [done|]. intros _. by eexists.
Qed.

(** ** The ring of retained keys *)

Definition ring_ok (c : Client) : Prop := (length (cl_prevKeys c) ≤ prevKeyRing)%nat.

Lemma key_state_ring c c' : key_state c' = key_state c → ring_ok c → ring_ok c'.
Proof. unfold key_state, ring_ok. intros [= _ -> _]. done. Qed.

Lemma handlePayload_ring c from p : ring_ok c → ring_ok (handlePayload c from p).
Proof.
  intros Hc. unfold Session.handlePayload. destruct (DecodePayload p) as [[kind raw]|]; [|done].
  case_bool_decide.
  { unfold handleRekey. destruct (_ && _); [|done]. destruct (Body GroupKey raw); [|done].
    destruct (UnwrapGroupKey _ _ _ _) as [[k role]|]; [|done].
    case_bool_decide; apply ring_bound. }
  case_bool_decide; [by eapply key_state_ring; [apply handleRekeyPake1_key_state|]|].
  case_bool_decide.
  { unfold handleRekeyPake2. destruct (cl_rekeyJoiner c); [|done]. case_bool_decide; [done|].
    destruct (Body Pake raw); [|done]. unfold draw. cbn beta zeta iota.
    by destruct (Finish _ _ _ _ _ _) as [? []]. }
  case_bool_decide; [by eapply key_state_ring; [apply handleHandshakeDirect_key_state|]|].
  destruct (Body SealedFrame raw); [|done]. destruct (openFrame _ _ _); [|done].
  by destruct (Body Envelope _).
Qed.

Lemma dispatchFrame_ring c typ raw : ring_ok c → ring_ok (dispatchFrame c typ raw).1.
Proof.
  intros Hc. unfold Session.dispatchFrame.
  case_bool_decide; [by destruct (Body ParticipantJoined raw)|].
  case_bool_decide; [destruct (Body ParticipantLeft raw); [|done]; by apply rekey_prev_bound|].
  case_bool_decide; [done|].
  case_bool_decide; [destruct (Body Direct raw); [by apply handlePayload_ring|done]|].
  case_bool_decide; [destruct (Body Wire.Broadcast raw); [by apply handlePayload_ring|done]|done].
Qed.

Lemma readLoop_ring c reads : ring_ok c → ring_ok (readLoop c reads).1.
Proof.
  revert c. induction reads as [|r reads IH]; intros c Hc; simpl; [done|].
  destruct (readFrameConn r) as [[typ raw]|]; [|done].
  pose proof (dispatchFrame_ring c typ raw Hc) as Hd.
  destruct (dispatchFrame c typ raw) as [c1 []]; [done|by apply IH].
Qed.

(** old keys are kept briefly, not for ever.  Whatever frames arrive, and
    through any promotion, a client never retains more than [prevKeyRing]
    superseded keys. *)
Theorem ring_bounded c reads :
  (length (cl_prevKeys c) ≤ prevKeyRing)%nat →
  (length (cl_prevKeys (readLoop c reads).1) ≤ prevKeyRing)%nat ∧
  (length (cl_prevKeys (RotateForMigration c)) ≤ prevKeyRing)%nat.
Proof.
  intros Hc. split; [by apply readLoop_ring|]. unfold RotateForMigration.
  destruct (_ || _); [done|]. unfold draw. cbn beta zeta iota.
  destruct (NewGroupKey _); [apply ring_bound|done].
Qed.

(** ** The event stream *)

Definition not_closed (e : Event) : Prop := match e with Closed _ => False | _ => True end.

Definition emits (c c' : Client) : Prop :=
  ∃ es, cl_events c' = cl_events c ++ es ∧ Forall not_closed es.

#[global] Instance emits_refl : Reflexive emits.
Proof. intros c. exists []. by rewrite app_nil_r. Qed.

#[global] Instance emits_trans : Transitive emits.
Proof.
  intros c1 c2 c3 (es & E1 & H1) (es' & E2 & H2). exists (es ++ es').
  rewrite E2, E1, (assoc_L (++)). split; [done|]. by apply Forall_app.
Qed.

Lemma emits_same c c' : cl_events c' = cl_events c → emits c c'.
Proof. intros E. exists []. by rewrite app_nil_r. Qed.

Lemma emits_one c e : not_closed e → emits c (emit c e).
Proof. intros He. exists [e]. split; [done|]. by apply Forall_singleton. Qed.

Lemma writeFrame_events `{Cbor T} c t (body : T) c' r :
  writeFrame c t body = (c', r) → cl_events c' = cl_events c.
Proof.
  intros E. destruct (writeFrame_cases c t body) as [(f & _ & _ & E')|(e & w & E')];
    rewrite E' in E; by simplify_eq.
Qed.

Lemma handleHandshakeDirect_emits c from kind raw :
  emits c (handleHandshakeDirect rolePolicy c from kind raw).
Proof.
  unfold handleHandshakeDirect. destruct (_ || _); [done|]. destruct (Body Pake raw); [|done].
  unfold draw. cbn beta zeta iota. destruct (HostExchange _ _ _ _ _ _ _) as [[pw f2]|];
    [|by apply emits_same].
  set (c1 := put_pairwise _ _). assert (emits c c1) as Hc1 by (by apply emits_same).
  destruct (EncodePayload KindPake2 _) as [p2|]; [|done].
  destruct (writeFrame c1 _ _) as [c2 [[]|]] eqn:E2; apply writeFrame_events, emits_same in E2;
    (trans c1; [done|]; trans c2; [done|]); [|done].
  destruct (WrapGroupKey _ _ _ _ _ _); [|by apply emits_same].
  destruct (EncodePayload KindGroupKey _) as [p3|]; [|by apply emits_same].
  destruct (writeFrame (put_draws c2 _) _ _) as [c3 [[]|]] eqn:E3;
    apply writeFrame_events in E3; [|by apply emits_same].
  trans c3; [by apply emits_same|by apply emits_one].
Qed.

Lemma handleRekeyPake1_emits c from raw : emits c (handleRekeyPake1 c from raw).
Proof.
  unfold handleRekeyPake1. destruct (_ || _); [done|]. destruct (Body Pake raw); [|done].
  unfold draw. cbn beta zeta iota. destruct (HostExchange _ _ _ _ _ _ _) as [[pw f2]|];
    [|by apply emits_same].
  set (c1 := put_pairwise _ _). assert (emits c c1) as Hc1 by (by apply emits_same).
  destruct (EncodePayload KindRekeyPake2 _) as [p2|]; [|done].
  destruct (writeFrame c1 _ _) as [c2 [[]|]] eqn:E2; apply writeFrame_events, emits_same in E2;
    (trans c1; [done|]; trans c2; [done|]); [|done].
  destruct (WrapGroupKey _ _ _ _ _ _); [|by apply emits_same].
  destruct (EncodePayload KindRekey _) as [p3|]; [|by apply emits_same].
  destruct (writeFrame (put_draws c2 _) _ _) as [c3 r] eqn:E3;
    apply writeFrame_events in E3. by apply emits_same.
Qed.

Lemma handlePayload_emits c from p : emits c (handlePayload c from p).
Proof.
  unfold Session.handlePayload. destruct (DecodePayload p) as [[kind raw]|]; [|done].
  case_bool_decide.
  { unfold handleRekey. destruct (_ && _); [|done]. destruct (Body GroupKey raw); [|done].
    destruct (UnwrapGroupKey _ _ _ _) as [[k role]|]; [|done].
    by case_bool_decide; apply emits_same. }
  case_bool_decide; [apply handleRekeyPake1_emits|]. case_bool_decide.
  { unfold handleRekeyPake2. destruct (cl_rekeyJoiner c); [|done]. case_bool_decide; [done|].
    destruct (Body Pake raw); [|done]. unfold draw. cbn beta zeta iota.
    by destruct (Finish _ _ _ _ _ _) as [? []]; apply emits_same. }
  case_bool_decide; [apply handleHandshakeDirect_emits|].
  destruct (Body SealedFrame raw); [|done]. destruct (openFrame _ _ _); [|done].
  destruct (Body Envelope _); [|done]. by apply emits_one.
Qed.

Lemma dispatchFrame_emits c typ raw :
  let '(c', stop) := dispatchFrame c typ raw in
  if stop : bool then ∃ reason, c' = emit c (Closed reason) else emits c c'.
Proof.
  unfold Session.dispatchFrame.
  case_bool_decide; [destruct (Body ParticipantJoined raw); [by apply emits_one|done]|].
  case_bool_decide.
  { destruct (Body ParticipantLeft raw) as [pl|]; [|done]. set (c1 := emit _ _).
    trans c1; [by exists [MemberLeft (pl_ParticipantID pl)]; split; [|apply Forall_singleton]|].
    apply emits_same. destruct (rekey_cases c1) as [(n & ->)|(_ & k & fs & _ & _ & He & _)]; done. }
  case_bool_decide; [eauto|].
  case_bool_decide; [destruct (Body Direct raw); [apply handlePayload_emits|done]|].
  case_bool_decide; [destruct (Body Wire.Broadcast raw); [apply handlePayload_emits|done]|done].
Qed.

(** Closed fires once and last.  Over any sequence of reads, the events the
    read loop emits contain no Closed while it runs, and when it ends (on a read
    error, an undecodable frame or the relay's SessionClosed) exactly one, as the
    last event. *)
Theorem closed_last c reads :
  let '(c', ended) := readLoop c reads in
  ∃ es, Forall not_closed es ∧
    if ended : bool then ∃ reason, cl_events c' = cl_events c ++ es ++ [Closed reason]
    else cl_events c' = cl_events c ++ es.
Proof.
  revert c. induction reads as [|r reads IH]; intros c; simpl.
  { exists []. by rewrite app_nil_r. }
  destruct (readFrameConn r) as [[typ raw]|]; [|exists []; split; [done|by eexists]].
  pose proof (dispatchFrame_emits c typ raw) as Hd.
  destruct (dispatchFrame c typ raw) as [c1 []].
  - destruct Hd as [reason ->]. exists []. split; [done|]. by exists reason.
  - destruct Hd as (es & E & Hes). specialize (IH c1). destruct (readLoop c1 reads) as [c2 ended].
    destruct IH as (es' & Hes' & H'). exists (es ++ es'). split; [by apply Forall_app|].
    destruct ended; [destruct H' as [reason H']; exists reason|];
      by rewrite H', E, <- !(assoc_L (++)).
Qed.

(** ** Waiting for a reply, and reconnecting *)

(** Session traffic that may race ahead of a hello reply. *)
Definition racing (want : MsgType) (r : read) : Prop :=
  ∃ typ raw, readFrameConn r = Ok (typ, raw) ∧ typ ≠ want ∧
    (typ = MsgBroadcast ∨ typ = MsgDirect ∨ typ = MsgParticipantJoined ∨ typ = MsgParticipantLeft).

Lemma awaitReply_skips want noise reads :
  Forall (racing want) noise → awaitReply want (noise ++ reads) = awaitReply want reads.
Proof.
  induction 1 as [|r noise (typ & raw & Hr & Hw & Ht) _ IH]; [done|]. simpl.
  rewrite Hr, bool_decide_eq_false_2 by done.
  rewrite bool_decide_eq_false_2; [|destruct Ht as [->|[->|[->| ->]]]; done].
  assert (bool_decide (typ = MsgBroadcast) || bool_decide (typ = MsgDirect)
    || bool_decide (typ = MsgParticipantJoined) || bool_decide (typ = MsgParticipantLeft) = true)
    as -> by (destruct Ht as [->|[->|[->| ->]]]; reflexivity).
  done.
Qed.

(** a reconnect is invisible to the peers.  When the resume request goes out
    and the relay answers with an accepting JoinResult, behind whatever session
    traffic was buffered before it, the client is who it was: identifier,
    session, role, keys, idea of the host and, above all, the sequence number of
    every service; only the event stream is new and the reclaim token may be
    replaced.  When the request cannot be written, that error is returned and
    nothing is read. *)
Theorem reconnect_preserves c noise f jr rest :
  Forall (racing MsgJoinResult) noise → cbor_wf jr → Encode MsgJoinResult jr = Ok f →
  jr_OK jr = true →
  let '(c', res) := Reconnect c (noise ++ Some f :: rest) in
  match (writeFrame c MsgResumeSession
           (mkResumeSession (cl_sid c) (cl_self c) (cl_resumeToken c))).2 with
  | Ok _ =>
      res = Some (Ok tt, rest) ∧ cl_events c' = [] ∧ key_state c' = key_state c ∧
      cl_pairwise c' = cl_pairwise c ∧ cl_joiners c' = cl_joiners c ∧
      cl_resumeToken c' = if bool_decide (jr_ResumeToken jr = []) then cl_resumeToken c
                          else jr_ResumeToken jr
  | Err e => res = Some (Err e, noise ++ Some f :: rest) ∧ core c' = core c
  end.
Proof.
  intros Hn Hwf He Hok. destruct (frame_reads MsgJoinResult jr f Hwf He) as (raw & Hr & Hb).
  unfold Reconnect.
  destruct (writeFrame_cases c MsgResumeSession
    (mkResumeSession (cl_sid c) (cl_self c) (cl_resumeToken c)))
    as [(f1 & _ & _ & ->)|(e & w & ->)]; [|done].
  rewrite awaitReply_skips by done. cbn [awaitReply]. rewrite Hr, bool_decide_eq_true_2 by done.
  rewrite Hb, Hok. simpl negb. cbn iota. by case_bool_decide.
Qed.
End Keys.
