(* ===== verification/SessionExamples.v ===== *)
(** * The session client on concrete inputs

    A host and its members over the bit codec, the ideal cipher and the exchange
    of nonces, on a link where every write succeeds; the theorems of
    [SessionSpec] and [SessionKeys] applied to them. *)
From S2P Require Import Prelude Wire Crypto Words Phrase Session SessionSpec SessionKeys.

#[local] Open Scope N_scope.

#[local] Existing Instance bits_codec.
#[local] Existing Instance bits_codec_spec.
#[local] Existing Instance ideal_aead.
#[local] Existing Instance ideal_aead_spec.
#[local] Existing Instance pad_hkdf.
#[local] Existing Instance nonce_pake_lib.
#[local] Existing Instance nonce_pake_spec.
#[local] Existing Instance ex_crypto_rand.

Definition ex_conn : Conn := λ _, true.
#[local] Existing Instance ex_conn.
Definition ex_range : MapRange ParticipantID Key := map_to_list_range ParticipantID Key.
#[local] Existing Instance ex_range.

Lemma ex_healthy : healthy.
Proof. split; [done|]. intros i n. by eexists. Qed.

(** A client at its start: identifier, host, role, group key, keyed. *)
Definition ex_client (self host : ParticipantID) (role : Role) (key : Key) (keyed : bool) : Client :=
  mkCl "parley/v1" ex_sid0 "lion-42-maple" self host role [] false key keyed [] ∅
    zero_key false None ∅ ∅ 0 0 [] [].

Definition ex_host : Client := ex_client 1 1 RoleHost ex_group true.
Definition ex_joining : Client := ex_client 2 1 RoleNone zero_key false.

(** A member with a pairwise key, and the host that shares it. *)
Definition ex_pw (b : byte) : Key := replicate 32 b.
Definition ex_member (id : ParticipantID) (b : byte) : Client :=
  put_haveHostPairwise (put_hostPairwise (ex_client id 1 RoleMember ex_group true) (ex_pw b)) true.
Definition ex_hosting : Client :=
  put_pairwise ex_host (<[2 := ex_pw x02]> {[ 3 := ex_pw x03 ]}).

Definition ex_left (x : ParticipantID) : bytes := default [] (marshal (mkParticipantLeft x)).

Lemma sealed_delivery_witness :
  ∃ payload, ok_or [] (seal ex_host "chat" [x68; x69]).2 = payload ∧
    handlePayload DefaultRolePolicy (ex_member 2 x02) 1 payload
    = emit (ex_member 2 x02) (Frame 1 (mkEnvelope "chat" 1 [x68; x69])).
Proof.
  destruct (seal ex_host "chat" [x68; x69]) as [c' [payload|e]] eqn:E;
    [|apply (f_equal snd) in E; vm_compute in E; discriminate E].
  exists payload. split; [reflexivity|].
  refine (eq_trans (sealed_delivery DefaultRolePolicy ex_host "chat" [x68; x69] c' payload
    (ex_member 2 x02) 1 _ _ _ _ _ E) _); reflexivity.
Defined.

Lemma not_in_keys k c : bool_decide (k ∈ keys_of c) = false → k ∉ keys_of c.
Proof. apply bool_decide_eq_false_1. Qed.

Lemma ex_departure : departure ex_hosting 2 (ex_left 2).
Proof.
  split; [reflexivity|apply ex_healthy|by split| |].
  - apply map_Forall_insert_2; [reflexivity|]. apply map_Forall_singleton. reflexivity.
  - intros E. apply (f_equal (lookup 3)) in E. vm_compute in E. discriminate E.
Qed.

Definition ex_after : Client :=
  (dispatchFrame DefaultRolePolicy ex_hosting MsgParticipantLeft (ex_left 2)).1.

(** The departed member cannot follow what the host seals next. *)
Lemma leave_locks_out_witness :
  ∃ payload, (seal ex_after "chat" [x68]).2 = Ok payload ∧
    handlePayload DefaultRolePolicy (ex_member 2 x02) 1 payload = ex_member 2 x02.
Proof.
  destruct (seal ex_after "chat" [x68]) as [c' [payload|e]] eqn:E;
    [|apply (f_equal snd) in E; vm_compute in E; discriminate E].
  exists payload. split; [reflexivity|].
  destruct (leave_locks_out DefaultRolePolicy ex_hosting 2 (ex_left 2) ex_departure eq_refl eq_refl)
    as (k & fs & Hk & _ & _ & _ & H).
  injection Hk as <-. refine (H "chat"%string [x68] c' payload (ex_member 2 x02) 1
    eq_refl E eq_refl eq_refl _).
  apply not_in_keys. vm_compute. reflexivity.
Defined.

(** The remaining one can. *)
Lemma survivors_rekeyed_witness :
  ∃ j gk, WrapGroupKey j (ex_pw x03) (cl_groupKey ex_after) RoleNone ex_sid0 3 = Ok gk ∧
  ∀ payload f, EncodePayload KindRekey gk = Ok payload →
    Encode MsgDirect (mkDirect 3 0 payload) = Ok f →
    f ∈ cl_sent ex_after ∧
    cl_groupKey (handlePayload DefaultRolePolicy (ex_member 3 x03) 1 payload)
    = cl_groupKey ex_after.
Proof.
  destruct (survivors_rekeyed DefaultRolePolicy ex_hosting 2 (ex_left 2) 3 (ex_pw x03)
    (ex_member 3 x03) ex_departure) as (j & gk & Hw & H); try reflexivity; [discriminate|].
  exists j, gk. split; [exact Hw|]. intros payload f Ep Ef.
  destruct (H payload f Ep Ef) as (H1 & H2 & _). split; [exact H1|exact H2].
Defined.

(** The frame the host wrote, as the relay delivers it. *)
Definition direct_of (f : bytes) : Direct :=
  match Decode f with
  | Ok (_, raw) => ok_or (mkDirect 0 0 []) (Body Direct raw)
  | Err _ => mkDirect 0 0 []
  end.

Example ex_survivor_follows :
  let d := direct_of (default [] (cl_sent ex_after !! 0%nat)) in
  let m' := handlePayload DefaultRolePolicy (ex_member 3 x03) 1 (d_Payload d) in
  length (cl_sent ex_after) = 1%nat ∧ d_To d = 3 ∧
  cl_groupKey m' = cl_groupKey ex_after ∧ cl_groupKey m' ≠ ex_group ∧ cl_prevKeys m' = [ex_group].
Proof. vm_compute. split_and!; try reflexivity. discriminate. Qed.

(** A host left alone. *)
Definition ex_lone : Client := put_pairwise ex_host {[ 2 := ex_pw x02 ]}.

Lemma lone_host_keeps_key_witness :
  ∃ payload, (seal (dispatchFrame DefaultRolePolicy ex_lone MsgParticipantLeft (ex_left 2)).1
      "chat" [x68]).2 = Ok payload ∧
    handlePayload DefaultRolePolicy (ex_member 2 x02) 1 payload
    = emit (ex_member 2 x02) (Frame 1 (mkEnvelope "chat" 1 [x68])).
Proof.
  destruct (seal (dispatchFrame DefaultRolePolicy ex_lone MsgParticipantLeft (ex_left 2)).1
    "chat" [x68]) as [c' [payload|e]] eqn:E;
    [|apply (f_equal snd) in E; vm_compute in E; discriminate E].
  exists payload. split; [reflexivity|].
  exact (proj2 (lone_host_keeps_key DefaultRolePolicy ex_lone 2 (ex_left 2) "chat" [x68] c' payload
    (ex_member 2 x02) eq_refl eq_refl eq_refl eq_refl eq_refl E eq_refl eq_refl eq_refl)).
Defined.

(** ** A join *)

Lemma ex_pairing : pairing ex_joining ex_host.
Proof. by split. Qed.

Definition ex_no_joiner : Joiner := mkJoiner (mkNoncePake "" 0 [] None) "" [].
Definition ex_jn : Joiner := ok_or ex_no_joiner (sendPake1 ex_joining).2.
Definition ex_j1 : Client := (sendPake1 ex_joining).1.
Definition ex_answer : Key * bytes := ok_or ([], [])
  (HostExchange 0 "parley/v1" "lion-42-maple" (j_Flight1 ex_jn) ex_sid0 2 1).
Definition ex_p2 : bytes := ok_or [] (EncodePayload KindPake2 (mkPake ex_answer.2 false)).
Definition ex_w : GroupKey := ok_or (mkGroupKey [] [])
  (WrapGroupKey 1 ex_answer.1 ex_group RoleMember ex_sid0 2).
Definition ex_p3 : bytes := ok_or [] (EncodePayload KindGroupKey ex_w).
Definition ex_direct (to from : ParticipantID) (p : bytes) : bytes :=
  ok_or [] (Encode MsgDirect (mkDirect to from p)).

(** A membership notice and another member's traffic, arriving in between. *)
Definition ex_noise : list read :=
  [Some (ok_or [] (Encode MsgParticipantJoined (mkParticipantJoined 4)));
   Some (ex_direct 2 4 [x05; x01])].

Lemma ex_noise_skippable : Forall (skippable 1) ex_noise.
Proof.
  repeat constructor.
  - eexists _, _. split; [vm_compute; reflexivity|]. split; discriminate.
  - destruct (readFrameConn (Some (ex_direct 2 4 [x05; x01]))) as [[typ raw]|] eqn:E;
      [|vm_compute in E; discriminate E].
    exists typ, raw. split; [exact E|]. vm_compute in E. injection E as <- <-.
    split; [discriminate|]. intros _ d Hd. vm_compute in Hd. injection Hd as <-. discriminate.
Qed.

Lemma ex_send : sendPake1 ex_joining = (ex_j1, Ok ex_jn).
Proof. vm_compute. reflexivity. Qed.
Lemma ex_host_answer :
  HostExchange (cl_draws ex_host) (cl_proto ex_host) (cl_phraseC ex_host) (j_Flight1 ex_jn)
    (cl_sid ex_host) 2 1 = Ok (ex_answer.1, ex_answer.2).
Proof. vm_compute. reflexivity. Qed.
Lemma ex_p2_ok : EncodePayload KindPake2 (mkPake ex_answer.2 false) = Ok ex_p2.
Proof. vm_compute. reflexivity. Qed.
Lemma ex_w_ok : WrapGroupKey 1 ex_answer.1 ex_group RoleMember ex_sid0 2 = Ok ex_w.
Proof. vm_compute. reflexivity. Qed.
Lemma ex_p3_ok : EncodePayload KindGroupKey ex_w = Ok ex_p3.
Proof. vm_compute. reflexivity. Qed.
Lemma ex_direct_ok from p : p = ex_p2 ∨ p = ex_p3 → from = 0 ∨ from = 1 →
  Encode MsgDirect (mkDirect 2 from p) = Ok (ex_direct 2 from p).
Proof. intros [->| ->] [->| ->]; vm_compute; reflexivity. Qed.
Lemma ex_finish :
  Finish (cl_draws ex_j1) ex_jn ex_answer.2 (cl_sid ex_joining) (cl_self ex_joining)
    (cl_hostID ex_joining)
  = ((Finish (cl_draws ex_j1) ex_jn ex_answer.2 ex_sid0 2 1).1, Ok ex_answer.1).
Proof. vm_compute. reflexivity. Qed.

Lemma join_completes_witness :
  let '(jk, res) := joinDriveHandshake ex_j1 (mkDrive ex_jn None)
    (ex_noise ++ Some (ex_direct 2 1 ex_p2) :: ex_noise ++ [Some (ex_direct 2 1 ex_p3)]) in
  res = Some (Ok tt, []) ∧ cl_keyed jk = true ∧ cl_role jk = RoleMember.
Proof.
  destruct (join_completes DefaultRolePolicy ex_joining ex_host ex_j1 ex_jn ex_answer.1 ex_answer.2
    (Finish (cl_draws ex_j1) ex_jn ex_answer.2 ex_sid0 2 1).1 ex_answer.1 ex_p2 ex_p3 ex_w
    (ex_direct 2 0 ex_p2) (ex_direct 2 0 ex_p3) (ex_direct 2 1 ex_p2) (ex_direct 2 1 ex_p3)
    ex_noise ex_noise [] ex_pairing ex_healthy ex_send ex_host_answer ex_finish ex_p2_ok ex_w_ok
    ex_p3_ok (ex_direct_ok _ _ (or_introl eq_refl) (or_introl eq_refl))
    (ex_direct_ok _ _ (or_intror eq_refl) (or_introl eq_refl))
    (ex_direct_ok _ _ (or_introl eq_refl) (or_intror eq_refl))
    (ex_direct_ok _ _ (or_intror eq_refl) (or_intror eq_refl))
    ex_noise_skippable ex_noise_skippable) as (p1 & f1 & _ & _ & H).
  cbv zeta in H. revert H. destruct (joinDriveHandshake _ _ _) as [jk res].
  intros (_ & _ & H1 & H2 & _ & H3 & _). split; [exact H1|]. split; [exact H2|exact H3].
Defined.

(** ** A migration: member 2 takes over, member 3 follows *)

Definition mg_s : Client := ex_member 3 x03.
Definition mg_n : Client := ex_member 2 x02.
Definition mg_h : Client := RotateForMigration (BecomeHost mg_n).
Definition mg_key : Key := default [] (rand_read (cl_draws mg_n) KeySize).
Definition mg_s1 : Client := (RekeyWithNewHost (SetHostID mg_s 2)).1.
Definition mg_jn : Joiner := default ex_no_joiner (cl_rekeyJoiner mg_s1).
Definition mg_p1 : bytes := ok_or [] (EncodePayload KindRekeyPake1 (mkPake (j_Flight1 mg_jn) false)).
Definition mg_answer : Key * bytes := ok_or ([], [])
  (HostExchange 1 "parley/v1" "lion-42-maple" (j_Flight1 mg_jn) ex_sid0 3 2).
Definition mg_p2 : bytes := ok_or [] (EncodePayload KindRekeyPake2 (mkPake mg_answer.2 false)).
Definition mg_w : GroupKey := ok_or (mkGroupKey [] [])
  (WrapGroupKey 2 mg_answer.1 (cl_groupKey mg_h) RoleNone ex_sid0 3).
Definition mg_p3 : bytes := ok_or [] (EncodePayload KindRekey mg_w).

Lemma mg_members : migration mg_s mg_n.
Proof. by split. Qed.
Lemma mg_sends : RekeyWithNewHost (SetHostID mg_s (cl_self mg_n)) = (mg_s1, Ok tt).
Proof. vm_compute. reflexivity. Qed.
Lemma mg_sent : cl_sent mg_s1 = cl_sent mg_s ++ [ex_direct 2 0 mg_p1].
Proof. vm_compute. reflexivity. Qed.
Lemma mg_p1_ok : EncodePayload KindRekeyPake1 (mkPake (j_Flight1 mg_jn) false) = Ok mg_p1.
Proof. vm_compute. reflexivity. Qed.
Lemma mg_answer_ok :
  HostExchange (cl_draws mg_h) (cl_proto mg_h) (cl_phraseC mg_h) (j_Flight1 mg_jn) (cl_sid mg_h)
    (cl_self mg_s) (cl_self mg_h) = Ok (mg_answer.1, mg_answer.2).
Proof. vm_compute. reflexivity. Qed.
Definition mg_finished : Joiner := (Finish (cl_draws mg_s1) mg_jn mg_answer.2 ex_sid0 3 2).1.
Lemma mg_finish :
  Finish (cl_draws mg_s1) mg_jn mg_answer.2 (cl_sid mg_s) (cl_self mg_s) (cl_self mg_n)
  = (mg_finished, Ok mg_answer.1).
Proof. vm_compute. reflexivity. Qed.
Lemma mg_p2_ok : EncodePayload KindRekeyPake2 (mkPake mg_answer.2 false) = Ok mg_p2.
Proof. vm_compute. reflexivity. Qed.
Lemma mg_w_ok :
  WrapGroupKey (cl_draws mg_h + 1) mg_answer.1 (cl_groupKey mg_h) RoleNone (cl_sid mg_h)
    (cl_self mg_s) = Ok mg_w.
Proof. vm_compute. reflexivity. Qed.
Lemma mg_p3_ok : EncodePayload KindRekey mg_w = Ok mg_p3.
Proof. vm_compute. reflexivity. Qed.
Lemma mg_direct_ok p : p = mg_p2 ∨ p = mg_p3 →
  Encode MsgDirect (mkDirect 3 0 p) = Ok (ex_direct 3 0 p).
Proof. intros [->| ->]; vm_compute; reflexivity. Qed.

Lemma migration_rekeys_witness :
  let s3 := handlePayload DefaultRolePolicy (handlePayload DefaultRolePolicy mg_s1 2 mg_p2) 2 mg_p3 in
  cl_groupKey s3 = mg_key ∧ cl_role s3 = RoleMember ∧ ex_group ∈ keys_of s3.
Proof.
  destruct (migration_rekeys DefaultRolePolicy mg_s mg_n mg_key mg_s1 mg_jn mg_p1
    (ex_direct 2 0 mg_p1) mg_finished mg_answer.1 mg_answer.1 mg_answer.2 mg_p2 (ex_direct 3 0 mg_p2)
    mg_w mg_p3 (ex_direct 3 0 mg_p3) mg_members ex_healthy eq_refl mg_sends eq_refl mg_sent mg_p1_ok
    mg_answer_ok mg_finish mg_p2_ok mg_w_ok mg_p3_ok (mg_direct_ok _ (or_introl eq_refl))
    (mg_direct_ok _ (or_intror eq_refl))) as (_ & _ & _ & _ & H1 & H2 & H3 & _).
  split; [exact H1|]. split; [exact H2|exact H3].
Defined.

(** Member 3's flight reaches member 2 before its mux has handled the departure. *)
Lemma early_flight_lost_witness :
  let h := RotateForMigration (BecomeHost (handlePayload DefaultRolePolicy mg_n 3 mg_p1)) in
  cl_groupKey h = mg_key ∧ cl_pairwise h = ∅ ∧
  ∃ payload, (seal h "chat" [x68]).2 = Ok payload ∧
    handlePayload DefaultRolePolicy mg_s1 2 payload = mg_s1.
Proof.
  destruct (early_flight_lost DefaultRolePolicy mg_s mg_n mg_key mg_s1 mg_jn mg_p1 mg_members
    ltac:(discriminate) eq_refl mg_sends eq_refl mg_p1_ok) as (_ & H1 & H2 & _ & H3).
  split; [exact H1|]. split; [exact H2|].
  destruct (seal (RotateForMigration (BecomeHost (handlePayload DefaultRolePolicy mg_n 3 mg_p1)))
    "chat" [x68]) as [h' [payload|e]] eqn:E; [|apply (f_equal snd) in E; vm_compute in E; discriminate E].
  exists payload. split; [reflexivity|].
  refine (H3 _ eq_refl eq_refl "chat"%string [x68] h' payload eq_refl E).
  apply not_in_keys. vm_compute. reflexivity.
Defined.

(** ** Who may re-key, the ring, and a reconnect *)

Lemma only_host_rekeys_witness :
  key_state (handlePayload DefaultRolePolicy mg_s1 4 mg_p3) = key_state mg_s1.
Proof. exact (proj1 (only_host_rekeys DefaultRolePolicy mg_s1 4 mg_p3 ltac:(discriminate))). Defined.

Definition ex_full_ring : Client := put_prevKeys ex_hosting (replicate 8 (ex_pw x09)).
Definition ex_left_frame : bytes :=
  ok_or [] (Encode MsgParticipantLeft (mkParticipantLeft 2)).

Lemma ring_bounded_witness :
  (length (cl_prevKeys (readLoop DefaultRolePolicy ex_full_ring [Some ex_left_frame]).1) ≤ 8)%nat.
Proof.
  exact (proj1 (ring_bounded DefaultRolePolicy ex_full_ring [Some ex_left_frame] (le_n 8))).
Defined.

(** The rotation pushed the oldest key out. *)
Example ex_ring_shifts :
  cl_prevKeys (readLoop DefaultRolePolicy ex_full_ring [Some ex_left_frame]).1
  = ex_group :: replicate 7 (ex_pw x09).
Proof. vm_compute. reflexivity. Qed.

Definition ex_accept : JoinResult := mkJoinResult true "" 2 [1; 3] 1 [x77].
Definition ex_accept_frame : bytes := ok_or [] (Encode MsgJoinResult ex_accept).
Definition ex_counting : Client := put_seqs (ex_member 2 x02) {[ "chat"%string := 41 ]}.

Lemma ex_noise_racing : Forall (racing MsgJoinResult) ex_noise.
Proof.
  repeat constructor; eexists _, _; (split; [vm_compute; reflexivity|]); (split; [discriminate|]);
    tauto.
Qed.

Lemma ex_accept_ok : Encode MsgJoinResult ex_accept = Ok ex_accept_frame.
Proof. vm_compute. reflexivity. Qed.
Lemma ex_accept_wf : cbor_wf ex_accept.
Proof.
  do 3 (split; [reflexivity|]). split; [|apply Nat.leb_le; reflexivity].
  repeat (apply Forall_cons_2; [reflexivity|]). apply Forall_nil_2.
Qed.
Definition ex_resume : result session_error unit :=
  (writeFrame ex_counting MsgResumeSession (mkResumeSession ex_sid0 2 [])).2.
Lemma ex_resume_ok : ex_resume = Ok tt.
Proof. vm_compute. reflexivity. Qed.

Lemma reconnect_preserves_witness :
  let '(c', res) := Reconnect ex_counting (ex_noise ++ Some ex_accept_frame :: []) in
  res = Some (Ok tt, []) ∧ key_state c' = key_state ex_counting ∧ cl_resumeToken c' = [x77].
Proof.
  pose proof (reconnect_preserves ex_counting ex_noise ex_accept_frame ex_accept []
    ex_noise_racing ex_accept_wf ex_accept_ok eq_refl) as H.
  destruct (Reconnect _ _) as [c' res].
  change (writeFrame ex_counting MsgResumeSession _).2 with ex_resume in H.
  rewrite ex_resume_ok in H.
  destruct H as (H1 & _ & H2 & _ & _ & H3). split; [exact H1|]. split; [exact H2|exact H3].
Defined.
