(* ===== verification/InterleaveExamples.v ===== *)
(** * Goroutines on concrete inputs

    The hosts and members of [SessionExamples] with several goroutines at once, and
    the theorems of [Interleave] applied to them.  Randomness is scarce here, so
    that all wraps there can be are a finite list. *)
From S2P Require Import Prelude Wire Crypto Words Phrase Prog Session SessionSpec Sections.
From S2P Require Import Interleave SessionKeys SessionExamples.

#[local] Open Scope N_scope.

#[local] Existing Instance bits_codec.
#[local] Existing Instance bits_codec_spec.
#[local] Existing Instance ideal_aead.
#[local] Existing Instance ideal_aead_spec.
#[local] Existing Instance pad_hkdf.
#[local] Existing Instance nonce_pake_lib.
#[local] Existing Instance nonce_pake_spec.
#[local] Existing Instance ex_conn.
#[local] Existing Instance ex_range.

Definition ex_scarce_rand : Entropy.
Proof.
  refine {| rand_read i n := if i <? 12 then Some (replicate n (byte_of_N i)) else None |}.
  intros i n bs H. destruct (i <? 12); [|done]. injection H as <-. apply length_replicate.
Defined.
#[local] Existing Instance ex_scarce_rand.

(** Every wrap for member 3 fits a frame. *)
Definition wraps_fit (i j : N) : bool :=
  match NewGroupKey j with
  | Err _ => true
  | Ok k =>
      match WrapGroupKey i (ex_pw x03) k RoleNone ex_sid0 3 with
      | Err _ => true
      | Ok gk =>
          match EncodePayload KindRekey gk with
          | Err _ => false
          | Ok p => match Encode MsgDirect (mkDirect 3 0 p) with Ok _ => true | Err _ => false end
          end
      end
  end.

Definition ex_indices : list N := N.of_nat <$> seq 0 12.

Lemma all_wraps_fit : forallb (λ i, forallb (wraps_fit i) ex_indices) ex_indices = true.
Proof. vm_compute. reflexivity. Qed.

Lemma rand_index i n bs : rand_read i n = Some bs → i ∈ ex_indices.
Proof.
  simpl. destruct (i <? 12) eqn:E; [|done]. intros _. apply N.ltb_lt in E.
  apply list_elem_of_fmap. exists (N.to_nat i). split; [by rewrite N2Nat.id|].
  apply elem_of_seq. lia.
Qed.

Lemma ex_fits j k i gk :
  NewGroupKey j = Ok k → WrapGroupKey i (ex_pw x03) k RoleNone (cl_sid ex_hosting) 3 = Ok gk →
  ∃ f, rekey_for (3, gk) f.
Proof.
  intros Hk Hw. assert (i ∈ ex_indices ∧ j ∈ ex_indices) as [Hi Hj].
  { split.
    - unfold WrapGroupKey in Hw. destruct (NewX _); [|done].
      destruct (rand_read i nonce_len) eqn:E; [|done]. by eapply rand_index.
    - unfold NewGroupKey in Hk. destruct (rand_read j KeySize) eqn:E; [|done]. by eapply rand_index. }
  pose proof all_wraps_fit as Hall. rewrite forallb_forall in Hall.
  specialize (Hall i (proj1 (list_elem_of_In _ _) Hi)). rewrite forallb_forall in Hall.
  specialize (Hall j (proj1 (list_elem_of_In _ _) Hj)). unfold wraps_fit in Hall.
  rewrite Hk in Hall. change (cl_sid ex_hosting) with ex_sid0 in Hw. rewrite Hw in Hall.
  destruct (EncodePayload KindRekey gk) as [p|] eqn:Ep; [|done].
  destruct (Encode MsgDirect (mkDirect 3 0 p)) as [f|] eqn:Ef; [|done].
  exists f, p. by split.
Qed.

Lemma ex_in_step : in_step ex_hosting (ex_member 3 x03) 3 (ex_pw x03).
Proof.
  split; try reflexivity; [|by split].
  intros i k Hi. unfold ex_hosting in Hi. simpl in Hi.
  apply lookup_insert_Some in Hi as [[<- _]|[_ [<- _]%lookup_singleton_Some]]; reflexivity.
Qed.

(** Member 2 leaves while two goroutines of the host talk. *)
Definition ex_reads : list read := [Some ex_left_frame].
Definition ex_talks : list (list utterance) :=
  [[Say "chat" [x68; x69]; Say "chat" [x79; x6f]]; [Tell 3 "ctl" [x61]]].
Definition ex_crew : list (prog Client (list bool)) := crew DefaultRolePolicy ex_talks ex_reads.
(** The first message is numbered and keyed before the rotation and written after
    it; the second is sealed between the rekey and the switch. *)
Definition ex_sched : list nat :=
  [1; 0; 0; 0; 2; 0; 1; 0; 1; 1; 1; 2; 1; 2; 0; 0; 1]%nat.
Definition ex_played := play ex_sched (ex_hosting, ex_crew).

Lemma ex_calm : Forall (calm_read ex_hosting 3) ex_reads.
Proof.
  constructor; [|constructor]. intros typ raw H. vm_compute in H. injection H as <- <-.
  split; [|split]; [|by intros ?|by intros ?]. intros _ x Hx. vm_compute in Hx. by injection Hx as <-.
Qed.

Lemma ex_talks_wf : Forall (Forall utterance_wf) ex_talks.
Proof. repeat constructor. Qed.

Definition ex_view : Client := view DefaultRolePolicy ex_hosting (ex_member 3 x03) 3 ex_played.1.

Lemma rotation_gapless_witness :
  (∃ es, cl_events ex_view = es ∧ length es = 3%nat) ∧
  heard DefaultRolePolicy ex_hosting (ex_member 3 x03) 3 (Say "chat" [x79; x6f]) ex_played.1 ∧
  cl_groupKey ex_view = cl_groupKey ex_played.1 ∧ cl_groupKey ex_view ≠ ex_group.
Proof.
  destruct (rotation_gapless DefaultRolePolicy ex_hosting (ex_member 3 x03) 3 (ex_pw x03) eq_refl
    eq_refl (λ _, eq_refl) ex_fits ex_talks ex_reads ex_sched ex_in_step ex_calm
    ltac:(vm_compute; lia) ex_talks_wf) as ((es & H1 & H2 & _) & H3 & H4).
  split; [exists es; split; [exact H1|rewrite H2; vm_compute; reflexivity]|].
  split; [|split].
  - refine (H3 0%nat _ [true; true] 1%nat _ eq_refl _ eq_refl eq_refl I). vm_compute. reflexivity.
  - refine (H4 [] _). vm_compute. reflexivity.
  - vm_compute. discriminate.
Defined.

