(* ===== verification/Confine.v ===== *)
(** * What only the read loop changes

    The roles the host has given out are kept in [cl_joiners], and the policy that
    assigns the next one runs on a copy, without the lock.  That is sound because
    only the read loop changes them: here every other goroutine may do what it
    likes with the client, under any schedule, and the copy is still current when
    the role it led to is stored. *)
From S2P Require Import Prelude Wire Crypto Words Phrase Prog Session SessionSpec Sections.


#[local] Open Scope N_scope.

(** Splits a goroutine into its sections; [write] is for those that write,
    [still] for those that plainly do not matter. *)
Ltac each_section write still :=
  repeat first
    [ done
    | apply all_sections_bind; [|intros ?]
    | match goal with
      | |- all_sections _ (mret _) => exact I
      | |- all_sections _ (Ret _) => exact I
      | |- all_sections _ (atomic _) => split; [intros ?; simpl|intros ?; exact I]
      | |- all_sections _ (reads _) => split; [intros ?; still|intros ?; exact I]
      | |- all_sections _ (updates _) => split; [intros ?; simpl|intros ?; exact I]
      | |- all_sections _ (writeFrame_p _ _) => split; [intros ?; write|intros ?; exact I]
      | |- all_sections _ draws => split; [intros ?; still|intros ?; exact I]
      | |- all_sections _ (emit_p _) => split; [intros ?; still|intros ?; exact I]
      | |- all_sections _ (match ?x with _ => _ end) => destruct x
      | |- all_sections _ (if ?x then _ else _) => destruct x
      end ].

Section Confine.
Context {WC : WireCodec} {AE : Aead} {HK : Hkdf} {PK : Pake_lib} {EN : Entropy} {CN : Conn}.
Context {MK : MapRange ParticipantID Key}.
Variable rolePolicy : ParticipantID → bool → gmap ParticipantID Role → Role.

(** What the other goroutines call; the ping loop sends a ping. *)
Inductive call :=
| DoBroadcast (svc : string) (body : bytes)
| DoSendTo (to : ParticipantID) (svc : string) (body : bytes)
| DoBecomeHost
| DoSetHostID (id : ParticipantID)
| DoRotate
| DoClaimHost
| DoRekey
| DoPing (nonce : N).

Definition call_p (x : call) : prog Client unit :=
  match x with
  | DoBroadcast svc body => _ ← Broadcast_p svc body; mret tt
  | DoSendTo to svc body => _ ← SendTo_p to svc body; mret tt
  | DoBecomeHost => BecomeHost_p
  | DoSetHostID id => SetHostID_p id
  | DoRotate => RotateForMigration_p
  | DoClaimHost => _ ← ClaimHost_p; mret tt
  | DoRekey => _ ← RekeyWithNewHost_p; mret tt
  | DoPing nonce => _ ← writeFrame_p MsgPing (mkPing nonce); mret tt
  end.

Fixpoint calls_p (xs : list call) : prog Client unit :=
  match xs with [] => mret tt | x :: xs => _ ← call_p x; calls_p xs end.

(** ** Steps *)

Definition same_joiners (c c' : Client) : Prop := cl_joiners c' = cl_joiners c.

(** A step of the read loop: nothing, a departure, or a role by the policy from the
    roles there are. *)
Definition assigns (c c' : Client) : Prop :=
  same_joiners c c' ∨ (∃ x, cl_joiners c' = delete x (cl_joiners c)) ∨
  ∃ from spectate,
    cl_joiners c' = <[from := assign_role rolePolicy c from spectate]> (cl_joiners c).

#[local] Instance same_joiners_preorder : PreOrder same_joiners.
Proof. split; [done|]. intros c1 c2 c3 H1 H2. by etrans. Qed.

Lemma writeFrame_joiners `{Cbor T} c t (body : T) : same_joiners c (writeFrame c t body).1.
Proof.
  destruct (writeFrame_cases c t body) as [(f & _ & _ & ->)|(e & w & ->)]; done.
Qed.

Lemma draw_joiners c : same_joiners c (draw c).1.
Proof. done. Qed.

Lemma rotate_joiners c : same_joiners c (RotateForMigration c).
Proof. unfold RotateForMigration. destruct (_ || _); [done|]. simpl. by destruct (NewGroupKey _). Qed.

Lemma number_joiners svc body c : same_joiners c (seal_number svc body c).1.
Proof. unfold seal_number. by destruct (negb _). Qed.

Lemma prepare_joiners c : same_joiners c (rekey_prepare c).1.
Proof.
  unfold rekey_prepare. destruct (_ || _); [done|]. simpl. destruct (NewGroupKey _); [|done].
  by destruct (wrap_all _ _ _ _).
Qed.

Lemma begin_joiners c : same_joiners c (rekey_begin c).1.
Proof. unfold rekey_begin. destruct (_ || _); [done|]. simpl. by destruct (NewJoiner _ _ _). Qed.

(** A goroutine all of whose sections leave the roles alone. *)
Abbreviation keeps_roles := (all_sections same_joiners).

Ltac roles := each_section ltac:(apply writeFrame_joiners) ltac:(done).

Lemma seal_roles svc body : keeps_roles (seal_p svc body).
Proof. unfold seal_p. roles. apply number_joiners. Qed.

Lemma call_roles x : keeps_roles (call_p x).
Proof.
  destruct x; unfold call_p, Broadcast_p, SendTo_p, ClaimHost_p, RekeyWithNewHost_p,
    BecomeHost_p, SetHostID_p, RotateForMigration_p; roles;
    first [apply seal_roles|apply rotate_joiners|apply begin_joiners].
Qed.

Lemma calls_roles xs : keeps_roles (calls_p xs).
Proof. induction xs as [|x xs IH]; [exact I|]. apply all_sections_bind; [apply call_roles|done]. Qed.

Lemma rekeyAfterLeave_roles : keeps_roles rekeyAfterLeave_p.
Proof.
  unfold rekeyAfterLeave_p. roles; [apply prepare_joiners|]. induction l; simpl; [exact I|].
  apply all_sections_bind; [|done]. unfold send_rekey_p. roles.
Qed.

Lemma answer_roles from k2 kk f2 pw key role k :
  keeps_roles k → keeps_roles (answer_p from k2 kk f2 pw key role k).
Proof. intros Hk. unfold answer_p. roles. Qed.

Lemma handleRekey_roles from praw : keeps_roles (handleRekey_p from praw).
Proof. unfold handleRekey_p. roles. by destruct (bool_decide _). Qed.

Lemma handleRekeyPake1_roles from praw : keeps_roles (handleRekeyPake1_p from praw).
Proof. unfold handleRekeyPake1_p. roles; by apply answer_roles. Qed.

Lemma handleRekeyPake2_roles from praw : keeps_roles (handleRekeyPake2_p from praw).
Proof.
  unfold handleRekeyPake2_p. roles. destruct (Finish _ _ _ _ _ _). by destruct (bool_decide _).
Qed.

Lemma openFrame_roles sf sender : keeps_roles (openFrame_p sf sender).
Proof. unfold openFrame_p. roles. Qed.
(** ** The read loop *)

Definition anywhere (_ : Client) : Prop := True.
Abbreviation wp_reader := (wp anywhere same_joiners assigns).
Definition any {A} (_ : A) (_ : Client) : Prop := True.

Lemma wp_roles {A} (p : prog Client A) c : keeps_roles p → wp_reader p any c.
Proof. intros H. eapply (wp_sections _ _ _ same_joiners); [|done]. intros s s' _ E. split; [done|by left]. Qed.

Lemma roles_bind {A B} (p : prog Client A) (k : A → prog Client B) Q c :
  wp_reader p (λ a, wp_reader (k a) Q) c → wp_reader (p ≫= k) Q c.
Proof. exact (wp_mbind anywhere same_joiners assigns p k Q c I). Qed.

Lemma reader_then {A B} (p : prog Client A) (k : A → prog Client B) c :
  wp_reader p any c → (∀ a c, wp_reader (k a) any c) → wp_reader (p ≫= k) any c.
Proof. intros Hp Hk. apply roles_bind. eapply wp_mono; [|exact Hp]. intros a c' _ _. apply Hk. Qed.

(** The copy the policy runs on is what the role is added to. *)
Lemma wp_handshake from kind praw c : wp_reader (handleHandshakeDirect_p rolePolicy from kind praw) any c.
Proof.
  unfold handleHandshakeDirect_p. apply reader_then; [by apply wp_roles|]. intros isHost c1.
  destruct (_ || _); [done|]. destruct (Body Pake praw) as [p|]; [|done].
  apply reader_then; [by apply wp_roles|]. intros d c2.
  destruct (HostExchange _ _ _ _ _ _ _) as [[pairwise f2]|]; [|done].
  apply roles_bind, wp_atomic. intros c3 _ _. split; [done|]. split; [by left|].
  intros c4 E4 _. cbn [fst snd] in *.
  apply roles_bind, wp_atomic. intros c5 E5 _. split; [done|]. split.
  - right; right. exists from, (pk_Spectate p). simpl. unfold assign_role.
    unfold same_joiners in *. by rewrite E5, E4.
  - intros c6 _ _. apply wp_roles, answer_roles. split; [done|]. intros ?. exact I.
Qed.

Lemma payload_assigns from payload c : wp_reader (handlePayload_p rolePolicy from payload) any c.
Proof.
  unfold handlePayload_p. destruct (DecodePayload payload) as [[kind praw]|]; [|done].
  case_bool_decide; [apply wp_roles, handleRekey_roles|].
  case_bool_decide; [apply wp_roles, handleRekeyPake1_roles|].
  case_bool_decide; [apply wp_roles, handleRekeyPake2_roles|].
  case_bool_decide; [apply wp_handshake|]. apply wp_roles. roles; try apply openFrame_roles.
Qed.

Lemma dispatch_assigns typ raw c : wp_reader (dispatchFrame_p rolePolicy typ raw) any c.
Proof.
  unfold dispatchFrame_p. case_bool_decide; [apply wp_roles; roles|].
  case_bool_decide.
  { destruct (Body ParticipantLeft raw) as [pl|]; [|done]. apply roles_bind, wp_atomic.
    intros c1 _ _. split; [done|]. split; [right; left; by eexists|]. intros c2 _ _.
    apply wp_roles, all_sections_bind; [roles|]. intros _.
    apply all_sections_bind; [apply rekeyAfterLeave_roles|done]. }
  case_bool_decide; [apply wp_roles; roles|].
  case_bool_decide; [destruct (Body Direct raw); [|done]|
    case_bool_decide; [destruct (Body Wire.Broadcast raw); [|done]|done]];
    (apply reader_then; [apply payload_assigns|done]).
Qed.

Lemma readLoop_assigns reads c : wp_reader (readLoop_p rolePolicy reads) any c.
Proof.
  revert c. induction reads as [|r reads IH]; intros c; [done|]. cbn [readLoop_p].
  destruct (readFrameConn r) as [[typ raw]|].
  - apply reader_then; [apply dispatch_assigns|]. intros [] c1; [done|apply IH].
  - apply wp_roles. roles.
Qed.

(** ** Every schedule *)

Definition team (reads : list read) (xss : list (list call)) : list (prog Client unit) :=
  (_ ← readLoop_p rolePolicy reads; mret tt) :: (calls_p <$> xss).

Definition relies (i : nat) : Client → Client → Prop :=
  match i with O => same_joiners | _ => λ _ _, True end.
Definition guarantees (i : nat) : Client → Client → Prop :=
  match i with O => assigns | _ => same_joiners end.

#[local] Instance relies_preorder i : PreOrder (relies i).
Proof. destruct i; [apply _|by split]. Qed.

Lemma team_compatible i j c c' : i ≠ j → guarantees i c c' → relies j c c'.
Proof. by destruct i as [|i], j as [|j]. Qed.

Lemma team_ok reads xss c :
  pool_ok anywhere relies guarantees (λ _ _ _, True) (c, team reads xss).
Proof.
  split; [done|]. intros [|i] p Hp; simpl in Hp.
  - injection Hp as <-. apply reader_then; [apply readLoop_assigns|done].
  - rewrite list_lookup_fmap in Hp. destruct (xss !! i) as [xs|]; [|done]. injection Hp as <-.
    eapply (wp_sections _ _ _ same_joiners); [|apply calls_roles]. by intros.
Qed.

Lemma team_turn reads xss c sched i :
  let r := play sched (c, team reads xss) in guarantees i r.1 (turn i r).1.
Proof.
  intros r. apply (turn_guarantee anywhere relies guarantees (λ _ _ _, True)).
  - intros s. destruct i; simpl; [by left|done].
  - exact (proj1 (play_wp _ _ _ _ team_compatible sched _ (team_ok reads xss c))).
Qed.

(** A role the host may give out. *)
Definition given_out (role : Role) : Prop := role ≠ RoleNone ∧ role ≠ RoleHost.

Lemma assign_given_out c from spectate : given_out (assign_role rolePolicy c from spectate).
Proof.
  unfold assign_role. destruct (_ || _) eqn:E; [done|].
  apply orb_false_iff in E as [E1 E2]. by apply bool_decide_eq_false_1 in E1, E2.
Qed.

Lemma assigns_given_out c c' :
  assigns c c' → map_Forall (λ _, given_out) (cl_joiners c) → map_Forall (λ _, given_out) (cl_joiners c').
Proof.
  intros [E|[[x E]|(from & sp & E)]] H; rewrite E; [done|by apply map_Forall_delete|].
  apply map_Forall_insert_2; [apply assign_given_out|done].
Qed.

(** C16: the roles a policy is shown are the ones its answer is added to.  While the
    read loop handles any frames, other goroutines broadcast, send, promote the
    client, re-point it, rotate, claim and re-key in any order and at any moment.
    At every turn, the roles given out change only if it is the read loop's, and
    then by a departure or by a role that the policy gives for the roles as they
    are at that moment, clamped; so nobody is ever given a reserved role. *)
Theorem roles_current reads xss c sched i :
  let r := play sched (c, team reads xss) in let r' := turn i r in
  (i ≠ 0%nat → cl_joiners r'.1 = cl_joiners r.1) ∧
  (i = 0%nat →
     cl_joiners r'.1 = cl_joiners r.1 ∨ (∃ x, cl_joiners r'.1 = delete x (cl_joiners r.1)) ∨
     ∃ from spectate, cl_joiners r'.1
       = <[from := assign_role rolePolicy r.1 from spectate]> (cl_joiners r.1)) ∧
  (map_Forall (λ _, given_out) (cl_joiners c) → map_Forall (λ _, given_out) (cl_joiners r.1)).
Proof.
  intros r r'. pose proof (team_turn reads xss c sched i) as Hg. fold r in Hg. fold r' in Hg.
  split; [|split].
  - destruct i; [done|]. intros _. exact Hg.
  - intros ->. exact Hg.
  - intros H. unfold r. clear r r' Hg i. induction sched as [|i sched IH] using rev_ind; [done|].
    rewrite play_app. simpl. pose proof (team_turn reads xss c sched i) as Hg.
    eapply assigns_given_out; [|exact IH]. destruct i; [exact Hg|by left].
Qed.
End Confine.
