(* ===== verification/Rejoin.v ===== *)
(** * Reconnecting while others talk (session/client.go, relay/relay.go)

    [Reconnect] as the sequence of its sections, next to goroutines that go on
    calling the client.  [c.conn] is swapped before the resume request is written,
    so another goroutine's frame can be the first on the new connection; the relay
    takes the first frame for the hello. *)
From S2P Require Import Prelude Wire Hub Registry RateLimit Relay Crypto Words Phrase Prog Session.
From S2P Require Import SessionSpec Sections Confine SessionExamples.

#[local] Open Scope N_scope.

Section Rejoin.
Context {WC : WireCodec} {WS : WireCodecSpec} {AE : Aead} {HK : Hkdf} {PK : Pake_lib}.
Context {EN : Entropy} {CN : Conn} {MK : MapRange ParticipantID Key}.

Definition resume_of (c : Client) : ResumeSession :=
  mkResumeSession (cl_sid c) (cl_self c) (cl_resumeToken c).

(** What has been read decides the rest of [Reconnect]: the error, or the token to
    keep; [None] while it still waits. *)
Definition Reconnect_answer (reads : list read) :
    option (result session_error bytes * list read) :=
  match awaitReply MsgJoinResult reads with
  | None => None
  | Some (Err e, rest) => Some (Err e, rest)
  | Some (Ok raw, rest) =>
      match Body JoinResult raw with
      | Err e => Some (Err (WireError e), rest)
      | Ok jr => if negb (jr_OK jr) then Some (Err (Refused (jr_Err jr)), rest)
                 else Some (Ok (jr_ResumeToken jr), rest)
      end
  end.

(** [Reconnect] in sections.  The first is the swap of [c.conn]: the new connection
    carries the frames written from there on, so its answer says how many there
    were before. *)
Definition Reconnect_p (reads : list read) :
    prog Client (option (nat * option (result session_error unit * list read))) :=
  x ← Sections.reads (λ c, (length (cl_sent c), resume_of c));
  w ← writeFrame_p MsgResumeSession x.2;
  match w with
  | Err e => mret (Some (x.1, Some (Err e, reads)))
  | Ok _ =>
      match Reconnect_answer reads with
      | None => mret (Some (x.1, None))
      | Some (Err e, rest) => mret (Some (x.1, Some (Err e, rest)))
      | Some (Ok token, rest) =>
          _ ← updates (λ c, if bool_decide (token = []) then c else put_resumeToken c token);
          _ ← updates (λ c, put_events c []);
          mret (Some (x.1, Some (Ok tt, rest)))
      end
  end.

(** Left alone it is [Reconnect]. *)
Lemma exec_Reconnect reads c :
  exec (Reconnect_p reads) c
  = ((Reconnect c reads).1, Some (length (cl_sent c), (Reconnect c reads).2)).
Proof.
  unfold Reconnect_p, Reconnect, Reconnect_answer. rewrite exec_mbind. simpl.
  change (mkResumeSession _ _ _) with (resume_of c).
  destruct (writeFrame c MsgResumeSession (resume_of c)) as [c1 [[]|e]]; [|done]. simpl.
  destruct (awaitReply _ _) as [[[raw|e] rest]|]; [|done..].
  destruct (Body JoinResult raw) as [jr|e]; [|done]. by destruct (jr_OK jr).
Qed.

(** ** What the others write *)

(** A frame that is none of the three hellos. *)
Definition traffic (f : bytes) : Prop :=
  ∃ typ raw, Decode f = Ok (typ, raw) ∧
    typ ≠ MsgResumeSession ∧ typ ≠ MsgCreateSession ∧ typ ≠ MsgJoinSession.

(** Who it is stays, and only traffic is written. *)
Record chatter (c c' : Client) : Prop := {
  ch_resume : resume_of c' = resume_of c;
  ch_sent : ∃ fs, cl_sent c' = cl_sent c ++ fs ∧ Forall traffic fs }.

#[local] Instance chatter_preorder : PreOrder chatter.
Proof.
  split.
  - intros c. split; [done|]. exists []. by rewrite app_nil_r.
  - intros c1 c2 c3 [E1 (f1 & S1 & F1)] [E2 (f2 & S2 & F2)]. split; [by etrans|].
    exists (f1 ++ f2). rewrite S2, S1, (assoc_L (++)). split; [done|by apply Forall_app].
Qed.

Lemma chatter_silent c c' : resume_of c' = resume_of c → cl_sent c' = cl_sent c → chatter c c'.
Proof. intros E Es. split; [done|]. exists []. by rewrite app_nil_r. Qed.

Lemma chatter_write `{CborSpec T} c t (body : T) :
  t ≠ MsgResumeSession → t ≠ MsgCreateSession → t ≠ MsgJoinSession →
  chatter c (writeFrame c t body).1.
Proof.
  intros T1 T2 T3. destruct (writeFrame_cases c t body) as [(f & He & _ & ->)|(e & w & ->)].
  - split; [done|]. exists [f]. split; [done|]. constructor; [|done].
    apply Encode_Ok in He as (raw & _ & -> & Hlen). exists t, raw. by split; [apply Decode_Ok|].
  - by apply chatter_silent.
Qed.

Ltac chats :=
  each_section ltac:(by apply chatter_write) ltac:(by apply chatter_silent);
  try (by apply chatter_silent).

Lemma call_chatter x : all_sections chatter (call_p x).
Proof.
  destruct x; unfold call_p, Broadcast_p, SendTo_p, ClaimHost_p, RekeyWithNewHost_p, seal_p,
    BecomeHost_p, SetHostID_p, RotateForMigration_p; chats.
  all: apply chatter_silent; unfold seal_number, rekey_begin, RotateForMigration;
    try (by destruct (negb _)); (destruct (_ || _); [done|]); simpl;
    try (by destruct (NewJoiner _ _ _)); by destruct (NewGroupKey _).
Qed.

Lemma calls_chatter xs : all_sections chatter (calls_p xs).
Proof. induction xs as [|x xs IH]; [exact I|]. apply all_sections_bind; [apply call_chatter|done]. Qed.

(** ** The one that reconnects *)

(** The request has been written behind [before], and nothing but traffic since. *)
Definition requested (rs : ResumeSession) (mark : nat) (c : Client) : Prop :=
  ∃ before f after, drop mark (cl_sent c) = before ++ f :: after ∧ (mark ≤ length (cl_sent c))%nat ∧
    Encode MsgResumeSession rs = Ok f ∧ Forall traffic before.

Lemma drop_sent mark (l fs : list bytes) :
  (mark ≤ length l)%nat → drop mark (l ++ fs) = drop mark l ++ fs.
Proof. intros H. rewrite drop_app. by replace (mark - length l)%nat with 0%nat by lia. Qed.

Lemma requested_chatter rs mark c c' : chatter c c' → requested rs mark c → requested rs mark c'.
Proof.
  intros [_ (fs & E & _)] (b & f & a & Hd & Hl & He & Hb). exists b, f, (a ++ fs).
  rewrite E, drop_sent, Hd, length_app by done. split; [by rewrite <- (assoc_L (++))|].
  split; [lia|done].
Qed.

Definition outcome (rs : ResumeSession) (reads : list read)
    (a : option (nat * option (result session_error unit * list read))) (c : Client) : Prop :=
  match a with
  | None => True
  | Some (mark, res) =>
      (∃ e, res = Some (Err e, reads)) ∨
      requested rs mark c ∧
      match Reconnect_answer reads with
      | None => res = None
      | Some (Err e, rest) => res = Some (Err e, rest)
      | Some (Ok _, rest) => res = Some (Ok tt, rest)
      end
  end.

Definition anything (_ _ : Client) : Prop := True.
#[local] Instance anything_preorder : PreOrder anything.
Proof. by split. Qed.
Abbreviation wp_reconnect := (wp anywhere chatter anything).

Lemma reconnect_bind {A B} (p : prog Client A) (k : A → prog Client B) Q c :
  wp_reconnect p (λ a, wp_reconnect (k a) Q) c → wp_reconnect (p ≫= k) Q c.
Proof. exact (wp_mbind anywhere chatter anything p k Q c I). Qed.

(** A section that writes nothing. *)
Lemma wp_after {B} rs mark f (k : unit → prog Client B) Q c :
  (∀ c, cl_sent (f c) = cl_sent c) → requested rs mark c →
  (∀ c, requested rs mark c → wp_reconnect (k tt) Q c) → wp_reconnect (updates f ≫= k) Q c.
Proof.
  intros Hf Hr Hk. apply reconnect_bind, wp_atomic. intros c1 Hc1 _. split; [done|]. split; [done|].
  intros c2 Hc2 _. apply Hk. apply (requested_chatter rs mark (f c1)); [done|].
  unfold requested. rewrite Hf. by eapply requested_chatter.
Qed.

Lemma wp_Reconnect reads c :
  wp_reconnect (Reconnect_p reads) (outcome (resume_of c) reads) c.
Proof.
  unfold Reconnect_p. apply reconnect_bind, wp_atomic. intros c1 Hc1 _. split; [done|].
  split; [done|]. intros c2 Hc2 _. cbn [fst snd]. apply reconnect_bind, wp_atomic.
  intros c3 Hc3 _. split; [done|]. split; [done|]. intros c4 Hc4 _.
  assert (chatter c1 c3) as H13 by (etrans; [exact Hc2|exact Hc3]).
  rewrite (ch_resume _ _ Hc1) in *. set (rs := resume_of c) in *.
  destruct (writeFrame_cases c3 MsgResumeSession rs) as [(f & He & _ & E)|(e & w & E)];
    rewrite E in *; cbn [fst snd] in *; [|intros c5 _ _; left; by eexists].
  assert (requested rs (length (cl_sent c1)) c4) as Hr.
  { apply (requested_chatter _ _ _ _ Hc4). destruct H13 as [_ (fs & Es & Hfs)].
    exists fs, f, []. simpl. rewrite Es, <- (assoc_L (++)), drop_app_length. split; [done|].
    split; [|done]. rewrite length_app. lia. }
  clear E He Hc1 Hc2 Hc3 Hc4 H13 c3. unfold outcome.
  destruct (Reconnect_answer reads) as [[[token|e] rest]|]; cbn [fst snd].
  2,3: intros c5 Hc5 _; right; split; [by eapply requested_chatter|done].
  apply (wp_after rs (length (cl_sent c1))); [intros c5; by case_bool_decide|done|].
  intros c5 H5. apply (wp_after rs (length (cl_sent c1))); [done|done|].
  intros c6 H6 c7 Hc7 _. right. split; [by eapply requested_chatter|done].
Qed.

(** ** Every schedule *)

Definition pool (reads : list read) (xss : list (list call)) :
    list (prog Client (option (nat * option (result session_error unit * list read)))) :=
  Reconnect_p reads :: ((λ xs, _ ← calls_p xs; mret None) <$> xss).

Definition prelies (i : nat) : Client → Client → Prop :=
  match i with O => chatter | _ => anything end.
Definition pguarantees (i : nat) : Client → Client → Prop :=
  match i with O => anything | _ => chatter end.

#[local] Instance prelies_preorder i : PreOrder (prelies i).
Proof. destruct i; apply _. Qed.

Lemma pool_compatible i j c c' : i ≠ j → pguarantees i c c' → prelies j c c'.
Proof. by destruct i as [|i], j as [|j]. Qed.

Lemma pool_plays reads xss sched c mark res :
  let r := play sched (c, pool reads xss) in
  r.2 !! 0%nat = Some (Ret (Some (mark, res))) → outcome (resume_of c) reads (Some (mark, res)) r.1.
Proof.
  intros r Hr. set (Q := λ (i : nat) a, match i with O => outcome (resume_of c) reads a | _ => λ _, True end).
  assert (pool_ok anywhere prelies pguarantees Q (c, pool reads xss)) as Hok.
  { split; [done|]. intros [|i] p Hp; simpl in Hp.
    - injection Hp as <-. apply wp_Reconnect.
    - rewrite list_lookup_fmap in Hp. destruct (xss !! i) as [xs|]; [|done]. injection Hp as <-.
      apply (wp_sections anywhere (prelies (S i)) (pguarantees (S i)) chatter); [by intros|].
      apply all_sections_bind; [apply calls_chatter|done]. }
  exact (proj2 (play_wp _ _ _ _ pool_compatible sched _ Hok) 0%nat _ Hr).
Qed.

(** What the relay says to a first frame that is no hello. *)
Definition refusal : Error := mkError ErrCodeBadFrame "expected create or join".

Lemma hello_traffic s mp now g :
  traffic g → hello s mp now (Message true g) = (s, GiveUp (Some refusal)).
Proof.
  intros (typ & raw & Hd & H1 & H2 & H3). unfold hello. simpl. rewrite Hd.
  by rewrite !bool_decide_eq_false_2.
Qed.

Lemma hello_resume s mp now rs f :
  cbor_wf rs → Encode MsgResumeSession rs = Ok f →
  hello s mp now (Message true f) = (s,
    match get s (rs_SessionID rs) with
    | None => GiveUp (Some (mkError ErrCodeSessionNotFound "session not found"))
    | Some h => SendResume h (rs_ParticipantID rs) (rs_Token rs)
    end).
Proof.
  intros Hwf He. destruct (framed MsgResumeSession rs f Hwf He) as (raw & Hd & Hb).
  unfold hello. simpl. rewrite Hd. simpl. unfold resume. rewrite Hb. by destruct (get s _).
Qed.

Lemma refusal_wf : cbor_wf refusal.
Proof. by split. Qed.

(** The error reaches the client: it gives up. *)
Lemma refused_answer f rest :
  Encode MsgError refusal = Ok f →
  Reconnect_answer (Some f :: rest)
  = Some (Err (RelayError ErrCodeBadFrame "expected create or join"), rest).
Proof.
  intros He. destruct (framed MsgError refusal f refusal_wf He) as (raw & Hd & Hb).
  unfold Reconnect_answer. cbn [awaitReply]. unfold readFrameConn. rewrite Hd. simpl.
  unfold relayError. by rewrite Hb.
Qed.

(** C19: the first frame on the new connection decides.  While [Reconnect] runs,
    other goroutines go on calling the client, their sections interleaved in any
    way with its own.  Once it returns, either the request could not be written, or
    it went out behind some frames of the others.  When there are none of those, the
    relay takes it for the hello and asks the session's hub for the slot; but when
    there is one, the relay refuses the connection on its account, the slot is not
    asked for, and [Reconnect] returns the relay's error. *)
Theorem first_frame_decides reads xss sched c mark res s mp now :
  cbor_wf (resume_of c) →
  let r := play sched (c, pool reads xss) in
  r.2 !! 0%nat = Some (Ret (Some (mark, res))) →
  (∃ e, res = Some (Err e, reads)) ∨
  ∃ before f after, drop mark (cl_sent r.1) = before ++ f :: after ∧
    Encode MsgResumeSession (resume_of c) = Ok f ∧
    match before with
    | [] => hello s mp now (Message true f) = (s,
        match get s (cl_sid c) with
        | None => GiveUp (Some (mkError ErrCodeSessionNotFound "session not found"))
        | Some h => SendResume h (cl_self c) (cl_resumeToken c)
        end)
    | g :: _ =>
        hello s mp now (Message true g) = (s, GiveUp (Some refusal)) ∧
        ∀ e rest, Encode MsgError refusal = Ok e → reads = Some e :: rest →
          res = Some (Err (RelayError ErrCodeBadFrame "expected create or join"), rest)
    end.
Proof.
  intros Hwf r [He|[(before & f & after & Hd & _ & Hf & Hb) Hres]]%pool_plays; [by left|right].
  exists before, f, after. split; [done|]. split; [done|].
  destruct before as [|g before]; [exact (hello_resume s mp now (resume_of c) f Hwf Hf)|].
  split; [apply hello_traffic; by inversion Hb|]. intros e rest He ->.
  by rewrite (refused_answer e rest He) in Hres.
Qed.
End Rejoin.

(** ** A message in between *)

Section Witness.
#[local] Existing Instance bits_codec.
#[local] Existing Instance bits_codec_spec.
#[local] Existing Instance ideal_aead.
#[local] Existing Instance pad_hkdf.
#[local] Existing Instance nonce_pake_lib.
#[local] Existing Instance ex_crypto_rand.
#[local] Existing Instance ex_conn.
#[local] Existing Instance ex_range.

Definition rj_c : Client := ex_member 2 x02.
(** The connection is swapped, the message is written, then the request. *)
Definition rj_sched : list nat := [0; 1; 1; 1; 0]%nat.
Definition rj_error : bytes := ok_or [] (Encode MsgError refusal).
Definition rj_frame : bytes :=
  default [] (cl_sent (exec (Broadcast_p "chat" [x68]) rj_c).1 !! 0%nat).
Definition rj_run := play rj_sched (rj_c, pool [Some rj_error] [[DoBroadcast "chat" [x68]]]).

Lemma rj_returns : rj_run.2 !! 0%nat
  = Some (Ret (Some (0%nat, Some (Err (RelayError ErrCodeBadFrame "expected create or join"), [])))).
Proof. vm_compute. reflexivity. Qed.
Lemma rj_first : head (drop 0 (cl_sent
  (play rj_sched (rj_c, pool [Some rj_error] [[DoBroadcast "chat" [x68]]])).1)) = Some rj_frame.
Proof. vm_compute. reflexivity. Qed.
Lemma rj_no_request :
  bool_decide (ok_or [] (Encode MsgResumeSession (resume_of rj_c)) = rj_frame) = false.
Proof. vm_compute. reflexivity. Qed.

Lemma first_frame_decides_witness :
  hello (init_relay 2 100 30) 8 0 (Message true rj_frame)
  = (init_relay 2 100 30, GiveUp (Some refusal)).
Proof.
  destruct (first_frame_decides [Some rj_error] [[DoBroadcast "chat" [x68]]] rj_sched rj_c 0%nat _
    (init_relay 2 100 30) 8%Z 0%Z ltac:(by split) rj_returns)
    as [[e He]|(before & f & after & Hd & Hf & H)]; [discriminate He|].
  pose proof rj_first as E. rewrite Hd in E. clear Hd.
  destruct before as [|b before]; cbn [app head] in E.
  - exfalso. apply (bool_decide_eq_false_1 _ rj_no_request). rewrite Hf.
    by apply (inj Some).
  - apply (inj Some) in E. rewrite <- E. exact (proj1 H).
Defined.
End Witness.
