(* ===== verification/System.v ===== *)
(** * A session among clients and a relay that cannot be trusted

    Any number of clients, each with its read loop and any number of other
    goroutines, and a relay that delivers what it likes, when it likes, to whom it
    likes and in whose name it likes.  It cannot make ciphertexts of its own: a
    sealed payload it delivers has the ciphertext of one that some client has
    written, perhaps long ago, perhaps for somebody else, under any nonce.  That is
    what the cipher promises against those who do not hold a key.

    A client's part of a step is a critical section of [Sections]; what it may rely
    on, guarantees and keeps true is proved section by section ([node_read],
    [node_call]) and put together over every run ([run_ok]). *)
From S2P Require Import Prelude Wire Crypto Words Phrase Prog Session SessionSpec Sections.
From S2P Require Import Interleave Confine SessionExamples.

#[local] Open Scope N_scope.

Section System.
Context {WC : WireCodec} {WS : WireCodecSpec} {AE : Aead} {AS : AeadSpec} {HK : Hkdf}.
Context {PK : Pake_lib} {EN : Entropy} {CN : Conn} {MK : MapRange ParticipantID Key}.
Variable rolePolicy : ParticipantID → bool → gmap ParticipantID Role → Role.

(** ** What is on the wire *)

(** The sender and the payload of a session frame, as its receiver decodes it. *)
Definition payload_in (typ : MsgType) (raw : bytes) : option (ParticipantID * bytes) :=
  if bool_decide (typ = MsgDirect) then
    match Body Direct raw with Ok d => Some (d_From d, d_Payload d) | Err _ => None end
  else if bool_decide (typ = MsgBroadcast) then
    match Body Wire.Broadcast raw with Ok b => Some (b_From b, b_Payload b) | Err _ => None end
  else None.

Definition carried (f : bytes) : option bytes :=
  match Decode f with Ok (typ, raw) => snd <$> payload_in typ raw | Err _ => None end.

(** ** Ciphertexts *)

Definition ciphertext_of (p : bytes) : option bytes :=
  match DecodePayload p with
  | Ok (k, raw) =>
      if bool_decide (k = KindSealed) then
        match Body SealedFrame raw with Ok sf => Some (sf_Ciphertext sf) | Err _ => None end
      else None
  | Err _ => None
  end.

Lemma ciphertext_of_sealed i key plain sid0 sender sf p :
  Seal i key plain sid0 sender = Ok sf → EncodePayload KindSealed sf = Ok p →
  ciphertext_of p = Some (sf_Ciphertext sf).
Proof.
  intros Hs He. destruct (payload_decodes KindSealed sf p (Seal_nonce _ _ _ _ _ _ Hs) He)
    as (raw & Hd & Hb). unfold ciphertext_of. by rewrite Hd, Hb.
Qed.

(** A ciphertext that opens says who sealed what in which session. *)
Lemma open_any_only i key plain sid0 sender sf keys sf' sid' sender' plain' :
  sid_wf sid0 → sid_wf sid' → pid_wf sender → pid_wf sender' →
  Seal i key plain sid0 sender = Ok sf → sf_Ciphertext sf' = sf_Ciphertext sf →
  open_any keys sf' sid' sender' = Some plain' →
  sid' = sid0 ∧ sender' = sender ∧ plain' = plain.
Proof.
  intros Hs Hs' Hp Hp' (Hk & ->)%Seal_Ok Hct. simpl in Hct.
  induction keys as [|k0 keys IH]; cbn [open_any]; [done|].
  destruct (Open k0 sf' sid' sender') as [p'|] eqn:Eo; [|exact IH]. intros [= <-].
  unfold Open in Eo. destruct (NewX k0) as [k1|] eqn:E; [|done]. apply NewX_Ok in E as [-> _].
  rewrite Hct in Eo. destruct (aead_open _ _ _ _) as [p1|] eqn:Ea; [|done]. injection Eo as <-.
  pose proof (open_authentic _ _ _ _ _ _ _ _ Ea) as (-> & Hn & Ead).
  apply ad_inj in Ead as [-> ->]; try done. rewrite Hn, open_seal in Ea. by simplify_eq.
Qed.

(** The payload is a sealing of the envelope by client [id] of session [sid]. *)
Definition said_by (id : ParticipantID) (sid : SessionID) (env : Envelope) (p : bytes) : Prop :=
  ∃ i key plain sf, cbor_wf env ∧ Marshal env = Some plain ∧ Seal i key plain sid id = Ok sf ∧
    EncodePayload KindSealed sf = Ok p.

(** A frame that client [id] may write: if it carries a sealed payload, its own. *)
Definition writes_own (id : ParticipantID) (sid : SessionID) (f : bytes) : Prop :=
  ∀ p, carried f = Some p → kind_of p = Some KindSealed → ∃ env, said_by id sid env p.

Lemma carried_direct to p f :
  pid_wf to → Encode MsgDirect (mkDirect to 0 p) = Ok f → carried f = Some p.
Proof.
  intros Hto He. destruct (framed MsgDirect (mkDirect to 0 p) f) as (raw & Hd & Hb); [by split|done|].
  unfold carried. rewrite Hd. unfold payload_in. by rewrite bool_decide_eq_true_2, Hb.
Qed.

Lemma carried_broadcast p f :
  Encode MsgBroadcast (mkBroadcast 0 p) = Ok f → carried f = Some p.
Proof.
  intros He. destruct (framed MsgBroadcast (mkBroadcast 0 p) f) as (raw & Hd & Hb); [done|done|].
  unfold carried. rewrite Hd. unfold payload_in. rewrite bool_decide_eq_false_2 by done.
  by rewrite bool_decide_eq_true_2, Hb.
Qed.

Lemma carried_other `{Cbor T} t (body : T) f :
  t ≠ MsgDirect → t ≠ MsgBroadcast → Encode t body = Ok f → carried f = None.
Proof.
  intros T1 T2 (raw & _ & -> & Hlen)%Encode_Ok. unfold carried.
  rewrite (proj2 (Decode_Ok _ t raw) (conj eq_refl Hlen)). unfold payload_in.
  by rewrite !bool_decide_eq_false_2.
Qed.

(** ** A client's steps *)

Section Node.
Variables (id : ParticipantID) (sid : SessionID).
(** What the client may have heard. *)
Variable auth : ParticipantID → Envelope → Prop.

Record ident (c : Client) : Prop := {
  id_self : cl_self c = id;
  id_sid : cl_sid c = sid;
  id_wf : pid_wf (cl_self c);
  id_host : pid_wf (cl_hostID c);
  id_pairs : map_Forall (λ i _, pid_wf i) (cl_pairwise c) }.

(** An event it may emit. *)
Definition fair (e : Event) : Prop := match e with Frame from env => auth from env | _ => True end.

Record honest (c c' : Client) : Prop := {
  ho_sent : ∃ fs, cl_sent c' = cl_sent c ++ fs ∧ Forall (writes_own id sid) fs;
  ho_events : ∃ es, cl_events c' = cl_events c ++ es ∧ Forall fair es }.

Abbreviation wp_node := (wp ident (λ _ _, True) honest).
Abbreviation anyhow := (λ _ _, True).

#[local] Instance true_preorder : PreOrder (λ _ _ : Client, True).
Proof. by split. Qed.

Lemma node_bind {A B} (p : prog Client A) (k : A → prog Client B) Q c :
  ident c → wp_node p (λ a, wp_node (k a) Q) c → wp_node (p ≫= k) Q c.
Proof. exact (wp_mbind ident (λ _ _, True) honest p k Q c). Qed.

(** A section and what comes after it. *)
Lemma node_sec {A B} (f : Client → Client * A) (k : A → prog Client B) Q c :
  ident c →
  (∀ c, ident c → ident (f c).1 ∧ honest c (f c).1 ∧
     ∀ c', ident c' → wp_node (k (f c).2) Q c') →
  wp_node (atomic f ≫= k) Q c.
Proof.
  intros Hc Hf. apply node_bind; [done|]. apply wp_atomic. intros c1 _ H1.
  destruct (Hf c1 H1) as (? & ? & Hk). split; [done|]. split; [done|]. auto.
Qed.

Lemma honest_silent c c' :
  cl_sent c' = cl_sent c → cl_events c' = cl_events c → honest c c'.
Proof. intros Es Ee. split; [exists []|exists []]; by rewrite app_nil_r. Qed.

(** One that writes and emits nothing. *)
Lemma node_silent {A B} (f : Client → Client * A) (k : A → prog Client B) Q c :
  ident c →
  (∀ c, ident c → ident (f c).1 ∧ cl_sent (f c).1 = cl_sent c ∧ cl_events (f c).1 = cl_events c ∧
     ∀ c', ident c' → wp_node (k (f c).2) Q c') →
  wp_node (atomic f ≫= k) Q c.
Proof.
  intros Hc Hf. apply node_sec; [done|]. intros c1 H1. destruct (Hf c1 H1) as (? & ? & ? & ?).
  split; [done|]. split; [by apply honest_silent|done].
Qed.

(** A write. *)
Lemma node_write `{Cbor T} {B} t (body : T) (k : _ → prog Client B) Q c :
  ident c → (∀ f, Encode t body = Ok f → writes_own id sid f) →
  (∀ r c, ident c → wp_node (k r) Q c) → wp_node (writeFrame_p t body ≫= k) Q c.
Proof.
  intros Hc Hw Hk. apply node_sec; [done|]. intros c1 H1.
  destruct (writeFrame_cases c1 t body) as [(f & He & _ & ->)|(e & w & ->)]; simpl.
  - split; [by destruct H1|]. split; [|auto]. split; [|by exists []; rewrite app_nil_r].
    exists [f]. split; [done|]. constructor; [by apply Hw|done].
  - split; [by destruct H1|]. split; [by apply honest_silent|auto].
Qed.

(** The last thing a goroutine does. *)
Lemma node_last {A} (p : prog Client A) c :
  wp_node (p ≫= mret) anyhow c → wp_node p anyhow c.
Proof.
  revert c. induction p as [a|B f k IH]; intros c H; [done|]. intros s' Hr Hi.
  destruct (H s' Hr Hi) as (? & ? & ?). split; [done|]. split; [done|]. by apply IH.
Qed.

Lemma own_direct to p f :
  pid_wf to → kind_of p ≠ Some KindSealed → Encode MsgDirect (mkDirect to 0 p) = Ok f →
  writes_own id sid f.
Proof. intros Hto Hk He p' Hp'. rewrite (carried_direct to p f) in Hp' by done. congruence. Qed.

Lemma own_sealed_direct to env p f :
  pid_wf to → said_by id sid env p → Encode MsgDirect (mkDirect to 0 p) = Ok f → writes_own id sid f.
Proof.
  intros Hto Hs He p' Hp' _. rewrite (carried_direct to p f) in Hp' by done.
  injection Hp' as <-. by exists env.
Qed.

Lemma own_sealed_broadcast env p f :
  said_by id sid env p → Encode MsgBroadcast (mkBroadcast 0 p) = Ok f → writes_own id sid f.
Proof.
  intros Hs He p' Hp' _. rewrite (carried_broadcast p f) in Hp' by done.
  injection Hp' as <-. by exists env.
Qed.

Lemma own_other `{Cbor T} t (body : T) f :
  t ≠ MsgDirect → t ≠ MsgBroadcast → Encode t body = Ok f → writes_own id sid f.
Proof. intros T1 T2 He p Hp. by rewrite (carried_other t body f) in Hp. Qed.

(** ** Sealing and the calls *)

Lemma node_seal svc body c :
  utf8_valid svc → ident c →
  wp_node (seal_p svc body) (λ r _, ∀ p, r = Ok p → ∃ env, said_by id sid env p) c.
Proof.
  intros Hu Hc. unfold seal_p. apply node_silent; [done|]. intros c1 H1.
  unfold seal_number. destruct (cl_keyed c1) eqn:Ek; simpl.
  2: { split; [done|]. split; [done|]. split; [done|]. by intros c2 _ c3 _ _ p. }
  set (env := mkEnvelope svc _ body).
  assert (cbor_wf env) as Hw by (split; [done|apply wrap_in_width]).
  split; [by destruct H1|]. split; [done|]. split; [done|]. intros c2 H2.
  destruct (Marshal env) as [plain|] eqn:Em; [|by intros c3 _ _ p].
  apply node_silent; [done|]. intros c3 H3. simpl. split; [by destruct H3|]. split; [done|].
  split; [done|]. intros c4 H4. rewrite (id_self _ H3), (id_sid _ H3).
  destruct (Seal _ _ _ _ _) as [sf|] eqn:Es; [|by intros c5 _ _ p]. intros c5 _ _ p Hp.
  exists env. unfold lift_wire in Hp. destruct (EncodePayload KindSealed sf) eqn:Ee; [|done].
  injection Hp as ->. by eexists _, _, plain, sf.
Qed.

(** What the application and the mux pass in: Go's types bound it. *)
Definition call_wf (x : call) : Prop :=
  match x with
  | DoBroadcast svc _ => utf8_valid svc
  | DoSendTo to svc _ => utf8_valid svc ∧ pid_wf to
  | DoSetHostID i => pid_wf i
  | _ => True
  end.

Lemma rotate_ident c : ident c → ident (RotateForMigration c) ∧
  cl_sent (RotateForMigration c) = cl_sent c ∧ cl_events (RotateForMigration c) = cl_events c.
Proof.
  intros []. unfold RotateForMigration. destruct (_ || _); [by split|]. simpl.
  destruct (NewGroupKey _); by repeat split.
Qed.

Lemma begin_ident c : ident c → ident (rekey_begin c).1 ∧
  cl_sent (rekey_begin c).1 = cl_sent c ∧ cl_events (rekey_begin c).1 = cl_events c ∧
  ∀ host j, (rekey_begin c).2 = Some (Ok (host, j)) → pid_wf host.
Proof.
  intros []. unfold rekey_begin. destruct (_ || _); [by split|]. simpl.
  destruct (NewJoiner _ _ _); (split; [by split|split; [done|split; [done|]]]); [|done].
  by intros ? ? [= <- <-].
Qed.

Lemma kind_not_sealed `{Cbor T} k (body : T) p :
  k ≠ KindSealed → EncodePayload k body = Ok p → kind_of p ≠ Some KindSealed.
Proof. intros Hk ->%kind_of_Encode. congruence. Qed.

Ltac not_sealed :=
  match goal with H : EncodePayload _ _ = Ok ?p |- _ =>
    refine (kind_not_sealed _ _ p _ H); done
  end.

Lemma node_then {A B} (p : prog Client A) (k : A → prog Client B) c :
  ident c → wp_node p anyhow c → (∀ a c, ident c → wp_node (k a) anyhow c) →
  wp_node (p ≫= k) anyhow c.
Proof. intros Hc Hp Hk. apply node_bind; [done|]. eapply wp_mono; [|exact Hp]. auto. Qed.

Lemma node_write_last `{Cbor T} t (body : T) c :
  ident c → (∀ f, Encode t body = Ok f → writes_own id sid f) →
  wp_node (writeFrame_p t body) anyhow c.
Proof. intros Hc Hw. apply node_last, node_write; [done|done|]. by intros. Qed.

(** A sealed payload that is written if there is one. *)
Lemma node_say svc b (w : bytes → prog Client (result session_error unit)) c :
  utf8_valid svc → ident c →
  (∀ env p c, said_by id sid env p → ident c → wp_node (w p) anyhow c) →
  wp_node (x ← seal_p svc b; match x with Err e => mret (Err e) | Ok p => w p end) anyhow c.
Proof.
  intros Hu Hc Hw. apply node_bind; [done|]. eapply wp_mono; [|by apply node_seal].
  intros [p|e] c1 H1 Hp; [|done]. destruct (Hp p eq_refl) as [env Henv]. by eapply Hw.
Qed.

Lemma node_call x c : call_wf x → ident c → wp_node (call_p x) anyhow c.
Proof.
  intros Hw Hc. destruct x as [svc b|to svc b| |i| | | |n]; simpl in Hw; unfold call_p.
  - apply node_then; [done| |by intros]. apply node_say; [done..|]. intros env p c1 Hs H1.
    apply node_write_last; [done|]. intros f. by apply own_sealed_broadcast with env.
  - apply node_then; [done| |by intros]. apply node_say; [apply Hw|done|]. intros env p c1 Hs H1.
    apply node_write_last; [done|]. intros f. apply own_sealed_direct with env; [apply Hw|done].
  - apply node_last, node_silent; [done|]. intros c1 []. by repeat split.
  - apply node_last, node_silent; [done|]. intros c1 []. by repeat split.
  - apply node_last, node_silent; [done|]. intros c1 H1. destruct (rotate_ident c1 H1) as (? & ? & ?).
    by split_and!.
  - apply node_then; [done| |by intros]. apply node_write_last; [done|]. intros f. by apply own_other.
  - apply node_then; [done| |by intros]. unfold RekeyWithNewHost_p. apply node_silent; [done|].
    intros c1 H1. destruct (begin_ident c1 H1) as (? & ? & ? & Hh). split_and!; try done.
    intros c2 Hc2. destruct (rekey_begin c1).2 as [[[host j]|e]|] eqn:E; try done.
    destruct (EncodePayload _ _) as [p|] eqn:Ep; [|done]. apply node_write_last; [done|].
    intros f. apply own_direct; [exact (Hh host j eq_refl)|not_sealed].
  - apply node_then; [done| |by intros]. apply node_write_last; [done|]. intros f. by apply own_other.
Qed.

(** ** The handlers of the read loop *)

Lemma node_emit e c : fair e → ident c → wp_node (emit_p e) anyhow c.
Proof.
  intros He Hc. apply node_last, node_sec; [done|]. intros c1 H1. split; [by destruct H1|].
  split; [|by intros]. split; [by exists []; rewrite app_nil_r|]. exists [e].
  split; [done|by constructor].
Qed.

Lemma node_answer from k2 kk f2 pw key role k c :
  pid_wf from → k2 ≠ KindSealed → kk ≠ KindSealed → ident c →
  (∀ c, ident c → wp_node k anyhow c) → wp_node (answer_p from k2 kk f2 pw key role k) anyhow c.
Proof.
  intros Hf H2 Hk Hc Hkont. unfold answer_p. destruct (EncodePayload k2 _) as [p|] eqn:Ep; [|done].
  apply node_write; [done| |].
  { intros f. apply own_direct; [done|not_sealed]. }
  intros [[]|] c1 H1; [|done]. apply node_silent; [done|]. intros c2 Hc2. simpl.
  split; [by destruct Hc2|]. split; [done|]. split; [done|]. intros c3 H3.
  destruct (WrapGroupKey _ _ _ _ _ _) as [w|]; [|done].
  destruct (EncodePayload kk w) as [p'|] eqn:Ep'; [|done]. apply node_write; [done| |].
  { intros f. apply own_direct; [done|not_sealed]. }
  intros [[]|] c4 H4; [by apply Hkont|done].
Qed.

(** Sections that write nothing, emit nothing and leave who it is and the pairwise
    keys alone. *)
Definition still (c c' : Client) : Prop :=
  ident c → ident c' ∧ cl_sent c' = cl_sent c ∧ cl_events c' = cl_events c.

Lemma node_still {A} (p : prog Client A) c : all_sections still p → wp_node p anyhow c.
Proof.
  apply wp_sections. intros s s' Hs H. destruct (H Hs) as (? & ? & ?).
  split; [done|by apply honest_silent].
Qed.

Ltac stays := intros []; by repeat split.

Lemma handleRekey_still from praw : all_sections still (handleRekey_p from praw).
Proof.
  unfold handleRekey_p. each_section fail stays; try stays. destruct (bool_decide _); stays.
Qed.

Lemma handleRekeyPake2_still from praw : all_sections still (handleRekeyPake2_p from praw).
Proof.
  unfold handleRekeyPake2_p. each_section fail stays; try stays.
  destruct (Finish _ _ _ _ _ _). destruct (bool_decide _); stays.
Qed.

Lemma node_handleHandshake from kind praw c :
  pid_wf from → ident c → wp_node (handleHandshakeDirect_p rolePolicy from kind praw) anyhow c.
Proof.
  intros Hf Hc. unfold handleHandshakeDirect_p. apply node_silent; [done|]. intros c1 H1.
  split; [done|]. split; [done|]. split; [done|]. intros c2 H2.
  destruct (_ || _); [done|]. destruct (Body Pake praw) as [p|]; [|done].
  apply node_silent; [done|]. intros c3 H3. simpl. split; [by destruct H3|]. split; [done|].
  split; [done|]. intros c4 H4. destruct (HostExchange _ _ _ _ _ _ _) as [[pairwise f2]|]; [|done].
  apply node_silent; [done|]. intros c5 H5. split; [done|]. split; [done|]. split; [done|].
  intros c6 H6. simpl. apply node_silent; [done|]. intros c7 H7. simpl. split.
  { destruct H7. repeat split; try done. by apply map_Forall_insert_2. }
  split; [done|]. split; [done|]. intros c8 H8. apply node_answer; try done.
  intros c9 H9. by apply node_emit.
Qed.

Lemma node_handleRekeyPake1 from praw c :
  pid_wf from → ident c → wp_node (handleRekeyPake1_p from praw) anyhow c.
Proof.
  intros Hf Hc. unfold handleRekeyPake1_p. apply node_silent; [done|]. intros c1 H1.
  split; [done|]. split; [done|]. split; [done|]. intros c2 H2.
  destruct (negb _); [done|]. destruct (Body Pake praw) as [p|]; [|done].
  apply node_silent; [done|]. intros c3 H3. simpl. split; [by destruct H3|]. split; [done|].
  split; [done|]. intros c4 H4. destruct (HostExchange _ _ _ _ _ _ _) as [[pairwise f2]|]; [|done].
  apply node_silent; [done|]. intros c5 H5. simpl. split.
  { destruct H5. repeat split; try done. by apply map_Forall_insert_2. }
  split; [done|]. split; [done|]. intros c6 H6. by apply node_answer.
Qed.

(** The wraps are for members, whose identifiers are in range. *)
Lemma wrap_all_ids i k sd l j outs :
  wrap_all i k sd l = (j, Some outs) → Forall (λ o, pid_wf o.1) l → Forall (λ o, pid_wf o.1) outs.
Proof.
  revert i j outs. induction l as [|[x pw] l IH]; intros i j outs; simpl.
  { intros [= _ <-]. constructor. }
  destruct (WrapGroupKey _ _ _ _ _ _) as [gk|]; [|done].
  destruct (wrap_all (i + 1) k sd l) as [j' [outs'|]] eqn:E; [|done]. simpl.
  intros [= _ <-] [Hx Hl]%Forall_cons. constructor; [done|by eapply IH].
Qed.

Lemma node_send_rekeys outs (k : unit → prog Client unit) c :
  Forall (λ o, pid_wf o.1) outs → ident c → (∀ c, ident c → wp_node (k tt) anyhow c) →
  wp_node (send_rekeys_p outs ≫= k) anyhow c.
Proof.
  intros Ho Hc Hk. apply node_bind; [done|]. eapply wp_mono with (Q := anyhow); [intros [] s Hs _; by apply Hk|].
  clear Hk. revert c Hc. induction Ho as [|o outs Ho _ IH]; intros c Hc; [by intros ???|].
  apply node_then; [done| |intros [] c1; apply IH]. unfold send_rekey_p.
  destruct (EncodePayload KindRekey _) as [p|] eqn:Ep; [|done]. apply node_write; [done| |by intros].
  intros f. apply own_direct; [done|not_sealed].
Qed.

Lemma prepare_ident c : ident c → ident (rekey_prepare c).1 ∧
  cl_sent (rekey_prepare c).1 = cl_sent c ∧ cl_events (rekey_prepare c).1 = cl_events c ∧
  ∀ outs key, (rekey_prepare c).2 = Some (outs, key) → Forall (λ o, pid_wf o.1) outs.
Proof.
  intros H. unfold rekey_prepare. destruct (_ || _); [by split_and!|]. simpl.
  destruct (NewGroupKey _) as [k|]; [|destruct H; by repeat split].
  destruct (wrap_all _ _ _ _) as [j outs] eqn:E. simpl.
  split; [by destruct H|]. split; [done|]. split; [done|]. destruct outs as [outs|]; [|done].
  intros ? ? [= <- <-]. eapply wrap_all_ids; [exact E|]. apply Forall_forall. intros [x pw] Hx.
  apply elem_of_range in Hx. by eapply (id_pairs _ H x pw).
Qed.

Lemma node_rekeyAfterLeave c : ident c → wp_node rekeyAfterLeave_p anyhow c.
Proof.
  intros Hc. unfold rekeyAfterLeave_p. apply node_silent; [done|]. intros c1 H1.
  destruct (prepare_ident c1 H1) as (? & ? & ? & Ho). split_and!; try done. intros c2 Hc2.
  destruct (rekey_prepare c1).2 as [[outs key]|]; [|done].
  apply node_send_rekeys; [by eapply Ho|done|]. intros c3 H3. apply node_last, node_silent; [done|].
  intros c4 []. by repeat split.
Qed.

(** ** What a delivery may bring *)

(** A payload that is not sealed, or whose ciphertext is somebody's who may be
    heard. *)
Definition admissible (p : bytes) : Prop :=
  ∀ ct, ciphertext_of p = Some ct → ∃ who sid' env p',
    pid_wf who ∧ sid_wf sid' ∧ said_by who sid' env p' ∧ ciphertext_of p' = Some ct ∧
    (sid' = sid → auth who env).

Lemma openFrame_auth p sf raw from env plain keys :
  sid_wf sid → pid_wf from → admissible p → DecodePayload p = Ok (KindSealed, raw) →
  Body SealedFrame raw = Ok sf → open_any keys sf sid from = Some plain →
  Body Envelope plain = Ok env → auth from env.
Proof.
  intros Hs Hf Ha Hd Hb Ho He. destruct (Ha (sf_Ciphertext sf)) as (who & sid' & env' & p' & Hw & Hs' & Hsaid & Hct & Hau).
  { unfold ciphertext_of. by rewrite Hd, bool_decide_eq_true_2, Hb. }
  destruct Hsaid as (i & key & plain' & sf' & Hwf & Hm & Hseal & Hep).
  rewrite (ciphertext_of_sealed _ _ _ _ _ _ _ Hseal Hep) in Hct. injection Hct as Hct.
  destruct (open_any_only _ _ _ _ _ _ _ _ _ _ _ Hs' Hs Hw Hf Hseal (eq_sym Hct) Ho) as (E1 & -> & ->).
  unfold Body in He. rewrite (unmarshal_marshal env' plain') in He by done. injection He as <-. auto.
Qed.

Lemma node_handlePayload from p c :
  sid_wf sid → pid_wf from → admissible p → ident c →
  wp_node (handlePayload_p rolePolicy from p) anyhow c.
Proof.
  intros Hs Hf Ha Hc. unfold handlePayload_p. destruct (DecodePayload p) as [[kind praw]|] eqn:Ed; [|done].
  case_bool_decide; [apply node_still, handleRekey_still|].
  case_bool_decide; [by apply node_handleRekeyPake1|].
  case_bool_decide; [apply node_still, handleRekeyPake2_still|].
  case_bool_decide as Hk; [by apply node_handleHandshake|].
  assert (kind = KindSealed) as -> by (by destruct (decide (kind = KindSealed))).
  destruct (Body SealedFrame praw) as [sf|] eqn:Eb; [|done].
  apply node_bind; [done|]. eapply wp_mono with (Q := λ r _, ∀ plain env, r = Some plain →
    Body Envelope plain = Ok env → auth from env).
  { intros [plain|] c1 Hc1 Hau; [|done]. destruct (Body Envelope plain) as [env|] eqn:Ee; [|done].
    apply node_emit; [by apply (Hau plain env)|done]. }
  unfold openFrame_p. apply node_silent; [done|]. intros c1 Hc1. split; [done|]. split; [done|].
  split; [done|]. intros c2 _. cbn [snd]. destruct (negb _); [by intros ????|]. rewrite (id_sid _ Hc1).
  intros c3 _ _ plain env Ho. by eapply openFrame_auth.
Qed.

(** A frame all of whose parts may be handled. *)
Definition bearable (typ : MsgType) (raw : bytes) : Prop :=
  ∀ from p, payload_in typ raw = Some (from, p) → pid_wf from ∧ admissible p.

Lemma bearable_direct raw d :
  bearable MsgDirect raw → Body Direct raw = Ok d → pid_wf (d_From d) ∧ admissible (d_Payload d).
Proof. intros Hb E. apply Hb. unfold payload_in. by rewrite bool_decide_eq_true_2, E. Qed.

Lemma bearable_broadcast raw b :
  bearable MsgBroadcast raw → Body Wire.Broadcast raw = Ok b →
  pid_wf (b_From b) ∧ admissible (b_Payload b).
Proof.
  intros Hb E. apply Hb. unfold payload_in. rewrite bool_decide_eq_false_2 by done.
  by rewrite bool_decide_eq_true_2, E.
Qed.

Lemma node_dispatchFrame typ raw c :
  sid_wf sid → bearable typ raw → ident c →
  wp_node (dispatchFrame_p rolePolicy typ raw) anyhow c.
Proof.
  intros Hs Hb Hc. unfold dispatchFrame_p.
  assert (∀ e c, fair e → ident c → ∀ b : bool,
    wp_node (_ ← emit_p e; mret b) anyhow c) as Hemit.
  { intros e c1 He H1 b. apply node_then; [done|by apply node_emit|by intros]. }
  case_bool_decide; [destruct (Body ParticipantJoined raw); [by apply Hemit|done]|].
  case_bool_decide.
  { destruct (Body ParticipantLeft raw) as [pl|]; [|done]. apply node_silent; [done|]. intros c1 H1.
    cbn [fst snd]. split; [destruct H1; repeat split; try done; by apply map_Forall_delete|].
    split; [done|]. split; [done|]. intros c2 H2.
    apply node_then; [done|by apply node_emit|]. intros _ c3 H3.
    apply node_then; [done|by apply node_rekeyAfterLeave|by intros]. }
  case_bool_decide; [by apply Hemit|].
  case_bool_decide as Hd.
  { subst typ. destruct (Body Direct raw) as [d|] eqn:E; [|done].
    destruct (bearable_direct raw d Hb E).
    apply node_then; [done|by apply node_handlePayload|by intros]. }
  case_bool_decide as Hbr; [|done]. subst typ.
  destruct (Body Wire.Broadcast raw) as [b|] eqn:E; [|done].
  destruct (bearable_broadcast raw b Hb E). apply node_then; [done|by apply node_handlePayload|by intros].
Qed.

Definition bearable_read (r : read) : Prop :=
  ∀ typ raw, readFrameConn r = Ok (typ, raw) → bearable typ raw.

Lemma node_read r c :
  sid_wf sid → bearable_read r → ident c → wp_node (readLoop_p rolePolicy [r]) anyhow c.
Proof.
  intros Hs Hb Hc. cbn [readLoop_p]. destruct (readFrameConn r) as [[typ raw]|] eqn:Er.
  - apply node_then; [done|by apply node_dispatchFrame; [|apply Hb|]|]. by intros [] ? ?.
  - apply node_then; [done|by apply node_emit|by intros].
Qed.
End Node.

(** ** The system *)

(** A client and its goroutines; goroutine 0 is the read loop. *)
Abbreviation node := (Client * list (prog Client unit))%type.
Abbreviation world := (list node).

(** One goroutine's turn, a call by the application, a read of the connection. *)
Inductive move :=
| Turn (n i : nat)
| CallOn (n : nat) (x : call)
| Deliver (n : nat) (r : read).

Definition on_read (r : read) : prog Client unit := _ ← readLoop_p rolePolicy [r]; mret tt.

Definition moved (w : world) (m : move) : world :=
  match m with
  | Turn n i => alter (turn i) n w
  | CallOn n x => alter (λ nd, (nd.1, nd.2 ++ [call_p x])) n w
  | Deliver n r => alter (λ nd, (nd.1, <[0%nat := on_read r]> nd.2)) n w
  end.

(** Some client has written a payload with this ciphertext. *)
Definition written (w : world) (ct : bytes) : Prop :=
  ∃ n nd f p, w !! n = Some nd ∧ f ∈ cl_sent nd.1 ∧ carried f = Some p ∧ ciphertext_of p = Some ct.

(** The read loop reads when it is done with the frame before; a frame names a
    sender in range, and a sealed one has a ciphertext that there is. *)
Definition lawful (w : world) (m : move) : Prop :=
  match m with
  | Turn _ _ => True
  | CallOn _ x => call_wf x
  | Deliver n r =>
      (∀ nd, w !! n = Some nd → nd.2 !! 0%nat = Some (Ret tt)) ∧
      ∀ typ raw from p, readFrameConn r = Ok (typ, raw) → payload_in typ raw = Some (from, p) →
        pid_wf from ∧ ∀ ct, ciphertext_of p = Some ct → written w ct
  end.

Fixpoint lawful_all (w : world) (ms : list move) : Prop :=
  match ms with [] => True | m :: ms => lawful w m ∧ lawful_all (moved w m) ms end.

Definition run (w : world) (ms : list move) : world := foldl moved w ms.

(** The client called [from] in session [sid] has written a sealing of the envelope. *)
Definition sealed_by (w : world) (sid : SessionID) (from : ParticipantID) (env : Envelope) : Prop :=
  ∃ n nd f p, w !! n = Some nd ∧ cl_self nd.1 = from ∧ cl_sid nd.1 = sid ∧
    f ∈ cl_sent nd.1 ∧ carried f = Some p ∧ said_by from sid env p.

(** A client that has said its hello: nothing sealed yet, nothing heard. *)
Record fresh (nd : node) : Prop := {
  fr_sid : sid_wf (cl_sid nd.1);
  fr_self : pid_wf (cl_self nd.1);
  fr_host : pid_wf (cl_hostID nd.1);
  fr_pairs : map_Forall (λ i _, pid_wf i) (cl_pairwise nd.1);
  fr_sent : Forall (λ f, ∀ p, carried f = Some p → kind_of p ≠ Some KindSealed) (cl_sent nd.1);
  fr_events : cl_events nd.1 = [];
  fr_idle : nd.2 = [Ret tt] }.

(** *** The invariant *)

Record node_ok (w : world) (nd : node) : Prop := {
  no_sid : sid_wf (cl_sid nd.1);
  no_sent : Forall (writes_own (cl_self nd.1) (cl_sid nd.1)) (cl_sent nd.1);
  no_events : Forall (fair (sealed_by w (cl_sid nd.1))) (cl_events nd.1);
  no_pool : pool_ok (ident (cl_self nd.1) (cl_sid nd.1)) (λ _ _ _, True)
    (λ _, honest (cl_self nd.1) (cl_sid nd.1) (sealed_by w (cl_sid nd.1))) (λ _ _ _, True) nd }.

Definition world_ok (w : world) : Prop := Forall (node_ok w) w.

(** The node goes on: the same client, with more written. *)
Definition goes_on (nd nd' : node) : Prop :=
  cl_self nd'.1 = cl_self nd.1 ∧ cl_sid nd'.1 = cl_sid nd.1 ∧
  ∃ fs, cl_sent nd'.1 = cl_sent nd.1 ++ fs.

Lemma sealed_mono w n g sid from env :
  (∀ nd, w !! n = Some nd → goes_on nd (g nd)) →
  sealed_by w sid from env → sealed_by (alter g n w) sid from env.
Proof.
  intros Hg (k & nd & f & p & Hk & Hs & Hsid & Hf & Hc & Hp). exists k.
  destruct (decide (k = n)) as [->|Hne].
  - destruct (Hg nd Hk) as (E1 & E2 & fs & E3). exists (g nd), f, p.
    split_and!; [by rewrite list_lookup_alter_eq, Hk|congruence|congruence| |done|done].
    rewrite E3. apply elem_of_app. by left.
  - exists nd, f, p. by rewrite list_lookup_alter_ne.
Qed.

Lemma fair_mono (a a' : ParticipantID → Envelope → Prop) e :
  (∀ from env, a from env → a' from env) → fair a e → fair a' e.
Proof. destruct e; simpl; auto. Qed.

Lemma node_mono w w' nd :
  (∀ sid from env, sealed_by w sid from env → sealed_by w' sid from env) →
  node_ok w nd → node_ok w' nd.
Proof.
  intros Hm []. split; [done|done| |].
  - eapply Forall_impl; [done|]. intros e. apply fair_mono, Hm.
  - destruct no_pool0 as [Hi Hp]. split; [done|]. intros i p Hip.
    eapply wp_guarantee; [|exact (Hp i p Hip)]. intros s s' [Hs (es & E & Hes)]. split; [done|].
    exists es. split; [done|]. eapply Forall_impl; [done|]. intros e. apply fair_mono, Hm.
Qed.

Lemma alter_ok w n g :
  (∀ nd, w !! n = Some nd → goes_on nd (g nd)) →
  (∀ nd, w !! n = Some nd → node_ok w nd → node_ok w (g nd)) →
  world_ok w → world_ok (alter g n w).
Proof.
  intros Hg Hok Hw. apply Forall_lookup. intros k nd Hk.
  apply (node_mono w); [intros sid from env; by apply sealed_mono|].
  destruct (decide (k = n)) as [->|Hne].
  - rewrite list_lookup_alter_eq in Hk. destruct (w !! n) as [nd0|] eqn:E; [|done].
    injection Hk as <-. apply Hok; [done|]. by eapply Forall_lookup_1 in Hw.
  - rewrite list_lookup_alter_ne in Hk by done. by eapply Forall_lookup_1 in Hw.
Qed.

Lemma honest_refl id sid auth c : honest id sid auth c c.
Proof. by apply honest_silent. Qed.

#[local] Instance anything_preorder : PreOrder (λ _ _ : Client, True).
Proof. by split. Qed.

Lemma turn_goes_on w i nd : node_ok w nd → goes_on nd (turn i nd).
Proof.
  intros [_ _ _ Hp]. split_and!.
  - apply (turn_ok _ _ _ _ (λ _ _ _ _ _ _, I) i) in Hp as [[] _]. done.
  - apply (turn_ok _ _ _ _ (λ _ _ _ _ _ _, I) i) in Hp as [[] _]. done.
  - apply (turn_guarantee _ _ _ _ i) in Hp; [|apply honest_refl].
    destruct Hp as [(fs & E & _) _]. by exists fs.
Qed.

Lemma turn_node_ok w i nd : node_ok w nd → node_ok w (turn i nd).
Proof.
  intros Hn. destruct (turn_goes_on w i nd Hn) as (E1 & E2 & _). destruct Hn as [Hs Hf He Hp].
  pose proof (turn_guarantee _ _ _ _ i nd (honest_refl _ _ _) Hp) as [(fs & Efs & Hfs) (es & Ees & Hes)].
  split; rewrite ?E1, ?E2, ?Efs, ?Ees; [done|by apply Forall_app_2..|].
  by apply (turn_ok _ _ _ _ (λ _ _ _ _ _ _, I)).
Qed.

Lemma sealed_kind p ct : ciphertext_of p = Some ct → kind_of p = Some KindSealed.
Proof.
  unfold ciphertext_of, kind_of. destruct (DecodePayload p) as [[k raw]|]; [|done].
  case_bool_decide; [by subst|done].
Qed.

(** What there is was sealed by the client that wrote it. *)
Lemma written_admissible w sid p :
  world_ok w → (∀ ct, ciphertext_of p = Some ct → written w ct) →
  admissible sid (sealed_by w sid) p.
Proof.
  intros Hw Hp ct Hct. destruct (Hp ct Hct) as (n & nd & f & p' & Hn & Hf & Hc & Hct').
  assert (node_ok w nd) as Hnd by (by eapply Forall_lookup_1 in Hw).
  destruct (proj1 (Forall_forall _ _) (no_sent _ _ Hnd) f Hf p' Hc (sealed_kind p' ct Hct')) as [env Henv].
  destruct (no_pool _ _ Hnd) as [Hi _].
  exists (cl_self nd.1), (cl_sid nd.1), env, p'. split; [by apply Hi|]. split; [by apply Hnd|].
  split; [done|]. split; [done|]. intros E. exists n, nd, f, p'. rewrite <- E. by split_and!.
Qed.

(** New goroutines in the pool, the client as it is. *)
Lemma node_goroutines w nd ps :
  node_ok w nd →
  (∀ i p, ps !! i = Some p → nd.2 !! i = Some p ∨ 
     wp (ident (cl_self nd.1) (cl_sid nd.1)) (λ _ _, True)
       (honest (cl_self nd.1) (cl_sid nd.1) (sealed_by w (cl_sid nd.1))) p (λ _ _, True) nd.1) →
  node_ok w (nd.1, ps).
Proof.
  intros [? ? ? [Hi Hp]] Hps. split; [done..|]. split; [done|]. intros i p Hip.
  destruct (Hps i p Hip) as [H|H]; [exact (Hp i p H)|exact H].
Qed.

Lemma moved_ok w m : lawful w m → world_ok w → world_ok (moved w m).
Proof.
  intros Hl Hw. assert (∀ n nd, w !! n = Some nd → node_ok w nd) as Hall.
  { intros n nd Hn. by eapply Forall_lookup_1 in Hw. }
  assert (∀ nd ps, goes_on nd (nd.1, ps)) as Hsame.
  { intros nd ps. split_and!; [done|done|]. exists []. by rewrite app_nil_r. }
  destruct m as [n i|n x|n r]; simpl in *.
  - apply alter_ok; [|intros nd _; apply turn_node_ok|done]. intros nd Hn.
    apply (turn_goes_on w). by eapply Hall.
  - apply alter_ok; [intros; apply Hsame| |done]. intros nd Hn Hok. apply node_goroutines; [done|].
    intros i p [Hi|[_ Hi]]%lookup_app_Some; [by left|]. right.
    apply list_lookup_singleton_Some in Hi as [_ <-]. apply node_call; [done|].
    by destruct (no_pool _ _ Hok).
  - destruct Hl as [_ Hd]. apply alter_ok; [intros; apply Hsame| |done]. intros nd Hn Hok.
    apply node_goroutines; [done|]. intros i p [(_ & <- & _)|[_ Hi]]%list_lookup_insert_Some; [|by left].
    right. destruct (no_pool _ _ Hok) as [Hi _]. apply node_then; [done| |by intros].
    apply node_read; [by apply Hok| |done]. intros typ raw Hr from p Hp.
    destruct (Hd typ raw from p Hr Hp) as [Hf Hct]. split; [done|]. by apply written_admissible.
Qed.

Lemma fresh_ok w nd : fresh nd → node_ok w nd.
Proof.
  intros []. split; [done| |by rewrite fr_events0|].
  - eapply Forall_impl; [done|]. intros f Hf p Hp Hk. by destruct (Hf p Hp).
  - split; [by split|]. rewrite fr_idle0. intros [|i] p; [|done]. by intros [= <-] ???.
Qed.

Lemma run_ok w ms : Forall fresh w → lawful_all w ms → world_ok (run w ms).
Proof.
  intros Hw. assert (world_ok w) as H0.
  { eapply Forall_impl; [done|]. intros nd. apply fresh_ok. }
  clear Hw. revert w H0. induction ms as [|m ms IH]; intros w Hw; [done|]. intros [Hm Hms].
  apply IH; [by apply moved_ok|done].
Qed.

(** C3: nobody is heard to say what they have not said.  Any number of clients, in
    any sessions, each with its read loop and any number of other goroutines making
    any calls, their critical sections interleaved in any order; and a relay that
    delivers any frames to anybody, again or never, under any name, whose only limit
    is that a sealed payload's ciphertext is one that some client has written.  Then
    whenever a client hands its application a frame as from [from], the client that
    has that identifier, in the very session of the receiver, has sealed exactly
    that envelope. *)
Theorem no_impersonation w ms n nd from env :
  Forall fresh w → lawful_all w ms →
  let w' := run w ms in
  w' !! n = Some nd → Frame from env ∈ cl_events nd.1 → sealed_by w' (cl_sid nd.1) from env.
Proof.
  intros Hw Hms w' Hn He. assert (node_ok w' nd) as [_ _ Hev _].
  { eapply Forall_lookup_1; [by apply run_ok|done]. }
  exact (proj1 (Forall_forall _ _) Hev _ He).
Qed.
End System.

(** ** On concrete inputs *)

#[local] Existing Instance bits_codec.
#[local] Existing Instance bits_codec_spec.
#[local] Existing Instance ideal_aead.
#[local] Existing Instance ideal_aead_spec.
#[local] Existing Instance pad_hkdf.
#[local] Existing Instance nonce_pake_lib.
#[local] Existing Instance ex_crypto_rand.
#[local] Existing Instance ex_conn.
#[local] Existing Instance ex_range.

(** The host broadcasts; the relay shows the member the frame under another name,
    and then as it is. *)
Definition ex_world : list (Client * list (prog Client unit)) :=
  [(ex_hosting, [Ret tt]); (ex_member 3 x03, [Ret tt])].
Definition ex_payload : bytes := ok_or [] (exec (seal_p "chat" [x68; x69]) ex_hosting).2.
Definition ex_said : bytes := ok_or [] (Encode MsgBroadcast (mkBroadcast 0 ex_payload)).
Definition ex_told (from : ParticipantID) : bytes :=
  ok_or [] (Encode MsgBroadcast (mkBroadcast from ex_payload)).
Definition ex_speaking : list move :=
  [CallOn 0 (DoBroadcast "chat" [x68; x69]); Turn 0 1; Turn 0 1; Turn 0 1].
Definition ex_forging : list move := [Deliver 1 (Some (ex_told 2)); Turn 1 0; Turn 1 0].
Definition ex_relaying : list move := [Deliver 1 (Some (ex_told 1)); Turn 1 0; Turn 1 0].
Definition ex_moves : list move := ex_speaking ++ ex_forging ++ ex_relaying.
Definition ex_run (ms : list move) := run DefaultRolePolicy ex_world ms.
Definition ex_heard : Event := Frame 1 (mkEnvelope "chat" 1 [x68; x69]).

Example ex_hears : ((λ nd, cl_events nd.1) <$> ex_run ex_moves !! 1%nat) = Some [ex_heard].
Proof. vm_compute. reflexivity. Qed.

Lemma ex_told_payload from typ raw f p :
  from ∈ [1; 2] → readFrameConn (Some (ex_told from)) = Ok (typ, raw) →
  payload_in typ raw = Some (f, p) → pid_wf f ∧ p = ex_payload.
Proof.
  intros [->|[->|[]%elem_of_nil]%elem_of_cons]%elem_of_cons Hr Hp; vm_compute in Hr;
    injection Hr as <- <-; vm_compute in Hp; injection Hp as <- <-; by split; vm_compute.
Qed.

Lemma ex_delivers (w : list (Client * list (prog Client unit))) from :
  from ∈ [1; 2] → (λ nd, nd.2 !! 0%nat) <$> w !! 1%nat = Some (Some (Ret tt)) →
  (λ nd, last (cl_sent nd.1)) <$> w !! 0%nat = Some (Some ex_said) →
  lawful w (Deliver 1 (Some (ex_told from))).
Proof.
  intros Hf Hidle Hsaid. split; [intros nd Hn; rewrite Hn in Hidle; by injection Hidle|].
  intros typ raw f p Hr Hp. destruct (ex_told_payload from typ raw f p Hf Hr Hp) as [Hw ->].
  split; [done|]. intros ct Hct. destruct (w !! 0%nat) as [nd|] eqn:E; [|done].
  injection Hsaid as Hlast. exists 0%nat, nd, ex_said, ex_payload. split; [done|].
  split; [by apply last_Some_elem_of|]. split; [vm_compute; reflexivity|done].
Qed.

Lemma ex_lawful : lawful_all DefaultRolePolicy ex_world ex_moves.
Proof.
  cbn [lawful_all ex_moves ex_speaking ex_forging ex_relaying app].
  split_and!; try exact I.
  - split; vm_compute; reflexivity.
  - apply ex_delivers; [by right; left|vm_compute; reflexivity..].
  - apply ex_delivers; [by left|vm_compute; reflexivity..].
Qed.

Lemma ex_fresh : Forall fresh ex_world.
Proof.
  unfold ex_world. apply Forall_cons_2; [|apply Forall_cons_2; [|apply Forall_nil_2]];
    (split; [reflexivity..| |apply Forall_nil_2|reflexivity|reflexivity]); [|by apply map_Forall_empty].
  intros i k Hi. unfold ex_hosting in Hi. simpl in Hi.
  apply lookup_insert_Some in Hi as [[<- _]|[_ [<- _]%lookup_singleton_Some]]; reflexivity.
Qed.

Lemma no_impersonation_witness :
  ∃ nd, ex_run ex_moves !! 1%nat = Some nd ∧ cl_events nd.1 = [ex_heard] ∧
    sealed_by (ex_run ex_moves) (cl_sid nd.1) 1 (mkEnvelope "chat" 1 [x68; x69]).
Proof.
  destruct (ex_run ex_moves !! 1%nat) as [nd|] eqn:E.
  2: { pose proof ex_hears as H. rewrite E in H. discriminate H. }
  assert (cl_events nd.1 = [ex_heard]) as Hev.
  { pose proof ex_hears as H. rewrite E in H. by injection H. }
  exists nd. split; [reflexivity|]. split; [exact Hev|].
  apply (no_impersonation DefaultRolePolicy ex_world ex_moves 1%nat nd 1 _ ex_fresh ex_lawful E).
  rewrite Hev. left.
Defined.
