(* ===== verification/Stream.v ===== *)
(** * The client's event stream (session/client.go: emit; session/handshake.go: readLoop)

    Events go through a channel with a bounded buffer, so a goroutine that emits
    waits while it is full, until the mux, or whoever uses the client, receives.
    Here the goroutines of [Sections] run with that channel between them and the
    receiver. *)
From S2P Require Import Prelude Wire Crypto Words Phrase Prog Session SessionSpec Sections.
From S2P Require Import Confine SessionExamples.

#[local] Open Scope N_scope.

Definition eventBuffer : nat := 256.

Section Stream.
Context {WC : WireCodec} {AE : Aead} {HK : Hkdf} {PK : Pake_lib} {EN : Entropy} {CN : Conn}.
Context {MK : MapRange ParticipantID Key}.
Variable rolePolicy : ParticipantID → bool → gmap ParticipantID Role → Role.

(** The client with its goroutines, and how many of its events have been received. *)
Record stream := mkStream { sm_pool : Client * list (prog Client unit); sm_got : nat }.

Inductive tick := Go (i : nat) | Receive.

Definition emitted (s : stream) : list Event := cl_events (sm_pool s).1.
Definition received (s : stream) : list Event := take (sm_got s) (emitted s).
Definition waiting (s : stream) : list Event := drop (sm_got s) (emitted s).

(** A section that would overfill the buffer waits. *)
Definition ticked (s : stream) (t : tick) : stream :=
  match t with
  | Go i =>
      let p := turn i (sm_pool s) in
      if decide (length (cl_events p.1) ≤ sm_got s + eventBuffer)%nat
      then mkStream p (sm_got s) else s
  | Receive =>
      if decide (sm_got s < length (emitted s))%nat then mkStream (sm_pool s) (S (sm_got s)) else s
  end.

Definition streams (s : stream) (ts : list tick) : stream := foldl ticked s ts.

(** The turns that are asked for. *)
Definition turns (ts : list tick) : list nat := omap (λ t, match t with Go i => Some i | _ => None end) ts.

(** ** What the goroutines emit *)

Definition quiet (c c' : Client) : Prop := cl_events c' = cl_events c.
Definition emits_one (c c' : Client) : Prop :=
  ∃ es, cl_events c' = cl_events c ++ es ∧ (length es ≤ 1)%nat.

Lemma quiet_emits c c' : quiet c c' → emits_one c c'.
Proof. intros E. exists []. rewrite app_nil_r. split; [done|simpl; lia]. Qed.

Lemma emit_one c e : emits_one c (emit c e).
Proof. exists [e]. split; [done|simpl; lia]. Qed.

Lemma writeFrame_quiet `{Cbor T} c t (body : T) : quiet c (writeFrame c t body).1.
Proof. destruct (writeFrame_cases c t body) as [(f & _ & _ & ->)|(e & w & ->)]; done. Qed.

Lemma rotate_quiet c : quiet c (RotateForMigration c).
Proof. unfold RotateForMigration. destruct (_ || _); [done|]. simpl. by destruct (NewGroupKey _). Qed.

Lemma number_quiet svc body c : quiet c (seal_number svc body c).1.
Proof. unfold seal_number. by destruct (negb _). Qed.

Lemma prepare_quiet c : quiet c (rekey_prepare c).1.
Proof.
  unfold rekey_prepare. destruct (_ || _); [done|]. simpl. destruct (NewGroupKey _); [|done].
  by destruct (wrap_all _ _ _ _).
Qed.

Lemma begin_quiet c : quiet c (rekey_begin c).1.
Proof. unfold rekey_begin. destruct (_ || _); [done|]. simpl. by destruct (NewJoiner _ _ _). Qed.

Ltac hush := each_section ltac:(apply writeFrame_quiet) ltac:(done).
Ltac few := each_section ltac:(apply quiet_emits, writeFrame_quiet)
  ltac:(first [by apply quiet_emits|apply emit_one]); try (by apply quiet_emits).

Lemma call_quiet x : all_sections quiet (call_p x).
Proof.
  destruct x; unfold call_p, Broadcast_p, SendTo_p, ClaimHost_p, RekeyWithNewHost_p, seal_p,
    BecomeHost_p, SetHostID_p, RotateForMigration_p; hush;
    first [apply number_quiet|apply rotate_quiet|apply begin_quiet].
Qed.

Lemma calls_quiet xs : all_sections quiet (calls_p xs).
Proof. induction xs as [|x xs IH]; [exact I|]. apply all_sections_bind; [apply call_quiet|done]. Qed.

Lemma send_rekeys_few outs : all_sections emits_one (send_rekeys_p outs).
Proof.
  induction outs as [|o outs IH]; [exact I|]. apply all_sections_bind; [|done].
  unfold send_rekey_p. few.
Qed.

Lemma answer_few from k2 kk f2 pw key role k :
  all_sections emits_one k → all_sections emits_one (answer_p from k2 kk f2 pw key role k).
Proof. intros Hk. unfold answer_p. few. Qed.

Lemma handlePayload_few from payload : all_sections emits_one (handlePayload_p rolePolicy from payload).
Proof.
  unfold handlePayload_p, handleRekey_p, handleRekeyPake1_p, handleRekeyPake2_p,
    handleHandshakeDirect_p, openFrame_p. few; try (apply answer_few; few).
  - apply quiet_emits. by destruct (bool_decide _).
  - apply quiet_emits. destruct (Finish _ _ _ _ _ _). by destruct (bool_decide _).
Qed.

Lemma dispatchFrame_few typ raw : all_sections emits_one (dispatchFrame_p rolePolicy typ raw).
Proof.
  unfold dispatchFrame_p. unfold rekeyAfterLeave_p. few;
    first [apply handlePayload_few|apply send_rekeys_few|apply quiet_emits, prepare_quiet].
Qed.

Lemma readLoop_few reads : all_sections emits_one (readLoop_p rolePolicy reads).
Proof.
  induction reads as [|r reads IH]; [exact I|]. cbn [readLoop_p].
  destruct (readFrameConn r) as [[typ raw]|]; [|few].
  apply all_sections_bind; [apply dispatchFrame_few|]. by intros [].
Qed.

(** ** The channel *)

(** Goroutine 0 reads and emits; the others do not emit. *)
Definition emits (i : nat) : Client → Client → Prop := match i with O => emits_one | _ => quiet end.

Lemma emits_refl i c : emits i c c.
Proof. destruct i; [by apply quiet_emits|done]. Qed.

Lemma team_emits reads xss : pool_sections emits (team rolePolicy reads xss).
Proof.
  intros [|i] p Hp; simpl in Hp.
  - injection Hp as <-. apply all_sections_bind; [apply readLoop_few|done].
  - rewrite list_lookup_fmap in Hp. destruct (xss !! i); [|done]. injection Hp as <-.
    apply calls_quiet.
Qed.

Record stream_ok (s : stream) : Prop := {
  so_got : (sm_got s ≤ length (emitted s))%nat;
  so_cap : (length (emitted s) ≤ sm_got s + eventBuffer)%nat;
  so_pool : pool_sections emits (sm_pool s).2 }.

Lemma turn_emits s i :
  stream_ok s → ∃ es, cl_events (turn i (sm_pool s)).1 = emitted s ++ es ∧
    (length es ≤ 1)%nat ∧ (i ≠ 0%nat → es = []).
Proof.
  intros [_ _ Hp]. destruct (turn_sections emits i (sm_pool s) (emits_refl i) Hp) as [Hi _].
  destruct i as [|i]; simpl in Hi.
  - destruct Hi as (es & E & Hl). by exists es.
  - exists []. rewrite app_nil_r. split; [exact Hi|]. split; [simpl; lia|done].
Qed.

Lemma ticked_ok s t : stream_ok s → stream_ok (ticked s t).
Proof.
  intros Hs. destruct t as [i|]; simpl; case_decide as Hd; try done.
  - destruct (turn_emits s i Hs) as (es & E & _). destruct Hs as [Hg _ Hp].
    split; [|exact Hd|by apply turn_sections; [apply emits_refl|]].
    unfold emitted in *. simpl. rewrite E, length_app. lia.
  - destruct Hs as [Hg Hc Hp]. split; unfold emitted in *; simpl; [lia|lia|exact Hp].
Qed.

(** A goroutine that does not emit never waits. *)
Lemma others_go s i : stream_ok s → i ≠ 0%nat → sm_pool (ticked s (Go i)) = turn i (sm_pool s).
Proof.
  intros Hs Hi. destruct (turn_emits s i Hs) as (es & E & _ & Hes). simpl.
  rewrite decide_True; [done|]. rewrite E, (Hes Hi), app_nil_r. apply Hs.
Qed.

(** One event received is room enough for the read loop. *)
Lemma reader_goes s : stream_ok s → sm_pool (streams s [Receive; Go 0]) = turn 0 (sm_pool s).
Proof.
  intros Hs. destruct (turn_emits s 0 Hs) as (es & E & Hl & _). destruct Hs as [Hg Hc _].
  assert (sm_pool (ticked s Receive) = sm_pool s ∧
    (length (emitted s) < sm_got (ticked s Receive) + eventBuffer)%nat) as [Ep Hr].
  { simpl. case_decide; simpl; split; try done; unfold eventBuffer in *; lia. }
  change (sm_pool (ticked (ticked s Receive) (Go 0)) = turn 0 (sm_pool s)).
  set (s1 := ticked s Receive) in *. simpl. rewrite decide_True; [by rewrite Ep|].
  rewrite Ep, E, length_app. lia.
Qed.

Lemma streams_ok s ts : stream_ok s → stream_ok (streams s ts).
Proof. revert s. induction ts as [|t ts IH]; intros s Hs; [done|]. by apply IH, ticked_ok. Qed.

Lemma streams_app s ts ts' : streams s (ts ++ ts') = streams (streams s ts) ts'.
Proof. apply foldl_app. Qed.

(** The channel only holds goroutines back. *)
Lemma streams_play s ts :
  ∃ sched, sched `sublist_of` turns ts ∧ sm_pool (streams s ts) = play sched (sm_pool s).
Proof.
  revert s. induction ts as [|t ts IH]; intros s; [by exists []|].
  destruct (IH (ticked s t)) as (sched & Hsub & E). destruct t as [i|].
  - unfold ticked in E. simpl. simpl in E. case_decide.
    + exists (i :: sched). split; [by apply sublist_skip|done].
    + exists sched. split; [by apply sublist_cons|done].
  - exists sched. split; [done|]. simpl in *. rewrite E. by case_decide.
Qed.

(** With a receiver that goes on receiving, the read loop comes to its end. *)
Definition served (n : nat) : list tick := concat (replicate n [Receive; Go 0]).

Lemma served_play n s : stream_ok s → sm_pool (streams s (served n)) = play (replicate n 0%nat) (sm_pool s).
Proof.
  revert s. induction n as [|n IH]; intros s Hs; [done|]. change (served (S n)) with ([Receive; Go 0] ++ served n).
  rewrite streams_app, IH by (by apply streams_ok). by rewrite reader_goes.
Qed.

Lemma received_grows s t : stream_ok s → received s `prefix_of` received (ticked s t).
Proof.
  intros Hs. unfold received. destruct t as [i|]; simpl; case_decide; simpl; try done.
  - destruct (turn_emits s i Hs) as (es & E & _). unfold emitted in *. simpl. rewrite E.
    rewrite take_app_le by apply Hs. done.
  - exists (take 1 (drop (sm_got s) (emitted s))). unfold emitted. rewrite take_take_drop. f_equal. lia.
Qed.

Lemma reader_ends s p : stream_ok s → (sm_pool s).2 !! 0%nat = Some p →
  ∃ n s', s' = streams s (served n) ∧ (sm_pool s').2 !! 0%nat = Some (Ret tt).
Proof.
  intros Hs Hp. destruct (sm_pool s) as [c ps] eqn:E. simpl in Hp.
  destruct (play_alone 0 p c ps Hp) as [n Hn]. exists n. eexists. split; [done|].
  rewrite served_play, E, Hn by done. simpl. destruct (exec p c).2.
  apply list_lookup_insert_eq. by eapply lookup_lt_Some.
Qed.

(** C20: the bounded stream of events holds back nobody but the read loop, and that
    only while nobody receives.  The client's goroutines run under any schedule
    with a receiver on the stream.  The state is always one they reach with part of
    that schedule and no bound on the stream, so what holds under every schedule
    holds here; at most 256 events wait, and what has been received is the first
    events emitted, in their order; a goroutine other than the read loop is never
    held back; the read loop can go on once one event is received; and if the
    receiver goes on, the read loop comes to its end. *)
Theorem stream_waits reads xss c ts :
  cl_events c = [] →
  let s := streams (mkStream (c, team rolePolicy reads xss) 0) ts in
  (∃ sched, sched `sublist_of` turns ts ∧ sm_pool s = play sched (c, team rolePolicy reads xss)) ∧
  ((length (waiting s) ≤ eventBuffer)%nat ∧ ∀ t, received s `prefix_of` received (ticked s t)) ∧
  (∀ i, i ≠ 0%nat → sm_pool (ticked s (Go i)) = turn i (sm_pool s)) ∧
  sm_pool (streams s [Receive; Go 0]) = turn 0 (sm_pool s) ∧
  ∃ n s', s' = streams s (served n) ∧ (sm_pool s').2 !! 0%nat = Some (Ret tt).
Proof.
  intros He s. assert (stream_ok s) as Hs.
  { apply streams_ok. split; unfold emitted; simpl; rewrite ?He; [simpl; lia..|apply team_emits]. }
  split; [apply streams_play|]. split; [split|split; [|split]].
  - unfold waiting. rewrite length_drop. destruct Hs. lia.
  - intros t. by apply received_grows.
  - intros i. by apply others_go.
  - by apply reader_goes.
  - destruct (lookup_lt_is_Some_2 (sm_pool s).2 0) as [p Hp]; [|by eapply reader_ends].
    destruct (streams_play (mkStream (c, team rolePolicy reads xss) 0) ts) as (sched & _ & E).
    fold s in E. rewrite E, play_length. simpl. lia.
Qed.
End Stream.

(** ** On concrete inputs *)

#[local] Existing Instance bits_codec.
#[local] Existing Instance ideal_aead.
#[local] Existing Instance pad_hkdf.
#[local] Existing Instance nonce_pake_lib.
#[local] Existing Instance ex_crypto_rand.
#[local] Existing Instance ex_conn.
#[local] Existing Instance ex_range.

(** Three hundred joins are announced, the connection drops, and the host says
    something; nobody receives. *)
Definition ex_busy_reads : list read :=
  replicate 300 (Some (ok_or [] (Encode MsgParticipantJoined (mkParticipantJoined 4)))) ++ [None].
Definition ex_busy_calls : list (list call) := [[DoBroadcast "chat" [x68; x69]]].
Definition ex_busy (n : nat) : stream :=
  streams (mkStream (ex_hosting, team DefaultRolePolicy ex_busy_reads ex_busy_calls) 0)
    (replicate n (Go 0)).

(** The read loop waits; the broadcast does not. *)
Example ex_stalled :
  length (emitted (ex_busy 400)) = 256%nat ∧
  length (emitted (streams (ex_busy 400) [Receive; Go 0; Go 0])) = 257%nat ∧
  length (cl_sent (sm_pool (streams (ex_busy 400) [Go 1; Go 1; Go 1])).1) = 1%nat ∧
  last (emitted (streams (ex_busy 400) (served 50))) = Some (Closed "connection lost").
Proof. vm_compute. repeat split. Qed.

Lemma stream_waits_witness :
  (length (waiting (ex_busy 400)) ≤ eventBuffer)%nat ∧
  ∃ n s', s' = streams (ex_busy 400) (served n) ∧ (sm_pool s').2 !! 0%nat = Some (Ret tt).
Proof.
  destruct (stream_waits DefaultRolePolicy ex_busy_reads ex_busy_calls ex_hosting
    (replicate 400 (Go 0)) eq_refl) as (_ & (H & _) & _ & _ & He).
  split; [exact H|exact He].
Defined.
