(* ===== verification/Runes.v ===== *)
(** * Go strings as runes (unicode/utf8, strings.Map)

    A string is a byte sequence; [range], [[]rune] and [strings.Map] read it as
    UTF-8, an ill-formed byte standing for U+FFFD. *)
From S2P Require Import Prelude.
From Stdlib Require Import ZifyN ZifyBool.

#[local] Open Scope N_scope.

Definition RuneError : N := 0xFFFD.

(** A continuation byte in the given range. *)
Definition cont (lo hi b : N) : bool := (lo <=? b) && (b <=? hi).

(** [[]rune(s)]: a rune per well-formed sequence, [RuneError] per other byte. *)
Fixpoint runes_of (l : list N) : list N :=
  match l with
  | [] => []
  | a :: l1 =>
      if a <? 0x80 then a :: runes_of l1
      else if (0xC2 <=? a) && (a <=? 0xDF) then
        match l1 with
        | b :: l2 =>
            if cont 0x80 0xBF b then (a - 0xC0) * 64 + (b - 0x80) :: runes_of l2
            else RuneError :: runes_of l1
        | [] => [RuneError]
        end
      else if (0xE0 <=? a) && (a <=? 0xEF) then
        match l1 with
        | b :: c :: l3 =>
            if cont (if a =? 0xE0 then 0xA0 else 0x80) (if a =? 0xED then 0x9F else 0xBF) b
               && cont 0x80 0xBF c
            then (a - 0xE0) * 4096 + (b - 0x80) * 64 + (c - 0x80) :: runes_of l3
            else RuneError :: runes_of l1
        | _ => RuneError :: runes_of l1
        end
      else if (0xF0 <=? a) && (a <=? 0xF4) then
        match l1 with
        | b :: c :: d :: l4 =>
            if cont (if a =? 0xF0 then 0x90 else 0x80) (if a =? 0xF4 then 0x8F else 0xBF) b
               && cont 0x80 0xBF c && cont 0x80 0xBF d
            then (a - 0xF0) * 262144 + (b - 0x80) * 4096 + (c - 0x80) * 64 + (d - 0x80)
                 :: runes_of l4
            else RuneError :: runes_of l1
        | _ => RuneError :: runes_of l1
        end
      else RuneError :: runes_of l1
  end.

(** A Unicode scalar value. *)
Definition is_scalar (r : N) : bool := (r <? 0xD800) || (0xE000 <=? r) && (r <? 0x110000).

(** [utf8.AppendRune]. *)
Definition encode_rune (r : N) : list N :=
  let r := if is_scalar r then r else RuneError in
  if r <? 0x80 then [r]
  else if r <? 0x800 then [0xC0 + r / 64; 0x80 + r mod 64]
  else if r <? 0x10000 then [0xE0 + r / 4096; 0x80 + r / 64 mod 64; 0x80 + r mod 64]
  else [0xF0 + r / 262144; 0x80 + r / 4096 mod 64; 0x80 + r / 64 mod 64; 0x80 + r mod 64].

Definition runes (s : string) : list N :=
  runes_of (N_of_ascii <$> String.list_ascii_of_string s).

Definition of_runes (l : list N) : string :=
  String.string_of_list_ascii (ascii_of_N <$> (l ≫= encode_rune)).

(** ** The round trip *)

Ltac div_lia := Zify.zify; Z.div_mod_to_equations; lia.

(** Decide the next condition by arithmetic. *)
Ltac step_if :=
  match goal with
  | |- context [if ?b then _ else _] =>
      first [assert (b = true) as -> by (unfold cont, is_scalar in *; div_lia)
            |assert (b = false) as -> by (unfold cont, is_scalar in *; div_lia)]
  end.

Lemma runes_2 a b l :
  0xC2 ≤ a → a ≤ 0xDF → cont 0x80 0xBF b = true →
  runes_of (a :: b :: l) = (a - 0xC0) * 64 + (b - 0x80) :: runes_of l.
Proof.
  intros Ha1 Ha2 Hb. unfold runes_of at 1; fold runes_of. do 2 step_if. by rewrite Hb.
Qed.

Lemma runes_3 a b c l :
  0xE0 ≤ a → a ≤ 0xEF → 0x80 ≤ b → b ≤ 0xBF → (a = 0xE0 → 0xA0 ≤ b) → (a = 0xED → b ≤ 0x9F) →
  cont 0x80 0xBF c = true →
  runes_of (a :: b :: c :: l)
  = (a - 0xE0) * 4096 + (b - 0x80) * 64 + (c - 0x80) :: runes_of l.
Proof.
  intros Ha1 Ha2 Hb1 Hb2 Hb3 Hb4 Hc. unfold runes_of at 1; fold runes_of. do 3 step_if.
  rewrite Hc, andb_true_r.
  assert (cont (if a =? 224 then 160 else 128) (if a =? 237 then 159 else 191) b = true) as ->;
    [|done].
  unfold cont. destruct (N.eqb_spec a 224), (N.eqb_spec a 237); lia.
Qed.

Lemma runes_4 a b c d l :
  0xF0 ≤ a → a ≤ 0xF4 → 0x80 ≤ b → b ≤ 0xBF → (a = 0xF0 → 0x90 ≤ b) → (a = 0xF4 → b ≤ 0x8F) →
  cont 0x80 0xBF c = true → cont 0x80 0xBF d = true →
  runes_of (a :: b :: c :: d :: l)
  = (a - 0xF0) * 262144 + (b - 0x80) * 4096 + (c - 0x80) * 64 + (d - 0x80) :: runes_of l.
Proof.
  intros Ha1 Ha2 Hb1 Hb2 Hb3 Hb4 Hc Hd. unfold runes_of at 1; fold runes_of. do 4 step_if.
  rewrite Hc, Hd, !andb_true_r.
  assert (cont (if a =? 240 then 144 else 128) (if a =? 244 then 143 else 191) b = true) as ->;
    [|done].
  unfold cont. destruct (N.eqb_spec a 240), (N.eqb_spec a 244); lia.
Qed.

Lemma runes_of_encode r l :
  is_scalar r = true → runes_of (encode_rune r ++ l) = r :: runes_of l.
Proof.
  intros Hr. unfold encode_rune. rewrite Hr. unfold is_scalar in Hr.
  destruct (r <? 0x80) eqn:H1.
  { simpl app. unfold runes_of at 1; fold runes_of. by rewrite H1. }
  destruct (r <? 0x800) eqn:H2; simpl app.
  { rewrite runes_2; [f_equal|..]; unfold cont; div_lia. }
  destruct (r <? 0x10000) eqn:H3; simpl app.
  { rewrite runes_3; [f_equal|..]; unfold cont; div_lia. }
  rewrite runes_4; [f_equal|..]; unfold cont; div_lia.
Qed.

Lemma encode_rune_byte r : Forall (λ b, b < 256) (encode_rune r).
Proof.
  unfold encode_rune. set (k := if is_scalar r then r else RuneError).
  assert (is_scalar k = true) as Hk by (unfold k; destruct (is_scalar r) eqn:E; done).
  unfold is_scalar in Hk.
  destruct (k <? 0x80) eqn:H1; [repeat constructor; lia|].
  destruct (k <? 0x800) eqn:H2; [repeat constructor; div_lia|].
  destruct (k <? 0x10000) eqn:H3; repeat constructor; div_lia.
Qed.

Lemma runes_of_runes l : Forall (λ r, is_scalar r = true) l → runes (of_runes l) = l.
Proof.
  intros Hl. unfold runes, of_runes. rewrite String.list_ascii_of_string_of_list_ascii.
  rewrite <- list_fmap_compose.
  assert (N_of_ascii ∘ ascii_of_N <$> (l ≫= encode_rune) = l ≫= encode_rune) as ->.
  { clear Hl. induction l as [|r l IH]; [done|]. rewrite bind_cons, fmap_app, IH. f_equal.
    assert (Forall (λ b, b < 256) (encode_rune r)) as Hb by apply encode_rune_byte.
    induction Hb as [|b bs Hb _ IHb]; [done|]. rewrite fmap_cons, IHb. f_equal.
    by apply N_ascii_embedding. }
  induction Hl as [|r l Hr _ IH]; [done|]. by rewrite bind_cons, runes_of_encode, IH.
Qed.

(** Reading a string yields scalar values only. *)
Lemma runes_of_scalar l : Forall (λ r, is_scalar r = true) (runes_of l).
Proof.
  remember (length l) as n eqn:Hn. assert (length l ≤ n)%nat as Hle by lia. clear Hn.
  revert l Hle. induction n as [|n IH]; intros [|a l1] Hle; simpl in Hle; try lia; try constructor.
  unfold runes_of; fold runes_of.
  assert (∀ k, (length k ≤ length l1)%nat → Forall (λ r, is_scalar r = true) (runes_of k)) as IH'
    by (intros k Hk; apply IH; lia).
  assert (Forall (λ r, is_scalar r = true) (RuneError :: runes_of l1)) as Herr
    by (constructor; [done|by apply IH']).
  destruct (a <? 0x80) eqn:H1.
  { constructor; [unfold is_scalar; lia|by apply IH']. }
  destruct ((0xC2 <=? a) && (a <=? 0xDF)) eqn:H2.
  { destruct l1 as [|b l2]; [by repeat constructor|].
    destruct (cont 128 191 b) eqn:Hb; [|done].
    constructor; [unfold is_scalar, cont in *; lia|apply IH'; simpl; lia]. }
  destruct ((0xE0 <=? a) && (a <=? 0xEF)) eqn:H3.
  { destruct l1 as [|b [|c l3]]; try done. destruct (cont _ _ b && cont _ _ c) eqn:Hb; [|done].
    constructor; [|apply IH'; simpl; lia]. unfold is_scalar, cont in *.
    destruct (N.eqb_spec a 224), (N.eqb_spec a 237); lia. }
  destruct ((0xF0 <=? a) && (a <=? 0xF4)) eqn:H4; [|done].
  destruct l1 as [|b [|c [|d l4]]]; try done.
  destruct (cont _ _ b && cont _ _ c && cont _ _ d) eqn:Hb; [|done].
  constructor; [|apply IH'; simpl; lia]. unfold is_scalar, cont in *.
  destruct (N.eqb_spec a 240), (N.eqb_spec a 244); lia.
Qed.

Lemma runes_scalar s : Forall (λ r, is_scalar r = true) (runes s).
Proof. apply runes_of_scalar. Qed.

(** ** Classes and trimming *)

(** [unicode.IsControl]: category Cc. *)
Definition IsControl (r : N) : bool := (r <? 0x20) || (0x7F <=? r) && (r <? 0xA0).

(** [unicode.IsSpace]: White_Space. *)
Definition IsSpace (r : N) : bool :=
  (0x09 <=? r) && (r <=? 0x0D) || (r =? 0x20) || (r =? 0x85) || (r =? 0xA0) || (r =? 0x1680)
  || (0x2000 <=? r) && (r <=? 0x200A) || (r =? 0x2028) || (r =? 0x2029) || (r =? 0x202F)
  || (r =? 0x205F) || (r =? 0x3000).

Fixpoint drop_spaces (l : list N) : list N :=
  match l with
  | r :: l' => if IsSpace r then drop_spaces l' else l
  | [] => []
  end.

(** [strings.TrimSpace] on the runes of a well-formed string. *)
Definition trim_spaces (l : list N) : list N := reverse (drop_spaces (reverse (drop_spaces l))).

Lemma Forall_drop_spaces P l : Forall P l → Forall P (drop_spaces l).
Proof. induction 1 as [|r l Hr Hl IH]; simpl; [done|]. case_match; [done|by constructor]. Qed.

Lemma Forall_trim_spaces P l : Forall P l → Forall P (trim_spaces l).
Proof. intros Hl. by apply Forall_reverse, Forall_drop_spaces, Forall_reverse, Forall_drop_spaces. Qed.
