(* ===== verification/Mux.v ===== *)
(** * The service mux and its control service (service/*.go)

    A mux drains the events of one end, routes envelopes to services by name,
    watches sequence numbers, elects and promotes a successor when the host
    leaves, and runs the reserved control service.  The end it drives and the
    services layered on it are interfaces, as in the source; the concurrency of
    the event channel is in [MuxEvents], so [emit] appends here. *)
From S2P Require Import Prelude Wire Crypto Words Phrase Session Runes.

#[local] Open Scope N_scope.

(** ** Interfaces *)

(** [Context], without the two capabilities: sending and emitting are effects. *)
Record Context := mkContext {
  cx_Self : ParticipantID; cx_HostID : ParticipantID; cx_Host : bool }.

(** [Base.Ctx] before the first Attach. *)
Definition zero_context : Context := mkContext 0 0 false.

(** [Base]: the context last set, read and written atomically. *)
Definition Base : Type := option Context.
Definition SetContext (_ : Base) (c : Context) : Base := Some c.
Definition Ctx (b : Base) : Context := default zero_context b.

(** [Promoter]. *)
Record Promoter (C : Type) := mkPromoter {
  pm_BecomeHost : C → C;
  pm_SetHostID : C → ParticipantID → C;
  pm_ClaimHost : C → C;
  pm_RotateForMigration : C → C;
  pm_RekeyWithNewHost : C → C }.
Arguments mkPromoter {C}.
Arguments pm_BecomeHost {C}.
Arguments pm_SetHostID {C}.
Arguments pm_ClaimHost {C}.
Arguments pm_RotateForMigration {C}.
Arguments pm_RekeyWithNewHost {C}.

(** [Conn] and [Sender]: one keyed session end; a send says whether it succeeded.
    [tr_promoter] is the runtime assertion to [Promoter]. *)
Class Transport (C : Type) := {
  tr_Self : C → ParticipantID;
  tr_HostID : C → ParticipantID;
  tr_Role : C → Role;
  tr_Broadcast : C → string → bytes → C * bool;
  tr_SendTo : C → ParticipantID → string → bytes → C * bool;
  tr_promoter : option (Promoter C)
}.

(** [Service], for a layered service with state [S] and events [E]; an error is
    its text.  Services that are no [MemberObserver] or [Promotable] have the
    identity there. *)
Class Service (C S E : Type) := {
  sv_ID : S → string;
  sv_Version : S → Z;
  sv_Attach : Context → S → S;
  sv_HandleFrame : S → C → ParticipantID → bytes → S * C * list E * option string;
  sv_Snapshot : S → result string bytes;
  sv_Restore : S → C → bytes → S * C * list E * option string;
  sv_MemberKeyed : S → C → ParticipantID → Role → S * C * list E;
  sv_MemberLeft : S → C → ParticipantID → S * C * list E;
  sv_OnPromote : S → S
}.

(** [*session.Client] as a [Conn]. *)
Section ClientTransport.
Context {WC : WireCodec} {AE : Aead} {HK : Hkdf} {PK : Pake_lib} {EN : Entropy} {CN : Conn}.
Context {MK : MapRange ParticipantID Key}.

Definition client_promoter : Promoter Client :=
  mkPromoter BecomeHost SetHostID (λ c, (ClaimHostMsg c).1) RotateForMigration
    (λ c, (RekeyWithNewHost c).1).

#[global] Instance client_transport : Transport Client := {|
  tr_Self := cl_self;
  tr_HostID := cl_hostID;
  tr_Role := cl_role;
  tr_Broadcast c svc body := let '(c, r) := BroadcastMsg c svc body in (c, is_ok r);
  tr_SendTo c to svc body := let '(c, r) := SendTo c to svc body in (c, is_ok r);
  tr_promoter := Some client_promoter
|}.
End ClientTransport.

(** ** The control service's messages *)

Definition CtlID : string := "ctl".
Definition ctlKindAnnounce : N := 1.
Definition ctlKindSnapshotReq : N := 2.
Definition ctlKindSnapshot : N := 3.
Definition ctlKindIdentity : N := 4.
Definition maxNameLen : nat := 24.

Record ServiceInfo := mkServiceInfo { si_ID : string; si_Version : Z }.

Record ctlMsg := mkCtlMsg {
  cm_Kind : N;
  cm_Roster : gmap ParticipantID Role;
  cm_Services : list ServiceInfo;
  cm_Snapshots : gmap string bytes;
  cm_Name : string;
  cm_Names : gmap ParticipantID string;
  cm_Endpoint : string;
  cm_Endpoints : gmap ParticipantID string;
  cm_PushKey : string }.

(** A message of one kind, the other fields zero. *)
Definition ctl_kind (k : N) : ctlMsg := mkCtlMsg k ∅ [] ∅ "" ∅ "" ∅ "".

Record Roster := mkRoster {
  ro_Members : gmap ParticipantID Role;
  ro_Names : gmap ParticipantID string;
  ro_Endpoints : gmap ParticipantID string;
  ro_PushKey : string;
  ro_Services : list ServiceInfo }.

Record ctlService := mkCtl {
  ct_ctx : Context;
  ct_roster : gmap ParticipantID Role;
  ct_names : gmap ParticipantID string;
  ct_endpoints : gmap ParticipantID string;
  ct_pushKey : string;
  ct_selfName : string;
  ct_selfEndpoint : string }.

Definition newCtl : ctlService := mkCtl zero_context ∅ ∅ ∅ "" "" "".

(** [sanitizeName]. *)
Definition sanitizeName (s : string) : string :=
  let l := filter (λ r, IsControl r = false) (trim_spaces (runes s)) in
  of_runes (if bool_decide (maxNameLen < length l)%nat then take maxNameLen l else l).

Inductive service_error :=
| CtlDecode (e : wire_error)
| CtlNonHost (from : ParticipantID)
| CtlRestore (id : string) (text : string)
| CtlSnapshotOf (id : string) (text : string)
| CtlMarshal
| CtlSend
| LayeredError (text : string).

(** ** Successor policies *)

Section Policy.
Context {MR : MapRange ParticipantID Role}.

(** One candidate of [DefaultSuccessorPolicy]'s loop: the least member so far and
    the least of any role, 0 for none. *)
Definition policy_visit (acc : ParticipantID * ParticipantID) (p : ParticipantID * Role) :
    ParticipantID * ParticipantID :=
  let '(member, any) := acc in
  let '(id, r) := p in
  let any := if bool_decide (any = 0) || (id <? any) then id else any in
  if (bool_decide (r = RoleHost) || bool_decide (r = RoleMember))
     && (bool_decide (member = 0) || (id <? member))
  then (id, any) else (member, any).

Definition DefaultSuccessorPolicy (candidates : gmap ParticipantID Role) : ParticipantID :=
  let '(member, any) := foldl policy_visit (0, 0) (range candidates) in
  if bool_decide (member ≠ 0) then member else any.
End Policy.

(** ** The mux *)

Section Mux.
Context {C S E : Type} {TR : Transport C} {SV : Service C S E} {CM : Cbor ctlMsg}.

Inductive mux_event :=
| SessionEvent (e : Event)
| Desync (from : ParticipantID) (service : string) (want got : N)
| ServiceError (from : ParticipantID) (service : string) (err : service_error)
| Promoted (self : ParticipantID)
| RosterEvent (r : Roster)
| AppEvent (e : E).

(** [mx_services] maps a name to [None] for the control service, which the mux
    also holds directly, or to a layered service. *)
Record Mux := mkMux {
  mx_client : C;
  mx_services : gmap string (option S);
  mx_ctl : ctlService;
  mx_lastSeq : gmap (ParticipantID * string) N;
  mx_closed : bool;
  mx_events : list mux_event }.

Definition put_client (m : Mux) x : Mux :=
  mkMux x (mx_services m) (mx_ctl m) (mx_lastSeq m) (mx_closed m) (mx_events m).
Definition put_services (m : Mux) x : Mux :=
  mkMux (mx_client m) x (mx_ctl m) (mx_lastSeq m) (mx_closed m) (mx_events m).
Definition put_ctl (m : Mux) x : Mux :=
  mkMux (mx_client m) (mx_services m) x (mx_lastSeq m) (mx_closed m) (mx_events m).
Definition put_lastSeq (m : Mux) x : Mux :=
  mkMux (mx_client m) (mx_services m) (mx_ctl m) x (mx_closed m) (mx_events m).
Definition put_service (m : Mux) (k : string) (s : S) : Mux :=
  put_services m (<[k := Some s]> (mx_services m)).

Definition mux_emit (m : Mux) (e : mux_event) : Mux :=
  if mx_closed m then m
  else mkMux (mx_client m) (mx_services m) (mx_ctl m) (mx_lastSeq m) (mx_closed m)
         (mx_events m ++ [e]).
Definition emit_app (m : Mux) (es : list E) : Mux := foldl (λ m e, mux_emit m (AppEvent e)) m es.

(** [NewMux]'s and [Rebind]'s Context. *)
Definition context_of (c : C) : Context :=
  mkContext (tr_Self c) (tr_HostID c) (bool_decide (tr_Role c = RoleHost)).

Definition ctl_Attach (ctx : Context) (t : ctlService) : ctlService :=
  mkCtl ctx (if cx_Host ctx then <[cx_Self ctx := RoleHost]> (ct_roster t) else ct_roster t)
    (ct_names t) (ct_endpoints t) (ct_pushKey t) (ct_selfName t) (ct_selfEndpoint t).

Context {MS : MapRange string (option S)} {MB : MapRange string bytes}.

(** [for _, s := range m.services]. *)
Definition visit (f : Mux → string → option S → Mux) (m : Mux) (p : string * option S) : Mux :=
  match mx_services m !! p.1 with Some v => f m p.1 v | None => m end.
Definition for_services (f : Mux → string → option S → Mux) (m : Mux) : Mux :=
  foldl (visit f) m (range (mx_services m)).

Definition attach_one (ctx : Context) (m : Mux) (k : string) (v : option S) : Mux :=
  match v with
  | None => put_ctl m (ctl_Attach ctx (mx_ctl m))
  | Some s => put_service m k (sv_Attach ctx s)
  end.

(** ** The control service *)

Definition service_infos (m : Mux) : list ServiceInfo :=
  (λ p : string * option S, match p.2 with
        | None => mkServiceInfo CtlID 1
        | Some s => mkServiceInfo (sv_ID s) (sv_Version s)
        end) <$> range (mx_services m).

(** An event gets maps of its own, filled with [maps.Copy]. *)
Definition maps_Copy {A} (dst src : gmap ParticipantID A) : gmap ParticipantID A := src ∪ dst.
Definition rosterCopy (t : ctlService) : gmap ParticipantID Role := maps_Copy ∅ (ct_roster t).
Definition namesCopy (t : ctlService) : gmap ParticipantID string := maps_Copy ∅ (ct_names t).
Definition endpointsCopy (t : ctlService) : gmap ParticipantID string :=
  maps_Copy ∅ (ct_endpoints t).

Definition roster3 (t : ctlService) (infos : list ServiceInfo) : Roster :=
  mkRoster (rosterCopy t) (namesCopy t) (endpointsCopy t) (ct_pushKey t) infos.

(** The entries announced: those of current members, if not empty. *)
Definition announced (roster : gmap ParticipantID Role) (l : gmap ParticipantID string) :
    gmap ParticipantID string :=
  filter (λ p, p.2 ≠ ""%string ∧ is_Some (roster !! p.1)) l.

Definition announce_msg (m : Mux) : ctlMsg :=
  let t := mx_ctl m in
  mkCtlMsg ctlKindAnnounce (ct_roster t) (service_infos m) ∅ "" (announced (ct_roster t) (ct_names t))
    "" (announced (ct_roster t) (ct_endpoints t)) (ct_pushKey t).

Definition announce (m : Mux) : Mux :=
  match Marshal (announce_msg m) with
  | None => m
  | Some body =>
      let m' := put_client m (tr_Broadcast (mx_client m) CtlID body).1 in
      mux_emit m' (RosterEvent (roster3 (mx_ctl m) (service_infos m)))
  end.

Definition ctl_send_host (m : Mux) (msg : ctlMsg) : Mux :=
  match Marshal msg with
  | None => m
  | Some body =>
      put_client m (tr_SendTo (mx_client m) (cx_HostID (ct_ctx (mx_ctl m))) CtlID body).1
  end.

Definition setName (m : Mux) (name : string) : Mux :=
  let name := sanitizeName name in
  if bool_decide (name = ""%string) then m
  else
    let t := mx_ctl m in
    let m := put_ctl m (mkCtl (ct_ctx t) (ct_roster t) (<[cx_Self (ct_ctx t) := name]> (ct_names t))
                          (ct_endpoints t) (ct_pushKey t) name (ct_selfEndpoint t)) in
    if cx_Host (ct_ctx t) then announce m
    else ctl_send_host m (mkCtlMsg ctlKindIdentity ∅ [] ∅ name ∅ "" ∅ "").

Definition setEndpoint (m : Mux) (endpoint : string) : Mux :=
  let t := mx_ctl m in
  let m := put_ctl m (mkCtl (ct_ctx t) (ct_roster t) (ct_names t)
                        (<[cx_Self (ct_ctx t) := endpoint]> (ct_endpoints t))
                        (ct_pushKey t) (ct_selfName t) endpoint) in
  if cx_Host (ct_ctx t) then announce m
  else ctl_send_host m (mkCtlMsg ctlKindIdentity ∅ [] ∅ "" ∅ endpoint ∅ "").

Definition setPushKey (m : Mux) (key : string) : Mux :=
  let t := mx_ctl m in
  if cx_Host (ct_ctx t) then
    announce (put_ctl m (mkCtl (ct_ctx t) (ct_roster t) (ct_names t) (ct_endpoints t) key
                           (ct_selfName t) (ct_selfEndpoint t)))
  else m.

Definition handleAnnounce (m : Mux) (from : ParticipantID) (msg : ctlMsg) :
    Mux * option service_error :=
  let t := mx_ctl m in
  if bool_decide (from ≠ cx_HostID (ct_ctx t)) then (m, Some (CtlNonHost from))
  else
    let t := mkCtl (ct_ctx t) (cm_Roster msg) (cm_Names msg) (cm_Endpoints msg) (cm_PushKey msg)
               (ct_selfName t) (ct_selfEndpoint t) in
    (mux_emit (put_ctl m t) (RosterEvent (roster3 t (cm_Services msg))), None).

Definition handleIdentity (m : Mux) (from : ParticipantID) (msg : ctlMsg) : Mux :=
  let t := mx_ctl m in
  if negb (cx_Host (ct_ctx t)) then m
  else
    let names := if bool_decide (cm_Name msg ≠ ""%string)
                 then <[from := sanitizeName (cm_Name msg)]> (ct_names t) else ct_names t in
    let endpoints := if bool_decide (cm_Endpoint msg ≠ ""%string)
                     then <[from := cm_Endpoint msg]> (ct_endpoints t) else ct_endpoints t in
    announce (put_ctl m (mkCtl (ct_ctx t) (ct_roster t) names endpoints (ct_pushKey t)
                           (ct_selfName t) (ct_selfEndpoint t))).

(** The snapshots of the layered services, the empty ones left out. *)
Fixpoint take_snapshots (l : list (string * option S)) : result service_error (gmap string bytes) :=
  match l with
  | [] => Ok ∅
  | (id, v) :: l =>
      match v with
      | Some s =>
          if bool_decide (id = CtlID) then take_snapshots l
          else match sv_Snapshot s with
               | Err e => Err (CtlSnapshotOf id e)
               | Ok b =>
                   match take_snapshots l with
                   | Err e => Err e
                   | Ok blobs => Ok (if bool_decide (b = []) then blobs else <[id := b]> blobs)
                   end
               end
      | None => take_snapshots l
      end
  end.

Definition sendSnapshot (m : Mux) (to : ParticipantID) : Mux * option service_error :=
  match take_snapshots (range (mx_services m)) with
  | Err e => (m, Some e)
  | Ok blobs =>
      match Marshal (mkCtlMsg ctlKindSnapshot ∅ [] blobs "" ∅ "" ∅ "") with
      | None => (m, Some CtlMarshal)
      | Some body =>
          let '(c, ok) := tr_SendTo (mx_client m) to CtlID body in
          (put_client m c, if ok : bool then None else Some CtlSend)
      end
  end.

Definition handleSnapshotReq (m : Mux) (from : ParticipantID) : Mux * option service_error :=
  if cx_Host (ct_ctx (mx_ctl m)) then sendSnapshot m from else (m, None).

(** [handleSnapshot]'s loop; the first error ends it. *)
Fixpoint restore_all (m : Mux) (l : list (string * bytes)) : Mux * option service_error :=
  match l with
  | [] => (m, None)
  | (id, blob) :: l =>
      match mx_services m !! id with
      | Some (Some s) =>
          if bool_decide (id = CtlID) then restore_all m l
          else
            let '(s, c, es, err) := sv_Restore s (mx_client m) blob in
            let m := emit_app (put_client (put_service m id s) c) es in
            match err with
            | Some e => (m, Some (CtlRestore id e))
            | None => restore_all m l
            end
      | _ => restore_all m l
      end
  end.

Definition handleSnapshot (m : Mux) (from : ParticipantID) (msg : ctlMsg) :
    Mux * option service_error :=
  if bool_decide (from ≠ cx_HostID (ct_ctx (mx_ctl m))) then (m, Some (CtlNonHost from))
  else restore_all m (range (cm_Snapshots msg)).

Definition ctl_HandleFrame (m : Mux) (from : ParticipantID) (body : bytes) :
    Mux * option service_error :=
  match Body ctlMsg body with
  | Err e => (m, Some (CtlDecode e))
  | Ok msg =>
      if bool_decide (cm_Kind msg = ctlKindAnnounce) then handleAnnounce m from msg
      else if bool_decide (cm_Kind msg = ctlKindIdentity) then (handleIdentity m from msg, None)
      else if bool_decide (cm_Kind msg = ctlKindSnapshotReq) then handleSnapshotReq m from
      else if bool_decide (cm_Kind msg = ctlKindSnapshot) then handleSnapshot m from msg
      else (m, None)
  end.

Definition ctl_MemberKeyed (m : Mux) (id : ParticipantID) (role : Role) : Mux :=
  let t := mx_ctl m in
  if cx_Host (ct_ctx t) then
    announce (put_ctl m (mkCtl (ct_ctx t) (<[id := role]> (ct_roster t)) (ct_names t)
                           (ct_endpoints t) (ct_pushKey t) (ct_selfName t) (ct_selfEndpoint t)))
  else m.

Definition ctl_prune (t : ctlService) (id : ParticipantID) : ctlService :=
  mkCtl (ct_ctx t) (delete id (ct_roster t)) (delete id (ct_names t)) (delete id (ct_endpoints t))
    (ct_pushKey t) (ct_selfName t) (ct_selfEndpoint t).

Definition ctl_MemberLeft (m : Mux) (id : ParticipantID) : Mux :=
  if cx_Host (ct_ctx (mx_ctl m)) then announce (put_ctl m (ctl_prune (mx_ctl m) id)) else m.

Definition assumeHost (m : Mux) (leaver : ParticipantID) : Mux :=
  let t := ctl_prune (mx_ctl m) leaver in
  announce (put_ctl m (mkCtl (ct_ctx t) (<[cx_Self (ct_ctx t) := RoleHost]> (ct_roster t))
                         (ct_names t) (ct_endpoints t) (ct_pushKey t) (ct_selfName t)
                         (ct_selfEndpoint t))).

Definition requestSnapshot (m : Mux) : Mux := ctl_send_host m (ctl_kind ctlKindSnapshotReq).

(** ** Routing *)

Variable successor : gmap ParticipantID Role → ParticipantID.

Definition electSuccessor (m : Mux) (leaver : ParticipantID) : ParticipantID :=
  let candidates := delete leaver (ct_roster (mx_ctl m)) in
  let s := successor candidates in
  match candidates !! s with Some _ => s | None => 0 end.

Definition promote_one (m : Mux) (k : string) (v : option S) : Mux :=
  match v with None => m | Some s => put_service m k (sv_OnPromote s) end.

Definition maybeMigrate (m : Mux) (left : ParticipantID) : Mux :=
  match tr_promoter with
  | None => m
  | Some p =>
      if bool_decide (left ≠ tr_HostID (mx_client m)) then m
      else
        let s := electSuccessor m left in
        if bool_decide (s = 0) then m
        else
          let amNew := bool_decide (s = tr_Self (mx_client m)) in
          let m := put_client m
                     (if amNew then pm_RotateForMigration p (pm_BecomeHost p (mx_client m))
                      else pm_SetHostID p (mx_client m) s) in
          let m := for_services (attach_one (context_of (mx_client m))) m in
          if amNew then
            let m := for_services promote_one m in
            let m := assumeHost m left in
            let m := put_client m (pm_ClaimHost p (mx_client m)) in
            mux_emit m (Promoted (tr_Self (mx_client m)))
          else put_client m (pm_RekeyWithNewHost p (mx_client m))
  end.

Definition keyed_one (id : ParticipantID) (role : Role) (m : Mux) (k : string) (v : option S) :
    Mux :=
  match v with
  | None => ctl_MemberKeyed m id role
  | Some s =>
      let '(s, c, es) := sv_MemberKeyed s (mx_client m) id role in
      emit_app (put_client (put_service m k s) c) es
  end.

Definition left_one (id : ParticipantID) (m : Mux) (k : string) (v : option S) : Mux :=
  match v with
  | None => ctl_MemberLeft m id
  | Some s =>
      let '(s, c, es) := sv_MemberLeft s (mx_client m) id in
      emit_app (put_client (put_service m k s) c) es
  end.

(** The envelope's delivery to its service. *)
Definition deliver (m : Mux) (from : ParticipantID) (id : string) (v : option S) (body : bytes) :
    Mux * option service_error :=
  match v with
  | None => ctl_HandleFrame m from body
  | Some s =>
      let '(s, c, es, err) := sv_HandleFrame s (mx_client m) from body in
      (emit_app (put_client (put_service m id s) c) es, LayeredError <$> err)
  end.

Definition handleFrame (m : Mux) (from : ParticipantID) (env : Envelope) : Mux :=
  let id := env_ServiceID env in
  match mx_services m !! id with
  | None => m
  | Some v =>
      let want := wrap 64 (default 0 (mx_lastSeq m !! (from, id)) + 1) in
      let m := if bool_decide (env_Seq env ≠ want) then mux_emit m (Desync from id want (env_Seq env))
               else m in
      let m := put_lastSeq m (<[(from, id) := env_Seq env]> (mx_lastSeq m)) in
      match deliver m from id v (env_Body env) with
      | (m, Some e) => mux_emit m (ServiceError from id e)
      | (m, None) => m
      end
  end.

Definition dispatch (m : Mux) (ev : Event) : Mux * bool :=
  match ev with
  | Frame from env => (handleFrame m from env, false)
  | MemberKeyed id role =>
      (mux_emit (for_services (keyed_one id role) m) (SessionEvent ev), false)
  | MemberLeft id =>
      (maybeMigrate (mux_emit (for_services (left_one id) m) (SessionEvent ev)) id, false)
  | Closed _ => (mux_emit m (SessionEvent ev), true)
  | MemberJoined _ => (mux_emit m (SessionEvent ev), false)
  end.

(** A local action posted to the mux goroutine, or a session event. *)
Inductive mux_input :=
| SetName (name : string)
| SetEndpoint (endpoint : string)
| SetPushKey (key : string)
| Incoming (e : Event).

(** [run]'s loop on the inputs to come; the flag says that it has returned. *)
Fixpoint run_loop (m : Mux) (inputs : list mux_input) : Mux * bool :=
  match inputs with
  | [] => (m, false)
  | i :: inputs =>
      match i with
      | SetName n => run_loop (setName m n) inputs
      | SetEndpoint e => run_loop (setEndpoint m e) inputs
      | SetPushKey k => run_loop (setPushKey m k) inputs
      | Incoming e =>
          match dispatch m e with
          | (m, true) => (m, true)
          | (m, false) => run_loop m inputs
          end
      end
  end.

Definition run (m : Mux) (requestSnap : bool) (inputs : list mux_input) : Mux * bool :=
  run_loop (if requestSnap && bool_decide (tr_Role (mx_client m) ≠ RoleHost)
            then requestSnapshot m else m) inputs.

(** [NewMux], up to the goroutine: every service is attached and registered under
    its name, the control service first. *)
Definition NewMux (c : C) (pending : list S) : Mux :=
  let ctx := context_of c in
  let m := mkMux c {[ CtlID := None ]} (ctl_Attach ctx newCtl) ∅ false [] in
  foldl (λ m s, let s := sv_Attach ctx s in put_service m (sv_ID s) s) m pending.

Definition Rebind (m : Mux) (c : C) : Mux :=
  for_services (attach_one (context_of c)) (put_client m c).

(** The options of [NewMux], applied in order before anything is attached: the
    services to come, and the policy [run] uses. *)
Record mux_config := mkMuxConfig {
  mc_pendingSvcs : list S; mc_successor : gmap ParticipantID Role → ParticipantID }.
Definition Option : Type := mux_config → mux_config.
Definition WithServices (svcs : list S) : Option :=
  λ c, mkMuxConfig (mc_pendingSvcs c ++ svcs) (mc_successor c).
Definition WithSuccessor (p : gmap ParticipantID Role → ParticipantID) : Option :=
  λ c, mkMuxConfig (mc_pendingSvcs c) p.

Definition NewMuxWith (default : gmap ParticipantID Role → ParticipantID) (c : C)
    (opts : list Option) : Mux * (gmap ParticipantID Role → ParticipantID) :=
  let cfg := foldl (λ cfg o, o cfg) (mkMuxConfig [] default) opts in
  (NewMux c (mc_pendingSvcs cfg), mc_successor cfg).
End Mux.

Arguments mux_event : clear implicits.
Arguments Mux : clear implicits.
