(* ===== verification/MuxSpec.v ===== *)
(** * What the mux guarantees

    Sequence watching, who may speak for the host on the control channel, the
    election of a successor and the agreement of the survivors on it. *)
From S2P Require Import Prelude Wire Crypto Words Phrase Session SessionSpec Runes Mux.

#[local] Open Scope N_scope.

(** ** Successor policy *)

Section Policy.
Context {MR : MapRange ParticipantID Role}.

Definition seats (r : Role) : Prop := r = RoleHost ∨ r = RoleMember.

#[global] Instance seats_dec r : Decision (seats r).
Proof. unfold seats. apply _. Defined.

(** [x] is the least identifier with [P] in the candidates, or 0 if none has it. *)
Definition least (P : Role → Prop) (l : list (ParticipantID * Role)) (x : ParticipantID) : Prop :=
  (x = 0 ∧ ∀ p, p ∈ l → ¬ P p.2) ∨
  ((∃ r, (x, r) ∈ l ∧ P r) ∧ ∀ p, p ∈ l → P p.2 → x ≤ p.1).

Lemma least_snoc (P : Role → Prop) l x id r :
  id ≠ 0 → Forall (λ q, q.1 ≠ 0) l → least P l x →
  (P r ∧ (x = 0 ∨ id < x) → least P (l ++ [(id, r)]) id) ∧
  (¬ (P r ∧ (x = 0 ∨ id < x)) → least P (l ++ [(id, r)]) x).
Proof.
  intros Hp Hl Hx. rewrite Forall_forall in Hl.
  assert (∀ q, q ∈ l ++ [(id, r)] ↔ q ∈ l ∨ q = (id, r)) as Hin
    by (intros q; by rewrite elem_of_app, list_elem_of_singleton).
  assert ((x = 0 ∧ ∀ p, p ∈ l → ¬ P p.2) ∨
    (x ≠ 0 ∧ (∃ r, (x, r) ∈ l ∧ P r) ∧ ∀ p, p ∈ l → P p.2 → x ≤ p.1)) as Hx'.
  { destruct Hx as [?|[[r' [Hr' ?]] ?]]; [by left|]. right.
    split; [exact (Hl _ Hr')|]. eauto. }
  clear Hx. split.
  - intros [Hr Hlt]. right. split; [exists r; split; [apply Hin; by right|done]|].
    intros q Hq Pq. apply Hin in Hq as [Hq| ->]; [|done].
    destruct Hx' as [[-> Hno]|(Hx0 & _ & Hle)]; [by destruct (Hno q Hq)|].
    specialize (Hle q Hq Pq). destruct Hlt; [done|lia].
  - intros Hn. destruct Hx' as [[-> Hno]|(Hx0 & (r' & Hr' & Pr') & Hle)].
    + left. split; [done|]. intros q Hq. apply Hin in Hq as [Hq| ->]; [by apply Hno|].
      simpl. intros Pr. apply Hn. auto.
    + right. split; [exists r'; split; [apply Hin; by left|done]|].
      intros q Hq Pq. apply Hin in Hq as [Hq| ->]; [by apply Hle|]. simpl in *.
      destruct (N.lt_ge_cases id x); [|done]. destruct Hn. auto.
Qed.

Lemma visit_least l0 member any id r :
  id ≠ 0 → Forall (λ q, q.1 ≠ 0) l0 → least seats l0 member → least (λ _, True) l0 any →
  let '(member, any) := policy_visit (member, any) (id, r) in
  least seats (l0 ++ [(id, r)]) member ∧ least (λ _, True) (l0 ++ [(id, r)]) any.
Proof.
  intros Hid Hl0 Hm Ha.
  destruct (least_snoc seats l0 member id r Hid Hl0 Hm) as [Hm1 Hm2].
  destruct (least_snoc (λ _, True) l0 any id r Hid Hl0 Ha) as [Ha1 Ha2].
  unfold policy_visit. set (any' := if _ || _ then id else any).
  assert (least (λ _, True) (l0 ++ [(id, r)]) any') as Ha'.
  { unfold any'. case_bool_decide; simpl; [apply Ha1; auto|].
    destruct (N.ltb_spec id any); [apply Ha1; auto|apply Ha2]. intros [_ [?|?]]; [done|lia]. }
  destruct ((_ || _) && _) eqn:E.
  - split; [|done]. apply Hm1. apply andb_true_iff in E as [E1 E2].
    apply orb_true_iff in E1, E2. rewrite N.ltb_lt in E2. unfold seats.
    by rewrite !bool_decide_eq_true in *.
  - split; [|done]. apply Hm2. intros [[Hr|Hr] Hlt]; apply andb_false_iff in E as [E|E];
      apply orb_false_iff in E as [E1 E2]; rewrite ?bool_decide_eq_false in *; try done;
      apply N.ltb_ge in E2; destruct Hlt; try done; lia.
Qed.

Lemma policy_fold l1 l0 member any :
  Forall (λ q, q.1 ≠ 0) (l0 ++ l1) → least seats l0 member → least (λ _, True) l0 any →
  let '(member, any) := foldl policy_visit (member, any) l1 in
  least seats (l0 ++ l1) member ∧ least (λ _, True) (l0 ++ l1) any.
Proof.
  revert l0 member any. induction l1 as [|[id r] l1 IH]; intros l0 member any Hl Hm Ha.
  { simpl. by rewrite app_nil_r. }
  pose proof Hl as Hl'. apply Forall_app in Hl' as [Hl0 [Hid _]%Forall_cons]. simpl in Hid.
  pose proof (visit_least l0 member any id r Hid Hl0 Hm Ha) as Hv.
  cbn [foldl]. destruct (policy_visit _ _) as [member' any']. destruct Hv as [Hm' Ha'].
  change (l0 ++ (id, r) :: l1) with (l0 ++ [(id, r)] ++ l1) in *. rewrite (assoc_L (++)) in *.
  by apply IH.
Qed.

(** the default successor is everyone's same choice.  Whatever order the
    candidates are visited in, the policy returns the least identifier among the
    host and member roles, or if there is none the least of all, and 0 only if
    there is no candidate; so two ends with the same candidates agree. *)
Theorem DefaultSuccessorPolicy_spec (candidates : gmap ParticipantID Role) :
  candidates !! 0 = None →
  let x := DefaultSuccessorPolicy candidates in
  ((∃ id r, candidates !! id = Some r ∧ seats r) →
   (∃ r, candidates !! x = Some r ∧ seats r) ∧
              ∀ id r, candidates !! id = Some r → seats r → x ≤ id) ∧
  ((∀ id r, candidates !! id = Some r → ¬ seats r) → candidates ≠ ∅ →
   is_Some (candidates !! x) ∧ ∀ id r, candidates !! id = Some r → x ≤ id) ∧
  (candidates = ∅ → x = 0).
Proof.
  intros H0. cbv zeta. unfold DefaultSuccessorPolicy.
  assert (Forall (λ q, q.1 ≠ 0) (range candidates)) as Hl.
  { apply Forall_forall. intros [i r] Hin%elem_of_range. simpl. congruence. }
  pose proof (policy_fold (range candidates) [] 0 0 Hl) as Hf.
  destruct (foldl _ _ _) as [member any]. simpl app in Hf.
  destruct Hf as [Hm Ha]; [left; split; [done|by intros p ?%elem_of_nil]..|].
  rewrite Forall_forall in Hl.
  split; [|split].
  - intros (id & r & Hid & Hr). destruct Hm as [[_ Hnone]|[(r' & Hr' & Hs) Hle]].
    { apply elem_of_range in Hid. by destruct (Hnone _ Hid). }
    rewrite bool_decide_eq_true_2 by exact (Hl _ Hr').
    split; [exists r'; split; [by apply elem_of_range|done]|].
    intros id' r1 Hin Hs'. apply elem_of_range in Hin. by apply (Hle _ Hin).
  - intros Hno Hne. destruct Hm as [[-> _]|[(r' & Hr'%elem_of_range & Hs) _]];
      [|by destruct (Hno _ _ Hr')].
    rewrite bool_decide_eq_false_2 by tauto. destruct (map_choose _ Hne) as (id & r & Hid%elem_of_range).
    destruct Ha as [[_ Hnone]|[(r' & Hr'%elem_of_range & _) Hle]]; [by destruct (Hnone _ Hid)|].
    split; [by eexists|]. intros id' r1 Hin%elem_of_range. by apply (Hle _ Hin).
  - intros ->.
    destruct Hm as [[-> _]|[(r' & Hr'%elem_of_range & _) _]]; [|by rewrite lookup_empty in Hr'].
    destruct Ha as [[-> _]|[(r' & Hr'%elem_of_range & _) _]]; [done|by rewrite lookup_empty in Hr'].
Qed.
End Policy.

(** ** Contracts of the interfaces *)

(** Who an end is. *)
Definition identity `{Transport C} (c : C) : ParticipantID * ParticipantID * Role :=
  (tr_Self c, tr_HostID c, tr_Role c).

(** Sending does not change who an end is; promotion and re-pointing change what
    they say, and the other migration calls nothing of it. *)
Class TransportSpec (C : Type) `{Transport C} := {
  broadcast_identity c svc body : identity (tr_Broadcast c svc body).1 = identity c;
  sendTo_identity c to svc body : identity (tr_SendTo c to svc body).1 = identity c;
  promoter_identity p : tr_promoter = Some p →
    (∀ c, identity (pm_BecomeHost p c) = (tr_Self c, tr_Self c, RoleHost)) ∧
    (∀ c id, identity (pm_SetHostID p c id) = (tr_Self c, id, tr_Role c)) ∧
    (∀ c, identity (pm_ClaimHost p c) = identity c) ∧
    (∀ c, identity (pm_RotateForMigration p c) = identity c) ∧
    (∀ c, identity (pm_RekeyWithNewHost p c) = identity c)
}.

(** A layered service only sends through the end. *)
Class ServiceSpec (C S E : Type) `{Transport C, Service C S E} := {
  handle_identity s c from body :
    identity (sv_HandleFrame s c from body).1.1.2 = identity c;
  restore_identity s c blob : identity (sv_Restore s c blob).1.1.2 = identity c;
  keyed_identity s c id role : identity (sv_MemberKeyed s c id role).1.2 = identity c;
  left_identity s c id : identity (sv_MemberLeft s c id).1.2 = identity c
}.

Section ClientSpec.
Context {WC : WireCodec} {AE : Aead} {HK : Hkdf} {PK : Pake_lib} {EN : Entropy} {CN : Conn}.
Context {MK : MapRange ParticipantID Key}.

Definition cl_identity (c : Client) := (cl_self c, cl_hostID c, cl_role c).

Lemma writeFrame_identity `{Cbor T} c t (body : T) :
  cl_identity (writeFrame c t body).1 = cl_identity c.
Proof. destruct (writeFrame_cases c t body) as [(f & _ & _ & ->)|(e & w & ->)]; done. Qed.

Lemma seal_identity c svc body : cl_identity (seal c svc body).1 = cl_identity c.
Proof.
  unfold seal. destruct (negb _); [done|]. destruct (Marshal _); [|done]. simpl.
  by destruct (Seal _ _ _ _ _).
Qed.

#[global] Instance client_transport_spec : TransportSpec Client.
Proof.
  split.
  - intros c svc body. simpl. unfold BroadcastMsg.
    pose proof (seal_identity c svc body) as Hs. destruct (seal c svc body) as [c1 [p|e]]; [|done].
    pose proof (writeFrame_identity c1 MsgBroadcast (mkBroadcast 0 p)) as Hw.
    destruct (writeFrame c1 _ _) as [c2 r]. simpl in *. unfold identity. simpl.
    unfold cl_identity in *. congruence.
  - intros c to svc body. simpl. unfold SendTo.
    pose proof (seal_identity c svc body) as Hs. destruct (seal c svc body) as [c1 [p|e]]; [|done].
    pose proof (writeFrame_identity c1 MsgDirect (mkDirect to 0 p)) as Hw.
    destruct (writeFrame c1 _ _) as [c2 r]. simpl in *. unfold identity. simpl.
    unfold cl_identity in *. congruence.
  - intros p [= <-]. split; [done|]. split; [done|]. split; [|split].
    + intros c. apply (writeFrame_identity c MsgClaimHost mkClaimHost).
    + intros c. simpl. unfold RotateForMigration. destruct (_ || _); [done|]. simpl.
      by destruct (NewGroupKey _).
    + intros c. simpl. unfold RekeyWithNewHost. destruct (_ || _ || _); [done|]. simpl.
      destruct (NewJoiner _ _ _) as [j|]; [|done].
      destruct (EncodePayload KindRekeyPake1 _) as [pl|]; [|done].
      set (c1 := put_rekeyJoiner _ _).
      apply (writeFrame_identity c1 MsgDirect (mkDirect (cl_hostID c) 0 pl)).
Qed.
End ClientSpec.

(** ** The mux *)

Section Mux.
Context {C S E : Type} {TR : Transport C} {SV : Service C S E} {CM : Cbor ctlMsg}.
Context {TS : TransportSpec C} {SS : ServiceSpec C S E}.
Context {MS : MapRange string (option S)} {MB : MapRange string bytes}.
Variable successor : gmap ParticipantID Role → ParticipantID.

Abbreviation Mux := (Mux C S E).
Implicit Types m : Mux.

(** The control service is registered under its name, and only there. *)
Definition mux_ok m : Prop := ∀ k, mx_services m !! k = Some None ↔ k = CtlID.

Lemma emit_fields m e :
  mx_client (mux_emit m e) = mx_client m ∧ mx_services (mux_emit m e) = mx_services m ∧
  mx_ctl (mux_emit m e) = mx_ctl m ∧ mx_lastSeq (mux_emit m e) = mx_lastSeq m ∧
  mx_closed (mux_emit m e) = mx_closed m.
Proof. unfold mux_emit. destruct (mx_closed m) eqn:Ecl; simpl; by rewrite ?Ecl. Qed.

Lemma emit_app_fields m es :
  mx_client (emit_app m es) = mx_client m ∧ mx_services (emit_app m es) = mx_services m ∧
  mx_ctl (emit_app m es) = mx_ctl m ∧ mx_lastSeq (emit_app m es) = mx_lastSeq m ∧
  mx_closed (emit_app m es) = mx_closed m.
Proof.
  unfold emit_app. revert m. induction es as [|e es IH]; intros m; simpl; [done|].
  destruct (IH (mux_emit m (AppEvent e))) as (-> & -> & -> & -> & ->). apply emit_fields.
Qed.

(** An announcement changes the end (it sends) and the event stream only. *)
Lemma announce_fields m :
  identity (mx_client (announce m)) = identity (mx_client m) ∧
  mx_services (announce m) = mx_services m ∧ mx_ctl (announce m) = mx_ctl m ∧
  mx_lastSeq (announce m) = mx_lastSeq m ∧ mx_closed (announce m) = mx_closed m.
Proof.
  unfold announce. destruct (Marshal _) as [body|]; [|done].
  set (m1 := put_client m _).
  destruct (emit_fields m1 (RosterEvent (roster3 (mx_ctl m) (service_infos m))))
    as (-> & -> & -> & -> & ->).
  split; [apply broadcast_identity|done].
Qed.

(** *** Visiting the services *)

(** An operation that changes its own slot at most, and keeps its kind. *)
Definition local_op (f : Mux → string → option S → Mux) : Prop :=
  ∀ m k v, mx_services m !! k = Some v →
    (∀ j, j ≠ k → mx_services (f m k v) !! j = mx_services m !! j) ∧
    (∃ w, mx_services (f m k v) !! k = Some w ∧ (w = None ↔ v = None)).

Lemma visits_ind (P : Mux → Prop) f l m :
  P m → (∀ m k v, P m → mx_services m !! k = Some v → P (f m k v)) → P (foldl (visit f) m l).
Proof.
  intros Hm Hf. revert m Hm. induction l as [|p l IH]; intros m Hm; simpl; [done|]. apply IH.
  unfold visit. destruct (mx_services m !! p.1) as [v|] eqn:Ev; [by apply Hf|done].
Qed.

Lemma for_services_ind (P : Mux → Prop) f m :
  P m → (∀ m k v, P m → mx_services m !! k = Some v → P (f m k v)) → P (for_services f m).
Proof. apply visits_ind. Qed.

(** With [Q] kept throughout, what the visit of [k] establishes, and no later one
    undoes, holds at the end. *)
Lemma for_services_visits (Q P : Mux → Prop) f m k :
  local_op f → mx_services m !! k = Some None → Q m →
  (∀ m j v, Q m → mx_services m !! j = Some v → Q (f m j v)) →
  (∀ m, Q m → mx_services m !! k = Some None → P (f m k None)) →
  (∀ m j v, P m → mx_services m !! j = Some v → P (f m j v)) → P (for_services f m).
Proof.
  intros Hl Hk HQ HQk Hhit Hkeep. unfold for_services.
  assert ((k, None) ∈ range (mx_services m)) as Hin by by apply elem_of_range.
  revert Hin Hk HQ. generalize (range (mx_services m)). intros l. revert m.
  induction l as [|p l IH]; intros m Hin Hk HQ; simpl; [by apply elem_of_nil in Hin|].
  unfold visit at 2. destruct (decide (p.1 = k)) as [->|Hne].
  { rewrite Hk. apply visits_ind; [by apply Hhit|done]. }
  apply elem_of_cons in Hin as [<-|Hin]; [done|].
  destruct (mx_services m !! p.1) as [v|] eqn:Ev; [|by apply IH].
  destruct (Hl m p.1 v Ev) as [Ho _]. apply IH; [done| |by apply HQk]. by rewrite Ho by congruence.
Qed.

Lemma local_op_ok f m k v :
  local_op f → mux_ok m → mx_services m !! k = Some v → mux_ok (f m k v).
Proof.
  intros Hl Hm Hk j. destruct (Hl m k v Hk) as [Ho (w & Hw & Hwv)].
  destruct (decide (j = k)) as [->|Hne]; [|rewrite Ho by done; apply Hm].
  rewrite Hw. specialize (Hm k). rewrite Hk in Hm. destruct w, v; naive_solver.
Qed.

(** The rest of the mux, besides its services, control state, end and events. *)
Definition same_rest m m' : Prop :=
  mx_lastSeq m' = mx_lastSeq m ∧ mx_closed m' = mx_closed m.

Lemma attach_local ctx : local_op (attach_one ctx).
Proof.
  intros m k [s|] Hk; simpl.
  - split; [intros j Hj; by rewrite lookup_insert_ne|].
    exists (Some (sv_Attach ctx s)). by rewrite lookup_insert_eq.
  - split; [done|]. by exists None.
Qed.

Lemma ctl_Attach_twice ctx t : ctl_Attach ctx (ctl_Attach ctx t) = ctl_Attach ctx t.
Proof.
  unfold ctl_Attach. simpl. f_equal. destruct (cx_Host ctx); [|done]. apply insert_insert_eq.
Qed.

Lemma attach_spec ctx m :
  mux_ok m →
  let m' := for_services (attach_one ctx) m in
  mx_client m' = mx_client m ∧ mx_ctl m' = ctl_Attach ctx (mx_ctl m) ∧ mux_ok m' ∧
  mx_events m' = mx_events m ∧ same_rest m m'.
Proof.
  intros Hok m'. unfold m'.
  set (R := λ m1, mx_client m1 = mx_client m ∧ mux_ok m1 ∧ mx_events m1 = mx_events m ∧
    same_rest m m1).
  assert (∀ m1 j v, R m1 → mx_services m1 !! j = Some v → R (attach_one ctx m1 j v)) as HR.
  { intros m1 j v (Hc & Ho & He & Hs) Hj. split; [|split; [|split]].
    - by destruct v.
    - by apply local_op_ok; [apply attach_local| |].
    - by destruct v.
    - by destruct v. }
  set (Q := λ m1 : Mux, (mx_ctl m1 = mx_ctl m ∨ mx_ctl m1 = ctl_Attach ctx (mx_ctl m)) ∧ R m1).
  set (P := λ m1 : Mux, mx_ctl m1 = ctl_Attach ctx (mx_ctl m) ∧ R m1).
  assert (P (for_services (attach_one ctx) m)) as (H1 & H2 & H3 & H4 & H5); [|done].
  apply (for_services_visits Q P _ _ CtlID).
  - apply attach_local.
  - by apply Hok.
  - split; [by left|]. by split.
  - intros m1 j v [Hc HR1] Hj. split; [|by apply HR]. destruct v; [done|]. simpl. right.
    destruct Hc as [->| ->]; [done|apply ctl_Attach_twice].
  - intros m1 [Hc HR1] Hk. split; [|by apply (HR _ _ None)]. simpl.
    destruct Hc as [->| ->]; [done|apply ctl_Attach_twice].
  - intros m1 j v [Hc HR1] Hj. split; [|by apply HR]. destruct v; [done|]. simpl.
    rewrite Hc. apply ctl_Attach_twice.
Qed.

Lemma promote_local : local_op promote_one.
Proof.
  intros m k [s|] Hk; simpl.
  - split; [intros j Hj; by rewrite lookup_insert_ne|].
    exists (Some (sv_OnPromote s)). by rewrite lookup_insert_eq.
  - split; [done|]. by exists None.
Qed.

Lemma promote_spec m :
  mux_ok m →
  let m' := for_services promote_one m in
  mx_client m' = mx_client m ∧ mx_ctl m' = mx_ctl m ∧ mux_ok m' ∧ mx_events m' = mx_events m ∧
  same_rest m m'.
Proof.
  intros Hok m'. unfold m'.
  apply (for_services_ind (λ m1, mx_client m1 = mx_client m ∧ mx_ctl m1 = mx_ctl m ∧ mux_ok m1 ∧
    mx_events m1 = mx_events m ∧ same_rest m m1)); [done|].
  intros m1 k v (Hc & Ht & Ho & He & Hs) Hk.
  pose proof (local_op_ok _ _ _ _ promote_local Ho Hk) as Hok1. by destruct v.
Qed.

(** ** Migration *)

(** The candidates an end elects from when [left] goes. *)
Definition candidates m (left : ParticipantID) : gmap ParticipantID Role :=
  delete left (ct_roster (mx_ctl m)).

Lemma elect_candidate m left s :
  successor (candidates m left) = s → is_Some (candidates m left !! s) →
  electSuccessor successor m left = s.
Proof.
  unfold electSuccessor. fold (candidates m left). intros -> [r ->]. done.
Qed.

Lemma context_identity (c : C) a b r :
  identity c = (a, b, r) → context_of c = mkContext a b (bool_decide (r = RoleHost)).
Proof. unfold identity, context_of. by intros [= -> -> ->]. Qed.

(** The end the policy picked. *)
Definition promoted_to (m m' : Mux) (left s : ParticipantID) : Prop :=
  identity (mx_client m') = (s, s, RoleHost) ∧ ct_ctx (mx_ctl m') = mkContext s s true ∧
  ct_roster (mx_ctl m') = <[s := RoleHost]> (candidates m left) ∧ mux_ok m' ∧ same_rest m m'.

(** The others. *)
Definition follows (m m' : Mux) (s : ParticipantID) : Prop :=
  identity (mx_client m') = (tr_Self (mx_client m), s, tr_Role (mx_client m)) ∧
  ct_ctx (mx_ctl m') = context_of (mx_client m') ∧ mux_ok m' ∧ same_rest m m'.

Lemma assumeHost_spec m left :
  let m' := assumeHost m left in
  identity (mx_client m') = identity (mx_client m) ∧ mx_services m' = mx_services m ∧
  ct_ctx (mx_ctl m') = ct_ctx (mx_ctl m) ∧
  ct_roster (mx_ctl m') = <[cx_Self (ct_ctx (mx_ctl m)) := RoleHost]> (delete left (ct_roster (mx_ctl m)))
  ∧ same_rest m m'.
Proof.
  unfold assumeHost. set (m1 := put_ctl m _).
  destruct (announce_fields m1) as (-> & -> & -> & H4 & H5). split; [done|].
  split; [done|]. split; [done|]. split; [done|]. by split.
Qed.

Lemma migrate_promoted m p left s :
  mux_ok m → tr_promoter = Some p → s = tr_Self (mx_client m) → is_Some (candidates m left !! s) →
  let m1 := put_client m (pm_RotateForMigration p (pm_BecomeHost p (mx_client m))) in
  let m2 := for_services (attach_one (context_of (mx_client m1))) m1 in
  let m3 := assumeHost (for_services promote_one m2) left in
  let m4 := put_client m3 (pm_ClaimHost p (mx_client m3)) in
  promoted_to m (mux_emit m4 (Promoted (tr_Self (mx_client m4)))) left s.
Proof.
  intros Hok Hp Hself Hin m1 m2 m3 m4.
  destruct (promoter_identity p Hp) as (HB & _ & HC & HR & _).
  assert (identity (mx_client m1) = (s, s, RoleHost)) as I1 by (simpl; by rewrite HR, HB, Hself).
  destruct (attach_spec (context_of (mx_client m1)) m1 Hok) as (A1 & A2 & A3 & _ & A5).
  fold m2 in A1, A2, A3, A5. rewrite (context_identity _ _ _ _ I1) in A2.
  destruct (promote_spec m2 A3) as (P1 & P2 & P3 & _ & P5).
  destruct (assumeHost_spec (for_services promote_one m2) left) as (N1 & N2 & N3 & N4 & N5).
  fold m3 in N1, N2, N3, N4, N5.
  destruct (emit_fields m4 (Promoted (tr_Self (mx_client m4)))) as (E1 & E2 & E3 & E4 & E5).
  unfold promoted_to, same_rest, mux_ok. rewrite E1, E2, E3, E4, E5. simpl.
  rewrite HC, N1, N2, N3, N4, P1, P2, A1, A2. destruct N5 as [-> ->], P5 as [-> ->], A5 as [-> ->].
  split; [done|]. split; [done|]. split; [|by split]. simpl. unfold candidates in *.
  rewrite delete_insert_ne, insert_insert_eq; [done|]. intros ->.
  destruct Hin as [r Hr]. by rewrite lookup_delete_eq in Hr.
Qed.

Lemma migrate_follows m p s :
  mux_ok m → tr_promoter = Some p →
  let m1 := put_client m (pm_SetHostID p (mx_client m) s) in
  let m2 := for_services (attach_one (context_of (mx_client m1))) m1 in
  follows m (put_client m2 (pm_RekeyWithNewHost p (mx_client m2))) s.
Proof.
  intros Hok Hp m1 m2. destruct (promoter_identity p Hp) as (_ & HS & _ & _ & HK).
  assert (identity (mx_client m1) = (tr_Self (mx_client m), s, tr_Role (mx_client m))) as I1
    by apply HS.
  destruct (attach_spec (context_of (mx_client m1)) m1 Hok) as (A1 & A2 & A3 & _ & A5).
  fold m2 in A1, A2, A3, A5.
  assert (identity (pm_RekeyWithNewHost p (mx_client m2))
    = (tr_Self (mx_client m), s, tr_Role (mx_client m))) as I2 by (by rewrite HK, A1).
  unfold follows. simpl. rewrite I2, A2. split; [done|]. split; [|by split]. simpl.
  etrans; [exact (context_identity _ _ _ _ I1)|symmetry; exact (context_identity _ _ _ _ I2)].
Qed.

Lemma migrate_end m p left s :
  mux_ok m → tr_promoter = Some p → tr_HostID (mx_client m) = left →
  successor (candidates m left) = s → is_Some (candidates m left !! s) → s ≠ 0 →
  let m' := maybeMigrate successor m left in
  if bool_decide (s = tr_Self (mx_client m)) then promoted_to m m' left s else follows m m' s.
Proof.
  intros Hok Hp Hleft Hs Hin Hs0. cbv zeta. unfold maybeMigrate. rewrite Hp, Hleft.
  rewrite (bool_decide_eq_false_2 (left ≠ left)) by tauto.
  rewrite (elect_candidate m left s Hs Hin), (bool_decide_eq_false_2 (s = 0)) by done.
  case_bool_decide; [by apply migrate_promoted|by apply migrate_follows].
Qed.

(** C22: the survivors agree on the new host.  When the host leaves a group of ends
    whose rosters, less the host, are the same, every one of them takes the
    policy's choice for its host, and exactly the end with that identifier holds
    the host role; the control service of each has the matching context, and the
    new host's roster has itself as host and the old one gone. *)
Theorem migration_agrees (ms : list Mux) p left R s :
  tr_promoter = Some p → successor R = s → is_Some (R !! s) → s ≠ 0 →
  (∀ m, m ∈ ms → mux_ok m ∧ tr_HostID (mx_client m) = left ∧ tr_Role (mx_client m) ≠ RoleHost ∧
     candidates m left = R) →
  ∀ m, m ∈ ms →
  let m' := maybeMigrate successor m left in
  tr_Self (mx_client m') = tr_Self (mx_client m) ∧ tr_HostID (mx_client m') = s ∧
  (tr_Role (mx_client m') = RoleHost ↔ tr_Self (mx_client m) = s) ∧
  ct_ctx (mx_ctl m')
    = mkContext (tr_Self (mx_client m)) s (bool_decide (tr_Self (mx_client m) = s)) ∧
  (tr_Self (mx_client m) = s → ct_roster (mx_ctl m') = <[s := RoleHost]> R).
Proof.
  intros Hp Hs Hin Hs0 Hall m Hm m'. destruct (Hall m Hm) as (Hok & Hleft & Hrole & HR). subst R.
  pose proof (migrate_end m p left s Hok Hp Hleft Hs Hin Hs0) as Hend. cbv zeta in Hend.
  fold m' in Hend. case_bool_decide as Hself.
  - destruct Hend as ([= I1 I2 I3] & Hc & Hr & _). rewrite <- Hself.
    rewrite I1, I2, I3, Hc, Hr, bool_decide_eq_true_2 by done. done.
  - destruct Hend as (I & Hc & _). rewrite Hc, (context_identity _ _ _ _ I).
    injection I as -> -> ->. rewrite !bool_decide_eq_false_2 by congruence.
    split; [done|]. split; [done|]. split; [naive_solver|]. split; [done|congruence].
Qed.

(** *** A stale roster *)

Lemma left_local id : local_op (left_one id).
Proof.
  intros m k [s|] Hk; simpl.
  - destruct (sv_MemberLeft s (mx_client m) id) as [[s' c] es].
    destruct (emit_app_fields (put_client (put_service m k s') c) es) as (_ & -> & _). simpl.
    split; [intros j Hj; by rewrite lookup_insert_ne|]. exists (Some s').
    by rewrite lookup_insert_eq.
  - assert (mx_services (ctl_MemberLeft m id) = mx_services m) as ->.
    { unfold ctl_MemberLeft. destruct (cx_Host _); [|done].
      by destruct (announce_fields (put_ctl m (ctl_prune (mx_ctl m) id))) as (_ & -> & _). }
    split; [done|]. by exists None.
Qed.

(** An end that is not the host learns nothing from a departure. *)
Lemma left_nonhost m id :
  mux_ok m → cx_Host (ct_ctx (mx_ctl m)) = false →
  let m' := for_services (left_one id) m in
  identity (mx_client m') = identity (mx_client m) ∧ mx_ctl m' = mx_ctl m ∧ mux_ok m'.
Proof.
  intros Hok Hh m'. unfold m'.
  apply (for_services_ind (λ m1 : Mux, identity (mx_client m1) = identity (mx_client m) ∧
    mx_ctl m1 = mx_ctl m ∧ mux_ok m1)); [done|].
  intros m1 k v (Hi & Hc & Ho) Hk.
  assert (mux_ok (left_one id m1 k v)) as Ho' by (by apply local_op_ok; [apply left_local| |]).
  split; [|split; [|done]].
  - destruct v as [s|]; simpl.
    + pose proof (left_identity s (mx_client m1) id) as Hs.
      destruct (sv_MemberLeft s (mx_client m1) id) as [[s' c] es].
      destruct (emit_app_fields (put_client (put_service m1 k s') c) es) as (-> & _). simpl in *.
      congruence.
    + unfold ctl_MemberLeft. by rewrite Hc, Hh.
  - destruct v as [s|]; simpl.
    + destruct (sv_MemberLeft s (mx_client m1) id) as [[s' c] es].
      by destruct (emit_app_fields (put_client (put_service m1 k s') c) es) as (_ & _ & -> & _).
    + unfold ctl_MemberLeft. by rewrite Hc, Hh.
Qed.

(** C40: a departure the host had no time to announce can leave the session without
    a host.  Ends other than the host keep a departed member in their roster until
    the host's next announcement; if the host leaves before it, and the policy's
    choice is the member that left, every survivor takes that absent member for
    its host and none becomes host itself. *)
Theorem stale_successor m p left x :
  mux_ok m → tr_promoter = Some p → cx_Host (ct_ctx (mx_ctl m)) = false →
  tr_HostID (mx_client m) = left → tr_Role (mx_client m) ≠ RoleHost →
  x ≠ tr_Self (mx_client m) → x ≠ left → x ≠ 0 →
  successor (candidates m left) = x → is_Some (candidates m left !! x) →
  let m1 := (dispatch successor m (MemberLeft x)).1 in
  let m2 := (dispatch successor m1 (MemberLeft left)).1 in
  tr_HostID (mx_client m2) = x ∧ tr_Role (mx_client m2) ≠ RoleHost.
Proof.
  intros Hok Hp Hh Hleft Hrole Hself Hx Hx0 Hs Hin m1 m2.
  assert (∀ m0 id, mux_ok m0 → cx_Host (ct_ctx (mx_ctl m0)) = false →
    let m3 := mux_emit (for_services (left_one id) m0) (SessionEvent (MemberLeft id)) in
    identity (mx_client m3) = identity (mx_client m0) ∧ mx_ctl m3 = mx_ctl m0 ∧ mux_ok m3) as Hl.
  { intros m0 id Hok0 Hh0 m3. destruct (left_nonhost m0 id Hok0 Hh0) as (I & Hc & Ho).
    destruct (emit_fields (for_services (left_one id) m0) (SessionEvent (MemberLeft id)))
      as (E1 & E2 & E3 & _). unfold m3, mux_ok. rewrite E1, E2, E3. done. }
  destruct (Hl m x Hok Hh) as (I1 & C1 & O1).
  assert (m1 = mux_emit (for_services (left_one x) m) (SessionEvent (MemberLeft x))) as Em1.
  { unfold m1. simpl. unfold maybeMigrate. rewrite Hp, bool_decide_eq_true_2; [done|].
    injection I1 as _ -> _. by rewrite Hleft. }
  rewrite <- Em1 in I1, C1, O1.
  destruct (Hl m1 left O1 ltac:(by rewrite C1)) as (I2 & C2 & O2).
  set (m3 := mux_emit (for_services (left_one left) m1) (SessionEvent (MemberLeft left))) in *.
  rewrite I1 in I2. injection I2 as J1 J2 J3.
  assert (candidates m3 left = candidates m left) as Ec
    by (unfold candidates; by rewrite C2, C1).
  pose proof (migrate_end m3 p left x O2 Hp ltac:(by rewrite J2) ltac:(by rewrite Ec)
    ltac:(by rewrite Ec) Hx0) as Hend. cbv zeta in Hend.
  rewrite bool_decide_eq_false_2 in Hend by (by rewrite J1). destruct Hend as ([= _ K2 K3] & _).
  change m2 with (maybeMigrate successor m3 left). by rewrite K2, K3, J3.
Qed.
End Mux.
