(* ===== verification/MuxTypes.v ===== *)
(** * What stays true of a mux

    The registry is keyed by the services' own names, the control service is in it
    under its reserved one, and every service (the control service included) holds
    the Context that describes the end the mux drives: from NewMux on, over every
    event, local action, migration and Rebind. *)
From S2P Require Import Prelude Wire Crypto Words Phrase Session SessionSpec Runes Mux MuxSpec.

#[local] Open Scope N_scope.

(** Where a layered service keeps its Context: [Attach] stores it, nothing else
    touches it, and the service never changes its name. *)
Class ServiceCtx (C S E : Type) `{Service C S E} := {
  sctx : S → Context;
  attach_ctx ctx s : sctx (sv_Attach ctx s) = ctx ∧ sv_ID (sv_Attach ctx s) = sv_ID s;
  handle_ctx s c from body : let s' := (sv_HandleFrame s c from body).1.1.1 in
    sctx s' = sctx s ∧ sv_ID s' = sv_ID s;
  restore_ctx s c blob : let s' := (sv_Restore s c blob).1.1.1 in
    sctx s' = sctx s ∧ sv_ID s' = sv_ID s;
  keyed_ctx s c id role : let s' := (sv_MemberKeyed s c id role).1.1 in
    sctx s' = sctx s ∧ sv_ID s' = sv_ID s;
  left_ctx s c id : let s' := (sv_MemberLeft s c id).1.1 in
    sctx s' = sctx s ∧ sv_ID s' = sv_ID s;
  promote_ctx s : sctx (sv_OnPromote s) = sctx s ∧ sv_ID (sv_OnPromote s) = sv_ID s
}.

Section Types.
Context {C S E : Type} {TR : Transport C} {SV : Service C S E} {CM : Cbor ctlMsg}.
Context {TS : TransportSpec C} {SS : ServiceSpec C S E} {SX : ServiceCtx C S E}.
Context {MS : MapRange string (option S)} {MB : MapRange string bytes}.
Variable successor : gmap ParticipantID Role → ParticipantID.

Abbreviation Mux := (Mux C S E).
Implicit Types m : Mux.

Record mux_shape m : Prop := {
  ms_ctl : mux_ok m;
  ms_ids : ∀ k s, mx_services m !! k = Some (Some s) → sv_ID s = k }.

Record mux_wf m : Prop := {
  mw_shape : mux_shape m;
  mw_ctl : ct_ctx (mx_ctl m) = context_of (mx_client m);
  mw_services : ∀ k s, mx_services m !! k = Some (Some s) → sctx s = context_of (mx_client m) }.

(** ** Steps that leave names, Contexts and the end's identity alone *)

Definition alike (s s' : S) : Prop := sctx s' = sctx s ∧ sv_ID s' = sv_ID s.

Definition tame m m' : Prop :=
  identity (mx_client m') = identity (mx_client m) ∧ ct_ctx (mx_ctl m') = ct_ctx (mx_ctl m) ∧
  ∀ k, option_Forall2 (option_Forall2 alike) (mx_services m !! k) (mx_services m' !! k).

#[local] Instance alike_preorder : PreOrder alike.
Proof. split; [done|]. intros s1 s2 s3 [] []. split; congruence. Qed.

#[local] Instance tame_preorder : PreOrder tame.
Proof.
  split; [intros m; by split_and!|]. intros m1 m2 m3 (A1 & B1 & S1) (A2 & B2 & S2).
  split_and!; [congruence..|]. intros k. by trans (mx_services m2 !! k).
Qed.

Lemma tame_fields m m' :
  identity (mx_client m') = identity (mx_client m) → ct_ctx (mx_ctl m') = ct_ctx (mx_ctl m) →
  mx_services m' = mx_services m → tame m m'.
Proof. intros ? ? E0. split_and!; [done..|]. intros k. by rewrite E0. Qed.

Lemma tame_service m k s s' c :
  mx_services m !! k = Some (Some s) → alike s s' → identity c = identity (mx_client m) →
  tame m (put_client (put_service m k s') c).
Proof.
  intros Hk Ha Hc. split_and!; [done..|]. intros j. simpl.
  destruct (decide (j = k)) as [->|Hne]; [|by rewrite lookup_insert_ne].
  rewrite lookup_insert_eq, Hk. by do 2 constructor.
Qed.

Lemma tame_emit m e : tame m (mux_emit m e).
Proof. destruct (emit_fields m e) as (E1 & E2 & E3 & _). apply tame_fields; congruence. Qed.

Lemma tame_emit_app m es : tame m (emit_app m es).
Proof. destruct (emit_app_fields m es) as (E1 & E2 & E3 & _). apply tame_fields; congruence. Qed.

Lemma tame_announce m : tame m (announce m).
Proof. destruct (announce_fields m) as (E1 & E2 & E3 & _). apply tame_fields; congruence. Qed.

Lemma tame_ctl m t : ct_ctx t = ct_ctx (mx_ctl m) → tame m (put_ctl m t).
Proof. intros Ht. by apply tame_fields. Qed.

(** A control operation: it rewrites its own state and announces. *)
Lemma tame_ctl_announce m t : ct_ctx t = ct_ctx (mx_ctl m) → tame m (announce (put_ctl m t)).
Proof. intros Ht. trans (put_ctl m t); [by apply tame_ctl|apply tame_announce]. Qed.

Lemma tame_send_host m msg : tame m (ctl_send_host m msg).
Proof.
  unfold ctl_send_host. destruct (Marshal msg); [|done]. apply tame_fields; [|done..].
  apply sendTo_identity.
Qed.

Lemma tame_local m i : match i with Incoming _ => False | _ => True end →
  tame m match i with
         | SetName n => setName m n | SetEndpoint e => setEndpoint m e
         | SetPushKey k => setPushKey m k | Incoming _ => m end.
Proof.
  destruct i as [n|e|k|]; intros []; simpl.
  - unfold setName. case_bool_decide; [done|]. set (t := mkCtl _ _ _ _ _ _ _).
    destruct (cx_Host _); [by apply tame_ctl_announce|].
    trans (put_ctl m t); [by apply tame_ctl|apply tame_send_host].
  - unfold setEndpoint. set (t := mkCtl _ _ _ _ _ _ _).
    destruct (cx_Host _); [by apply tame_ctl_announce|].
    trans (put_ctl m t); [by apply tame_ctl|apply tame_send_host].
  - unfold setPushKey. destruct (cx_Host _); [|done]. by apply tame_ctl_announce.
Qed.

(** A layered service's step, as the mux takes it in. *)
Lemma tame_layered m k s s' c es :
  mx_services m !! k = Some (Some s) → alike s s' → identity c = identity (mx_client m) →
  tame m (emit_app (put_client (put_service m k s') c) es).
Proof.
  intros Hk Ha Hc. trans (put_client (put_service m k s') c);
    [by eapply tame_service|apply tame_emit_app].
Qed.

Lemma tame_restore l m : tame m (restore_all m l).1.
Proof.
  revert m. induction l as [|[id blob] l IH]; intros m; simpl; [done|].
  destruct (mx_services m !! id) as [[s|]|] eqn:Ek; [|apply IH..].
  case_bool_decide; [apply IH|].
  pose proof (restore_ctx s (mx_client m) blob) as Hs.
  pose proof (restore_identity s (mx_client m) blob) as Hc.
  destruct (sv_Restore s (mx_client m) blob) as [[[s' c] es] err]. simpl in Hs, Hc.
  pose proof (tame_layered m id s s' c es Ek Hs Hc) as H1.
  destruct err; [done|]. etrans; [exact H1|apply IH].
Qed.

Lemma tame_ctl_frame m from body : tame m (ctl_HandleFrame m from body).1.
Proof.
  unfold ctl_HandleFrame. destruct (Body ctlMsg body) as [msg|]; [|done].
  case_bool_decide.
  { unfold handleAnnounce. case_bool_decide; [done|]. set (t := mkCtl _ _ _ _ _ _ _).
    trans (put_ctl m t); [by apply tame_ctl|by apply tame_emit]. }
  case_bool_decide.
  { simpl. unfold handleIdentity. destruct (negb _); [done|]. by apply tame_ctl_announce. }
  case_bool_decide.
  { unfold handleSnapshotReq. destruct (cx_Host _); [|done]. unfold sendSnapshot.
    destruct (take_snapshots _); [|done]. destruct (Marshal _) as [b|]; [|done].
    pose proof (sendTo_identity (mx_client m) from CtlID b) as Hc.
    destruct (tr_SendTo _ _ _ _). by apply tame_fields. }
  case_bool_decide; [|done]. unfold handleSnapshot. case_bool_decide; [done|apply tame_restore].
Qed.

Lemma tame_handleFrame m from env : tame m (handleFrame m from env).
Proof.
  unfold handleFrame. destruct (mx_services m !! env_ServiceID env) as [v|] eqn:Hk; [|done].
  set (m1 := if bool_decide _ then _ else m). set (m2 := put_lastSeq m1 _).
  assert (tame m m2) as H2.
  { trans m1; [|by apply tame_fields]. unfold m1. case_bool_decide; [apply tame_emit|done]. }
  assert (mx_services m2 = mx_services m) as Hs.
  { simpl. unfold m1. case_bool_decide; [|done]. apply emit_fields. }
  assert (tame m2 (deliver m2 from (env_ServiceID env) v (env_Body env)).1) as H3.
  { unfold deliver. destruct v as [s|]; [|apply tame_ctl_frame].
    pose proof (handle_ctx s (mx_client m2) from (env_Body env)) as Ha.
    pose proof (handle_identity s (mx_client m2) from (env_Body env)) as Hc.
    destruct (sv_HandleFrame s _ from _) as [[[s' c] es] err]. simpl in Ha, Hc |- *.
    eapply tame_layered; [|exact Ha|exact Hc]. by rewrite Hs. }
  destruct (deliver m2 _ _ _ _) as [m3 err]. simpl in H3.
  trans m2; [done|]. trans m3; [done|]. destruct err; [apply tame_emit|done].
Qed.

Lemma tame_visits f m :
  (∀ m k v, mx_services m !! k = Some v → tame m (f m k v)) → tame m (for_services f m).
Proof.
  intros Hf. apply (for_services_ind (tame m)); [done|]. intros m1 k v H1 Hk.
  trans m1; [done|by apply Hf].
Qed.

Lemma tame_keyed id role m : tame m (for_services (keyed_one id role) m).
Proof.
  apply tame_visits. clear m. intros m k [s|] Hk; simpl.
  - pose proof (keyed_ctx s (mx_client m) id role) as Ha.
    pose proof (keyed_identity s (mx_client m) id role) as Hc.
    destruct (sv_MemberKeyed s _ id role) as [[s' c] es]. simpl in Ha, Hc. by eapply tame_layered.
  - unfold ctl_MemberKeyed. destruct (cx_Host _); [|done]. by apply tame_ctl_announce.
Qed.

Lemma tame_left id m : tame m (for_services (left_one id) m).
Proof.
  apply tame_visits. clear m. intros m k [s|] Hk; simpl.
  - pose proof (left_ctx s (mx_client m) id) as Ha.
    pose proof (left_identity s (mx_client m) id) as Hc.
    destruct (sv_MemberLeft s _ id) as [[s' c] es]. simpl in Ha, Hc. by eapply tame_layered.
  - unfold ctl_MemberLeft. destruct (cx_Host _); [|done]. by apply tame_ctl_announce.
Qed.

Lemma tame_promote m : tame m (for_services promote_one m).
Proof.
  apply tame_visits. clear m. intros m k [s|] Hk; simpl; [|done].
  trans (put_client (put_service m k (sv_OnPromote s)) (mx_client m)); [|done].
  eapply tame_service; [done|apply promote_ctx|done].
Qed.

(** ** Well-formedness is kept *)

Lemma same_context (c c' : C) : identity c' = identity c → context_of c' = context_of c.
Proof. unfold identity, context_of. by intros [= -> -> ->]. Qed.

Lemma tame_slot m m' k v' :
  tame m m' → mx_services m' !! k = Some v' →
  ∃ v, mx_services m !! k = Some v ∧ option_Forall2 alike v v'.
Proof.
  intros (_ & _ & Hs) Hk. specialize (Hs k). rewrite Hk in Hs. inversion Hs; subst. eauto.
Qed.

Lemma tame_shape m m' : tame m m' → mux_shape m → mux_shape m'.
Proof.
  intros Ht [Hok Hid]. split.
  - intros k. rewrite <- (Hok k). destruct Ht as (_ & _ & Hs). specialize (Hs k).
    destruct Hs as [v v' Hv|]; [|done]. destruct Hv; naive_solver.
  - intros k s' Hk. destruct (tame_slot m m' k _ Ht Hk) as (v & Hv & Hvs). inversion Hvs; subst.
    destruct H1 as [_ ->]. by apply Hid.
Qed.

Lemma tame_wf m m' : tame m m' → mux_wf m → mux_wf m'.
Proof.
  intros Ht [Hsh Hc Hs]. pose proof Ht as (Hi & Hx & _). split.
  - by eapply tame_shape.
  - by rewrite Hx, (same_context _ _ Hi).
  - intros k s' Hk. destruct (tame_slot m m' k _ Ht Hk) as (v & Hv & Hvs). inversion Hvs; subst.
    destruct H1 as [-> _]. rewrite (same_context _ _ Hi). by eapply Hs.
Qed.

(** Attaching every service brings all Contexts up to date. *)
Lemma attach_all_ctx ctx l m k s' :
  mx_services (foldl (visit (attach_one ctx)) m l) !! k = Some (Some s') →
  (k ∈ l.*1 → sctx s' = ctx) ∧
  ∃ s, mx_services m !! k = Some (Some s) ∧ sv_ID s' = sv_ID s.
Proof.
  revert s'. induction l as [|[k0 v0] l IH] using rev_ind; simpl; intros s' Hk.
  { split; [by intros ?%elem_of_nil|]. eauto. }
  rewrite foldl_app in Hk. simpl in Hk. set (m1 := foldl _ m l) in *.
  assert (k ∈ (l ++ [(k0, v0)]).*1 ↔ k ∈ l.*1 ∨ k = k0) as Hin.
  { rewrite fmap_app, elem_of_app. simpl. by rewrite list_elem_of_singleton. }
  rewrite Hin. unfold visit, attach_one in Hk. simpl in Hk.
  destruct (mx_services m1 !! k0) as [[s0|]|] eqn:E0; simpl in Hk.
  - destruct (decide (k = k0)) as [->|Hne].
    + rewrite lookup_insert_eq in Hk. injection Hk as <-.
      destruct (attach_ctx ctx s0) as [H1 H2], (IH s0 E0) as (_ & s & Hs & Hid).
      split; [done|]. exists s. split; [done|congruence].
    + rewrite lookup_insert_ne in Hk by done. destruct (IH s' Hk) as (Hd & Hs).
      split; [intros [?|?]; [by apply Hd|done]|done].
  - destruct (IH s' Hk) as (Hd & Hs). split; [|done]. intros [?| ->]; [by apply Hd|].
    exfalso. rewrite E0 in Hk. done.
  - destruct (IH s' Hk) as (Hd & Hs). split; [|done]. intros [?| ->]; [by apply Hd|].
    exfalso. rewrite E0 in Hk. done.
Qed.

Lemma attach_wf m :
  mux_shape m → mux_wf (for_services (attach_one (context_of (mx_client m))) m).
Proof.
  intros [Hok Hid]. destruct (attach_spec (context_of (mx_client m)) m Hok) as (Hc & Ht & Hok' & _).
  set (m' := for_services _ m) in *.
  assert (∀ k s', mx_services m' !! k = Some (Some s') →
    sctx s' = context_of (mx_client m) ∧ sv_ID s' = k) as Hall.
  { intros k s' Hk.
    destruct (attach_all_ctx (context_of (mx_client m)) (range (mx_services m)) m k s' Hk)
      as (Hd & s & Hs & E1).
    split; [apply Hd, elem_of_range_fst; by eexists|]. rewrite E1. by apply Hid. }
  split; [split; [done|]| |]; rewrite ?Hc.
  - intros k s' Hk. by apply Hall.
  - rewrite Ht. done.
  - intros k s' Hk. apply (Hall k s' Hk).
Qed.

Lemma migrate_wf m left : mux_wf m → mux_wf (maybeMigrate successor m left).
Proof.
  intros Hwf. unfold maybeMigrate. destruct tr_promoter as [p|] eqn:Ep; [|done].
  destruct (promoter_identity p Ep) as (_ & _ & HC & _ & HK).
  case_bool_decide; [done|]. case_bool_decide; [done|].
  set (s := electSuccessor successor m left). set (m1 := put_client m _).
  assert (mux_wf (for_services (attach_one (context_of (mx_client m1))) m1)) as H1.
  { apply attach_wf. destruct Hwf as [[Hok Hid] _ _]. by split. }
  set (m2 := for_services (attach_one _) m1) in *.
  destruct (bool_decide (s = tr_Self (mx_client m))).
  - eapply tame_wf; [|exact H1]. trans (for_services promote_one m2); [apply tame_promote|].
    set (m3 := for_services promote_one m2). trans (assumeHost m3 left); [by apply tame_ctl_announce|].
    set (m4 := assumeHost m3 left). trans (put_client m4 (pm_ClaimHost p (mx_client m4)));
      [apply tame_fields; [apply HC|done..]|apply tame_emit].
  - eapply tame_wf; [|exact H1]. apply tame_fields; [apply HK|done..].
Qed.

Lemma dispatch_wf m ev : mux_wf m → mux_wf (dispatch successor m ev).1.
Proof.
  intros Hwf. destruct ev as [id|id role|id|from env|reason]; simpl.
  - eapply tame_wf; [apply tame_emit|done].
  - eapply tame_wf; [apply tame_emit|]. eapply tame_wf; [apply tame_keyed|done].
  - apply migrate_wf. eapply tame_wf; [apply tame_emit|]. eapply tame_wf; [apply tame_left|done].
  - eapply tame_wf; [apply tame_handleFrame|done].
  - eapply tame_wf; [apply tame_emit|done].
Qed.

Lemma run_loop_wf inputs m : mux_wf m → mux_wf (run_loop successor m inputs).1.
Proof.
  revert m. induction inputs as [|i inputs IH]; intros m Hwf; [done|].
  destruct i as [n|e|k|ev]; cbn [run_loop].
  - apply IH. eapply tame_wf; [apply (tame_local m (SetName n) I)|done].
  - apply IH. eapply tame_wf; [apply (tame_local m (SetEndpoint e) I)|done].
  - apply IH. eapply tame_wf; [apply (tame_local m (SetPushKey k) I)|done].
  - pose proof (dispatch_wf m ev Hwf) as H1. destruct (dispatch successor m ev) as [m1 []]; [done|].
    by apply IH.
Qed.

Lemma NewMux_wf c pending :
  Forall (λ s, sv_ID s ≠ CtlID) pending → mux_wf (NewMux c pending : Mux).
Proof.
  intros Hp. unfold NewMux.
  assert (∀ m, mux_wf m → mx_client m = c →
    mux_wf (foldl (λ m s, let s := sv_Attach (context_of c) s in put_service m (sv_ID s) s) m pending))
    as H.
  { induction Hp as [|s pending Hs _ IH]; intros m Hwf Hc; [done|]. simpl.
    destruct (attach_ctx (context_of c) s) as [H1 H2]. apply IH; [|done].
    destruct Hwf as [[Hok Hid] Hx Hsv]. split; [split| |]; simpl.
    - intros k. simpl. destruct (decide (k = sv_ID (sv_Attach (context_of c) s))) as [->|Hne].
      + rewrite lookup_insert_eq. split; [done|]. congruence.
      + by rewrite lookup_insert_ne.
    - intros k s'. destruct (decide (k = sv_ID (sv_Attach (context_of c) s))) as [->|Hne].
      + rewrite lookup_insert_eq. by intros [= <-].
      + rewrite lookup_insert_ne by done. apply Hid.
    - done.
    - intros k s'. destruct (decide (k = sv_ID (sv_Attach (context_of c) s))) as [->|Hne].
      + rewrite lookup_insert_eq. intros [= <-]. by rewrite Hc.
      + rewrite lookup_insert_ne by done. apply Hsv. }
  apply H; [|done]. split; [split| |]; simpl; [|by intros k s [_ ?]%lookup_singleton_Some|done|
    by intros k s [_ ?]%lookup_singleton_Some].
  intros k. simpl. rewrite lookup_singleton_Some. naive_solver.
Qed.

(** C23: a mux keeps its shape, and every service knows where it stands.  A mux
    built from services none of which takes the reserved name has the control
    service registered under that name and there only, every other service under
    its own name, and every service holding the Context of the end the mux drives:
    who it is, who is host, whether it is host itself.  Whatever events and local
    actions its goroutine handles, a migration that changes the host included, this
    stays so; and pointing a mux of that shape at any other end makes it so
    again. *)
Theorem contexts_current c pending flag inputs c' :
  Forall (λ s, sv_ID s ≠ CtlID) pending →
  let m := (run successor (NewMux c pending) flag inputs).1 in
  mux_wf m ∧ mux_wf (Rebind m c').
Proof.
  intros Hp m.
  assert (mux_wf m) as Hm.
  { unfold m, run. apply run_loop_wf. pose proof (NewMux_wf c pending Hp) as H0.
    destruct (_ && _); [|done]. eapply tame_wf; [apply tame_send_host|done]. }
  split; [done|]. unfold Rebind. apply (attach_wf (put_client m c')).
  destruct Hm as [[Hok Hid] _ _]. by split.
Qed.
End Types.
