(* ===== verification/CtlSpec.v ===== *)
(** * The control channel and sequence watching

    Who a mux believes on the control channel, how an announcement reproduces the
    host's view at the members, the names it can show, and what the watch over
    sequence numbers reports. *)
From S2P Require Import Prelude Wire Crypto Words Phrase Session SessionSpec Runes Mux MuxSpec.

#[local] Open Scope N_scope.

(** ** Names *)

Lemma sanitize_runes s :
  ∃ l, runes (sanitizeName s) = take maxNameLen l ∧
    l = filter (λ r, IsControl r = false) (trim_spaces (runes s)).
Proof.
  eexists. split; [|done]. unfold sanitizeName. set (l := filter _ _).
  assert (Forall (λ r, is_scalar r = true) l) as Hl.
  { apply Forall_forall. intros r [_ Hr]%list_elem_of_filter. revert r Hr. apply Forall_forall.
    apply Forall_trim_spaces, runes_scalar. }
  case_bool_decide.
  - by apply runes_of_runes, Forall_take.
  - rewrite runes_of_runes, take_ge by (done || lia). done.
Qed.

(** a screen name is short and printable.  Whatever is asked for, the name
    kept has at most [maxNameLen] runes and no control character, and a name that
    already is so, without space around it, is kept rune by rune. *)
Theorem sanitizeName_spec s :
  (length (runes (sanitizeName s)) ≤ maxNameLen)%nat ∧
  Forall (λ r, IsControl r = false) (runes (sanitizeName s)) ∧
  ((length (runes s) ≤ maxNameLen)%nat → Forall (λ r, IsControl r = false) (runes s) →
   trim_spaces (runes s) = runes s → runes (sanitizeName s) = runes s).
Proof.
  destruct (sanitize_runes s) as (l & -> & ->). split; [rewrite length_take; lia|]. split.
  - apply Forall_take, Forall_forall. by intros r [? _]%list_elem_of_filter.
  - intros Hlen Hc Ht. rewrite Ht.
    assert (filter (λ r, IsControl r = false) (runes s) = runes s) as ->.
    { clear Hlen Ht. induction Hc as [|r l Hr _ IH]; [done|]. by rewrite filter_cons_True, IH. }
    by apply take_ge.
Qed.

(** Trimming comes before the control characters go: what they enclosed stays. *)
Example sanitize_leaves_blank :
  sanitizeName (String "001"%char (String " "%char (String "001"%char EmptyString))) = " "%string.
Proof. vm_compute. reflexivity. Qed.

(** ** Messages *)

Lemma Body_Marshal `{CborSpec T} (v : T) b : cbor_wf v → Marshal v = Some b → Body T b = Ok v.
Proof. intros Hwf Hm. unfold Body. by rewrite (unmarshal_marshal v b Hwf Hm). Qed.

(** [decMode]'s other limit. *)
Definition MaxMapPairs : nat := 4096.

#[global] Instance ctlMsg_wf : CborWf ctlMsg := λ v,
  in_width 8 (cm_Kind v) ∧ map_Forall (λ id _, pid_wf id) (cm_Roster v) ∧
  map_Forall (λ id n, pid_wf id ∧ utf8_valid n) (cm_Names v) ∧
  map_Forall (λ id n, pid_wf id ∧ utf8_valid n) (cm_Endpoints v) ∧
  map_Forall (λ id _, utf8_valid id) (cm_Snapshots v) ∧
  utf8_valid (cm_Name v) ∧ utf8_valid (cm_Endpoint v) ∧ utf8_valid (cm_PushKey v) ∧
  Forall (λ s, utf8_valid (si_ID s) ∧ wrapz 64 (si_Version s) = si_Version s) (cm_Services v) ∧
  (length (cm_Services v) ≤ MaxArrayElements ∧ size (cm_Roster v) ≤ MaxMapPairs ∧
   size (cm_Names v) ≤ MaxMapPairs ∧ size (cm_Endpoints v) ≤ MaxMapPairs ∧
   size (cm_Snapshots v) ≤ MaxMapPairs)%nat.

Section Ctl.
Context {C S E : Type} {TR : Transport C} {SV : Service C S E} {CM : Cbor ctlMsg}.
Context {CS : CborSpec ctlMsg}.
Context {MS : MapRange string (option S)} {MB : MapRange string bytes}.

Abbreviation Mux := (Mux C S E).
Implicit Types m : Mux.

(** only the host speaks for the session.  On an end that is not the host, a
    control message from anybody but the participant it takes for the host changes
    nothing at all, whatever it says; an announcement or a snapshot is answered
    with an error. *)
Theorem only_host_announces m from body :
  cx_Host (ct_ctx (mx_ctl m)) = false → from ≠ cx_HostID (ct_ctx (mx_ctl m)) →
  (ctl_HandleFrame m from body).1 = m ∧
  ∀ msg, Body ctlMsg body = Ok msg →
    cm_Kind msg = ctlKindAnnounce ∨ cm_Kind msg = ctlKindSnapshot →
    (ctl_HandleFrame m from body).2 = Some (CtlNonHost from).
Proof.
  intros Hh Hf. unfold ctl_HandleFrame. destruct (Body ctlMsg body) as [msg|]; [|done].
  unfold handleAnnounce, handleIdentity, handleSnapshotReq, handleSnapshot.
  rewrite Hh, (bool_decide_eq_true_2 (from ≠ _)) by done. split.
  - by repeat case_bool_decide.
  - intros msg' [= <-] [Hk|Hk]; by rewrite Hk.
Qed.

(** The host's announcement, at a member that takes it for the host. *)
Lemma announcement_handled m from msg body :
  cbor_wf msg → Marshal msg = Some body → cm_Kind msg = ctlKindAnnounce →
  from = cx_HostID (ct_ctx (mx_ctl m)) →
  ctl_HandleFrame m from body = handleAnnounce m from msg.
Proof.
  intros Hwf Hm Hk ->. unfold ctl_HandleFrame. by rewrite (Body_Marshal msg body), Hk.
Qed.

Lemma announced_lookup roster l (id : ParticipantID) :
  is_Some (roster !! id) → default ""%string (announced roster l !! id) = default ""%string (l !! id).
Proof.
  intros Hr. unfold announced. rewrite map_lookup_filter.
  destruct (l !! id) as [n|]; simpl; [|done]. case_guard as Hg; simpl; [done|].
  destruct (decide (n = ""%string)) as [->|]; [done|]. by destruct Hg.
Qed.

(** C24: members see the session as the host does.  What the host broadcasts when
    it announces, handled by a member that takes it for the host, leaves that
    member with the host's roster and session attribute, and for every member of
    the roster with the host's name and endpoint for it; the member's own name and
    endpoint, its client and its services are untouched.  Each of the two surfaces
    one roster event: its own roster, names, endpoints and attribute, with the
    host's services. *)
Theorem announcement_syncs h m from body :
  cbor_wf (announce_msg h) → Marshal (announce_msg h) = Some body →
  from = cx_HostID (ct_ctx (mx_ctl m)) → mx_closed m = false →
  mx_client (announce h) = (tr_Broadcast (mx_client h) CtlID body).1 ∧
  (mx_closed h = false →
   mx_events (announce h) = mx_events h ++ [RosterEvent (roster3 (mx_ctl h) (service_infos h))]) ∧
  let m' := (ctl_HandleFrame m from body).1 in
  (ctl_HandleFrame m from body).2 = None ∧ mx_client m' = mx_client m ∧ mx_services m' = mx_services m ∧
  ct_ctx (mx_ctl m') = ct_ctx (mx_ctl m) ∧
  ct_roster (mx_ctl m') = ct_roster (mx_ctl h) ∧ ct_pushKey (mx_ctl m') = ct_pushKey (mx_ctl h) ∧
  (∀ id, is_Some (ct_roster (mx_ctl h) !! id) →
     default ""%string (ct_names (mx_ctl m') !! id) = default ""%string (ct_names (mx_ctl h) !! id) ∧
     default ""%string (ct_endpoints (mx_ctl m') !! id)
     = default ""%string (ct_endpoints (mx_ctl h) !! id)) ∧
  ct_selfName (mx_ctl m') = ct_selfName (mx_ctl m) ∧
  ct_selfEndpoint (mx_ctl m') = ct_selfEndpoint (mx_ctl m) ∧
  mx_events m' = mx_events m ++ [RosterEvent (roster3 (mx_ctl m') (service_infos h))].
Proof.
  intros Hwf Hm -> Hc. split.
  { unfold announce. rewrite Hm. by destruct (emit_fields
      (put_client h (tr_Broadcast (mx_client h) CtlID body).1)
      (RosterEvent (roster3 (mx_ctl h) (service_infos h)))) as (-> & _). }
  split. { intros Hh. unfold announce, mux_emit. rewrite Hm. simpl. by rewrite Hh. }
  rewrite (announcement_handled m _ (announce_msg h) body Hwf Hm) by done.
  unfold handleAnnounce. rewrite bool_decide_eq_false_2 by tauto.
  unfold mux_emit. simpl. rewrite Hc. simpl. split_and!; try done.
  intros id Hid. by split; apply announced_lookup.
Qed.

(** ** Sequence numbers *)

(** The numbers [want, got] reported for one sender and service. *)
Definition desync_of (from : ParticipantID) (id : string) (e : mux_event E) : option (N * N) :=
  match e with
  | Desync f s want got => if bool_decide (f = from ∧ s = id) then Some (want, got) else None
  | _ => None
  end.
Definition desyncs (from : ParticipantID) (id : string) m : list (N * N) :=
  omap (desync_of from id) (mx_events m).

(** The reference: every number that is not its predecessor's successor. *)
Fixpoint gaps (last : N) (seqs : list N) : list (N * N) :=
  match seqs with
  | [] => []
  | q :: seqs =>
      (if bool_decide (q = wrap 64 (last + 1)) then [] else [(wrap 64 (last + 1), q)])
      ++ gaps q seqs
  end.

Definition not_desync (e : mux_event E) : Prop :=
  match e with Desync _ _ _ _ => False | _ => True end.

(** What handling a frame may do besides: anything to the end, the services'
    states and the control service, and events of other kinds. *)
Definition quiet m m' : Prop :=
  mx_lastSeq m' = mx_lastSeq m ∧ mx_closed m' = mx_closed m ∧
  (∀ k, is_Some (mx_services m' !! k) ↔ is_Some (mx_services m !! k)) ∧
  ∃ es, mx_events m' = mx_events m ++ es ∧ Forall not_desync es.

#[local] Instance quiet_refl : Reflexive quiet.
Proof. intros m. split_and!; try done. exists []. by rewrite app_nil_r. Qed.

#[local] Instance quiet_trans : Transitive quiet.
Proof.
  intros m1 m2 m3 (A1 & B1 & C1 & es1 & E1 & F1) (A2 & B2 & C2 & es2 & E2 & F2).
  split_and!; [congruence|congruence|intros k; by rewrite C2, C1|].
  exists (es1 ++ es2). rewrite E2, E1, (assoc_L (++)). split; [done|]. by apply Forall_app.
Qed.

Lemma quiet_client m c : quiet m (put_client m c).
Proof. split_and!; try done. exists []. by rewrite app_nil_r. Qed.

Lemma quiet_ctl m t : quiet m (put_ctl m t).
Proof. split_and!; try done. exists []. by rewrite app_nil_r. Qed.

Lemma quiet_service m k s v : mx_services m !! k = Some v → quiet m (put_service m k s).
Proof.
  intros Hk. split_and!; try done; [|exists []; by rewrite app_nil_r].
  intros j. simpl. destruct (decide (j = k)) as [->|]; [|by rewrite lookup_insert_ne].
  rewrite lookup_insert_eq, Hk. split; by eexists.
Qed.

Lemma quiet_emit m e : not_desync e → quiet m (mux_emit m e).
Proof.
  intros He. unfold mux_emit. destruct (mx_closed m) eqn:Ec; [done|].
  split_and!; try done. exists [e]. split; [done|]. by apply Forall_singleton.
Qed.

Lemma quiet_emit_app es m : quiet m (emit_app m es).
Proof.
  unfold emit_app. revert m. induction es as [|e es IH]; intros m; simpl; [done|].
  trans (mux_emit m (AppEvent e)); [by apply quiet_emit|apply IH].
Qed.

Lemma quiet_announce m : quiet m (announce m).
Proof.
  unfold announce. destruct (Marshal _) as [b|]; [|done].
  trans (put_client m (tr_Broadcast (mx_client m) CtlID b).1); [apply quiet_client|by apply quiet_emit].
Qed.

Lemma quiet_restore l m : quiet m (restore_all m l).1.
Proof.
  revert m. induction l as [|[id blob] l IH]; intros m; simpl; [done|].
  destruct (mx_services m !! id) as [[s|]|] eqn:Ek; [|apply IH..].
  case_bool_decide; [apply IH|].
  destruct (sv_Restore s (mx_client m) blob) as [[[s' c] es] err].
  set (m1 := emit_app _ es).
  assert (quiet m m1) as H1.
  { trans (put_service m id s'); [by eapply quiet_service|].
    trans (put_client (put_service m id s') c); [apply quiet_client|apply quiet_emit_app]. }
  destruct err; [done|]. trans m1; [done|apply IH].
Qed.

Lemma quiet_ctl_frame m from body : quiet m (ctl_HandleFrame m from body).1.
Proof.
  unfold ctl_HandleFrame. destruct (Body ctlMsg body) as [msg|]; [|done].
  case_bool_decide.
  { unfold handleAnnounce. case_bool_decide; [done|]. set (t := mkCtl _ _ _ _ _ _ _).
    trans (put_ctl m t); [apply quiet_ctl|by apply quiet_emit]. }
  case_bool_decide.
  { simpl. unfold handleIdentity. destruct (negb _); [done|]. set (t := mkCtl _ _ _ _ _ _ _).
    trans (put_ctl m t); [apply quiet_ctl|apply quiet_announce]. }
  case_bool_decide.
  { unfold handleSnapshotReq. destruct (cx_Host _); [|done]. unfold sendSnapshot.
    destruct (take_snapshots _); [|done]. destruct (Marshal _); [|done].
    destruct (tr_SendTo _ _ _ _). apply quiet_client. }
  case_bool_decide; [|done]. unfold handleSnapshot. case_bool_decide; [done|apply quiet_restore].
Qed.

Lemma quiet_deliver m from id v body :
  mx_services m !! id = Some v → quiet m (deliver m from id v body).1.
Proof.
  intros Hk. unfold deliver. destruct v as [s|]; [|apply quiet_ctl_frame].
  destruct (sv_HandleFrame s (mx_client m) from body) as [[[s' c] es] err]. simpl.
  trans (put_service m id s'); [by eapply quiet_service|].
  trans (put_client (put_service m id s') c); [apply quiet_client|apply quiet_emit_app].
Qed.

Lemma desyncs_quiet m m' from id : quiet m m' → desyncs from id m' = desyncs from id m.
Proof.
  intros (_ & _ & _ & es & E0 & Hes). unfold desyncs. rewrite E0, omap_app.
  assert (omap (desync_of from id) es = []) as ->; [|by rewrite app_nil_r]. clear E0.
  induction Hes as [|e es He _ IH]; [done|]. destruct e; try done.
Qed.

(** One frame. *)
Lemma handleFrame_watch m from env v :
  mx_closed m = false → mx_services m !! env_ServiceID env = Some v →
  let k := (from, env_ServiceID env) in
  let want := wrap 64 (default 0 (mx_lastSeq m !! k) + 1) in
  let m' := handleFrame m from env in
  mx_closed m' = false ∧ mx_lastSeq m' = <[k := env_Seq env]> (mx_lastSeq m) ∧
  (∀ j, is_Some (mx_services m' !! j) ↔ is_Some (mx_services m !! j)) ∧
  ∀ f id, desyncs f id m' = desyncs f id m ++
    if bool_decide ((f, id) = k ∧ env_Seq env ≠ want) then [(want, env_Seq env)] else [].
Proof.
  intros Hc Hk k want m'. unfold m', handleFrame. rewrite Hk. fold k want.
  set (m1 := if bool_decide _ then _ else m).
  set (m2 := put_lastSeq m1 _).
  assert (mx_closed m1 = false ∧ mx_lastSeq m1 = mx_lastSeq m ∧ mx_services m1 = mx_services m ∧
    ∀ f id, desyncs f id m1 = desyncs f id m ++
      if bool_decide ((f, id) = k ∧ env_Seq env ≠ want) then [(want, env_Seq env)] else [])
    as (C1 & L1 & S1 & D1).
  { unfold m1. case_bool_decide as Hq.
    - unfold mux_emit. rewrite Hc. split_and!; try done. intros f id. unfold desyncs. simpl.
      rewrite omap_app. f_equal. simpl.
      rewrite (bool_decide_ext (from = f ∧ env_ServiceID env = id)
        ((f, id) = k ∧ env_Seq env ≠ want)); [by case_bool_decide|].
      unfold k. split; [by intros [-> ->]|]. by intros [[= -> ->] _].
    - split_and!; try done. intros f id. rewrite bool_decide_eq_false_2 by tauto.
      by rewrite app_nil_r. }
  assert (mx_services m2 !! env_ServiceID env = Some v) as Hk2 by (by rewrite <- Hk, <- S1).
  pose proof (quiet_deliver m2 from _ v (env_Body env) Hk2) as Hd.
  destruct (deliver m2 _ _ _ _) as [m3 err]. simpl in Hd.
  assert (quiet m2 match err with Some e => mux_emit m3 (ServiceError from (env_ServiceID env) e)
    | None => m3 end) as Hq.
  { destruct err; [|done]. trans m3; [done|by apply quiet_emit]. }
  replace (match err with Some e => _ | None => m3 end) with
    (match err with Some e => mux_emit m3 (ServiceError from (env_ServiceID env) e)
     | None => m3 end) by (by destruct err).
  set (m4 := match err with Some e => _ | None => m3 end) in *.
  pose proof Hq as (L & Cl & Sv & _). rewrite L, Cl. simpl. rewrite C1, L1.
  split_and!; try done.
  - intros j. by rewrite Sv, <- S1.
  - intros f id. by rewrite (desyncs_quiet m2 m4 f id Hq), <- D1.
Qed.

(** The numbers a sender used for a service, in the order they arrived. *)
Definition seqs_of (from : ParticipantID) (id : string) (frames : list (ParticipantID * Envelope)) :
    list N :=
  env_Seq ∘ snd <$> filter (λ f, f.1 = from ∧ env_ServiceID f.2 = id) frames.

Lemma watch_gaps m frames from id :
  mx_closed m = false → is_Some (mx_services m !! id) →
  desyncs from id (foldl (λ m f, handleFrame m f.1 f.2) m frames)
  = desyncs from id m ++ gaps (default 0 (mx_lastSeq m !! (from, id))) (seqs_of from id frames).
Proof.
  revert m. induction frames as [|[f env] frames IH]; intros m Hc Hid; simpl.
  { by rewrite app_nil_r. }
  unfold seqs_of. rewrite filter_cons. simpl.
  destruct (mx_services m !! env_ServiceID env) as [v|] eqn:Hk.
  - destruct (handleFrame_watch m f env v Hc Hk) as (C1 & L1 & S1 & D1).
    rewrite IH, D1, L1 by (done || by apply S1).
    destruct (decide (f = from ∧ env_ServiceID env = id)) as [[-> <-]|Hne].
    + rewrite lookup_insert_eq, <- (assoc_L (++)). simpl. unfold seqs_of. do 2 f_equal.
      repeat case_bool_decide; naive_solver.
    + rewrite lookup_insert_ne by naive_solver.
      rewrite bool_decide_eq_false_2 by naive_solver. by rewrite app_nil_r.
  - assert (handleFrame m f env = m) as -> by (unfold handleFrame; by rewrite Hk).
    rewrite decide_False; [by apply IH|]. intros [_ <-]. rewrite Hk in Hid. by destruct Hid.
Qed.

(** C25: every gap and every repetition is reported, and nothing else.  Over any
    sequence of frames, from any senders and for any services, the Desync events
    for one sender and one registered service are exactly the numbers that do not
    follow their predecessor (from 1, and round at 64 bits), each with the number
    that was due, in order; what the services do with the frames does not
    matter. *)
Theorem desync_watch m frames from id :
  mx_closed m = false → is_Some (mx_services m !! id) →
  desyncs from id (foldl (λ m f, handleFrame m f.1 f.2) m frames)
  = desyncs from id m ++ gaps (default 0 (mx_lastSeq m !! (from, id))) (seqs_of from id frames).
Proof.
  intros Hc Hid. rewrite (watch_gaps m frames from id Hc Hid). done.
Qed.
End Ctl.

(** ** What a session client's numbers look like to the watch *)

Section FalseAlarms.
Context {C S E : Type} {TR : Transport C} {SV : Service C S E} {CM : Cbor ctlMsg}.
Context {MS : MapRange string (option S)} {MB : MapRange string bytes}.
Context {WC : WireCodec} {AE : Aead} {HK : Hkdf} {PK : Pake_lib} {EN : Entropy} {CN : Conn}.
Context {MK : MapRange ParticipantID Key}.

Lemma writeFrame_seqs `{Cbor T} c t (body : T) c' r :
  writeFrame c t body = (c', r) → cl_seqs c' = cl_seqs c.
Proof.
  intros Ew. destruct (writeFrame_cases c t body) as [(f & _ & _ & E')|(e & w & E')];
    rewrite E' in Ew; by simplify_eq.
Qed.

(** Either way of sending takes the service's next number. *)
Lemma sent_seqs c svc body c' to :
  BroadcastMsg c svc body = (c', Ok tt) ∨ SendTo c to svc body = (c', Ok tt) →
  cl_seqs c' = <[svc := next_seq c svc]> (cl_seqs c) ∧ cl_self c' = cl_self c ∧
  next_seq c' svc = wrap 64 (next_seq c svc + 1).
Proof.
  intros Hs.
  assert (cl_seqs c' = <[svc := next_seq c svc]> (cl_seqs c) ∧ cl_self c' = cl_self c) as [H1 H2].
  { unfold BroadcastMsg, SendTo in Hs. destruct (seal c svc body) as [c1 [p|]] eqn:Es;
      [|destruct Hs; done].
    apply seal_Ok in Es as (_ & _ & _ & _ & _ & _ & ->).
    set (c1 := put_draws _ _) in Hs.
    destruct Hs as [Hs|Hs]; pose proof (writeFrame_seqs _ _ _ _ _ Hs) as ->; split; try done.
    all: match type of Hs with writeFrame ?c ?t ?b = _ =>
      destruct (writeFrame_cases c t b) as [(f & _ & _ & E')|(e & w & E')] end;
      rewrite E' in Hs; by simplify_eq. }
  split; [done|]. split; [done|]. unfold next_seq at 1. by rewrite H1, lookup_insert_eq.
Qed.

(** the watch raises false alarms.  A client numbers all it sends for a
    service with one counter, whether to everybody or to one participant.  So a
    receiver that has everything meant for it reports a gap when the sender has
    written to somebody else between two broadcasts, and one that joins late
    reports a gap on the first frame it ever gets from a sender that has used the
    service before. *)
Theorem unicast_reads_as_gap (m : Mux C S E) c to svc b1 b2 b3 c1 c2 c3 :
  BroadcastMsg c svc b1 = (c1, Ok tt) → SendTo c1 to svc b2 = (c2, Ok tt) →
  BroadcastMsg c2 svc b3 = (c3, Ok tt) →
  mx_closed m = false → is_Some (mx_services m !! svc) →
  let n := next_seq c svc in
  let frame c b := (cl_self c, mkEnvelope svc (next_seq c svc) b) in
  let watch frames := desyncs (cl_self c) svc (foldl (λ m f, handleFrame m f.1 f.2) m frames) in
  (wrap 64 (default 0 (mx_lastSeq m !! (cl_self c, svc)) + 1) = n →
   watch [frame c b1; frame c2 b3]
   = desyncs (cl_self c) svc m ++ [(wrap 64 (n + 1), wrap 64 (n + 2))]) ∧
  (mx_lastSeq m !! (cl_self c, svc) = None → n ≠ 1 →
   watch [frame c b1] = desyncs (cl_self c) svc m ++ [(1, n)]).
Proof.
  intros H1 H2 H3 Hc Hid n frame watch.
  destruct (sent_seqs c svc b1 c1 to (or_introl H1)) as (_ & Hself1 & Hn1).
  destruct (sent_seqs c1 svc b2 c2 to (or_intror H2)) as (_ & Hself2 & Hn2).
  assert (next_seq c2 svc = wrap 64 (n + 2)) as En2.
  { rewrite Hn2, Hn1. fold n. rewrite wrap_add_assoc. f_equal. }
  assert (n < 2 ^ 64) as Hn by apply wrap_in_width.
  assert (seqs_of (cl_self c) svc [frame c b1; frame c2 b3] = [n; wrap 64 (n + 2)]) as Es.
  { unfold seqs_of, frame. rewrite Hself2, Hself1, En2.
    rewrite !filter_cons_True by done. done. }
  assert (seqs_of (cl_self c) svc [frame c b1] = [n]) as Es1
    by (unfold seqs_of, frame; by rewrite filter_cons_True).
  unfold watch. split.
  - intros Hlast. rewrite watch_gaps, Es by done. f_equal. simpl. rewrite Hlast.
    rewrite bool_decide_eq_true_2, bool_decide_eq_false_2; [done| |done].
    intros Eq. apply (wrap_succ_ne 64 (wrap 64 (n + 1))); [done|].
    rewrite wrap_add_assoc. by replace (wrap 64 (1 + 1)) with 2.
  - intros Hlast Hn1'. rewrite watch_gaps, Es1, Hlast by done. f_equal. simpl.
    change (wrap 64 1) with 1. by rewrite bool_decide_eq_false_2.
Qed.
End FalseAlarms.
