(* ===== verification/Chat.v ===== *)
(** * The chat service (service/chat/chat.go)

    Broadcast text messages with random identifiers, a bounded history, and its
    snapshot for late joiners, as a layered service of the mux. *)
From S2P Require Import Prelude Wire Crypto Words Phrase Session SessionSpec Runes Mux MuxSpec.
From S2P Require Import MuxTypes CtlSpec.

#[local] Open Scope N_scope.

Definition ID : string := "chat".
Definition chatVersion : Z := 1.
Definition historyCap : nat := 200.
Definition maxText : nat := 4096.

Record msg := mkMsg { ms_ID : N; ms_Text : string }.
Record storedMsg := mkStored { sm_ID : N; sm_From : ParticipantID; sm_Text : string }.
Record snapshot := mkSnapshot { sn_Messages : list storedMsg }.

(** The event. *)
Record Message := mkMessage { mg_From : ParticipantID; mg_Text : string }.

Record Service := mkService { ch_ctx : Context; ch_history : list storedMsg }.

Definition New : Service := mkService zero_context [].
Definition Attach (ctx : Context) (s : Service) : Service := mkService ctx (ch_history s).

#[global] Instance msg_wf : CborWf msg := λ v, in_width 64 (ms_ID v) ∧ utf8_valid (ms_Text v).
#[global] Instance snapshot_wf : CborWf snapshot := λ v,
  Forall (λ m, in_width 64 (sm_ID m) ∧ pid_wf (sm_From m) ∧ utf8_valid (sm_Text m)) (sn_Messages v) ∧
  (length (sn_Messages v) ≤ MaxArrayElements)%nat.

(** [record]: whether the message was new. *)
Definition record (s : Service) (m : storedMsg) : Service * bool :=
  if existsb (λ x, sm_ID x =? sm_ID m) (ch_history s) then (s, false)
  else
    let h := ch_history s ++ [m] in
    (mkService (ch_ctx s)
       (if bool_decide (historyCap < length h)%nat then drop (length h - historyCap) h else h),
     true).

Definition to_message (m : storedMsg) : Message := mkMessage (sm_From m) (sm_Text m).

Section Chat.
Context {C : Type} {TR : Transport C} {CM : Cbor msg} {CSn : Cbor snapshot} {EN : Entropy}.

(** [Say]; [i] is the draw of [randomID], read big-endian. *)
Definition be64 (bs : bytes) : N := foldl (λ a b, 256 * a + Byte.to_N b) 0 bs.

Inductive chat_error := TooLong | NoRandom | NoEncoding | NotSent.

Definition Say (s : Service) (c : C) (i : N) (text : string) :
    Service * C * list Message * option chat_error :=
  let text := TrimSpace text in
  if bool_decide (text = ""%string) then (s, c, [], None)
  else if bool_decide (maxText < String.length text)%nat then (s, c, [], Some TooLong)
  else
    match rand_read i 8 with
    | None => (s, c, [], Some NoRandom)
    | Some b =>
        let id := be64 b in
        match Marshal (mkMsg id text) with
        | None => (s, c, [], Some NoEncoding)
        | Some body =>
            match tr_Broadcast c ID body with
            | (c, false) => (s, c, [], Some NotSent)
            | (c, true) =>
                let self := cx_Self (ch_ctx s) in
                ((record s (mkStored id self text)).1, c, [mkMessage self text], None)
            end
        end
    end.

Definition HandleFrame (s : Service) (from : ParticipantID) (body : bytes) :
    Service * list Message * option string :=
  match Body msg body with
  | Err _ => (s, [], Some "chat: wire: decode body"%string)
  | Ok m =>
      if bool_decide (maxText < String.length (ms_Text m))%nat then
        (s, [], Some ("chat: oversized message from " +:+ decimal from)%string)
      else
        match record s (mkStored (ms_ID m) from (ms_Text m)) with
        | (s, false) => (s, [], None)
        | (s, true) => (s, [mkMessage from (ms_Text m)], None)
        end
  end.

(** The encoding's failure is an error. *)
Definition Snapshot (s : Service) : result string bytes :=
  match ch_history s with
  | [] => Ok []
  | h => of_option "chat: encode"%string (Marshal (mkSnapshot h))
  end.

Definition restore_one (acc : Service * list Message) (m : storedMsg) : Service * list Message :=
  let '(s, es) := acc in
  match record s m with
  | (s, true) => (s, es ++ [to_message m])
  | (s, false) => (s, es)
  end.

Definition Restore (s : Service) (blob : bytes) : Service * list Message * option string :=
  match Body snapshot blob with
  | Err _ => (s, [], Some "chat: restore: wire: decode body"%string)
  | Ok snap => let '(s, es) := foldl restore_one (s, []) (sn_Messages snap) in (s, es, None)
  end.

(** The layered service; it is neither an observer nor promotable. *)
#[global] Instance chat_service : Mux.Service C Service Message := {|
  sv_ID _ := ID;
  sv_Version _ := chatVersion;
  sv_Attach := Attach;
  sv_HandleFrame s c from body := let '(s, es, err) := HandleFrame s from body in (s, c, es, err);
  sv_Snapshot := Snapshot;
  sv_Restore s c blob := let '(s, es, err) := Restore s blob in (s, c, es, err);
  sv_MemberKeyed s c _ _ := (s, c, []);
  sv_MemberLeft s c _ := (s, c, []);
  sv_OnPromote s := s
|}.

#[global] Instance chat_service_spec : ServiceSpec C Service Message.
Proof.
  split; try done.
  - intros s c from body. simpl. by destruct (HandleFrame s from body) as [[? ?] ?].
  - intros s c blob. simpl. by destruct (Restore s blob) as [[? ?] ?].
Qed.

Lemma record_ctx s m : ch_ctx (record s m).1 = ch_ctx s.
Proof. unfold record. by destruct (existsb _ _). Qed.

Lemma restore_one_ctx l s es : ch_ctx (foldl restore_one (s, es) l).1 = ch_ctx s.
Proof.
  revert s es. induction l as [|m l IH]; intros s es; simpl; [done|].
  pose proof (record_ctx s m) as Hr. destruct (record s m) as [s' []]; simpl in Hr; by rewrite IH.
Qed.

#[global] Instance chat_service_ctx : ServiceCtx C Service Message.
Proof.
  refine {| sctx := ch_ctx |}; try done.
  - intros s c from body. split; [|done]. simpl. unfold HandleFrame.
    destruct (Body msg body) as [m|]; [|done]. case_bool_decide; [done|].
    pose proof (record_ctx s (mkStored (ms_ID m) from (ms_Text m))) as Hr.
    by destruct (record s _) as [s' []].
  - intros s c blob. split; [|done]. simpl. unfold Restore.
    destruct (Body snapshot blob) as [snap|]; [|done].
    pose proof (restore_one_ctx (sn_Messages snap) s []) as Hr.
    by destruct (foldl restore_one (s, []) _).
Defined.
End Chat.

(** ** The history *)

Abbreviation ids l := (sm_ID <$> l).

Definition hist_ok (s : Service) : Prop :=
  NoDup (ids (ch_history s)) ∧ (length (ch_history s) ≤ historyCap)%nat.

Lemma seen_spec (l : list storedMsg) m :
  existsb (λ x, sm_ID x =? sm_ID m) l = bool_decide (sm_ID m ∈ ids l).
Proof.
  induction l as [|x l IH]; simpl; [done|]. rewrite IH.
  destruct (N.eqb_spec (sm_ID x) (sm_ID m)) as [E|E]; simpl.
  - rewrite bool_decide_eq_true_2; [done|]. rewrite E. by left.
  - apply bool_decide_ext. rewrite elem_of_cons. naive_solver.
Qed.

(** [record], as a decision and a bounded append. *)
Lemma record_cases s m :
  (sm_ID m ∈ ids (ch_history s) ∧ record s m = (s, false)) ∨
  ((sm_ID m ∉ ids (ch_history s)) ∧ record s m =
     (mkService (ch_ctx s)
        (drop (length (ch_history s) + 1 - historyCap) (ch_history s ++ [m])), true)).
Proof.
  unfold record. rewrite seen_spec. case_bool_decide as Hin; [by left|]. right. split; [done|].
  rewrite length_app. simpl. case_bool_decide; [done|].
  replace (length (ch_history s) + 1 - historyCap)%nat with 0%nat by lia. done.
Qed.

Lemma record_ok s m : hist_ok s → hist_ok (record s m).1.
Proof.
  intros [Hn Hl]. destruct (record_cases s m) as [[_ ->]|[Hm ->]]; [done|]. split; simpl.
  - rewrite fmap_drop, fmap_app. simpl.
    assert (NoDup (ids (ch_history s) ++ [sm_ID m])) as H.
    { apply NoDup_app. split; [done|]. split; [|apply NoDup_singleton].
      by intros x Hx ->%list_elem_of_singleton. }
    rewrite <- (take_drop (length (ch_history s) + 1 - historyCap) (_ ++ _)) in H.
    by apply NoDup_app in H as (_ & _ & ?).
  - rewrite length_drop, length_app. simpl. lia.
Qed.

(** While there is room, nothing is forgotten. *)
Lemma record_room s m :
  (length (ch_history s) < historyCap)%nat →
  record s m = if bool_decide (sm_ID m ∈ ids (ch_history s)) then (s, false)
               else (mkService (ch_ctx s) (ch_history s ++ [m]), true).
Proof.
  intros Hl. destruct (record_cases s m) as [[Hm ->]|[Hm ->]].
  - by rewrite bool_decide_eq_true_2.
  - rewrite bool_decide_eq_false_2 by done.
    by replace (length (ch_history s) + 1 - historyCap)%nat with 0%nat by lia.
Qed.

(** Restoring messages one after the other. *)
Lemma restore_ok l s es : hist_ok s → hist_ok (foldl restore_one (s, es) l).1.
Proof.
  revert s es. induction l as [|m l IH]; intros s es Hs; simpl; [done|].
  pose proof (record_ok s m Hs) as Hr. destruct (record s m) as [s' []]; by apply IH.
Qed.

(** What restoring [l] adds to the history [h], in order. *)
Fixpoint news (h l : list storedMsg) : list storedMsg :=
  match l with
  | [] => []
  | m :: l => if bool_decide (sm_ID m ∈ ids h) then news h l else m :: news (h ++ [m]) l
  end.

Lemma restore_news l s es :
  (length (ch_history s) + length l ≤ historyCap)%nat →
  foldl restore_one (s, es) l
  = (mkService (ch_ctx s) (ch_history s ++ news (ch_history s) l),
     es ++ (to_message <$> news (ch_history s) l)).
Proof.
  revert s es. induction l as [|m l IH]; intros s es Hl; simpl.
  { rewrite !app_nil_r. by destruct s. }
  simpl in Hl. rewrite record_room by lia. case_bool_decide; [apply IH; lia|].
  rewrite IH by (simpl; rewrite length_app; simpl; lia). simpl.
  by rewrite <- !(assoc_L (++)).
Qed.

Lemma news_ids h l m : m ∈ l → sm_ID m ∈ ids (h ++ news h l).
Proof.
  revert h. induction l as [|x l IH]; intros h Hm; [by apply elem_of_nil in Hm|]. simpl.
  apply elem_of_cons in Hm as [->|Hm].
  - case_bool_decide.
    + rewrite fmap_app. apply elem_of_app. by left.
    + rewrite fmap_app. apply elem_of_app. right. by left.
  - case_bool_decide; [by apply IH|]. specialize (IH (h ++ [x]) Hm).
    by rewrite <- (assoc_L (++)) in IH.
Qed.

Lemma news_fresh l : NoDup (ids l) → news [] l = l.
Proof.
  assert (∀ h, NoDup (ids (h ++ l)) → news h l = l) as H; [|apply (H [])].
  induction l as [|m l IH]; intros h Hn; [done|]. simpl.
  rewrite bool_decide_eq_false_2.
  - f_equal. apply IH. by rewrite <- (assoc_L (++)).
  - rewrite fmap_app in Hn. apply NoDup_app in Hn as (_ & Hd & _). intros Hm.
    apply (Hd _ Hm). by left.
Qed.

(** ** Receiving *)

Section Receive.
Context {CM : Cbor msg} {CSn : Cbor snapshot}.

(** A frame from a participant, or a snapshot. *)
Inductive arrival := Live (from : ParticipantID) (body : bytes) | Snap (blob : bytes).

(** The messages it carries, the oversized live ones left out. *)
Definition carried (a : arrival) : list storedMsg :=
  match a with
  | Live from body =>
      match Body msg body with
      | Ok m => if bool_decide (maxText < String.length (ms_Text m))%nat then []
                else [mkStored (ms_ID m) from (ms_Text m)]
      | Err _ => []
      end
  | Snap blob => match Body snapshot blob with Ok snap => sn_Messages snap | Err _ => [] end
  end.

Definition receive_one (acc : Service * list Message) (a : arrival) : Service * list Message :=
  let '(s, es) := acc in
  match a with
  | Live from body => let '(s, es', _) := HandleFrame s from body in (s, es ++ es')
  | Snap blob => let '(s, es', _) := Restore s blob in (s, es ++ es')
  end.

Lemma receive_restores s es a :
  receive_one (s, es) a = foldl restore_one (s, es) (carried a).
Proof.
  assert (∀ l s es es0, foldl restore_one (s, es0 ++ es) l
    = (let '(s, es) := foldl restore_one (s, es) l in (s, es0 ++ es))) as Hpre.
  { clear. induction l as [|m l IH]; intros s es es0; simpl; [done|].
    destruct (record s m) as [s' []]; [|apply IH]. by rewrite <- (assoc_L (++)), IH. }
  destruct a as [from body|blob]; simpl.
  - unfold HandleFrame. destruct (Body msg body) as [m|]; [|by rewrite app_nil_r].
    case_bool_decide; simpl; [by rewrite app_nil_r|].
    destruct (record s _) as [s' []]; [done|by rewrite app_nil_r].
  - unfold Restore. destruct (Body snapshot blob) as [[l]|]; [|by rewrite app_nil_r]. cbn [sn_Messages].
    pose proof (Hpre l s [] es) as H. rewrite app_nil_r in H. rewrite H.
    by destruct (foldl restore_one (s, []) l).
Qed.

Lemma receive_all arrivals s es :
  foldl receive_one (s, es) arrivals = foldl restore_one (s, es) (arrivals ≫= carried).
Proof.
  revert s es. induction arrivals as [|a arrivals IH]; intros s es; [done|]. rewrite bind_cons.
  rewrite foldl_app. cbn [foldl]. rewrite receive_restores.
  destruct (foldl restore_one (s, es) (carried a)) as [s' es']. apply IH.
Qed.

(** the history stays bounded, without duplicates.  Whatever frames and
    snapshots arrive, and whatever is said, the history never holds more than
    [historyCap] messages nor two with one identifier. *)
Theorem history_bounded `{Transport C} `{Entropy} s c i text arrivals :
  hist_ok s →
  hist_ok (foldl receive_one (s, []) arrivals).1 ∧ hist_ok (Say s c i text).1.1.1.
Proof.
  intros Hs. split; [rewrite receive_all; by apply restore_ok|].
  unfold Say. do 2 (case_bool_decide; [done|]). destruct (rand_read i 8); [|done].
  destruct (Marshal _); [|done]. destruct (tr_Broadcast _ _ _) as [c' []]; [|done].
  by apply record_ok.
Qed.

(** The messages of [l] at the places where their identifier occurs for the first
    time, neither in [known] nor before in [l]; in the order of these places. *)
Definition first_arrivals (known l : list storedMsg) : list storedMsg :=
  omap (λ i, m ← l !! i; if decide (sm_ID m ∈ ids (known ++ take i l)) then None else Some m)
    (seq 0 (length l)).

Lemma first_arrivals_snoc known l m :
  first_arrivals known (l ++ [m]) = first_arrivals known l ++
    (if decide (sm_ID m ∈ ids (known ++ l)) then [] else [m]).
Proof.
  unfold first_arrivals. rewrite length_app. simpl. rewrite seq_app, omap_app. simpl.
  rewrite lookup_app_r, Nat.sub_diag, take_app_length by done. simpl. f_equal.
  - apply list_omap_ext, Forall_Forall2_diag, Forall_forall. intros i Hi%elem_of_seq.
    rewrite lookup_app_l by lia. by rewrite take_app_le by lia.
  - by destruct (decide _).
Qed.

Lemma ids_news h l x : x ∈ ids (h ++ news h l) ↔ x ∈ ids (h ++ l).
Proof.
  revert h. induction l as [|m l IH]; intros h; [done|]. simpl. case_bool_decide as Hm.
  - rewrite IH, !fmap_app, fmap_cons, !elem_of_app, elem_of_cons. naive_solver.
  - specialize (IH (h ++ [m])). by rewrite <- !(assoc_L (++)) in IH.
Qed.

Lemma news_snoc h l m :
  news h (l ++ [m]) = news h l ++ (if bool_decide (sm_ID m ∈ ids (h ++ news h l)) then [] else [m]).
Proof.
  revert h. induction l as [|x l IH]; intros h; simpl; [by rewrite app_nil_r|].
  case_bool_decide; [apply IH|]. by rewrite IH, <- !(assoc_L (++)).
Qed.

Lemma news_first_arrivals h l : news h l = first_arrivals h l.
Proof.
  induction l as [|m l IH] using rev_ind; [done|]. rewrite news_snoc, first_arrivals_snoc, IH.
  f_equal. rewrite <- IH. pose proof (ids_news h l (sm_ID m)) as H.
  case_bool_decide; case_decide; tauto.
Qed.

(** C33: every message once, as long as there is room.  Live frames and snapshots may
    carry the same messages in any order and any number of times; frames that do not
    decode and oversized live messages carry none.  If the history has room for
    everything they carry, the messages added to it are exactly those whose
    identifier is seen for the first time, neither in the history before nor earlier
    among the arrivals, each once and in the order of that first arrival; these and no
    others are surfaced as events, and everything carried is in the history. *)
Theorem every_message_once s arrivals :
  hist_ok s → (length (ch_history s) + length (arrivals ≫= carried) ≤ historyCap)%nat →
  let '(s', es) := foldl receive_one (s, []) arrivals in
  let fresh := first_arrivals (ch_history s) (arrivals ≫= carried) in
  ch_history s' = ch_history s ++ fresh ∧ es = to_message <$> fresh ∧
  NoDup (ids (ch_history s')) ∧
  ∀ m, m ∈ arrivals ≫= carried → sm_ID m ∈ ids (ch_history s').
Proof.
  intros Hs Hroom. pose proof (restore_ok (arrivals ≫= carried) s [] Hs) as Hok.
  rewrite receive_all, restore_news in * by done. simpl in Hok. simpl.
  rewrite <- news_first_arrivals. split; [done|]. split; [done|].
  split; [apply Hok|intros m Hm; by apply news_ids].
Qed.
End Receive.

(** ** A late joiner *)

Section LateJoiner.
Context {C : Type} {TR : Transport C} {CM : Cbor msg} {CSn : Cbor snapshot} {CC : Cbor ctlMsg}.
Context {SSn : CborSpec snapshot} {SC : CborSpec ctlMsg}.
Context {MS : MapRange string (option Service)} {MB : MapRange string bytes}.

Abbreviation Mux := (Mux C Service Message).

(** A mux with the control service and chat. *)
Definition with_chat (m : Mux) (s : Service) : Prop :=
  mx_services m = <[ID := Some s]> {[CtlID := None]}.

Lemma snapshot_of_chat (m : Mux) s blob :
  with_chat m s → ch_history s ≠ [] → Marshal (mkSnapshot (ch_history s)) = Some blob → blob ≠ [] →
  take_snapshots (C := C) (range (mx_services m)) = Ok {[ID := blob]}.
Proof.
  intros Hm Hne Hb Hbne.
  assert (range (mx_services m) ≡ₚ [(ID, Some s); (CtlID, None)]) as Hp.
  { rewrite range_perm, Hm, map_to_list_insert by done. by rewrite map_to_list_singleton. }
  assert (Snapshot s = Ok blob) as Hs.
  { unfold Snapshot. destruct (ch_history s); [done|]. by rewrite Hb. }
  symmetry in Hp. apply Permutation_length_2_inv in Hp as [->| ->]; simpl; rewrite Hs; simpl;
    by rewrite bool_decide_eq_false_2.
Qed.

(** C26: a late joiner catches up, as long as there is room.  On muxes whose one
    layered service is chat, and when the two histories together fit [historyCap]: when
    the host answers a snapshot request, what it sends, handled by the joiner, gives
    the joiner's chat every message of the host's history that live traffic has not
    already brought, in the host's order, surfaces exactly those, and touches nothing
    else of the joiner; a joiner with no history ends with the host's.  Without the
    room, a message the joiner has may be dropped and then taken for new
    ([full_history_repeats]). *)
Theorem late_joiner_catches_up (h j : Mux) sh sj to blob body c ok :
  with_chat h sh → with_chat j sj → hist_ok sh → hist_ok sj → mx_closed j = false →
  (length (ch_history sj) + length (ch_history sh) ≤ historyCap)%nat →
  ch_history sh ≠ [] → cbor_wf (mkSnapshot (ch_history sh)) →
  Marshal (mkSnapshot (ch_history sh)) = Some blob → blob ≠ [] →
  let m := mkCtlMsg ctlKindSnapshot ∅ [] {[ID := blob]} "" ∅ "" ∅ "" in
  cbor_wf m → Marshal m = Some body → tr_SendTo (mx_client h) to CtlID body = (c, ok) →
  let fresh := news (ch_history sj) (ch_history sh) in
  sendSnapshot h to = (put_client h c, if ok then None else Some CtlSend) ∧
  ctl_HandleFrame j (cx_HostID (ct_ctx (mx_ctl j))) body
  = (mkMux (mx_client j) (<[ID := Some (mkService (ch_ctx sj) (ch_history sj ++ fresh))]>
       (mx_services j)) (mx_ctl j) (mx_lastSeq j) false
       (mx_events j ++ (AppEvent ∘ to_message <$> fresh)), None) ∧
  (∀ x, x ∈ ch_history sh → sm_ID x ∈ ids (ch_history sj ++ fresh)) ∧
  (ch_history sj = [] → fresh = ch_history sh).
Proof.
  intros Hh Hj [Hn _] _ Hopen Hroom Hne Hwf Hb Hbne m Hmwf Hm Hsend fresh. split; [|split; [|split]].
  - unfold sendSnapshot. rewrite (snapshot_of_chat h sh blob) by done. fold m.
    by rewrite Hm, Hsend.
  - unfold ctl_HandleFrame. rewrite (Body_Marshal m body) by done. simpl.
    unfold handleSnapshot. rewrite bool_decide_eq_false_2 by tauto. simpl.
    assert (range ({[ID := blob]} : gmap string bytes) = [(ID, blob)]) as ->.
    { apply Permutation_singleton_r. by rewrite range_perm, map_to_list_singleton. }
    simpl. rewrite Hj, lookup_insert_eq. simpl. unfold Restore.
    rewrite (Body_Marshal (mkSnapshot (ch_history sh)) blob) by done.
    cbn [sn_Messages]. rewrite restore_news by done. simpl app. fold fresh. do 2 f_equal.
    assert (∀ (l : list Message) m0, mx_closed m0 = false → emit_app (m0 : Mux) l
      = mkMux (mx_client m0) (mx_services m0) (mx_ctl m0) (mx_lastSeq m0) false
          (mx_events m0 ++ (AppEvent <$> l))) as Hemit.
    { clear. induction l as [|e l IH]; intros m0 Hc.
      - simpl. rewrite app_nil_r, <- Hc. by destruct m0.
      - cbn [emit_app foldl]. change (foldl _ ?x l) with (emit_app x l).
        unfold mux_emit. rewrite Hc. rewrite IH by done. simpl. by rewrite <- (assoc_L (++)). }
    rewrite Hemit by done. simpl. rewrite <- list_fmap_compose. by rewrite Hj.
  - intros x Hx. by apply news_ids.
  - unfold fresh. intros ->. by apply news_fresh.
Qed.
End LateJoiner.

(** ** A full history *)

(** A joiner that has the host's last message and one of its own; the host's history
    is full. *)
Definition ex_old (i : nat) : storedMsg := mkStored (N.of_nat i) 1 "old".
Definition ex_own : storedMsg := mkStored 1000 2 "mine".
Definition ex_full_host : list storedMsg := ex_old <$> seq 1 200.
Definition ex_joiner : Service := mkService zero_context [ex_old 200; ex_own].

(** All of the host's messages are surfaced, the one the joiner has a second time, and
    the joiner's own is gone from its history. *)
Lemma full_history_repeats :
  foldl restore_one (ex_joiner, []) ex_full_host
  = (mkService zero_context ex_full_host, to_message <$> ex_full_host) ∧
  ex_old 200 ∈ ch_history ex_joiner ∧ ex_old 200 ∈ ex_full_host ∧
  ex_own ∈ ch_history ex_joiner ∧ sm_ID ex_own ∉ ids ex_full_host.
Proof.
  split; [vm_compute; reflexivity|]. split; [left|]. split; [|split; [right; left|]].
  - apply list_elem_of_fmap. exists 200%nat. split; [done|]. apply elem_of_seq. lia.
  - apply (bool_decide_unpack _). vm_compute. exact I.
Qed.
