(* ===== verification/Handover.v ===== *)
(** * A handover

    The host's departure, as the survivors' muxes handle it: one member is
    promoted and mints a key, the others follow and fetch it over a new exchange.
    The mux's side ([MuxSpec]) and the client's ([SessionKeys]) composed, for ends
    that are session clients. *)
From S2P Require Import Prelude Wire Crypto Words Phrase Session SessionSpec SessionKeys.
From S2P Require Import Runes Mux MuxSpec.

#[local] Open Scope N_scope.

Section Handover.
Context {WC : WireCodec} {WS : WireCodecSpec} {AE : Aead} {AS : AeadSpec} {HK : Hkdf}.
Context {PK : Pake_lib} {PS : PakeSpec} {EN : Entropy} {CN : Conn}.
Context {MK : MapRange ParticipantID Key}.
Context {S E : Type} {SV : Service Client S E} {SS : ServiceSpec Client S E} {CM : Cbor ctlMsg}.
Context {MS : MapRange string (option S)} {MB : MapRange string bytes}.
Variable rolePolicy : ParticipantID → bool → gmap ParticipantID Role → Role.
Variable successor : gmap ParticipantID Role → ParticipantID.

Abbreviation Mux := (Mux Client S E).
Abbreviation handlePayload := (handlePayload rolePolicy).

(** No layered service writes when a member leaves. *)
Hypothesis quiet_left : ∀ s c id, (sv_MemberLeft s c id).1.2 = c.

(** ** What sending leaves alone *)

Definition base (c : Client) : Client := put_seqs (core c) ∅.

Lemma base_fields c c' :
  base c = base c' →
  cl_self c = cl_self c' ∧ cl_hostID c = cl_hostID c' ∧ cl_role c = cl_role c' ∧
  cl_sid c = cl_sid c' ∧ cl_proto c = cl_proto c' ∧ cl_phraseC c = cl_phraseC c' ∧
  cl_keyed c = cl_keyed c' ∧ keys_of c = keys_of c' ∧ cl_pairwise c = cl_pairwise c'.
Proof.
  intros Hb. unfold keys_of.
  assert (∀ A (f : Client → A), f (base c) = f (base c')) as Hf by (intros; by rewrite Hb).
  pose proof (Hf _ cl_groupKey) as Hg. pose proof (Hf _ cl_prevKeys) as Hp. simpl in Hg, Hp.
  rewrite Hg, Hp. split_and!; try done.
  - exact (Hf _ cl_self).
  - exact (Hf _ cl_hostID).
  - exact (Hf _ cl_role).
  - exact (Hf _ cl_sid).
  - exact (Hf _ cl_proto).
  - exact (Hf _ cl_phraseC).
  - exact (Hf _ cl_keyed).
  - exact (Hf _ cl_pairwise).
Qed.

Lemma writeFrame_base `{Cbor T} c t (body : T) : base (writeFrame c t body).1 = base c.
Proof. unfold base. by rewrite writeFrame_core. Qed.

Lemma seal_base c svc body : base (seal c svc body).1 = base c.
Proof.
  unfold seal. destruct (negb _); [done|]. destruct (Marshal _); [|done]. simpl.
  by destruct (Seal _ _ _ _ _).
Qed.

Lemma broadcast_base c svc body : base (tr_Broadcast c svc body).1 = base c.
Proof.
  simpl. unfold BroadcastMsg. pose proof (seal_base c svc body) as Hs.
  destruct (seal c svc body) as [c1 [p|e]]; [|done]. simpl in Hs.
  pose proof (writeFrame_base c1 MsgBroadcast (mkBroadcast 0 p)) as Hw.
  destruct (writeFrame c1 _ _) as [c2 r]. simpl in *. congruence.
Qed.

Lemma announce_base (m : Mux) : base (mx_client (announce m)) = base (mx_client m).
Proof.
  unfold announce. destruct (Marshal _) as [body|]; [|done].
  destruct (emit_fields (put_client m (tr_Broadcast (mx_client m) CtlID body).1)
    (RosterEvent (roster3 (mx_ctl m) (service_infos m)))) as (-> & _).
  apply broadcast_base.
Qed.

(** ** The departure at a survivor *)

(** A survivor's mux: not the host's, which is [left]; the others are [R]. *)
Record survivor (m : Mux) (left : ParticipantID) (R : gmap ParticipantID Role) : Prop := {
  sv_ok : mux_ok m;
  sv_nonhost : cx_Host (ct_ctx (mx_ctl m)) = false;
  sv_left : cl_hostID (mx_client m) = left;
  sv_roster : candidates m left = R }.

Lemma left_quiet (m : Mux) id :
  mux_ok m → cx_Host (ct_ctx (mx_ctl m)) = false →
  let m' := mux_emit (for_services (left_one id) m) (SessionEvent (MemberLeft id)) in
  mx_client m' = mx_client m ∧ mx_ctl m' = mx_ctl m ∧ mux_ok m'.
Proof.
  intros Hok Hh m'.
  destruct (emit_fields (for_services (left_one id) m) (SessionEvent (MemberLeft id)))
    as (E1 & E2 & E3 & _). unfold m', mux_ok. rewrite E1, E2, E3.
  destruct (left_nonhost m id Hok Hh) as (_ & Hc & Hok'). split; [|by split]. clear - Hh quiet_left.
  apply (for_services_ind (λ m1 : Mux, mx_client m1 = mx_client m ∧ mx_ctl m1 = mx_ctl m)
    (left_one id) m); [done|].
  intros m1 k [s|] (Hc & Ht) _; simpl.
  - pose proof (quiet_left s (mx_client m1) id) as Hq.
    destruct (sv_MemberLeft s (mx_client m1) id) as [[s' c] es].
    destruct (emit_app_fields (put_client (put_service m1 k s') c) es) as (-> & _ & -> & _).
    simpl in *. by rewrite Hq, Hc.
  - unfold ctl_MemberLeft. by rewrite Ht, Hh.
Qed.

(** What handling the departure does to the end: the choice [x] rotates the key,
    anybody else asks for it. *)
Lemma departure_handled (m : Mux) left R x :
  survivor m left R → successor R = x → is_Some (R !! x) → x ≠ 0 →
  let c := mx_client m in let c' := mx_client (dispatch successor m (MemberLeft left)).1 in
  (x = cl_self c → base c' = base (RotateForMigration (BecomeHost c))) ∧
  (x ≠ cl_self c → c' = (RekeyWithNewHost (SetHostID c x)).1).
Proof.
  intros [Hok Hh Hleft HR] Hs Hin Hx0 c c'. unfold c'. simpl.
  destruct (left_quiet m left Hok Hh) as (Hc & Ht & Hok').
  set (m1 := mux_emit _ _) in *. unfold maybeMigrate. simpl tr_promoter. cbn iota.
  assert (candidates m1 left = R) as HR1 by (unfold candidates; by rewrite Ht).
  rewrite (elect_candidate successor m1 left x) by (by rewrite HR1).
  rewrite Hc. fold c. rewrite bool_decide_eq_false_2 by (intros Hn; by apply Hn).
  rewrite (bool_decide_eq_false_2 (x = 0)) by done. simpl tr_Self.
  split; intros Hself.
  - rewrite bool_decide_eq_true_2 by done. set (m2 := put_client m1 _).
    assert (mux_ok m2) as Hok2 by done.
    destruct (attach_spec (context_of (mx_client m2)) m2 Hok2) as (A1 & _ & A3 & _).
    set (m3 := for_services (attach_one _) m2) in *.
    destruct (promote_spec m3 A3) as (P1 & _). set (m4 := for_services promote_one m3) in *.
    set (m5 := assumeHost m4 left). cbn zeta.
    match goal with |- base (mx_client (mux_emit ?a ?b)) = _ => destruct (emit_fields a b) as (-> & _) end.
    simpl. unfold ClaimHostMsg. rewrite writeFrame_base. unfold m5, assumeHost.
    rewrite announce_base. simpl. by rewrite P1, A1.
  - rewrite bool_decide_eq_false_2 by done. set (m2 := put_client m1 _).
    assert (mux_ok m2) as Hok2 by done.
    destruct (attach_spec (context_of (mx_client m2)) m2 Hok2) as (A1 & _).
    exact (f_equal (λ c1, (RekeyWithNewHost c1).1) A1).
Qed.

(** ** After the exchange *)

(** What [a] seals [b] hands its user, and nobody without [a]'s group key opens. *)
Definition talks (a b : Client) : Prop :=
  ∀ svc body a' payload, utf8_valid svc → seal a svc body = (a', Ok payload) →
  handlePayload b (cl_self a) payload
    = emit b (Frame (cl_self a) (mkEnvelope svc (next_seq a svc) body)) ∧
  ∀ d from, sid_wf (cl_sid d) → pid_wf from → cl_groupKey a ∉ keys_of d →
    handlePayload d from payload = d.

Lemma talks_intro a b :
  sid_wf (cl_sid a) → pid_wf (cl_self a) → cl_sid b = cl_sid a → cl_keyed b = true →
  cl_groupKey a ∈ keys_of b → talks a b.
Proof.
  intros Hs Hp Hsid Hk Hin svc body a' payload Hu Hseal. split.
  - rewrite (sealed_payload rolePolicy a svc body a' payload b (cl_self a)) by (by rewrite ?Hsid).
    by rewrite bool_decide_eq_true_2.
  - intros d from Hd Hf Hnot. rewrite (sealed_payload rolePolicy a svc body a' payload d from) by done.
    rewrite bool_decide_eq_false_2; [done|]. tauto.
Qed.

(** C9: a handover restores the group.  The host leaves; a member [mn] and another
    survivor [ms] have the same roster, and the policy chooses [mn]; no layered
    service writes on a departure, and writes, draws and encodings succeed.  Each mux
    handles the departure on its own: [mn]'s client is then the host, with a fresh
    group key, and [ms]'s client points at it and has sent it a flight.  Once the
    relay has delivered that flight and the two answers, both hold the fresh key
    and still their old one, they share the pairwise key of the next rotation, and
    what either seals the other opens, while a client without the fresh key (the
    departed host, say) opens none of it. *)
Theorem handover mn ms left R k jn p1 f1 j' kh kj f2 p2 g2 w p3 g3 :
  let n := mx_client mn in let s := mx_client ms in let id := cl_self s in
  survivor mn left R → survivor ms left R →
  successor R = cl_self n → is_Some (R !! cl_self n) → cl_self n ≠ 0 →
  migration s n → cl_keyed n = true → sid_wf (cl_sid n) → pid_wf (cl_self n) → pid_wf id →
  healthy → rand_read (cl_draws n) KeySize = Some k →
  let h := mx_client (dispatch successor mn (MemberLeft left)).1 in
  let s1 := mx_client (dispatch successor ms (MemberLeft left)).1 in
  (RekeyWithNewHost (SetHostID s (cl_self n))).2 = Ok tt →
  cl_rekeyJoiner s1 = Some jn → cl_sent s1 = cl_sent s ++ [f1] →
  EncodePayload KindRekeyPake1 (mkPake (j_Flight1 jn) false) = Ok p1 →
  HostExchange (cl_draws h) (cl_proto h) (cl_phraseC h) (j_Flight1 jn) (cl_sid h) id (cl_self h)
    = Ok (kh, f2) →
  Finish (cl_draws s1) jn f2 (cl_sid s) id (cl_self h) = (j', Ok kj) →
  EncodePayload KindRekeyPake2 (mkPake f2 false) = Ok p2 →
  WrapGroupKey (cl_draws h + 1) kh (cl_groupKey h) RoleNone (cl_sid h) id = Ok w →
  EncodePayload KindRekey w = Ok p3 →
  Encode MsgDirect (mkDirect id 0 p2) = Ok g2 → Encode MsgDirect (mkDirect id 0 p3) = Ok g3 →
  cl_role h = RoleHost ∧ cl_hostID h = cl_self n ∧ cl_hostID s1 = cl_self n ∧
  cl_groupKey h = k ∧ cl_pairwise h = ∅ ∧
  Encode MsgDirect (mkDirect (cl_self n) 0 p1) = Ok f1 ∧
  let h' := handlePayload h id p1 in
  let s3 := handlePayload (handlePayload s1 (cl_self n) p2) (cl_self n) p3 in
  cl_sent h' = cl_sent h ++ [g2; g3] ∧ cl_groupKey h' = k ∧ cl_groupKey s3 = k ∧
  cl_groupKey n ∈ keys_of h' ∧ cl_groupKey s ∈ keys_of s3 ∧
  cl_pairwise h' !! id = Some (cl_hostPairwise s3) ∧ talks h' s3 ∧ talks s3 h'.
Proof.
  intros n s id Sn Ss Hx Hin Hx0 M Hkn Hsid Hpn Hps Hh Hrand h s1 Hrk Hj Hsent Ep1 Hex Hf Ep2 Ew Ep3
    Eg2 Eg3.
  destruct (departure_handled mn left R (cl_self n) Sn Hx Hin Hx0) as [Hpromoted _].
  destruct (departure_handled ms left R (cl_self n) Ss Hx Hin Hx0) as [_ Hfollows].
  specialize (Hpromoted eq_refl). specialize (Hfollows (mg_other _ _ M)).
  fold h n in Hpromoted. fold s1 s in Hfollows. clearbody h s1.
  rewrite (RotateForMigration_promoted n k Hrand) in Hpromoted.
  apply base_fields in Hpromoted as (Eself & Ehost & Erole & Esid & Epr & Eph & Ek & Ekeys & Epw).
  injection Ekeys as Egk Eprev. simpl in *.
  assert (RekeyWithNewHost (SetHostID s (cl_self n)) = (s1, Ok tt)) as Hrk'
    by (by rewrite Hfollows, <- Hrk, <- surjective_pairing).
  destruct M as [Hks Hrs Hne Hpr Hph Hsd].
  destruct (rekey_exchange rolePolicy (SetHostID s (cl_self n)) h s1 jn p1 f1 j' kh kj f2 p2 g2 w p3 g3)
    as (Ef & [d1 Eh'] & [d2 Es3]); try done; try (simpl; congruence).
  { rewrite Egk. by eapply rand_read_length. }
  apply RekeyWithNewHost_Ok in Hrk' as (? & ? & ? & _ & _ & _ & ->); try done.
  change (cl_self (SetHostID s (cl_self n))) with id in Eh'. rewrite Eself in *.
  cbv zeta. rewrite Eh', Es3.
  split_and!; try done; try apply talks_intro; simpl; try congruence.
  - unfold keys_of. simpl. rewrite Eprev. right. by left.
  - right. by left.
  - apply lookup_insert_eq.
  - by left.
  - done.
  - by left.
Qed.
End Handover.
