(* ===== verification/Races.v ===== *)
(** * Races

    Orders of a client's critical sections in which something is lost: two
    broadcasts whose numbers and writes cross, and a survivor's flight that is
    answered in the middle of a promotion. *)
From S2P Require Import Prelude Wire Crypto Words Phrase Prog Session SessionSpec Sections.
From S2P Require Import Interleave SessionKeys Runes Mux MuxSpec CtlSpec.

#[local] Open Scope N_scope.

Section Races.
Context {WC : WireCodec} {WS : WireCodecSpec} {AE : Aead} {AS : AeadSpec} {HK : Hkdf}.
Context {PK : Pake_lib} {PS : PakeSpec} {EN : Entropy} {CN : Conn}.
Context {MK : MapRange ParticipantID Key}.
Context {C S E : Type} {TR : Transport C} {SV : Service C S E} {CM : Cbor ctlMsg}.
Context {MS : MapRange string (option S)} {MB : MapRange string bytes}.
Variable rolePolicy : ParticipantID → bool → gmap ParticipantID Role → Role.

(** ** Crossing broadcasts *)

(** A broadcast that has been numbered and keyed: what is left to do. *)
Definition say_rest (env : Envelope) (key : Key) : prog Client bool :=
  r ← match Marshal env with
      | None => mret (Err (WireError ErrEncode))
      | Some plain =>
          d ← draws;
          x ← match Seal d.1 key plain (fx_sid d.2) (fx_self d.2) with
              | Err e => mret (Err (CryptoError e))
              | Ok sf => mret (lift_wire (EncodePayload KindSealed sf))
              end;
          match x with
          | Err e => mret (Err e)
          | Ok payload => writeFrame_p MsgBroadcast (mkBroadcast 0 payload)
          end
      end;
  mret (match r with Ok _ => true | Err _ => false end).

Definition next_env (c : Client) (svc : string) (b : bytes) : Envelope :=
  mkEnvelope svc (next_seq c svc) b.

(** Its first turn. *)
Lemma say_numbers svc b c i (ps : list (prog Client bool)) :
  cl_keyed c = true → ps !! i = Some (utter (Say svc b)) →
  turn i (c, ps) = (put_seqs c (<[svc := next_seq c svc]> (cl_seqs c)),
    <[i := say_rest (next_env c svc b) (cl_groupKey c)]> ps).
Proof.
  intros Hk Hi. unfold turn. simpl. rewrite Hi. simpl. unfold seal_number. rewrite Hk. simpl.
  f_equal. f_equal. unfold say_rest, next_env, next_seq. simpl.
  destruct (Marshal _) as [plain|]; [|done]. simpl. reflexivity.
Qed.

(** Its last two, when they succeed. *)
Lemma say_writes env key c i ps :
  ps !! i = Some (say_rest env key) →
  let r := turn i (turn i (c, ps)) in
  r.2 !! i = Some (Ret true) →
  ∃ plain sf payload f, Marshal env = Some plain ∧
    Seal (cl_draws c) key plain (cl_sid c) (cl_self c) = Ok sf ∧
    EncodePayload KindSealed sf = Ok payload ∧ Encode MsgBroadcast (mkBroadcast 0 payload) = Ok f ∧
    r = (put_sent (put_writes (put_draws c (cl_draws c + 1)) (cl_writes c + 1)) (cl_sent c ++ [f]),
         <[i := Ret true]> ps).
Proof.
  intros Hi r. assert (i < length ps)%nat as Hlt by (by eapply lookup_lt_Some).
  unfold r, say_rest in *. clear r. destruct (Marshal env) as [plain|] eqn:Em; simpl in Hi.
  2: { erewrite !turn_Ret by exact Hi. simpl. rewrite Hi. done. }
  rewrite (turn_Sec _ _ _ _ _ Hi). set (ps1 := <[i := _]> ps).
  assert (ps1 !! i = Some _) as H1 by (unfold ps1; by apply list_lookup_insert_eq). simpl in H1.
  destruct (Seal _ _ _ _ _) as [sf|] eqn:Es; simpl in H1.
  2: { erewrite turn_Ret by exact H1. simpl. rewrite H1. done. }
  destruct (EncodePayload KindSealed sf) as [p|] eqn:Ep; simpl in H1.
  2: { erewrite turn_Ret by exact H1. simpl. rewrite H1. done. }
  rewrite (turn_Sec _ _ _ _ _ H1). unfold ps1. rewrite list_insert_insert_eq. simpl.
  rewrite list_lookup_insert_eq by done. unfold writeFrame.
  destruct (Encode MsgBroadcast _) as [f|] eqn:Ef; simpl; [|done].
  destruct (conn_write (cl_writes c)); simpl; [|done]. intros _.
  by exists plain, sf, p, f.
Qed.

(** The sealed frame of an envelope. *)
Definition seals (c : Client) (env : Envelope) (f : bytes) : Prop :=
  ∃ i plain sf payload, Marshal env = Some plain ∧
    Seal i (cl_groupKey c) plain (cl_sid c) (cl_self c) = Ok sf ∧
    EncodePayload KindSealed sf = Ok payload ∧ Encode MsgBroadcast (mkBroadcast 0 payload) = Ok f.

Lemma cross_turns (c c1 c2 : Client) (u1 u2 p1 p2 : prog Client bool) :
  turn 0 (c, [u1; u2]) = (c1, [p1; u2]) → turn 1 (c1, [p1; u2]) = (c2, [p1; p2]) →
  play [0; 1; 1; 1; 0; 0]%nat (c, [u1; u2]) = turn 0 (turn 0 (turn 1 (turn 1 (c2, [p1; p2])))).
Proof. intros E1 E2. cbn [play]. by rewrite E1, E2. Qed.

Lemma cross_play c svc b1 b2 :
  let r := play [0; 1; 1; 1; 0; 0]%nat (c, [utter (Say svc b1); utter (Say svc b2)]) in
  r.2 = [Ret true; Ret true] → cl_keyed c = true →
  ∃ f1 f2, cl_sent r.1 = cl_sent c ++ [f2; f1] ∧ seals c (next_env c svc b1) f1 ∧
    seals c (mkEnvelope svc (wrap 64 (next_seq c svc + 1)) b2) f2.
Proof.
  intros r Hr Hk. unfold r in *. clear r. set (c1 := put_seqs c (<[svc := next_seq c svc]> (cl_seqs c))).
  set (c2 := put_seqs c1 (<[svc := next_seq c1 svc]> (cl_seqs c1))).
  set (p1 := say_rest (next_env c svc b1) (cl_groupKey c)).
  set (p2 := say_rest (next_env c1 svc b2) (cl_groupKey c1)).
  assert (turn 0 (c, [utter (Say svc b1); utter (Say svc b2)]) = (c1, [p1; utter (Say svc b2)])) as T1
    by exact (say_numbers svc b1 c 0 [utter (Say svc b1); utter (Say svc b2)] Hk eq_refl).
  assert (turn 1 (c1, [p1; utter (Say svc b2)]) = (c2, [p1; p2])) as T2
    by exact (say_numbers svc b2 c1 1 [p1; utter (Say svc b2)] Hk eq_refl).
  rewrite (cross_turns _ _ _ _ _ _ _ T1 T2) in *. clear T1 T2.
  assert (p1 = say_rest (next_env c svc b1) (cl_groupKey c)) as D1 by done.
  assert (p2 = say_rest (next_env c1 svc b2) (cl_groupKey c)) as D2 by done. clearbody p1 p2.
  pose proof (say_writes (next_env c1 svc b2) (cl_groupKey c) c2 1 [p1; p2] (f_equal Some D2)) as W2.
  cbv zeta in W2.
  assert ((turn 1 (turn 1 (c2, [p1; p2]))).2 !! 1%nat = Some (Ret true)) as H2.
  { rewrite <- (turn_other 0 1), <- (turn_other 0 1), Hr by done. done. }
  destruct (W2 H2) as (plain2 & sf2 & pl2 & f2 & M2 & S2 & E2 & F2 & R2). rewrite R2 in *.
  cbn [insert list_insert] in *. set (c3 := put_sent _ _) in *.
  pose proof (say_writes (next_env c svc b1) (cl_groupKey c) c3 0 [p1; Ret true] (f_equal Some D1)) as W1.
  cbv zeta in W1. rewrite Hr in W1.
  destruct (W1 eq_refl) as (plain1 & sf1 & pl1 & f1 & M1 & S1 & E1 & F1 & R1). rewrite R1.
  exists f1, f2. simpl. split; [by rewrite <- (assoc_L (++))|].
  assert (next_env c1 svc b2 = mkEnvelope svc (wrap 64 (next_seq c svc + 1)) b2) as En.
  { unfold next_env, next_seq at 1. simpl. by rewrite lookup_insert_eq. }
  split; [by exists (cl_draws c3), plain1, sf1, pl1|].
  rewrite <- En. by exists (cl_draws c2), plain2, sf2, pl2.
Qed.

(** A member that has the key hears it. *)
Lemma hears_seals c m id env f :
  sid_wf (cl_sid c) → pid_wf (cl_self c) → cbor_wf env → cl_keyed m = true →
  cl_groupKey c ∈ keys_of m → cl_sid m = cl_sid c → seals c env f →
  hears rolePolicy (cl_self c) id m f = emit m (Frame (cl_self c) env).
Proof.
  intros Hs Hp He Hk Hin Hsm (i & plain & sf & payload & M & S' & Ep & Ef). unfold hears.
  rewrite (inner_broadcast id payload f Ef).
  rewrite (sealed_parts rolePolicy i (cl_groupKey c) (cl_sid c) (cl_self c) env plain sf payload)
    by (by rewrite ?Hsm).
  by rewrite bool_decide_eq_true_2.
Qed.

(** C17: two broadcasts may cross.  A number is given out under one lock and the
    frame is written under another.  When two goroutines broadcast for the same
    service, the second may be numbered last and written first: both calls
    succeed, both messages arrive, but in the wrong order; and the receiver's
    watch, which was in step, reports both, one as a gap and one as a repetition. *)
Theorem says_cross c svc b1 b2 m id (mx : Mux C S E) :
  let r := play [0; 1; 1; 1; 0; 0]%nat (c, [utter (Say svc b1); utter (Say svc b2)]) in
  r.2 = [Ret true; Ret true] → cl_keyed c = true →
  sid_wf (cl_sid c) → pid_wf (cl_self c) → utf8_valid svc →
  cl_keyed m = true → cl_groupKey c ∈ keys_of m → cl_sid m = cl_sid c →
  mx_closed mx = false → is_Some (mx_services mx !! svc) →
  wrap 64 (default 0 (mx_lastSeq mx !! (cl_self c, svc)) + 1) = next_seq c svc →
  let n := next_seq c svc in
  let first := mkEnvelope svc n b1 in let second := mkEnvelope svc (wrap 64 (n + 1)) b2 in
  ∃ f1 f2, cl_sent r.1 = cl_sent c ++ [f2; f1] ∧
    cl_events (foldl (hears rolePolicy (cl_self c) id) m [f2; f1])
    = cl_events m ++ [Frame (cl_self c) second; Frame (cl_self c) first] ∧
    desyncs (cl_self c) svc
      (foldl (λ m f, handleFrame m f.1 f.2) mx [(cl_self c, second); (cl_self c, first)])
    = desyncs (cl_self c) svc mx ++ [(n, wrap 64 (n + 1)); (wrap 64 (n + 2), n)].
Proof.
  intros r Hr Hk Hs Hp Hu Hkm Hin Hsm Hc Hid Hlast n first second.
  destruct (cross_play c svc b1 b2 Hr Hk) as (f1 & f2 & Hsent & H1 & H2).
  assert (cbor_wf first ∧ cbor_wf second) as [W1 W2] by (by split; (split; [|apply wrap_in_width])).
  exists f1, f2. split; [done|]. split.
  - simpl. rewrite (hears_seals c m id second f2) by done.
    rewrite (hears_seals c (emit m _) id first f1) by done. simpl. by rewrite <- (assoc_L (++)).
  - rewrite watch_gaps by done. f_equal.
    assert (seqs_of (cl_self c) svc [(cl_self c, second); (cl_self c, first)] = [wrap 64 (n + 1); n])
      as -> by (unfold seqs_of; by rewrite !filter_cons_True).
    assert (n < 2 ^ 64) as Hn by apply wrap_in_width.
    cbn [gaps]. rewrite Hlast. fold n.
    rewrite bool_decide_eq_false_2 by (by apply wrap_succ_ne).
    rewrite wrap_add_assoc. replace (wrap 64 (1 + 1)) with 2 by done.
    rewrite bool_decide_eq_false_2; [done|]. unfold wrap. intros Hw.
    assert (2 ^ 64 = 18446744073709551616) as E64 by done. rewrite E64 in *.
    destruct (decide (n + 2 < 18446744073709551616)) as [Hlt|Hge].
    + rewrite N.mod_small in Hw by done. lia.
    + assert ((n + 2) mod 18446744073709551616 = n + 2 - 18446744073709551616) as Em; [|lia].
      symmetry. apply (N.mod_unique _ _ 1); lia.
Qed.

(** ** A flight answered in the middle of a promotion *)

(** The mux's part of a promotion, as far as keys go. *)
Definition promote_p : prog Client unit := _ ← BecomeHost_p; RotateForMigration_p.

(** The flight is checked after [BecomeHost], its key is picked up before the
    rotation, and the answers are written after it. *)
Definition mid_promotion : list nat := ([0] ++ [1; 1; 1] ++ [0] ++ [1; 1; 1])%nat.

Definition answer (id : ParticipantID) (f2 kh key : Key) : prog Client unit :=
  answer_p id KindRekeyPake2 KindRekey f2 kh key RoleNone (mret tt).

(** Up to the store: the host's check, the exchange, the pairwise key. *)
Lemma flight_stored c id praw fl kh f2 x :
  cl_role c = RoleHost → cl_hostID c = cl_self c → Body Pake praw = Ok (mkPake fl false) →
  HostExchange (cl_draws c) (cl_proto c) (cl_phraseC c) fl (cl_sid c) id (cl_self c) = Ok (kh, f2) →
  play [1; 1; 1]%nat (c, [x; handleRekeyPake1_p id praw])
  = (put_pairwise (put_draws c (cl_draws c + 1)) (<[id := kh]> (cl_pairwise c)),
     [x; answer id f2 kh (cl_groupKey c)]).
Proof.
  intros Hr Hh Hb Hx. cbn [play]. unfold handleRekeyPake1_p. erewrite turn_Sec by done.
  cbn [insert list_insert]. simpl. rewrite Hr, Hh, !bool_decide_eq_true_2, Hb by done. simpl.
  erewrite turn_Sec by done. cbn [insert list_insert]. simpl. rewrite Hx.
  erewrite turn_Sec by done. done.
Qed.

(** From there: the flight and the wrap of the key picked up at the store. *)
Lemma flight_answered c id f2 kh key p2 w p3 g2 g3 x :
  (∀ i, conn_write i = true) → EncodePayload KindRekeyPake2 (mkPake f2 false) = Ok p2 →
  WrapGroupKey (cl_draws c) kh key RoleNone (cl_sid c) id = Ok w → EncodePayload KindRekey w = Ok p3 →
  Encode MsgDirect (mkDirect id 0 p2) = Ok g2 → Encode MsgDirect (mkDirect id 0 p3) = Ok g3 →
  ∃ ws, play [1; 1; 1]%nat (c, [x; answer id f2 kh key])
  = (put_sent (put_writes (put_draws c (cl_draws c + 1)) ws) (cl_sent c ++ [g2; g3]), [x; Ret tt]).
Proof.
  intros Hw Ep2 Ew Ep3 Eg2 Eg3. exists (cl_writes c + 1 + 1). unfold answer, answer_p. rewrite Ep2.
  cbn [play]. erewrite turn_Sec by done. cbn [insert list_insert]. simpl.
  unfold writeFrame at 1 2. rewrite Eg2, Hw. simpl.
  erewrite turn_Sec by done. cbn [insert list_insert]. simpl. rewrite Ew, Ep3.
  erewrite turn_Sec by done. cbn [insert list_insert]. simpl.
  unfold writeFrame. rewrite Eg3, Hw. simpl. by rewrite <- (assoc_L (++)).
Qed.

Lemma mid_promotion_play n id praw fl kh f2 k p2 g2 w p3 g3 :
  (∀ i, conn_write i = true) → Body Pake praw = Ok (mkPake fl false) →
  HostExchange (cl_draws n) (cl_proto n) (cl_phraseC n) fl (cl_sid n) id (cl_self n) = Ok (kh, f2) →
  rand_read (cl_draws n + 1) KeySize = Some k →
  EncodePayload KindRekeyPake2 (mkPake f2 false) = Ok p2 →
  WrapGroupKey (cl_draws n + 1 + 1) kh (cl_groupKey n) RoleNone (cl_sid n) id = Ok w →
  EncodePayload KindRekey w = Ok p3 →
  Encode MsgDirect (mkDirect id 0 p2) = Ok g2 → Encode MsgDirect (mkDirect id 0 p3) = Ok g3 →
  let r := play mid_promotion (n, [promote_p; handleRekeyPake1_p id praw]) in
  r.2 = [Ret tt; Ret tt] ∧ cl_groupKey r.1 = k ∧ cl_pairwise r.1 = ∅ ∧
  cl_sent r.1 = cl_sent n ++ [g2; g3] ∧ cl_sid r.1 = cl_sid n ∧ cl_self r.1 = cl_self n.
Proof.
  intros Hw Hb Hx Hk Ep2 Ew Ep3 Eg2 Eg3. unfold mid_promotion. rewrite !play_app.
  assert (play [0]%nat (n, [promote_p; handleRekeyPake1_p id praw])
    = (BecomeHost n, [RotateForMigration_p; handleRekeyPake1_p id praw])) as -> by done.
  rewrite (flight_stored (BecomeHost n) id praw fl kh f2) by done.
  set (c := put_pairwise _ _). set (y := answer _ _ _ _).
  assert (play [0]%nat (c, [RotateForMigration_p; y]) = (RotateForMigration c, [Ret tt; y])) as ->
    by done.
  assert (RotateForMigration c = put_pairwise (rotated (put_draws c (cl_draws n + 1 + 1)) k) ∅) as ->.
  { unfold RotateForMigration. simpl cl_role. simpl cl_hostID. simpl cl_self.
    rewrite !bool_decide_eq_false_2 by tauto. simpl orb. unfold draw, NewGroupKey.
    cbn beta zeta iota. simpl cl_draws. by rewrite Hk. }
  set (c' := put_pairwise _ _). unfold y.
  destruct (flight_answered c' id f2 kh (cl_groupKey (BecomeHost n)) p2 w p3 g2 g3 (Ret tt))
    as [ws ->]; done.
Qed.

(** C18: a flight answered in the middle of a promotion brings the old key.  The
    promoted member becomes host in one critical section and rotates the key in
    another.  When its read loop takes a survivor's flight in between, the answer
    wraps the key the departed host still holds, and the rotation then forgets the
    pairwise key: the survivor believes it has been re-keyed, the host cannot reach
    it with any later rotation, and the survivor opens nothing that the host seals
    with the fresh key. *)
Theorem stale_answer n s1 k praw jn p1 j' kh f2 p2 g2 w p3 g3 :
  (∀ i, conn_write i = true) → sid_wf (cl_sid n) → pid_wf (cl_self n) → cl_sid s1 = cl_sid n →
  cl_hostID s1 = cl_self n → cl_rekeyJoiner s1 = Some jn →
  key_wf (cl_groupKey n) → key_wf kh →
  EncodePayload KindRekeyPake1 (mkPake (j_Flight1 jn) false) = Ok p1 →
  DecodePayload p1 = Ok (KindRekeyPake1, praw) → Body Pake praw = Ok (mkPake (j_Flight1 jn) false) →
  let id := cl_self s1 in
  HostExchange (cl_draws n) (cl_proto n) (cl_phraseC n) (j_Flight1 jn) (cl_sid n) id (cl_self n)
    = Ok (kh, f2) →
  rand_read (cl_draws n + 1) KeySize = Some k →
  Finish (cl_draws s1) jn f2 (cl_sid n) id (cl_self n) = (j', Ok kh) →
  EncodePayload KindRekeyPake2 (mkPake f2 false) = Ok p2 →
  WrapGroupKey (cl_draws n + 1 + 1) kh (cl_groupKey n) RoleNone (cl_sid n) id = Ok w →
  EncodePayload KindRekey w = Ok p3 →
  Encode MsgDirect (mkDirect id 0 p2) = Ok g2 → Encode MsgDirect (mkDirect id 0 p3) = Ok g3 →
  let r := play mid_promotion (n, [promote_p; handlePayload_p rolePolicy id p1]) in
  let s3 := handlePayload rolePolicy (handlePayload rolePolicy s1 (cl_self n) p2) (cl_self n) p3 in
  r.2 = [Ret tt; Ret tt] ∧ cl_groupKey r.1 = k ∧ cl_pairwise r.1 = ∅ ∧
  cl_sent r.1 = cl_sent n ++ [g2; g3] ∧
  cl_groupKey s3 = cl_groupKey n ∧ cl_rekeyJoiner s3 = None ∧
  (k ∉ keys_of s1 → k ≠ cl_groupKey n → ∀ svc body h' payload, utf8_valid svc →
     seal r.1 svc body = (h', Ok payload) → handlePayload rolePolicy s3 (cl_self n) payload = s3).
Proof.
  intros Hw Hs Hp Hsid Hhost Hj Hkw Hkh Ep1 Ed1 Eb1 id Hx Hk Hf Ep2 Ew Ep3 Eg2 Eg3 r s3.
  assert (handlePayload_p rolePolicy id p1 = handleRekeyPake1_p id praw) as Ep
    by (unfold handlePayload_p; by rewrite Ed1).
  unfold r. rewrite Ep. clear r.
  destruct (mid_promotion_play n id praw _ kh f2 k p2 g2 w p3 g3 Hw Eb1 Hx Hk Ep2 Ew Ep3 Eg2 Eg3)
    as (R1 & R2 & R3 & R4 & R5 & R6). set (h := (play _ _).1) in *. clearbody h.
  assert (s3 = rotated (put_rekeyJoiner (put_haveHostPairwise (put_hostPairwise
    (put_draws s1 (cl_draws s1 + 1)) kh) true) None) (cl_groupKey n)) as E3.
  { unfold s3. rewrite (handleRekeyPake2_finishes rolePolicy s1 (cl_self n) jn j' kh f2 p2)
      by (by rewrite ?Hsid, ?Hhost).
    apply (handlePayload_rekey rolePolicy _ (cl_self n) (cl_draws n + 1 + 1) kh (cl_groupKey n)
      RoleNone id w p3); cbn; subst id; congruence. }
  do 4 (split; [done|]). rewrite E3. split; [done|]. split; [done|].
  intros Hnew Hne svc body h' payload Hu Hseal. rewrite <- R6.
  rewrite (sealed_payload rolePolicy h svc body h' payload); try done; try (by rewrite ?R5, ?R6).
  - rewrite bool_decide_eq_false_2; [done|]. rewrite R2. intros (_ & Hin & _).
    unfold keys_of in Hin. simpl in Hin. apply elem_of_cons in Hin as [->|Hin]; [done|].
    apply Hnew. change (take prevKeyRing (keys_of s1)) with
      (cl_groupKey s1 :: take 7 (cl_prevKeys s1)) in *. unfold keys_of.
    apply elem_of_cons in Hin as [->|Hin]; [by left|right]. by eapply subseteq_take.
  - simpl. by rewrite Hsid.
Qed.
End Races.
