(* ===== verification/MuxExamples.v ===== *)
(** * The service layer on concrete inputs

    Muxes over the session clients of [SessionExamples], with the control service
    and chat, and the theorems of [MuxSpec], [CtlSpec] and [Chat] applied to
    them. *)
From S2P Require Import Prelude Wire Crypto Words Phrase Prog Session SessionSpec SessionExamples.
From S2P Require Import Sections Interleave Runes Mux MuxSpec MuxTypes CtlSpec Chat Handover Races.

#[local] Open Scope N_scope.

#[local] Existing Instance bits_codec.
#[local] Existing Instance bits_codec_spec.
#[local] Existing Instance ideal_aead.
#[local] Existing Instance ideal_aead_spec.
#[local] Existing Instance pad_hkdf.
#[local] Existing Instance nonce_pake_lib.
#[local] Existing Instance nonce_pake_spec.
#[local] Existing Instance ex_crypto_rand.
#[local] Existing Instance ex_conn.
#[local] Existing Instance ex_range.

(** ** Codecs *)

#[global] Instance ServiceInfo_eq : EqDecision ServiceInfo.
Proof. solve_decision. Defined.
#[global] Instance ServiceInfo_countable : Countable ServiceInfo.
Proof. countable_by (λ s, (si_ID s, si_Version s)) (λ p, mkServiceInfo p.1 p.2). Defined.

#[global] Instance ctlMsg_eq : EqDecision ctlMsg.
Proof. solve_decision. Defined.
#[global] Instance ctlMsg_countable : Countable ctlMsg.
Proof.
  countable_by
    (λ m, (cm_Kind m, cm_Roster m, cm_Services m, cm_Snapshots m,
           (cm_Name m, cm_Names m, cm_Endpoint m, cm_Endpoints m, cm_PushKey m)))
    (λ p, match p with (k, r, s, b, (n, ns, e, es, pk)) => mkCtlMsg k r s b n ns e es pk end).
Defined.

#[global] Instance msg_eq : EqDecision msg.
Proof. solve_decision. Defined.
#[global] Instance msg_countable : Countable msg.
Proof. countable_by (λ m, (ms_ID m, ms_Text m)) (λ p, mkMsg p.1 p.2). Defined.

#[global] Instance storedMsg_eq : EqDecision storedMsg.
Proof. solve_decision. Defined.
#[global] Instance storedMsg_countable : Countable storedMsg.
Proof.
  countable_by (λ m, (sm_ID m, sm_From m, sm_Text m)) (λ p, mkStored p.1.1 p.1.2 p.2).
Defined.

#[global] Instance snapshot_eq : EqDecision snapshot.
Proof. solve_decision. Defined.
#[global] Instance snapshot_countable : Countable snapshot.
Proof. countable_by (λ s, sn_Messages s) (λ l, mkSnapshot l). Defined.

#[local] Instance ex_ctl_cbor : Cbor ctlMsg := bits_cbor ctlMsg.
#[local] Instance ex_ctl_spec : CborSpec ctlMsg := bits_cbor_spec ctlMsg.
#[local] Instance ex_msg_cbor : Cbor msg := bits_cbor msg.
#[local] Instance ex_snap_cbor : Cbor snapshot := bits_cbor snapshot.
#[local] Instance ex_snap_spec : CborSpec snapshot := bits_cbor_spec snapshot.
#[local] Instance ex_services_range : MapRange string (option Service) :=
  map_to_list_range string (option Service).
#[local] Instance ex_blobs_range : MapRange string bytes := map_to_list_range string bytes.
#[local] Instance ex_roles_range : MapRange ParticipantID Role :=
  map_to_list_range ParticipantID Role.

(** ** Muxes *)

Abbreviation ExMux := (Mux Client Service Message).

(** A mux at a client, with a roster and a chat history. *)
Definition ex_mux (c : Client) (roster : gmap ParticipantID Role) (h : list storedMsg) : ExMux :=
  mkMux c (<[ID := Some (mkService (context_of c) h)]> {[CtlID := None]})
    (mkCtl (context_of c) roster ∅ ∅ "" "" "") ∅ false [].

Definition ex_roster : gmap ParticipantID Role :=
  <[1 := RoleHost]> (<[2 := RoleMember]> {[3 := RoleMember]}).
Definition ex_mux2 : ExMux := ex_mux (ex_member 2 x02) ex_roster [].
Definition ex_mux3 : ExMux := ex_mux (ex_member 3 x03) ex_roster [].
Definition ex_muxh (h : list storedMsg) : ExMux := ex_mux ex_hosting ex_roster h.

Lemma ex_mux_ok c r h : mux_ok (ex_mux c r h).
Proof.
  intros k. simpl. destruct (decide (k = ID)) as [->|Hk].
  - rewrite lookup_insert_eq. by split.
  - rewrite lookup_insert_ne by done. rewrite lookup_singleton_Some. naive_solver.
Qed.

Lemma DefaultSuccessorPolicy_spec_witness :
  DefaultSuccessorPolicy (<[2 := RoleObserver]> {[3 := RoleMember]}) = 3 ∧
  ∃ r, (<[2 := RoleObserver]> {[3 := RoleMember]} : gmap ParticipantID Role)
    !! DefaultSuccessorPolicy (<[2 := RoleObserver]> {[3 := RoleMember]}) = Some r ∧ seats r.
Proof.
  split; [vm_compute; reflexivity|].
  refine (proj1 (proj1 (DefaultSuccessorPolicy_spec
    (<[2 := RoleObserver]> {[3 := RoleMember]}) eq_refl) _)).
  exists 3, RoleMember. split; [reflexivity|right; reflexivity].
Defined.

(** Host 1 leaves; 2 takes over and 3 follows. *)
Lemma migration_agrees_witness :
  let after m := maybeMigrate DefaultSuccessorPolicy (m : ExMux) 1 in
  (tr_HostID (mx_client (after ex_mux2)) = 2 ∧ tr_HostID (mx_client (after ex_mux3)) = 2) ∧
  (tr_Role (mx_client (after ex_mux2)) = RoleHost ↔ tr_Self (mx_client ex_mux2) = 2).
Proof.
  pose proof (migration_agrees DefaultSuccessorPolicy [ex_mux2; ex_mux3] client_promoter 1
    (delete 1 ex_roster) 2 eq_refl ltac:(vm_compute; reflexivity)
    ltac:(eexists; vm_compute; reflexivity) ltac:(discriminate)) as H.
  assert (∀ m : ExMux, m ∈ [ex_mux2; ex_mux3] → mux_ok m ∧ tr_HostID (mx_client m) = 1 ∧
    tr_Role (mx_client m) ≠ RoleHost ∧ candidates m 1 = delete 1 ex_roster) as Hall.
  { intros m Hm. rewrite !elem_of_cons, elem_of_nil in Hm.
    destruct Hm as [->|[->|[]]]; (split; [apply ex_mux_ok|]);
      (split; [reflexivity|]); (split; [discriminate|reflexivity]). }
  assert (ex_mux2 ∈ [ex_mux2; ex_mux3]) as H2 by by left.
  assert (ex_mux3 ∈ [ex_mux2; ex_mux3]) as H3 by (right; by left).
  split; [split|].
  - exact (proj1 (proj2 (H Hall ex_mux2 H2))).
  - exact (proj1 (proj2 (H Hall ex_mux3 H3))).
  - exact (proj1 (proj2 (proj2 (H Hall ex_mux2 H2)))).
Defined.

(** The same departure down to the keys: the clients of 2 and 3 after their muxes
    have handled it, and the exchange that follows. *)
Definition ho_h : Client :=
  mx_client (dispatch DefaultSuccessorPolicy ex_mux2 (MemberLeft 1)).1.
Definition ho_s1 : Client :=
  mx_client (dispatch DefaultSuccessorPolicy ex_mux3 (MemberLeft 1)).1.
Definition ho_answer : Key * bytes := ok_or ([], [])
  (HostExchange (cl_draws ho_h) "parley/v1" "lion-42-maple" (j_Flight1 mg_jn) ex_sid0 3 2).
Definition ho_p2 : bytes := ok_or [] (EncodePayload KindRekeyPake2 (mkPake ho_answer.2 false)).
Definition ho_w : GroupKey := ok_or (mkGroupKey [] [])
  (WrapGroupKey (cl_draws ho_h + 1) ho_answer.1 (cl_groupKey ho_h) RoleNone ex_sid0 3).
Definition ho_p3 : bytes := ok_or [] (EncodePayload KindRekey ho_w).
Definition ho_finished : Joiner := (Finish (cl_draws ho_s1) mg_jn ho_answer.2 ex_sid0 3 2).1.
Definition ho_h' : Client := handlePayload DefaultRolePolicy ho_h 3 mg_p1.
Definition ho_s3 : Client :=
  handlePayload DefaultRolePolicy (handlePayload DefaultRolePolicy ho_s1 2 ho_p2) 2 ho_p3.

Lemma ho_survivor (m : ExMux) :
  m ∈ [ex_mux2; ex_mux3] → survivor m 1 (delete 1 ex_roster).
Proof.
  rewrite !elem_of_cons, elem_of_nil. intros [->|[->|[]]]; (split; [apply ex_mux_ok|done..]).
Qed.

Lemma ex_quiet (s : Service) (c : Client) id : (sv_MemberLeft s c id).1.2 = c.
Proof. reflexivity. Qed.

Lemma handover_witness :
  cl_role ho_h = RoleHost ∧ cl_hostID ho_s1 = 2 ∧ cl_groupKey ho_s3 = mg_key ∧
  talks DefaultRolePolicy ho_h' ho_s3 ∧ talks DefaultRolePolicy ho_s3 ho_h'.
Proof.
  destruct (handover DefaultRolePolicy DefaultSuccessorPolicy ex_quiet ex_mux2 ex_mux3 1
    (delete 1 ex_roster) mg_key mg_jn mg_p1 (ex_direct 2 0 mg_p1) ho_finished ho_answer.1 ho_answer.1
    ho_answer.2 ho_p2 (ex_direct 3 0 ho_p2) ho_w ho_p3 (ex_direct 3 0 ho_p3))
    as (H1 & _ & H2 & _ & _ & _ & _ & _ & H3 & _ & _ & _ & H4 & H5).
  - apply ho_survivor. left.
  - apply ho_survivor. right. left.
  - vm_compute. reflexivity.
  - eexists. vm_compute. reflexivity.
  - discriminate.
  - exact mg_members.
  - reflexivity.
  - reflexivity.
  - reflexivity.
  - reflexivity.
  - exact ex_healthy.
  - reflexivity.
  - vm_compute. reflexivity.
  - vm_compute. reflexivity.
  - vm_compute. reflexivity.
  - exact mg_p1_ok.
  - vm_compute. reflexivity.
  - vm_compute. reflexivity.
  - vm_compute. reflexivity.
  - vm_compute. reflexivity.
  - vm_compute. reflexivity.
  - vm_compute. reflexivity.
  - vm_compute. reflexivity.
  - split; [exact H1|]. split; [exact H2|]. split; [exact H3|]. split; [exact H4|exact H5].
Defined.

(** Member 2 leaves, then host 1, before it could announce: 3 waits for 2. *)
Lemma stale_successor_witness :
  let m1 := (dispatch DefaultSuccessorPolicy ex_mux3 (MemberLeft 2)).1 in
  let m2 := (dispatch DefaultSuccessorPolicy m1 (MemberLeft 1)).1 in
  tr_HostID (mx_client m2) = 2 ∧ tr_Role (mx_client m2) ≠ RoleHost.
Proof.
  refine (stale_successor DefaultSuccessorPolicy ex_mux3 client_promoter 1 2 (ex_mux_ok _ _ _)
    eq_refl eq_refl eq_refl _ _ _ _ _ _); try discriminate; [vm_compute; reflexivity|].
  eexists. vm_compute. reflexivity.
Defined.

Definition ex_announce_body : bytes := default [] (Marshal (announce_msg (ex_muxh []))).

(** Member 2, from its start through a migration that makes it the host. *)
Lemma contexts_current_witness :
  let m := (run DefaultSuccessorPolicy (NewMux (ex_member 2 x02) [Chat.New] : ExMux) true
    [SetName "ann"; Incoming (Frame 1 (mkEnvelope CtlID 1 ex_announce_body));
     Incoming (MemberLeft 1)]).1 in
  mux_wf m ∧ ct_ctx (mx_ctl m) = mkContext 2 2 true.
Proof.
  destruct (contexts_current DefaultSuccessorPolicy (ex_member 2 x02) [Chat.New] true
    [SetName "ann"; Incoming (Frame 1 (mkEnvelope CtlID 1 ex_announce_body));
     Incoming (MemberLeft 1)] (ex_member 2 x02)) as [H _].
  - constructor; [discriminate|constructor].
  - split; [exact H|vm_compute; reflexivity].
Defined.

(** ** The control channel *)

(** Member 3 gets member 2's "announcement". *)
Lemma only_host_announces_witness :
  (ctl_HandleFrame ex_mux3 2 ex_announce_body).1 = ex_mux3 ∧
  (ctl_HandleFrame ex_mux3 2 ex_announce_body).2 = Some (CtlNonHost 2).
Proof.
  destruct (only_host_announces ex_mux3 2 ex_announce_body eq_refl ltac:(discriminate)) as [H1 H2].
  split; [exact H1|].
  destruct (Body ctlMsg ex_announce_body) as [m|e] eqn:E; [|vm_compute in E; discriminate E].
  apply (H2 m eq_refl). left. apply (f_equal (ok_or (ctl_kind 0))) in E. simpl in E. rewrite <- E.
  vm_compute. reflexivity.
Defined.

Lemma ex_announce_wf : cbor_wf (announce_msg (ex_muxh [])).
Proof.
  split; [reflexivity|]. split.
  { do 3 (apply map_Forall_insert_2; [reflexivity|]). apply map_Forall_empty. }
  do 3 (split; [intros ? ? E; vm_compute in E; discriminate E|]).
  do 3 (split; [reflexivity|]).
  assert (cm_Services (announce_msg (ex_muxh [])) = [mkServiceInfo CtlID 1; mkServiceInfo ID 1]) as ->
    by (vm_compute; reflexivity).
  split; [constructor; [split; reflexivity|constructor; [split; reflexivity|constructor]]|].
  repeat split; apply Nat.leb_le; vm_compute; reflexivity.
Qed.

Lemma ex_announce_marshal : Marshal (announce_msg (ex_muxh [])) = Some ex_announce_body.
Proof. vm_compute. reflexivity. Qed.

Lemma announcement_syncs_witness :
  let x := ctl_HandleFrame (ex_mux (ex_member 3 x03) ∅ []) 1 ex_announce_body in
  x.2 = None ∧ ct_roster (mx_ctl x.1) = ex_roster.
Proof.
  destruct (announcement_syncs (ex_muxh []) (ex_mux (ex_member 3 x03) ∅ []) 1
    ex_announce_body ex_announce_wf ex_announce_marshal eq_refl eq_refl)
    as (_ & _ & H1 & _ & _ & _ & H2 & _).
  split; [exact H1|exact H2].
Defined.

(** Frames 1, 2, 4, 4 from member 2, with another sender's in between. *)
Definition ex_frames : list (ParticipantID * Envelope) :=
  [(2, mkEnvelope "chat" 1 []); (2, mkEnvelope "chat" 2 []); (1, mkEnvelope "chat" 1 []);
   (2, mkEnvelope "chat" 4 []); (2, mkEnvelope "chat" 4 [])].

Lemma desync_watch_witness :
  desyncs 2 "chat" (foldl (λ m f, handleFrame m f.1 f.2) ex_mux3 ex_frames) = [(3, 4); (5, 4)].
Proof.
  refine (eq_trans (desync_watch ex_mux3 ex_frames 2 "chat" eq_refl _) _);
    [eexists; reflexivity|vm_compute; reflexivity].
Defined.

(** ** Races *)

(** Two goroutines of the host broadcast "a" and "b" for chat. *)
Definition cr_envs : list (ParticipantID * Envelope) :=
  [(1, mkEnvelope "chat" 2 [x62]); (1, mkEnvelope "chat" 1 [x61])].

Definition cr_played : Client :=
  (play [0; 1; 1; 1; 0; 0]%nat
     (ex_host, [utter (Interleave.Say "chat" [x61]); utter (Interleave.Say "chat" [x62])])).1.

Lemma says_cross_witness :
  cl_events (foldl (hears DefaultRolePolicy 1 2) (ex_member 2 x02) (cl_sent cr_played))
  = map (λ e, Frame e.1 e.2) cr_envs ∧
  desyncs 1 "chat" (foldl (λ m f, handleFrame m f.1 f.2) ex_mux2 cr_envs) = [(1, 2); (3, 1)].
Proof.
  destruct (says_cross DefaultRolePolicy ex_host "chat" [x61] [x62] (ex_member 2 x02) 2 ex_mux2)
    as (f1 & f2 & H0 & H1 & H2); try reflexivity.
  - vm_compute. by left.
  - eexists. reflexivity.
  - split; [unfold cr_played; rewrite H0; exact H1|]. refine (eq_trans H2 _). vm_compute. reflexivity.
Defined.

(** Member 3's flight in the middle of member 2's promotion. *)
Definition sa_raw : bytes := (ok_or (KindSealed, []) (DecodePayload mg_p1)).2.
Definition sa_answer : Key * bytes := ok_or ([], [])
  (HostExchange 0 "parley/v1" "lion-42-maple" (j_Flight1 mg_jn) ex_sid0 3 2).
Definition sa_p2 : bytes := ok_or [] (EncodePayload KindRekeyPake2 (mkPake sa_answer.2 false)).
Definition sa_w : GroupKey := ok_or (mkGroupKey [] [])
  (WrapGroupKey 2 sa_answer.1 ex_group RoleNone ex_sid0 3).
Definition sa_p3 : bytes := ok_or [] (EncodePayload KindRekey sa_w).
Definition sa_key : Key := default [] (rand_read 1 KeySize).
Definition sa_joiner : Joiner := (Finish (cl_draws mg_s1) mg_jn sa_answer.2 ex_sid0 3 2).1.
Definition sa_host : Client :=
  (play mid_promotion (mg_n, [promote_p; handlePayload_p DefaultRolePolicy (cl_self mg_s1) mg_p1])).1.
Definition sa_s3 : Client := handlePayload DefaultRolePolicy
  (handlePayload DefaultRolePolicy mg_s1 (cl_self mg_n) sa_p2) (cl_self mg_n) sa_p3.

Lemma sa_decodes : DecodePayload mg_p1 = Ok (KindRekeyPake1, sa_raw).
Proof. vm_compute. reflexivity. Qed.
Lemma sa_body : Body Pake sa_raw = Ok (mkPake (j_Flight1 mg_jn) false).
Proof. vm_compute. reflexivity. Qed.
Lemma sa_answer_ok :
  HostExchange (cl_draws mg_n) (cl_proto mg_n) (cl_phraseC mg_n) (j_Flight1 mg_jn) (cl_sid mg_n)
    (cl_self mg_s1) (cl_self mg_n) = Ok (sa_answer.1, sa_answer.2).
Proof. vm_compute. reflexivity. Qed.
Lemma sa_finish :
  Finish (cl_draws mg_s1) mg_jn sa_answer.2 (cl_sid mg_n) (cl_self mg_s1) (cl_self mg_n)
  = (sa_joiner, Ok sa_answer.1).
Proof. vm_compute. reflexivity. Qed.
Lemma sa_p2_ok : EncodePayload KindRekeyPake2 (mkPake sa_answer.2 false) = Ok sa_p2.
Proof. vm_compute. reflexivity. Qed.
Lemma sa_w_ok :
  WrapGroupKey (cl_draws mg_n + 1 + 1) sa_answer.1 (cl_groupKey mg_n) RoleNone (cl_sid mg_n)
    (cl_self mg_s1) = Ok sa_w.
Proof. vm_compute. reflexivity. Qed.
Lemma sa_p3_ok : EncodePayload KindRekey sa_w = Ok sa_p3.
Proof. vm_compute. reflexivity. Qed.
Lemma sa_direct_ok p : p = sa_p2 ∨ p = sa_p3 →
  Encode MsgDirect (mkDirect (cl_self mg_s1) 0 p) = Ok (ex_direct 3 0 p).
Proof. intros [->| ->]; vm_compute; reflexivity. Qed.
Lemma sa_key_ok : rand_read (cl_draws mg_n + 1) KeySize = Some sa_key.
Proof. vm_compute. reflexivity. Qed.
Lemma sa_joining : cl_rekeyJoiner mg_s1 = Some mg_jn.
Proof. vm_compute. reflexivity. Qed.
Lemma sa_wf : key_wf (cl_groupKey mg_n) ∧ key_wf sa_answer.1.
Proof. split; vm_compute; reflexivity. Qed.
Lemma sa_member : cl_sid mg_s1 = cl_sid mg_n ∧ cl_hostID mg_s1 = cl_self mg_n.
Proof. split; vm_compute; reflexivity. Qed.

Lemma stale_answer_witness :
  cl_groupKey sa_host = sa_key ∧ cl_pairwise sa_host = ∅ ∧ cl_groupKey sa_s3 = ex_group ∧
  ∃ payload, (seal sa_host "chat" [x68]).2 = Ok payload ∧
    handlePayload DefaultRolePolicy sa_s3 (cl_self mg_n) payload = sa_s3.
Proof.
  destruct (stale_answer DefaultRolePolicy mg_n mg_s1 sa_key sa_raw mg_jn mg_p1 sa_joiner
    sa_answer.1 sa_answer.2 sa_p2 (ex_direct 3 0 sa_p2) sa_w sa_p3 (ex_direct 3 0 sa_p3)
    (λ _, eq_refl) eq_refl eq_refl (proj1 sa_member) (proj2 sa_member) sa_joining (proj1 sa_wf)
    (proj2 sa_wf) mg_p1_ok sa_decodes sa_body sa_answer_ok sa_key_ok sa_finish sa_p2_ok sa_w_ok
    sa_p3_ok (sa_direct_ok _ (or_introl eq_refl)) (sa_direct_ok _ (or_intror eq_refl)))
    as (_ & H1 & H2 & _ & H3 & _ & H4).
  unfold sa_host, sa_s3.
  split; [exact H1|]. split; [exact H2|]. split; [exact H3|].
  destruct (seal _ "chat" [x68]) as [h' [payload|e]] eqn:E;
    [|apply (f_equal snd) in E; vm_compute in E; discriminate E].
  exists payload. split; [reflexivity|]. refine (H4 _ _ "chat"%string [x68] h' payload eq_refl E).
  - apply not_in_keys. vm_compute. reflexivity.
  - vm_compute. discriminate.
Defined.

Definition ex_c1 : Client := (BroadcastMsg ex_hosting CtlID [x01]).1.
Definition ex_c2 : Client := (SendTo ex_c1 2 CtlID [x02]).1.
Definition ex_c3 : Client := (BroadcastMsg ex_c2 CtlID [x03]).1.

Lemma ex_sends :
  BroadcastMsg ex_hosting CtlID [x01] = (ex_c1, Ok tt) ∧
  SendTo ex_c1 2 CtlID [x02] = (ex_c2, Ok tt) ∧ BroadcastMsg ex_c2 CtlID [x03] = (ex_c3, Ok tt).
Proof. split; [|split]; vm_compute; reflexivity. Qed.

(** The host announces, sends member 2 a snapshot, announces again: member 3 is
    told that a frame is missing. *)
Lemma unicast_reads_as_gap_witness :
  desyncs 1 CtlID (foldl (λ m f, handleFrame m f.1 f.2) ex_mux3
    [(1, mkEnvelope CtlID 1 [x01]); (1, mkEnvelope CtlID 3 [x03])]) = [(2, 3)].
Proof.
  destruct ex_sends as (H1 & H2 & H3).
  refine (eq_trans _ (proj1 (unicast_reads_as_gap ex_mux3 ex_hosting 2 CtlID [x01] [x02] [x03]
    ex_c1 ex_c2 ex_c3 H1 H2 H3 eq_refl ltac:(eexists; reflexivity)) eq_refl)).
  reflexivity.
Defined.

(** ** Chat *)

Definition ex_history : list storedMsg := [mkStored 7 1 "hi"; mkStored 8 2 "hello"].

Lemma ex_history_ok c h : h = [] ∨ h = ex_history ∨ h = take 1 ex_history →
  hist_ok (mkService (context_of c) h).
Proof.
  intros [->|[->| ->]]; (split; [|apply Nat.leb_le; reflexivity]); simpl;
    repeat (constructor; [set_solver|]); constructor.
Qed.

Lemma history_bounded_witness :
  hist_ok (Say (mkService (context_of ex_hosting) ex_history) ex_hosting 5 "again").1.1.1.
Proof.
  exact (proj2 (history_bounded (mkService (context_of ex_hosting) ex_history) ex_hosting 5 "again" []
    (ex_history_ok _ ex_history ltac:(auto)))).
Defined.

Definition ex_live : bytes := default [] (marshal (mkMsg 7 "hi")).
Definition ex_snap : bytes := default [] (marshal (mkSnapshot ex_history)).

(** Message 7 comes live and in the snapshot. *)
Lemma every_message_once_witness :
  ∃ s' es, foldl receive_one (mkService (context_of ex_hosting) [], [])
    [Live 1 ex_live; Snap ex_snap; Live 1 ex_live] = (s', es) ∧ NoDup (sm_ID <$> ch_history s') ∧
    es = to_message <$>
      first_arrivals [] ([Live 1 ex_live; Snap ex_snap; Live 1 ex_live] ≫= Chat.carried).
Proof.
  pose proof (every_message_once (mkService (context_of ex_hosting) [])
    [Live 1 ex_live; Snap ex_snap; Live 1 ex_live] (ex_history_ok _ [] ltac:(auto))
    ltac:(apply Nat.leb_le; vm_compute; reflexivity)) as H.
  destruct (foldl receive_one _ _) as [s' es]. destruct H as (_ & He & H & _).
  exists s', es. split; [reflexivity|]. split; [exact H|exact He].
Defined.

Example ex_once :
  foldl receive_one (mkService (context_of ex_hosting) [], [])
    [Live 1 ex_live; Snap ex_snap; Live 1 ex_live]
  = (mkService (context_of ex_hosting) ex_history, [mkMessage 1 "hi"; mkMessage 2 "hello"]).
Proof. vm_compute. reflexivity. Qed.

Definition ex_snap_msg : ctlMsg := mkCtlMsg ctlKindSnapshot ∅ [] {[ID := ex_snap]} "" ∅ "" ∅ "".
Definition ex_snap_body : bytes := default [] (Marshal ex_snap_msg).
Definition ex_snap_send : Client * bool := tr_SendTo ex_hosting 3 CtlID ex_snap_body.

Lemma ex_snap_wf : cbor_wf ex_snap_msg.
Proof.
  split; [reflexivity|]. do 3 (split; [intros ? ? E; vm_compute in E; discriminate E|]).
  split; [apply map_Forall_singleton; reflexivity|]. do 3 (split; [reflexivity|]).
  split; [constructor|]. repeat split; apply Nat.leb_le; vm_compute; reflexivity.
Qed.

Lemma ex_history_wf : cbor_wf (mkSnapshot ex_history).
Proof. split; [|apply Nat.leb_le; reflexivity]. repeat (constructor; [by split|]). constructor. Qed.

(** Member 3 already has the first message. *)
Lemma late_joiner_catches_up_witness :
  mx_events (ctl_HandleFrame (ex_mux (ex_member 3 x03) ex_roster (take 1 ex_history)) 1
    ex_snap_body).1 = [AppEvent (mkMessage 2 "hello")].
Proof.
  destruct (late_joiner_catches_up (ex_muxh ex_history)
    (ex_mux (ex_member 3 x03) ex_roster (take 1 ex_history))
    (mkService (context_of ex_hosting) ex_history)
    (mkService (context_of (ex_member 3 x03)) (take 1 ex_history)) 3 ex_snap ex_snap_body
    ex_snap_send.1 ex_snap_send.2 eq_refl eq_refl (ex_history_ok _ ex_history ltac:(auto))
    (ex_history_ok _ (take 1 ex_history) ltac:(auto)) eq_refl ltac:(apply Nat.leb_le; reflexivity)
    ltac:(discriminate) ex_history_wf eq_refl ltac:(vm_compute; discriminate) ex_snap_wf
    ltac:(vm_compute; reflexivity) (surjective_pairing _)) as (_ & H & _).
  refine (eq_trans (f_equal (λ x, mx_events x.1) H) _). vm_compute. reflexivity.
Defined.
