(* ===== verification/MuxEvents.v ===== *)
(** * The mux's event channel (service/mux.go: emit, shutdown, Close)

    Emits from several goroutines race the one shutdown that closes the channel.
    A goroutine inside [emit] is between its two critical sections; the critical
    sections, the [select] and the consumer's receive are the atomic steps.  A
    send on a closed channel and a second close panic. *)
From S2P Require Import Prelude.

Section Events.
Context {Ev : Type}.

(** Inside [emit]: at the [select], or past it. *)
Inductive emitter := Selecting (e : Ev) | Leaving.

Definition eventsCap : nat := 256.

Record evs := mkEvs {
  es_closed : bool;
  es_pending : Z;
  es_quit : bool;
  es_chan_closed : bool;
  es_buf : list Ev;
  es_received : list Ev;
  es_emitters : gmap N emitter;
  es_panic : bool }.

Definition init_evs : evs := mkEvs false 0 false false [] [] ∅ false.

Definition panic (s : evs) : evs :=
  mkEvs (es_closed s) (es_pending s) (es_quit s) (es_chan_closed s) (es_buf s) (es_received s)
    (es_emitters s) true.

(** [close(m.events)]. *)
Definition close_events (s : evs) : evs :=
  if es_chan_closed s then panic s
  else mkEvs (es_closed s) (es_pending s) (es_quit s) true (es_buf s) (es_received s)
         (es_emitters s) (es_panic s).

(** [emit], up to the [select]. *)
Definition emit_enter (s : evs) (t : N) (e : Ev) : evs :=
  if es_closed s then s
  else mkEvs (es_closed s) (es_pending s + 1) (es_quit s) (es_chan_closed s) (es_buf s)
         (es_received s) (<[t := Selecting e]> (es_emitters s)) (es_panic s).

(** The [select]'s send; [None] while the buffer is full. *)
Definition emit_send (s : evs) (t : N) : option evs :=
  match es_emitters s !! t with
  | Some (Selecting e) =>
      if es_chan_closed s then Some (panic s)
      else
        buf ← chan_try_send eventsCap (es_buf s) e;
        Some (mkEvs (es_closed s) (es_pending s) (es_quit s) (es_chan_closed s) buf
                (es_received s) (<[t := Leaving]> (es_emitters s)) (es_panic s))
  | _ => None
  end.

(** The [select]'s other branch: the event is dropped. *)
Definition emit_quit (s : evs) (t : N) : option evs :=
  match es_emitters s !! t with
  | Some (Selecting e) =>
      if es_quit s then
        Some (mkEvs (es_closed s) (es_pending s) (es_quit s) (es_chan_closed s) (es_buf s)
                (es_received s) (<[t := Leaving]> (es_emitters s)) (es_panic s))
      else None
  | _ => None
  end.

(** [emit], the second critical section. *)
Definition emit_leave (s : evs) (t : N) : option evs :=
  match es_emitters s !! t with
  | Some Leaving =>
      let s := mkEvs (es_closed s) (es_pending s - 1) (es_quit s) (es_chan_closed s) (es_buf s)
                 (es_received s) (delete t (es_emitters s)) (es_panic s) in
      Some (if es_closed s && bool_decide (es_pending s = 0)%Z then close_events s else s)
  | _ => None
  end.

Definition shutdown (s : evs) : evs :=
  if es_closed s then s
  else
    let s := mkEvs true (es_pending s) true (es_chan_closed s) (es_buf s) (es_received s)
               (es_emitters s) (if es_quit s then true else es_panic s) in
    if bool_decide (es_pending s = 0)%Z then close_events s else s.

Definition receive (s : evs) : option evs :=
  match es_buf s with
  | [] => None
  | e :: buf =>
      Some (mkEvs (es_closed s) (es_pending s) (es_quit s) (es_chan_closed s) buf
              (es_received s ++ [e]) (es_emitters s) (es_panic s))
  end.

(** A step of a goroutine that is inside [emit]. *)
Inductive emitter_step : evs → evs → Prop :=
| em_send s t s' : emit_send s t = Some s' → emitter_step s s'
| em_quit s t s' : emit_quit s t = Some s' → emitter_step s s'
| em_leave s t s' : emit_leave s t = Some s' → emitter_step s s'.

Inductive estep : evs → evs → Prop :=
| es_enter s t e : es_emitters s !! t = None → estep s (emit_enter s t e)
| es_inside s s' : emitter_step s s' → estep s s'
| es_shutdown s : estep s (shutdown s)
| es_receive s s' : receive s = Some s' → estep s s'.

(** ** The protocol's invariant *)

Record evs_inv (s : evs) : Prop := {
  ei_pending : es_pending s = Z.of_nat (size (es_emitters s));
  ei_quit : es_quit s = es_closed s;
  ei_chan : es_chan_closed s = true ↔ es_closed s = true ∧ es_emitters s = ∅;
  ei_cap : (length (es_buf s) ≤ eventsCap)%nat;
  ei_panic : es_panic s = false
}.

Lemma init_inv : evs_inv init_evs.
Proof. split; try done; simpl; [naive_solver|lia]. Qed.

Lemma size_pos_lookup (m : gmap N emitter) t x : m !! t = Some x → m ≠ ∅.
Proof. intros E ->. by rewrite lookup_empty in E. Qed.

Lemma leave_inv s t s' : evs_inv s → emit_leave s t = Some s' → evs_inv s'.
Proof.
  intros [Hp Hq Hc Hl Hn]. unfold emit_leave.
  destruct (es_emitters s !! t) as [[]|] eqn:Et; try done. intros [= <-].
  pose proof (size_pos_lookup _ _ _ Et) as Hne.
  assert (es_chan_closed s = false) as Ho
    by (destruct (es_chan_closed s); [destruct (proj1 Hc eq_refl); done|done]).
  assert (es_pending s - 1 = Z.of_nat (size (delete t (es_emitters s))))%Z as Hp'.
  { rewrite Hp, map_size_delete_Some by done.
    assert (size (es_emitters s) ≠ 0%nat) by (by intros ?%map_size_empty_inv). lia. }
  simpl. destruct (es_closed s) eqn:Ecl; simpl.
  - rewrite Hp'. case_bool_decide as Hz.
    + unfold close_events. simpl. rewrite Ho. split; simpl; try done.
      split; [|done]. intros _. split; [done|]. apply map_size_empty_inv. lia.
    + split; simpl; try done. rewrite Ho. split; [done|].
      intros [_ E]. rewrite E, map_size_empty in Hz. done.
  - split; simpl; try done. rewrite Ho. naive_solver.
Qed.

Lemma eshutdown_inv s : evs_inv s → evs_inv (shutdown s).
Proof.
  intros [Hp Hq Hc Hl Hn]. unfold shutdown. destruct (es_closed s) eqn:Ecl;
    [split; by rewrite ?Ecl|].
  rewrite Hq. cbn [es_pending]. case_bool_decide as Hz.
  - unfold close_events. simpl.
    destruct (es_chan_closed s) eqn:Eo; [destruct (proj1 Hc eq_refl); done|].
    split; simpl; try done. split; [|done]. intros _. split; [done|].
    apply map_size_empty_inv. lia.
  - split; simpl; try done. destruct (es_chan_closed s) eqn:Eo; [destruct (proj1 Hc eq_refl); done|].
    split; [done|]. intros [_ E]. rewrite E, map_size_empty in Hp. done.
Qed.

Lemma send_inv s t s' : evs_inv s → emit_send s t = Some s' → evs_inv s'.
Proof.
  intros [Hp Hq Hc Hl Hn]. unfold emit_send.
  destruct (es_emitters s !! t) as [[e|]|] eqn:Et; try done.
  pose proof (size_pos_lookup _ _ _ Et) as Hne.
  destruct (es_chan_closed s) eqn:Eo; [by destruct (proj1 Hc eq_refl)|].
  destruct (chan_try_send _ _ _) as [buf|] eqn:Eb; simpl; [|done]. intros [= <-].
  apply chan_try_send_Some in Eb as [Hlt ->]. split; simpl; try done.
  - by rewrite map_size_insert_Some by eauto.
  - split; [done|]. intros [_ E]. by apply insert_non_empty in E.
  - rewrite length_app. simpl. lia.
Qed.

Lemma quit_inv s t s' : evs_inv s → emit_quit s t = Some s' → evs_inv s'.
Proof.
  intros [Hp Hq Hc Hl Hn]. unfold emit_quit.
  destruct (es_emitters s !! t) as [[e|]|] eqn:Et; try done.
  pose proof (size_pos_lookup _ _ _ Et) as Hne.
  destruct (es_quit s); [|done]. intros [= <-]. split; simpl; try done.
  - by rewrite map_size_insert_Some by eauto.
  - split; [intros H; by destruct (proj1 Hc H)|]. intros [_ E]. by apply insert_non_empty in E.
Qed.

Lemma emitter_step_inv s s' : evs_inv s → emitter_step s s' → evs_inv s'.
Proof.
  intros Hi Hs. destruct Hs as [s t s' H|s t s' H|s t s' H];
    [by eapply send_inv|by eapply quit_inv|by eapply leave_inv].
Qed.

Lemma estep_inv s s' : evs_inv s → estep s s' → evs_inv s'.
Proof.
  intros Hi Hs. destruct Hs as [s t e Ht|s s' Hs|s|s s' Hs].
  - destruct Hi as [Hp Hq Hc Hl Hn]. unfold emit_enter.
    destruct (es_closed s) eqn:Ecl; [split; by rewrite ?Ecl|]. split; simpl; try done.
    + rewrite map_size_insert_None by done. lia.
    + split; [intros H; destruct (proj1 Hc H); congruence|by intros [? _]].
  - by eapply emitter_step_inv.
  - by apply eshutdown_inv.
  - destruct Hi as [Hp Hq Hc Hl Hn]. unfold receive in Hs.
    destruct (es_buf s); [done|]. injection Hs as <-. split; simpl in *; try done. lia.
Qed.

(** ** Properties *)

Definition reachable (s : evs) : Prop := rtc estep init_evs s.

Lemma ereachable_inv s : reachable s → evs_inv s.
Proof.
  intros Hs. assert (∀ a b, rtc estep a b → evs_inv a → evs_inv b) as H
    by (induction 1; eauto using estep_inv).
  eapply H; [exact Hs|apply init_inv].
Qed.

(** C34: no interleaving panics.  Whatever goroutines emit, however often the mux
    is closed and whenever the consumer reads, no event is ever sent on the closed
    channel and the channel is closed at most once; it is closed exactly when
    shutdown has begun and the last emit has left, and the buffer never exceeds
    its capacity. *)
Theorem emit_never_panics s :
  reachable s →
  es_panic s = false ∧
  (es_chan_closed s = true ↔ es_closed s = true ∧ es_emitters s = ∅) ∧
  (length (es_buf s) ≤ eventsCap)%nat.
Proof. intros [_ _ Hc Hl Hn]%ereachable_inv. done. Qed.

(** How many steps the goroutines inside [emit] can still take. *)
Definition emitter_work (x : emitter) : nat := match x with Selecting _ => 2 | Leaving => 1 end.
Definition work (s : evs) : nat := map_fold (λ _ x n, emitter_work x + n)%nat 0%nat (es_emitters s).

Lemma work_insert (m : gmap N emitter) t x :
  m !! t = None →
  map_fold (λ _ x n, emitter_work x + n)%nat 0%nat (<[t := x]> m)
  = (emitter_work x + map_fold (λ _ x n, emitter_work x + n)%nat 0%nat m)%nat.
Proof. intros Ht. rewrite map_fold_insert_L; [done| |done]. intros. lia. Qed.

Lemma work_lookup s t x :
  es_emitters s !! t = Some x →
  work s = (emitter_work x + map_fold (λ _ x n, emitter_work x + n)%nat 0%nat
              (delete t (es_emitters s)))%nat.
Proof.
  intros Ht. unfold work. rewrite <- (insert_delete_id (es_emitters s) t x) at 1 by done.
  apply work_insert, lookup_delete_eq.
Qed.

Lemma work_leave s t s' : emit_leave s t = Some s' → work s = S (work s').
Proof.
  unfold emit_leave. destruct (es_emitters s !! t) as [[]|] eqn:Et; try done.
  intros [= <-]. rewrite (work_lookup s t Leaving) by done. simpl. f_equal.
  unfold close_events. cbn [es_closed es_pending es_chan_closed].
  destruct (_ && _); [|done]. by destruct (es_chan_closed s).
Qed.

Lemma work_quit s t s' : emit_quit s t = Some s' → work s = S (work s').
Proof.
  unfold emit_quit. destruct (es_emitters s !! t) as [[e|]|] eqn:Et; try done.
  destruct (es_quit s); [|done]. intros [= <-].
  rewrite (work_lookup s t (Selecting e)) by done. unfold work. cbn [es_emitters].
  rewrite <- (insert_delete_eq (es_emitters s)), work_insert by apply lookup_delete_eq. done.
Qed.

(** Once shutdown has begun, some goroutine inside [emit] can go on, whatever the
    consumer does. *)
Lemma closed_progress s :
  evs_inv s → es_closed s = true → es_emitters s ≠ ∅ →
  ∃ s', emitter_step s s' ∧ work s = S (work s') ∧ es_closed s' = true.
Proof.
  intros Hi Hcl Hne. destruct (map_choose _ Hne) as (t & x & Ht). destruct x as [e|].
  - assert (∃ s', emit_quit s t = Some s' ∧ es_closed s' = true) as (s' & Hs & Hcl').
    { unfold emit_quit. rewrite Ht, (ei_quit _ Hi), Hcl. by eexists. }
    exists s'. split; [by eapply em_quit|]. split; [by eapply work_quit|done].
  - assert (∃ s', emit_leave s t = Some s' ∧ es_closed s' = true) as (s' & Hs & Hcl').
    { unfold emit_leave. rewrite Ht. eexists. split; [done|]. unfold close_events. simpl.
      rewrite Hcl. simpl. case_bool_decide; [|done]. by destruct (es_chan_closed s). }
    exists s'. split; [by eapply em_leave|]. split; [by eapply work_leave|done].
Qed.

Lemma closed_finishes n s :
  evs_inv s → es_closed s = true → work s = n →
  ∃ s', nsteps emitter_step n s s' ∧ es_chan_closed s' = true.
Proof.
  revert s. induction n as [|n IH]; intros s Hi Hcl Hw.
  - exists s. split; [constructor|]. apply (ei_chan _ Hi). split; [done|].
    destruct (decide (es_emitters s = ∅)) as [|Hne]; [done|].
    destruct (closed_progress s Hi Hcl Hne) as (s' & _ & E & _). lia.
  - destruct (decide (es_emitters s = ∅)) as [He|Hne].
    { unfold work in Hw. by rewrite He, map_fold_empty in Hw. }
    destruct (closed_progress s Hi Hcl Hne) as (s1 & Hs & E & Hcl1).
    destruct (IH s1) as (s' & Hn & Hc); [by eapply emitter_step_inv|done|lia|].
    exists s'. split; [by econstructor|done].
Qed.

(** C35: shutdown always completes.  From any reachable state, once the mux is
    shut down, the goroutines still inside [emit] need no help from a consumer:
    as long as one is left some step of theirs is possible, and after at most two
    steps of each the channel is closed, so a consumer ranging over it ends. *)
Theorem shutdown_closes s :
  reachable s →
  let s0 := shutdown s in
  (es_emitters s0 ≠ ∅ → ∃ s', emitter_step s0 s') ∧
  ∃ n s', nsteps emitter_step n s0 s' ∧ (n ≤ 2 * size (es_emitters s0))%nat ∧
    es_chan_closed s' = true.
Proof.
  intros Hr s0. pose proof (eshutdown_inv s (ereachable_inv s Hr)) as Hi. fold s0 in Hi.
  assert (es_closed s0 = true) as Hcl.
  { unfold s0, shutdown. destruct (es_closed s) eqn:E; [done|]. case_bool_decide; [|done].
    unfold close_events. simpl. by destruct (es_chan_closed s). }
  split.
  - intros Hne. destruct (closed_progress s0 Hi Hcl Hne) as (s' & Hs & _). eauto.
  - destruct (closed_finishes (work s0) s0 Hi Hcl eq_refl) as (s' & Hn & Hc).
    exists (work s0), s'. split; [done|]. split; [|done]. unfold work. clear.
    induction (es_emitters s0) as [|t x m Ht IH] using map_ind; [by rewrite map_fold_empty|].
    rewrite work_insert, map_size_insert_None by done. destruct x; simpl; lia.
Qed.

(** The events handed to the channel, in order. *)
Definition delivered (s : evs) : list Ev := es_received s ++ es_buf s.

(** events go through whole and in order.  A step adds to the sequence of
    delivered events at most one event, at its end, that some goroutine was
    emitting, never while the channel is closed; what has been delivered is never
    reordered or lost, and the consumer reads it in that order. *)
Theorem delivered_in_order s s' :
  reachable s → estep s s' →
  (delivered s' = delivered s ∨
   ∃ t e, es_emitters s !! t = Some (Selecting e) ∧ es_emitters s' !! t = Some Leaving ∧
     delivered s' = delivered s ++ [e] ∧ es_chan_closed s = false) ∧
  es_received s `prefix_of` es_received s'.
Proof.
  intros Hr%ereachable_inv Hs. destruct Hs as [s t e Ht|s s' Hs|s|s s' Hs].
  - unfold emit_enter. destruct (es_closed s); split; by left || done.
  - destruct Hs as [s t s' H|s t s' H|s t s' H].
    + unfold emit_send in H. destruct (es_emitters s !! t) as [[e|]|] eqn:Et; try done.
      destruct (es_chan_closed s) eqn:Eo.
      { pose proof (proj1 (ei_chan _ Hr) Eo) as [_ E]. by rewrite E, lookup_empty in Et. }
      destruct (chan_try_send _ _ _) as [buf|] eqn:Eb; simpl in H; [|done]. injection H as <-.
      apply chan_try_send_Some in Eb as [_ ->]. split; [|done]. right. exists t, e.
      split; [done|]. split; [apply lookup_insert_eq|]. split; [|done].
      unfold delivered. simpl. by rewrite (assoc_L (++)).
    + unfold emit_quit in H. destruct (es_emitters s !! t) as [[e|]|]; try done.
      destruct (es_quit s); [|done]. injection H as <-. split; [by left|done].
    + unfold emit_leave in H. destruct (es_emitters s !! t) as [[]|]; try done.
      injection H as <-. unfold close_events. cbn [es_closed es_pending es_chan_closed].
      split; [left|]; destruct (_ && _); try done; by destruct (es_chan_closed s).
  - unfold shutdown, close_events. cbn [es_pending es_chan_closed].
    split; [left|]; (destruct (es_closed s); [done|]); case_bool_decide; try done;
      by destruct (es_chan_closed s).
  - unfold receive in Hs. destruct (es_buf s) as [|e buf] eqn:Eb; [done|]. injection Hs as <-.
    split; [left; unfold delivered; simpl; by rewrite Eb, <- (assoc_L (++))|].
    by eexists.
Qed.
End Events.

(** ** A run *)

Definition ex_emitting : evs := emit_enter (emit_enter init_evs 1 "one"%string) 2 "two"%string.

Lemma ex_emitting_reachable : reachable ex_emitting.
Proof.
  eapply rtc_l; [apply (es_enter _ 1%N "one"%string); reflexivity|].
  eapply rtc_l; [apply (es_enter _ 2%N "two"%string); reflexivity|]. apply rtc_refl.
Qed.

Lemma emit_never_panics_witness : es_panic ex_emitting = false.
Proof. exact (proj1 (emit_never_panics ex_emitting ex_emitting_reachable)). Defined.

Lemma shutdown_closes_witness :
  ∃ n s', nsteps emitter_step n (shutdown ex_emitting) s' ∧ (n ≤ 4)%nat ∧ es_chan_closed s' = true.
Proof. exact (proj2 (shutdown_closes ex_emitting ex_emitting_reachable)). Defined.

Lemma delivered_in_order_witness :
  es_received ex_emitting `prefix_of` es_received (shutdown ex_emitting).
Proof.
  exact (proj2 (delivered_in_order ex_emitting (shutdown ex_emitting) ex_emitting_reachable
    (es_shutdown ex_emitting))).
Defined.
