(* ===== verification/Encoding.v ===== *)
(** * Text the dashboard signs (encoding/base64, strconv, strings)

    The standard library functions behind the dashboard's tokens: base64 in the
    unpadded URL alphabet with the leniencies of [DecodeString] (line breaks are
    skipped, leftover bits ignored), decimal [int64]s, and [strings.Cut]. *)
From S2P Require Import Prelude.
From Stdlib Require Import ZifyN ZifyNat.

#[local] Open Scope N_scope.

(** ** base64, RawURLEncoding *)

(** The alphabet: A-Z, a-z, 0-9, '-', '_'. *)
Definition b64_char (n : N) : ascii :=
  ascii_of_N (if n <? 26 then 65 + n else if n <? 52 then 71 + n
              else if n <? 62 then n - 4 else if n =? 62 then 45 else 95).

Definition b64_val (c : ascii) : option N :=
  let n := N_of_ascii c in
  if (65 <=? n) && (n <=? 90) then Some (n - 65)
  else if (97 <=? n) && (n <=? 122) then Some (n - 71)
  else if (48 <=? n) && (n <=? 57) then Some (n + 4)
  else if n =? 45 then Some 62 else if n =? 95 then Some 63 else None.

(** The 6-bit groups of a byte string; a last group is filled with zeros. *)
Fixpoint sextets (l : bytes) : list N :=
  match l with
  | [] => []
  | [a] => let a := Byte.to_N a in [a / 4; (a mod 4) * 16]
  | [a; b] =>
      let a := Byte.to_N a in let b := Byte.to_N b in
      [a / 4; (a mod 4) * 16 + b / 16; (b mod 16) * 4]
  | a :: b :: c :: l =>
      let a := Byte.to_N a in let b := Byte.to_N b in let c := Byte.to_N c in
      [a / 4; (a mod 4) * 16 + b / 16; (b mod 16) * 4 + c / 64; c mod 64] ++ sextets l
  end.

(** The bytes of a sequence of groups; one lonely group is an error. *)
Fixpoint octets (v : list N) : option bytes :=
  match v with
  | [] => Some []
  | [_] => None
  | [w; x] => Some [byte_of_N (w * 4 + x / 16)]
  | [w; x; y] => Some [byte_of_N (w * 4 + x / 16); byte_of_N ((x mod 16) * 16 + y / 4)]
  | w :: x :: y :: z :: v =>
      l ← octets v;
      Some ([byte_of_N (w * 4 + x / 16); byte_of_N ((x mod 16) * 16 + y / 4);
             byte_of_N ((y mod 4) * 64 + z)] ++ l)
  end.

Definition is_newline (c : ascii) : bool :=
  (N_of_ascii c =? 10) || (N_of_ascii c =? 13).

Definition EncodeToString (l : bytes) : string :=
  String.string_of_list_ascii (b64_char <$> sextets l).

Definition DecodeString (s : string) : option bytes :=
  v ← mapM b64_val (filter (λ c, is_newline c = false) (String.list_ascii_of_string s));
  octets v.

(** ** The round trip *)

Lemma b64_char_ok n :
  n < 64 → b64_val (b64_char n) = Some n ∧ is_newline (b64_char n) = false ∧
  b64_char n ≠ "."%char.
Proof.
  intros Hn.
  assert (Forall (λ k, let n := N.of_nat k in
    bool_decide (b64_val (b64_char n) = Some n) && negb (is_newline (b64_char n))
    && negb (bool_decide (b64_char n = "."%char)) = true) (seq 0 64)) as H
    by (repeat constructor).
  rewrite Forall_forall in H. specialize (H (N.to_nat n) ltac:(apply elem_of_seq; lia)).
  cbv zeta in H. rewrite N2Nat.id in H.
  apply andb_true_iff in H as [[H1 H2%negb_true_iff]%andb_true_iff H3%negb_true_iff].
  apply bool_decide_eq_true in H1. by apply bool_decide_eq_false in H3.
Qed.

Ltac div_lia := Zify.zify; Z.div_mod_to_equations; lia.

Lemma to_N_lt (b : byte) : Byte.to_N b < 256.
Proof. pose proof (Byte.to_N_bounded b). lia. Qed.

Lemma byte_of_to_N n b : n = Byte.to_N b → byte_of_N n = b.
Proof.
  intros ->. unfold byte_of_N. rewrite N.mod_small by apply to_N_lt. by rewrite Byte.of_to_N.
Qed.

(** Three bytes at a time. *)
Lemma bytes_ind3 (P : bytes → Prop) :
  P [] → (∀ a, P [a]) → (∀ a b, P [a; b]) →
  (∀ a b c l, P l → P (a :: b :: c :: l)) → ∀ l, P l.
Proof.
  intros H0 H1 H2 H3. fix IH 1. intros [|a [|b [|c l]]]; [done..|].
  apply H3, IH.
Qed.

Lemma octets_sextets l : octets (sextets l) = Some l.
Proof.
  induction l as [|a|a b|a b c l IH] using bytes_ind3.
  - done.
  - cbn [sextets octets]. do 2 f_equal. apply byte_of_to_N.
    pose proof (to_N_lt a). div_lia.
  - cbn [sextets octets]. pose proof (to_N_lt a). pose proof (to_N_lt b).
    do 2 f_equal; [|f_equal]; apply byte_of_to_N; div_lia.
  - cbn [sextets octets app]. rewrite IH. cbn [mbind option_bind app].
    pose proof (to_N_lt a). pose proof (to_N_lt b). pose proof (to_N_lt c).
    do 2 f_equal; [|f_equal; [|f_equal]]; apply byte_of_to_N; div_lia.
Qed.

Lemma sextets_lt l : Forall (λ n, n < 64) (sextets l).
Proof.
  induction l as [|a|a b|a b c l IH] using bytes_ind3.
  - constructor.
  - pose proof (to_N_lt a). repeat constructor; div_lia.
  - pose proof (to_N_lt a). pose proof (to_N_lt b). repeat constructor; div_lia.
  - pose proof (to_N_lt a). pose proof (to_N_lt b). pose proof (to_N_lt c).
    cbn [sextets app]. repeat (constructor; [div_lia|]). done.
Qed.

Lemma b64_vals v :
  Forall (λ n, n < 64) v →
  mapM b64_val (filter (λ c, is_newline c = false) (b64_char <$> v)) = Some v.
Proof.
  induction 1 as [|n v Hn _ IH]; [done|]. destruct (b64_char_ok n Hn) as (Hv & Hl & _).
  rewrite fmap_cons, filter_cons_True by done. cbn [mapM]. by rewrite Hv, IH.
Qed.

Lemma DecodeString_Encode l : DecodeString (EncodeToString l) = Some l.
Proof.
  unfold DecodeString, EncodeToString.
  rewrite String.list_ascii_of_string_of_list_ascii, b64_vals by apply sextets_lt.
  apply octets_sextets.
Qed.

(** Encoded text has no dot, the separator of signed tokens. *)
Lemma Encode_no_dot l : "."%char ∉ String.list_ascii_of_string (EncodeToString l).
Proof.
  unfold EncodeToString. rewrite String.list_ascii_of_string_of_list_ascii.
  intros (n & E & Hn)%list_elem_of_fmap.
  pose proof (proj1 (Forall_forall _ _) (sextets_lt l) n Hn) as Hlt.
  by apply (proj2 (proj2 (b64_char_ok n Hlt))).
Qed.

Example b64_leniency :
  EncodeToString [x68; x69] = "aGk"%string ∧ DecodeString "aGk" = Some [x68; x69] ∧
  DecodeString "aGl" = Some [x68; x69] ∧ DecodeString "a" = None ∧ DecodeString "aG+" = None.
Proof. repeat split. Qed.

(** ** strconv *)

Definition digit_of (c : ascii) : option N :=
  let n := N_of_ascii c in if (48 <=? n) && (n <=? 57) then Some (n - 48) else None.

(** [FormatInt(z, 10)]. *)
Definition FormatInt (z : Z) : string :=
  if bool_decide (z < 0)%Z then ("-" +:+ decimal (Z.to_N (- z)))%string else decimal (Z.to_N z).

Definition ParseUint (l : list ascii) : option N :=
  match l with [] => None | _ => undigits <$> mapM digit_of l end.

(** [ParseInt(s, 10, 64)]: an optional sign, digits, and the range of [int64]. *)
Definition ParseInt (s : string) : option Z :=
  z ← match String.list_ascii_of_string s with
      | [] => None
      | c :: l =>
          if bool_decide (c = "-"%char) then n ← ParseUint l; Some (- Z.of_N n)%Z
          else n ← ParseUint (if bool_decide (c = "+"%char) then l else c :: l); Some (Z.of_N n)
      end;
  if bool_decide (- 2 ^ 63 ≤ z < 2 ^ 63)%Z then Some z else None.

Lemma digit_of_char d : d < 10 → digit_of (digit_char d) = Some d.
Proof.
  intros Hd. unfold digit_of, digit_char. rewrite N_ascii_embedding by lia.
  destruct (N.leb_spec 48 (48 + d)), (N.leb_spec (48 + d) 57); try lia. simpl. f_equal. lia.
Qed.

Lemma digits_of_chars l :
  Forall (λ d, d < 10) l → mapM digit_of (digit_char <$> l) = Some l.
Proof.
  induction 1 as [|d l Hd _ IH]; [done|]. rewrite fmap_cons. cbn [mapM].
  by rewrite digit_of_char, IH.
Qed.

Lemma ParseUint_decimal n : ParseUint (decimal_chars n) = Some n ∧ decimal_chars n ≠ [].
Proof.
  unfold decimal_chars. set (l := digits _ n).
  destruct (digits_spec (S (N.to_nat (N.log2 n))) n) as [E Hl]; [lia|]. fold l in E, Hl.
  assert (l ≠ []) as Hn.
  { unfold l. cbn [digits]. case_match; [done|]. by intros [_ ?]%app_eq_nil. }
  split; [|by intros ?%fmap_nil_inv].
  unfold ParseUint. rewrite digits_of_chars by done. destruct l; [done|]. simpl fmap. by rewrite <- E.
Qed.

Lemma decimal_unsigned n c l : decimal_chars n = c :: l → c ≠ "-"%char ∧ c ≠ "+"%char.
Proof.
  intros E. assert (c ∈ decimal_chars n) as Hc by (rewrite E; by left).
  apply decimal_chars_digits in Hc as [Hc _]. split; intros ->; by apply Hc.
Qed.

Lemma ParseInt_Format z : (- 2 ^ 63 ≤ z < 2 ^ 63)%Z → ParseInt (FormatInt z) = Some z.
Proof.
  intros Hz. unfold FormatInt, ParseInt. case_bool_decide as Hn.
  - rewrite chars_app. unfold decimal. rewrite String.list_ascii_of_string_of_list_ascii.
    simpl app. destruct (ParseUint_decimal (Z.to_N (- z))) as [-> _]. simpl.
    rewrite Z2N.id, Z.opp_involutive by lia. by rewrite bool_decide_eq_true_2.
  - unfold decimal. rewrite String.list_ascii_of_string_of_list_ascii.
    destruct (ParseUint_decimal (Z.to_N z)) as [Hp Hne].
    destruct (decimal_chars (Z.to_N z)) as [|c l] eqn:E; [done|].
    apply decimal_unsigned in E as [H1 H2].
    rewrite !bool_decide_eq_false_2 by done. rewrite Hp. simpl. rewrite Z2N.id by lia. by rewrite bool_decide_eq_true_2.
Qed.

(** ** strings.Cut, at a one-character separator *)

Fixpoint Cut (s : string) (sep : ascii) : option (string * string) :=
  match s with
  | EmptyString => None
  | String c s =>
      if bool_decide (c = sep) then Some (EmptyString, s)
      else '(before, after) ← Cut s sep; Some (String c before, after)
  end.

Lemma Cut_at s t sep :
  sep ∉ String.list_ascii_of_string s → Cut (s +:+ String sep t) sep = Some (s, t).
Proof.
  induction s as [|c s IH]; intros Hs; simpl.
  - change ("" +:+ String sep t)%string with (String sep t). simpl. by rewrite bool_decide_eq_true_2.
  - change (String c s +:+ String sep t)%string with (String c (s +:+ String sep t)). simpl.
    simpl in Hs. apply not_elem_of_cons in Hs as [Hc Hs].
    rewrite bool_decide_eq_false_2, IH by congruence. done.
Qed.

Lemma Cut_Some s sep before after :
  Cut s sep = Some (before, after) →
  s = (before +:+ String sep after)%string ∧ sep ∉ String.list_ascii_of_string before.
Proof.
  revert before after. induction s as [|c s IH]; intros before after; simpl; [done|].
  case_bool_decide as Hc.
  - intros [= <- <-]. subst c. split; [done|apply not_elem_of_nil].
  - destruct (Cut s sep) as [[b a]|]; [|done]. intros [= <- <-].
    destruct (IH _ _ eq_refl) as [-> Hn]. split; [done|]. simpl.
    apply not_elem_of_cons. auto.
Qed.
