(* ===== verification/Dashboard.v ===== *)
(** * The admin dashboard (dashboard/dashboard.go, dashboard/cluster.go)

    Routes gated by a signed cookie, the OAuth callback that hands the cookie out,
    and the aggregation of a cluster's snapshots.  HTTP requests are their cookies,
    query and headers; GitHub's replies and the MAC are parameters. *)
From S2P Require Import Prelude Wire Phrase Stats Encoding.

#[local] Open Scope N_scope.
#[local] Open Scope string_scope.

(** [crypto/hmac] with SHA-256: key, message. *)
Class Hmac := hmac_sha256 : bytes → bytes → bytes.

(** A request the dashboard sends: method, URL, headers, the form it posts. *)
Record outgoing := mkOutgoing {
  og_method : string; og_url : string;
  og_header : list (string * string); og_form : list (string * string) }.

(** [strings.EqualFold].  The long s (U+017F) and the Kelvin sign (U+212A) are the
    only runes that fold to ASCII; other letters outside ASCII are compared as they
    are, so this is exact when either string is ASCII, as GitHub's logins and the
    names of JSON fields here are. *)
Fixpoint fold_case (s : string) : string :=
  match s with
  | String a s1 =>
      match s1 with
      | String b s2 =>
          if bool_decide (a = "197"%char ∧ b = "191"%char) then String "s" (fold_case s2)
          else
            match s2 with
            | String c s3 =>
                if bool_decide (a = "226"%char ∧ b = "132"%char ∧ c = "170"%char)
                then String "k" (fold_case s3) else String (ascii_lower a) (fold_case s1)
            | EmptyString => String (ascii_lower a) (fold_case s1)
            end
      | EmptyString => String (ascii_lower a) EmptyString
      end
  | EmptyString => EmptyString
  end.

Definition EqualFold (s t : string) : bool := bool_decide (fold_case s = fold_case t).

(** What [encoding/json] reads, as far as the structs it is read into can tell. *)
Inductive json_value := JNull | JString (s : string) | JOther.
Inductive json := JObject (fields : list (string * json_value)) | JValue (v : json_value).

(** What GitHub answers: the first JSON value of the body; [None] is a transport
    error or text that is not JSON. *)
Class GitHub := gh_Do : outgoing → option json.

(** ** Configuration *)

(** In nanoseconds. *)
Definition second : Z := 1000000000.
Definition sessionTTL : Z := (7 * 24 * 3600 * second)%Z.
Definition stateTTL : Z := (10 * 60 * second)%Z.
Definition defaultAppName : string := "parley".

Record Config := mkConfig {
  cf_ClientID : string; cf_ClientSecret : string; cf_CookieKey : bytes;
  cf_Allow : list string; cf_BaseURL : string; cf_AppName : string }.

(** [template.HTMLEscapeString]. *)
Definition escape_char (c : ascii) : string :=
  match c with
  | "<"%char => "&lt;"
  | ">"%char => "&gt;"
  | "&"%char => "&amp;"
  | "'"%char => "&#39;"
  | "034"%char => "&#34;"
  | "000"%char => String "239" (String "191" (String "189" EmptyString))
  | c => String c EmptyString
  end.

Fixpoint HTMLEscapeString (s : string) : string :=
  match s with EmptyString => EmptyString | String c s => escape_char c +:+ HTMLEscapeString s end.

(** [bytes.ReplaceAll], of a pattern that is not empty. *)
Fixpoint ReplaceAll (fuel : nat) (s old new : string) : string :=
  match fuel, s with
  | S fuel, String c s' =>
      if String.prefix old s then
        new +:+ ReplaceAll fuel (String.substring (String.length old) (String.length s) s) old new
      else String c (ReplaceAll fuel s' old new)
  | _, _ => s
  end.

Record Dashboard := mkDashboard {
  da_cfg : Config; da_authorizeURL : string; da_tokenURL : string; da_userURL : string;
  da_cookieName : string; da_page : string }.

(** The page is an embedded file, a parameter here. *)
Definition New (pageHTML : string) (cfg : Config) : Dashboard :=
  let app := if bool_decide (cf_AppName cfg = "") then defaultAppName else cf_AppName cfg in
  let brand := HTMLEscapeString (app +:+ " relay") in
  mkDashboard cfg "https://github.com/login/oauth/authorize"
    "https://github.com/login/oauth/access_token" "https://api.github.com/user" (app +:+ "_admin")
    (ReplaceAll (String.length pageHTML) pageHTML "{{APP}}" brand).

(** ** Requests and responses *)

Record hreq := mkReq {
  hq_cookies : list (string * string);
  hq_query : list (string * string);
  hq_header : string → string }.

(** [r.Cookie]: the first of that name; [Query().Get]: the first value or "". *)
Definition first_of (name : string) (l : list (string * string)) : option string :=
  snd <$> head (filter (λ p, p.1 = name) l).
Definition query_get (r : hreq) (k : string) : string := default "" (first_of k (hq_query r)).

Record cookie := mkCookie {
  ck_name : string; ck_value : string; ck_expires : Z; ck_maxAge : Z }.

Inductive reply :=
| Redirect (url : string) (query : list (string * string))
| Page (html : string)
| Data (st : Stats)
| HttpErr (msg : string) (status : N).

Definition resp : Type := option cookie * reply.

Section Dashboard.
Context {HM : Hmac} {GH : GitHub} {EN : Entropy}.

(** ** Signed tokens *)

Abbreviation key d := (cf_CookieKey (da_cfg d)).
Abbreviation bytes_of := String.list_byte_of_string.

Definition sign (d : Dashboard) (msg : string) : string :=
  EncodeToString (bytes_of msg) +:+
    String "." (EncodeToString (hmac_sha256 (key d) (bytes_of msg))).

Definition unsign (d : Dashboard) (tok : string) : option string :=
  '(msgB64, sigB64) ← Cut tok ".";
  msg ← DecodeString msgB64;
  sig ← DecodeString sigB64;
  if bool_decide (sig = hmac_sha256 (key d) msg) then Some (String.string_of_list_byte msg)
  else None.

(** [Time.Unix] of a time in nanoseconds. *)
Definition Unix (t : Z) : Z := (t / second)%Z.

Definition setCookie (d : Dashboard) (now : Z) (login : string) : cookie :=
  let exp := (now + sessionTTL)%Z in
  mkCookie (da_cookieName d) (sign d (login +:+ String "|" (FormatInt (Unix exp))))
    exp (sessionTTL / second)%Z.

Definition currentUser (d : Dashboard) (now : Z) (r : hreq) : option string :=
  ck ← first_of (da_cookieName d) (hq_cookies r);
  msg ← unsign d ck;
  '(login, expS) ← Cut msg "|";
  exp ← ParseInt expS;
  if bool_decide (exp < Unix now)%Z then None else Some login.

(** The error of [rand.Read] is discarded. *)
Definition newState (d : Dashboard) (now : Z) (i : N) : string :=
  let nonce := default (replicate 16 x00) (rand_read i 16) in
  sign d (hex_encode nonce +:+ String "|" (FormatInt (Unix (now + stateTTL)%Z))).

Definition checkState (d : Dashboard) (now : Z) (state : string) : bool :=
  match unsign d state with
  | None => false
  | Some msg =>
      match Cut msg "|" with
      | None => false
      | Some (_, expS) =>
          match ParseInt expS with
          | None => false
          | Some exp => bool_decide (Unix now ≤ exp)%Z
          end
      end
  end.

(** ** Routes *)

Definition handleDashboard (d : Dashboard) (now : Z) (r : hreq) : resp :=
  match currentUser d now r with
  | None => (None, Redirect "/auth/login" [])
  | Some _ => (None, Page (da_page d))
  end.

Definition handleData (d : Dashboard) (now : Z) (src : Stats) (r : hreq) : resp :=
  match currentUser d now r with
  | None => (None, HttpErr "unauthorized" 401)
  | Some _ => (None, Data src)
  end.

Fixpoint trim_slashes (l : list ascii) : list ascii :=
  match l with
  | [] => []
  | c :: l =>
      match trim_slashes l with
      | [] => if bool_decide (c = "/"%char) then [] else [c]
      | l => c :: l
      end
  end.

Definition redirectURI (d : Dashboard) : string :=
  String.string_of_list_ascii
    (trim_slashes (String.list_ascii_of_string (cf_BaseURL (da_cfg d)))) +:+ "/auth/callback".

Definition handleLogin (d : Dashboard) (now : Z) (i : N) : resp :=
  (None, Redirect (da_authorizeURL d)
    [("client_id", cf_ClientID (da_cfg d)); ("redirect_uri", redirectURI d);
     ("scope", "read:user"); ("state", newState d now i); ("allow_signup", "false")]).

(** [Decode] into a struct with one string field of an ASCII name: names are matched
    under case folding, a later match overwrites an earlier one, null leaves the
    field as it is, and a value of another type is an error ([None]). *)
Definition json_step (name : string) (acc : option string) (kv : string * json_value) : option string :=
  field ← acc;
  if EqualFold kv.1 name then
    match kv.2 with JString s => Some s | JNull => Some field | _ => None end
  else Some field.

Definition json_field (v : json) (name : string) : option string :=
  match v with
  | JObject fields => foldl (json_step name) (Some "") fields
  | JValue JNull => Some ""
  | JValue _ => None
  end.

Inductive oauth_error := NoAnswer | errNoToken | errNoLogin.

Definition token_request (d : Dashboard) (code : string) : outgoing :=
  mkOutgoing "POST" (da_tokenURL d)
    [("Content-Type", "application/x-www-form-urlencoded"); ("Accept", "application/json")]
    [("client_id", cf_ClientID (da_cfg d)); ("client_secret", cf_ClientSecret (da_cfg d));
     ("code", code); ("redirect_uri", redirectURI d)].

Definition exchangeCode (d : Dashboard) (code : string) : result oauth_error string :=
  match gh_Do (token_request d code) with
  | None => Err NoAnswer
  | Some body =>
      match json_field body "access_token" with
      | None => Err NoAnswer
      | Some token => if bool_decide (token = "") then Err errNoToken else Ok token
      end
  end.

Definition user_request (d : Dashboard) (token : string) : outgoing :=
  mkOutgoing "GET" (da_userURL d)
    [("Authorization", "Bearer " +:+ token); ("Accept", "application/vnd.github+json")] [].

Definition fetchLogin (d : Dashboard) (token : string) : result oauth_error string :=
  match gh_Do (user_request d token) with
  | None => Err NoAnswer
  | Some body =>
      match json_field body "login" with
      | None => Err NoAnswer
      | Some login => if bool_decide (login = "") then Err errNoLogin else Ok login
      end
  end.

Definition allowed (d : Dashboard) (login : string) : bool :=
  existsb (λ a, EqualFold (TrimSpace a) login) (cf_Allow (da_cfg d)).

Definition handleCallback (d : Dashboard) (now : Z) (r : hreq) : resp :=
  if negb (checkState d now (query_get r "state")) then
    (None, HttpErr "bad or expired state" 400)
  else
    let code := query_get r "code" in
    if bool_decide (code = "") then (None, HttpErr "missing code" 400)
    else
      match exchangeCode d code with
      | Err _ => (None, HttpErr "oauth exchange failed" 502)
      | Ok token =>
          match fetchLogin d token with
          | Err _ => (None, HttpErr "could not read GitHub user" 502)
          | Ok login =>
              if negb (allowed d login) then (None, HttpErr "not authorized" 403)
              else (Some (setCookie d now login), Redirect "/dashboard" [])
          end
      end.

Definition handleLogout (d : Dashboard) : resp :=
  (Some (mkCookie (da_cookieName d) "" 0 (-1)), Redirect "/auth/login" []).

(** [Register]: the handler of each path, on a source of snapshots and the next
    draw; other paths are not the dashboard's. *)
Definition Register (d : Dashboard) (src : Stats) (i : N) (path : string) :
    option (Z → hreq → resp) :=
  if bool_decide (path = "/dashboard") then Some (handleDashboard d)
  else if bool_decide (path = "/dashboard/data") then Some (λ now, handleData d now src)
  else if bool_decide (path = "/auth/login") then Some (λ now _, handleLogin d now i)
  else if bool_decide (path = "/auth/callback") then Some (handleCallback d)
  else if bool_decide (path = "/auth/logout") then Some (λ _ _, handleLogout d)
  else None.
End Dashboard.

(** ** A cluster's snapshots *)

Definition internalStatsPath : string := "/internal/stats".
Definition clusterAuthHeader : string := "X-Parley-Cluster".

(** [InternalStatsHandler]; [ConstantTimeCompare] is equality. *)
Definition InternalStatsHandler (local : Stats) (token : bytes) (r : hreq) : resp :=
  if bool_decide (hq_header r clusterAuthHeader = hex_encode token) then (None, Data local)
  else (None, HttpErr "forbidden" 403).

(** [aggregator], and how [NewAggregator] makes one; the peers are listed and asked
    anew for every snapshot. *)
Record aggregator := mkAggregator { ag_local : Stats; ag_token : string }.
Definition NewAggregator (local : Stats) (token : bytes) : aggregator :=
  mkAggregator local (hex_encode token).

(** The aggregator: the peers listed (an error is [None]) and what fetching the
    one at each position gave. *)
Definition aggregator_Stats (a : aggregator) (peers : option (list string))
    (fetch : nat → string → option Stats) : Stats :=
  let local := ag_local a in
  match peers with
  | None => local
  | Some [] => local
  | Some ps => MergeStats (local :: omap id (imap fetch ps))
  end.

Inductive fetch_error := Unreachable | errStatus (status : N) | Undecodable.

(** The status of an answer. *)
Definition reply_status (r : reply) : N :=
  match r with Redirect _ _ => 302 | HttpErr _ st => st | Page _ | Data _ => 200 end.

(** [fetch]: the request with the token in its header, and the answer read. *)
Definition fetch_from (a : aggregator) (answer : hreq → option resp) : result fetch_error Stats :=
  match answer (mkReq [] [] (λ h, if bool_decide (h = clusterAuthHeader) then ag_token a else "")) with
  | None => Err Unreachable
  | Some (_, r) =>
      if bool_decide (reply_status r ≠ 200) then Err (errStatus (reply_status r))
      else match r with Data st => Ok st | _ => Err Undecodable end
  end.
Definition fetched (r : result fetch_error Stats) : option Stats :=
  match r with Ok st => Some st | Err _ => None end.

(** ** Properties *)

Section Properties.
Context {HM : Hmac} {GH : GitHub} {EN : Entropy}.
Implicit Types d : Dashboard.

Lemma unsign_sign d msg : unsign d (sign d msg) = Some msg.
Proof.
  unfold unsign, sign. rewrite Cut_at by apply Encode_no_dot. cbn [mbind option_bind].
  rewrite !DecodeString_Encode. cbn [mbind option_bind].
  by rewrite bool_decide_eq_true_2, String.string_of_list_byte_of_string.
Qed.

(** What a request's session cookie must be to count. *)
Definition signed_until d (tok : string) (who : string) (exp : Z) : Prop :=
  ∃ msg expS, unsign d tok = Some msg ∧ Cut msg "|" = Some (who, expS) ∧ ParseInt expS = Some exp.

Lemma currentUser_Some d now r who :
  currentUser d now r = Some who ↔
  ∃ tok exp, first_of (da_cookieName d) (hq_cookies r) = Some tok ∧
    signed_until d tok who exp ∧ (Unix now ≤ exp)%Z.
Proof.
  unfold currentUser, signed_until. split.
  - destruct (first_of _ _) as [tok|]; simpl; [|done].
    destruct (unsign d tok) as [msg|] eqn:Eu; simpl; [|done].
    destruct (Cut msg "|") as [[l e]|] eqn:Ec; simpl; [|done].
    destruct (ParseInt e) as [exp|] eqn:Ep; simpl; [|done].
    case_bool_decide; [done|]. intros [= <-]. exists tok, exp. split; [done|].
    split; [by exists msg, e|lia].
  - intros (tok & exp & -> & (msg & e & Eu & Ec & Ep) & Hle). simpl. rewrite Eu. simpl.
    rewrite Ec. simpl. rewrite Ep. simpl. by rewrite bool_decide_eq_false_2 by lia.
Qed.

Lemma checkState_true d now state :
  checkState d now state = true ↔ ∃ who exp, signed_until d state who exp ∧ (Unix now ≤ exp)%Z.
Proof.
  unfold checkState, signed_until. split.
  - destruct (unsign d state) as [msg|] eqn:Eu; [|done].
    destruct (Cut msg "|") as [[l e]|] eqn:Ec; [|done].
    destruct (ParseInt e) as [exp|] eqn:Ep; [|done].
    intros Hle%bool_decide_eq_true. exists l, exp. split; [by exists msg, e|done].
  - intros (who & exp & (msg & e & -> & -> & ->) & Hle). by apply bool_decide_eq_true.
Qed.

(** A time whose seconds fit an [int64]. *)
Definition time_ok (t : Z) : Prop := (- 2 ^ 63 ≤ Unix t < 2 ^ 63)%Z.

Lemma sign_until d who t :
  "|"%char ∉ String.list_ascii_of_string who → time_ok t →
  signed_until d (sign d (who +:+ String "|" (FormatInt (Unix t)))) who (Unix t).
Proof.
  intros Hw Ht. exists (who +:+ String "|" (FormatInt (Unix t))), (FormatInt (Unix t)).
  split; [apply unsign_sign|]. split; [by apply Cut_at|by apply ParseInt_Format].
Qed.

Lemma signed_until_unique d tok who exp who' exp' :
  signed_until d tok who exp → signed_until d tok who' exp' → who = who' ∧ exp = exp'.
Proof. intros (m & e & Hu & Hc & Hp) (m' & e' & Hu' & Hc' & Hp'). by simplify_eq. Qed.

Lemma hex_no_bar bs : "|"%char ∉ String.list_ascii_of_string (hex_encode bs).
Proof.
  induction bs as [|b bs IH]; simpl; [apply not_elem_of_nil|].
  apply not_elem_of_cons. split; [|apply not_elem_of_cons; split; [|done]];
    intros E; destruct b; vm_compute in E; discriminate E.
Qed.

(** a session cookie identifies its user until it expires.  The cookie set
    for a login (GitHub's contain no bar) is recognised as that login at every
    time up to seven days later, to the second, and not after. *)
Theorem session_cookie_lives d t0 login now r :
  "|"%char ∉ String.list_ascii_of_string login → time_ok (t0 + sessionTTL) →
  let ck := setCookie d t0 login in
  first_of (da_cookieName d) (hq_cookies r) = Some (ck_value ck) →
  currentUser d now r =
    if bool_decide (Unix now ≤ Unix t0 + 7 * 24 * 3600)%Z then Some login else None.
Proof.
  intros Hl Ht ck Hck. pose proof (sign_until d login _ Hl Ht) as Hs.
  assert (Unix (t0 + sessionTTL) = Unix t0 + 7 * 24 * 3600)%Z as Eu.
  { unfold Unix, sessionTTL. rewrite Z.div_add; [done|]. done. }
  case_bool_decide as Hle.
  - apply currentUser_Some. exists (ck_value ck), (Unix (t0 + sessionTTL)). split; [done|].
    split; [done|]. by rewrite Eu.
  - destruct (currentUser d now r) as [who|] eqn:E; [|done].
    apply currentUser_Some in E as (tok & exp & Htok & Hs' & Hle').
    rewrite Hck in Htok. injection Htok as <-.
    destruct (signed_until_unique _ _ _ _ _ _ Hs Hs') as [_ <-]. rewrite Eu in Hle'. lia.
Qed.

(** A token the dashboard takes: a message in base64, its MAC, and in the message
    a name, a bar and an expiry not yet past. *)
Definition authentic d (now : Z) (tok who : string) : Prop :=
  ∃ msgB64 sigB64 msg expS exp,
    Cut tok "." = Some (msgB64, sigB64) ∧ DecodeString msgB64 = Some msg ∧
    DecodeString sigB64 = Some (hmac_sha256 (cf_CookieKey (da_cfg d)) msg) ∧
    Cut (String.string_of_list_byte msg) "|" = Some (who, expS) ∧
    ParseInt expS = Some exp ∧ (Unix now ≤ exp)%Z.

Lemma authentic_until d now tok who :
  authentic d now tok who ↔ ∃ exp, signed_until d tok who exp ∧ (Unix now ≤ exp)%Z.
Proof.
  unfold authentic, signed_until, unsign. split.
  - intros (m & s & msg & e & exp & -> & Em & Es & Ec & Ep & Hle). exists exp. split; [|done].
    exists (String.string_of_list_byte msg), e. simpl. rewrite Em. simpl. rewrite Es. simpl.
    by rewrite bool_decide_eq_true_2.
  - intros (exp & (msg & e & Hu & Hc & Hp) & Hle).
    destruct (Cut tok ".") as [[m s]|] eqn:Et; simpl in Hu; [|done].
    destruct (DecodeString m) as [msg'|] eqn:Em; simpl in Hu; [|done].
    destruct (DecodeString s) as [sig|] eqn:Es; simpl in Hu; [|done].
    case_bool_decide as Hsig; [|done]. injection Hu as <-. subst sig.
    by exists m, s, msg', e, exp.
Qed.

(** nothing is accepted that the dashboard's key has not authenticated.  A
    request counts as logged in exactly when its session cookie carries, in
    base64, a message and the MAC of that message under the dashboard's key, and
    the message is the login, a bar and an expiry not yet past; an OAuth state is
    accepted exactly when it has that form for some name. *)
Theorem tokens_authenticated d now r who state :
  (currentUser d now r = Some who ↔
     ∃ tok, first_of (da_cookieName d) (hq_cookies r) = Some tok ∧ authentic d now tok who) ∧
  (checkState d now state = true ↔ ∃ user, authentic d now state user).
Proof.
  split.
  - rewrite currentUser_Some. setoid_rewrite authentic_until. naive_solver.
  - rewrite checkState_true. setoid_rewrite authentic_until. naive_solver.
Qed.

(** C27: an OAuth state opens the dashboard.  Anyone may ask the login route for a
    redirect, and the state in it, sent back as the session cookie, is accepted
    for the ten minutes it lives: the page and the relay's snapshot are served
    without GitHub, the callback or the allowlist having any part in it. *)
Theorem state_opens_dashboard d t0 i now src r :
  time_ok (t0 + stateTTL) → (Unix now ≤ Unix t0 + 600)%Z →
  (∃ url q, handleLogin d t0 i = (None, Redirect url q) ∧
     first_of "state" q = Some (newState d t0 i)) ∧
  (first_of (da_cookieName d) (hq_cookies r) = Some (newState d t0 i) →
   handleData d now src r = (None, Data src) ∧ handleDashboard d now r = (None, Page (da_page d))).
Proof.
  intros Ht Hle. split; [by eexists _, _|]. intros Hck.
  set (who := hex_encode (default (replicate 16 x00) (rand_read i 16))).
  assert (currentUser d now r = Some who) as Hu.
  { apply currentUser_Some. exists (newState d t0 i), (Unix (t0 + stateTTL)). split; [done|].
    split; [apply sign_until; [apply hex_no_bar|done]|]. unfold Unix, stateTTL in *.
    rewrite Z.div_add by done. exact Hle. }
  unfold handleData, handleDashboard. by rewrite Hu.
Qed.

Lemma callback_replies d now r ck rep :
  handleCallback d now r = (ck, rep) → match rep with Page _ | Data _ => False | _ => True end.
Proof.
  unfold handleCallback. destruct (negb _); [by intros [= _ <-]|].
  case_bool_decide; [by intros [= _ <-]|]. destruct (exchangeCode _ _); [|by intros [= _ <-]].
  destruct (fetchLogin _ _); [|by intros [= _ <-]]. destruct (negb _); by intros [= _ <-].
Qed.

(** C38: the callback gives a session only to allowlisted users.  It sets a cookie
    exactly when the state is one the dashboard signed and has not expired, the
    code is there, GitHub exchanges it for a token and names the user, and that
    user is on the allowlist (up to case and surrounding space); the cookie is
    that user's.  Every other request ends in a 400, 403 or 502 without a
    cookie. *)
Theorem callback_gate d now r ck rep :
  handleCallback d now r = (ck, rep) →
  let granted token login :=
    checkState d now (query_get r "state") = true ∧ query_get r "code" ≠ "" ∧
    (∃ body, gh_Do (token_request d (query_get r "code")) = Some body ∧
       json_field body "access_token" = Some token) ∧ token ≠ "" ∧
    (∃ body, gh_Do (user_request d token) = Some body ∧ json_field body "login" = Some login) ∧
    login ≠ "" ∧
    ∃ a, a ∈ cf_Allow (da_cfg d) ∧ fold_case (TrimSpace a) = fold_case login in
  match ck with
  | Some c => ∃ token login, granted token login ∧ c = setCookie d now login ∧
      rep = Redirect "/dashboard" []
  | None => (∀ token login, ¬ granted token login) ∧
      ∃ msg st, rep = HttpErr msg st ∧ (st = 400 ∨ st = 403 ∨ st = 502)
  end.
Proof.
  unfold handleCallback, exchangeCode, fetchLogin.
  destruct (checkState d now (query_get r "state")); simpl; [|intros [= <- <-]; naive_solver].
  case_bool_decide; [intros [= <- <-]; naive_solver|].
  destruct (gh_Do (token_request _ _)) as [o1|] eqn:Et; simpl; [|intros [= <- <-]; naive_solver].
  destruct (json_field o1 _) as [token|] eqn:Ft; simpl; [|intros [= <- <-]; naive_solver].
  case_bool_decide; simpl; [intros [= <- <-]; naive_solver|].
  destruct (gh_Do (user_request _ _)) as [o2|] eqn:El; simpl; [|intros [= <- <-]; naive_solver].
  destruct (json_field o2 _) as [login|] eqn:Fl; simpl; [|intros [= <- <-]; naive_solver].
  case_bool_decide; simpl; [intros [= <- <-]; naive_solver|].
  assert (allowed d login = true ↔
    ∃ a, a ∈ cf_Allow (da_cfg d) ∧ fold_case (TrimSpace a) = fold_case login) as Ha.
  { unfold allowed. rewrite existsb_exists. setoid_rewrite list_elem_of_In. unfold EqualFold.
    by setoid_rewrite bool_decide_eq_true. }
  destruct (allowed d login); simpl; intros [= <- <-].
  - exists token, login. split; [|done]. repeat split; try done; [by eexists|by eexists|by apply Ha].
  - split; [|eauto 10]. intros token' login' (_ & _ & (b1 & E1 & F1) & _ & (b2 & E2 & F2) & _ & Hin).
    injection E1 as <-. rewrite Ft in F1. injection F1 as <-. rewrite El in E2. injection E2 as <-.
    rewrite Fl in F2. injection F2 as <-. by apply Ha in Hin.
Qed.

(** only a session sees anything.  Whatever path is asked for, the page and the
    data are served only to a request whose cookie carries a live signed value. *)
Theorem routes_gated d now src i path h r :
  Register d src i path = Some h →
  match (h now r).2 with
  | Page _ | Data _ => ∃ who, currentUser d now r = Some who
  | _ => True
  end.
Proof.
  unfold Register. repeat case_bool_decide; intros [= <-]; simpl; try done.
  - unfold handleDashboard. destruct (currentUser d now r); simpl; eauto.
  - unfold handleData. destruct (currentUser d now r); simpl; eauto.
  - destruct (handleCallback d now r) as [ck rep] eqn:E. apply callback_replies in E.
    simpl. by destruct rep.
Qed.

(** The brand cannot open a tag, an attribute or an entity of its own. *)
Lemma brand_escaped s c :
  c ∈ String.list_ascii_of_string (HTMLEscapeString s) → c ∉ ["<"; ">"; "'"; "034"]%char.
Proof.
  induction s as [|a s IH]; simpl; [by intros ?%elem_of_nil|].
  rewrite chars_app, elem_of_app. intros [Hc|Hc]; [|by apply IH].
  destruct a as [[] [] [] [] [] [] [] []]; vm_compute in Hc |- *; set_solver.
Qed.

Lemma hex_encode_inj a b : hex_encode a = hex_encode b → a = b.
Proof. intros E. apply (f_equal hex_decode) in E. rewrite !hex_decode_encode in E. by injection E. Qed.

(** peers authenticate each other with the cluster token.  A node answers the
    stats request of a peer exactly when both hold the same token; any other
    request is refused unless it presents the token, and one without the header
    gets through only if the token is empty. *)
Theorem cluster_token_gate local token token' r :
  fetch_from (NewAggregator local token') (λ r, Some (InternalStatsHandler local token r))
    = (if bool_decide (token' = token) then Ok local else Err (errStatus 403)) ∧
  (InternalStatsHandler local token r = (None, Data local) ↔
     hq_header r clusterAuthHeader = hex_encode token) ∧
  (hq_header r clusterAuthHeader = "" →
     InternalStatsHandler local token r
     = if bool_decide (token = []) then (None, Data local) else (None, HttpErr "forbidden" 403)).
Proof.
  split; [|split].
  - unfold fetch_from, InternalStatsHandler. simpl.
    rewrite (bool_decide_ext (hex_encode token' = hex_encode token) (token' = token))
      by (split; [apply hex_encode_inj|congruence]).
    by case_bool_decide.
  - unfold InternalStatsHandler. case_bool_decide; naive_solver.
  - intros E. unfold InternalStatsHandler. rewrite E.
    rewrite (bool_decide_ext ("" = hex_encode token) (token = [])); [done|].
    destruct token; [done|]. done.
Qed.

(** What the node at a base URL is: its snapshot and its token, if it is up. *)
Definition peer_answer (node : string → option (Stats * bytes)) (base : string) (r : hreq) :
    option resp :=
  '(st, tok) ← node base; Some (InternalStatsHandler st tok r).

(** the dashboard shows the cluster it can reach.  The aggregate over a list
    of peers is the merge of the local snapshot and those of the peers that are up
    and hold the same token, in the order they are listed, each as often as it is
    listed; peers that are down or of another cluster are left out, and with none
    left, or no list at all, the aggregate is the local snapshot. *)
Theorem cluster_view local token node ps :
  let a := NewAggregator local token in
  let fetch (_ : nat) p := fetched (fetch_from a (peer_answer node p)) in
  let ours p := '(st, tok) ← node p; if bool_decide (tok = token) then Some st else None in
  aggregator_Stats a (Some ps) fetch = MergeStats (local :: omap ours ps) ∧
  (omap ours ps = [] → aggregator_Stats a (Some ps) fetch = local) ∧
  aggregator_Stats a None fetch = local.
Proof.
  intros a fetch ours.
  assert (∀ i p, fetch i p = ours p) as Hf.
  { intros i p. unfold fetch, ours, fetch_from, peer_answer.
    destruct (node p) as [[st tok]|]; simpl; [|done]. unfold InternalStatsHandler. simpl.
    rewrite (bool_decide_ext (hex_encode token = hex_encode tok) (tok = token))
      by (split; [intros E; by apply hex_encode_inj|congruence]).
    by case_bool_decide. }
  assert (aggregator_Stats a (Some ps) fetch = MergeStats (local :: omap ours ps)) as Ha.
  { unfold aggregator_Stats. destruct ps as [|p ps]; [done|]. f_equal. f_equal.
    change fetch with (const (fetch 0%nat) : nat → string → option Stats). rewrite imap_const.
    generalize (p :: ps). intros l. induction l as [|q l IH]; [done|]. cbn. by rewrite Hf, <- IH. }
  split; [done|]. split; [intros He; by rewrite Ha, He|done].
Qed.
End Properties.

(** ** On concrete requests *)

Definition ex_hmac : Hmac := λ k m, (k ++ m)%list.
Definition ex_github : GitHub := λ rq,
  if bool_decide (og_url rq = "https://github.com/login/oauth/access_token") then
    if bool_decide (("code", "c0de") ∈ og_form rq) then Some (JObject [("access_token", JString "t0ken")]) else None
  else if bool_decide (og_header rq !! 0%nat = Some ("Authorization", "Bearer t0ken"))
  then Some (JObject [("id", JOther); ("login", JString "Alice")]) else None.
Definition ex_state_rand : Entropy.
Proof.
  refine {| rand_read i n := Some (replicate n (byte_of_N i)) |}.
  intros i n bs [= <-]. apply length_replicate.
Defined.
#[local] Existing Instance ex_hmac.
#[local] Existing Instance ex_github.
#[local] Existing Instance ex_state_rand.

Definition ex_config : Config := mkConfig "id" "secret" [x6b; x65; x79] [" alice "] "https://x/" "".
Definition ex_dash : Dashboard := New "<h1>{{APP}}</h1>" ex_config.

Example ex_page : da_page ex_dash = "<h1>parley relay</h1>".
Proof. vm_compute. reflexivity. Qed.
(** A day in 2025, in nanoseconds. *)
Definition ex_now : Z := (1750000000 * second)%Z.
Definition ex_cookie_req (value : string) : hreq := mkReq [("parley_admin", value)] [] (λ _, "").

Lemma ex_time : time_ok (ex_now + sessionTTL) ∧ time_ok (ex_now + stateTTL).
Proof. split; split; (apply Z.leb_le; reflexivity) || (apply Z.ltb_lt; reflexivity). Qed.

Lemma session_cookie_lives_witness :
  currentUser ex_dash (ex_now + sessionTTL)
    (ex_cookie_req (ck_value (setCookie ex_dash ex_now "alice"))) = Some "alice".
Proof.
  refine (eq_trans (session_cookie_lives ex_dash ex_now "alice" (ex_now + sessionTTL)
    (ex_cookie_req (ck_value (setCookie ex_dash ex_now "alice"))) _ (proj1 ex_time) eq_refl) _);
    [|reflexivity].
  apply (bool_decide_unpack _). vm_compute. exact I.
Defined.

Definition ex_state : string := newState ex_dash ex_now 7.

(** The allowlist has one name; the visitor has no GitHub account at all. *)
Lemma state_opens_dashboard_witness :
  handleData ex_dash ex_now zero_stats (ex_cookie_req ex_state) = (None, Data zero_stats).
Proof.
  exact (proj1 (proj2 (state_opens_dashboard ex_dash ex_now 7 ex_now zero_stats
    (ex_cookie_req ex_state) (proj2 ex_time) ltac:(apply Z.leb_le; reflexivity)) eq_refl)).
Defined.

Definition ex_callback : hreq := mkReq [] [("state", ex_state); ("code", "c0de")] (λ _, "").

Lemma callback_gate_witness :
  ∃ token login, exchangeCode ex_dash "c0de" = Ok token ∧ fetchLogin ex_dash token = Ok login ∧
    setCookie ex_dash ex_now "Alice" = setCookie ex_dash ex_now login.
Proof.
  assert (handleCallback ex_dash ex_now ex_callback
    = (Some (setCookie ex_dash ex_now "Alice"), Redirect "/dashboard" [])) as E
    by (vm_compute; reflexivity).
  destruct (callback_gate ex_dash ex_now ex_callback _ _ E) as (token & login & H & Hc & _).
  destruct H as (_ & _ & (b1 & E1 & F1) & H1 & (b2 & E2 & F2) & H2 & _).
  exists token, login. split; [|split; [|exact Hc]].
  - unfold exchangeCode. change "c0de" with (query_get ex_callback "code"). rewrite E1, F1.
    by rewrite bool_decide_eq_false_2.
  - unfold fetchLogin. rewrite E2, F2. by rewrite bool_decide_eq_false_2.
Defined.

Lemma cluster_token_gate_witness :
  fetch_from (NewAggregator zero_stats [x01])
    (λ r, Some (InternalStatsHandler zero_stats [x01] r)) = Ok zero_stats ∧
  InternalStatsHandler zero_stats [] (ex_cookie_req "") = (None, Data zero_stats).
Proof.
  split.
  - exact (proj1 (cluster_token_gate zero_stats [x01] [x01] (ex_cookie_req ""))).
  - exact (proj2 (proj2 (cluster_token_gate zero_stats [] [] (ex_cookie_req ""))) eq_refl).
Defined.

(** One peer up, one of another cluster, one down. *)
Definition ex_nodes (base : string) : option (Stats * bytes) :=
  if bool_decide (base = "http://a") then Some (zero_stats, [x01])
  else if bool_decide (base = "http://b") then Some (zero_stats, [x02]) else None.

Example ex_cluster :
  let a := NewAggregator zero_stats [x01] in
  aggregator_Stats a (Some ["http://a"; "http://b"; "http://c"])
    (λ _ p, fetched (fetch_from a (peer_answer ex_nodes p))) = MergeStats [zero_stats; zero_stats].
Proof. vm_compute. reflexivity. Qed.

(** A later match wins, whatever its case; null changes nothing; another type fails. *)
Example ex_json :
  json_field (JObject [("login", JString "a"); ("LOGIN", JString "b"); ("Login", JNull)]) "login" = Some "b" ∧
  json_field (JObject [("id", JOther)]) "login" = Some "" ∧
  json_field (JObject [("login", JOther); ("login", JString "a")]) "login" = None ∧
  EqualFold (String "226" (String "132" (String "170" "im"))) "KIM" = true.
Proof. repeat split. Qed.
