(* ===== verification/EndToEnd.v ===== *)
(** * From one member to the others

    The parts composed: what a client writes, read by its connection at the relay,
    turned into a command, routed by the hub's run loop into the other members'
    buffers, read and opened by their clients, and handed by their muxes to the
    service it is for.  Message contents are fixed by [SessionSpec]'s laws of the
    cipher and the codec; the buffers and the WebSocket are the relay's. *)
From S2P Require Import Prelude Wire Hub HubInv HubSpec HubLife HubSys HubExamples Registry.
From S2P Require Import RateLimit Relay Crypto Words Phrase Session SessionSpec.
From S2P Require Import Runes Mux MuxSpec CtlSpec Chat.

#[local] Open Scope N_scope.

(** ** A frame through the relay *)

Section Relayed.
Context {WC : WireCodec} {WS : WireCodecSpec} {EN : Entropy}.
Context {MR : MapRange ParticipantID client}.

(** Nobody is behind: every slot has room and none is being evicted. *)
Definition roomy (h : hub) : Prop :=
  ∀ id c q, slot h id = Some (c, q) → c_evicting c = false ∧ (length q < sendBuffer)%nat.

Lemma roomy_no_evictions h : hub_inv h → roomy h → h_evict h = [].
Proof.
  intros Hi Hr. destruct (h_evict h) as [|id l] eqn:E; [done|].
  destruct (proj1 (inv_evict h Hi id)) as (c & Hc & He); [rewrite E; by left|].
  destruct (Hr id c (chan_get h (c_out c))) as [Hn _]; [|congruence].
  unfold slot. by rewrite Hc.
Qed.

(** One frame more in the slots that [P] picks, and nothing else. *)
Definition adds (P : ParticipantID → Prop) (frame : bytes) (h h' : hub) : Prop :=
  ∀ id, (P id → slot h' id = (λ s, (s.1, s.2 ++ [frame])) <$> slot h id) ∧
        (¬ P id → slot h' id = slot h id).

Lemma queue_slot_roomy h id frame :
  roomy h → queue_slot frame <$> slot h id = (λ s, (s.1, s.2 ++ [frame])) <$> slot h id.
Proof.
  intros Hr. destruct (slot h id) as [[c q]|] eqn:E; [|done].
  destruct (Hr id c q E) as [He Hl]. simpl. by rewrite He, bool_decide_eq_true_2.
Qed.

(** An iteration of the run loop that only routes: nobody falls behind. *)
Lemma iter_routes h from typ raw P frame :
  hub_inv h → roomy h → adds P frame h (route h from typ raw) → (∀ id, Decision (P id)) →
  run_iter h (frameCmd from typ raw) = (route h from typ raw, None, false).
Proof.
  intros Hi Hr Ha Hd. unfold run_iter. simpl. set (h' := route h from typ raw) in *.
  assert (h_evict h' = []) as He.
  { destruct (h_evict h') as [|id l] eqn:E; [done|].
    destruct (proj1 (inv_evict h' (route_inv h from typ raw Hi) id)) as (c & Hc & Hev);
      [rewrite E; by left|].
    assert (slot h' id = Some (c, chan_get h' (c_out c))) as Hs by (unfold slot; by rewrite Hc).
    destruct (Ha id) as [Hy Hn], (Hd id) as [HP|HP].
    - rewrite (Hy HP) in Hs. destruct (slot h id) as [[c0 q0]|] eqn:E0; [|done].
      injection Hs as <- _. destruct (Hr id c0 q0 E0). congruence.
    - rewrite (Hn HP) in Hs. destruct (Hr id _ _ Hs). congruence. }
  unfold drainEvictions. destruct (drain_fuel h'); simpl; by rewrite He.
Qed.

Lemma relay_broadcast h from raw b frame :
  hub_inv h → roomy h → Body Broadcast raw = Ok b →
  Encode MsgBroadcast (mkBroadcast from (b_Payload b)) = Ok frame →
  let h' := route h from MsgBroadcast raw in
  run_iter h (frameCmd from MsgBroadcast raw) = (h', None, false) ∧ adds (λ id, id ≠ from) frame h h'.
Proof.
  intros Hi Hr Hb He h'.
  assert (adds (λ id, id ≠ from) frame h h') as Ha.
  { intros id. unfold h'. rewrite (slot_route_broadcast h from raw b frame) by done.
    case_bool_decide; [by split|]. split; [|done]. intros _. by apply queue_slot_roomy. }
  split; [|done]. apply (iter_routes _ _ _ _ (λ id, id ≠ from) frame); [done..|]. intros. apply _.
Qed.

Lemma relay_direct h from raw d frame :
  hub_inv h → roomy h → Body Direct raw = Ok d → is_Some (h_clients h !! d_To d) →
  Encode MsgDirect (mkDirect (d_To d) from (d_Payload d)) = Ok frame →
  let h' := route h from MsgDirect raw in
  run_iter h (frameCmd from MsgDirect raw) = (h', None, false) ∧ adds (λ id, id = d_To d) frame h h'.
Proof.
  intros Hi Hr Hb Hd He h'.
  assert (adds (λ id, id = d_To d) frame h h') as Ha.
  { intros id. unfold h'. rewrite (slot_route_direct h from raw d frame) by done.
    case_bool_decide; [|by split]. split; [|done]. intros _. by apply queue_slot_roomy. }
  split; [|done]. apply (iter_routes _ _ _ _ (λ id, id = d_To d) frame); [done..|]. intros. apply _.
Qed.
End Relayed.

(** ** A client's broadcast, written and read *)

Section Carried.
Context {WC : WireCodec} {WS : WireCodecSpec} {AE : Aead} {AS : AeadSpec} {HK : Hkdf}.
Context {PK : Pake_lib} {PS : PakeSpec} {EN : Entropy} {CN : Conn}.
Context {MK : MapRange ParticipantID Key}.
Variable rolePolicy : ParticipantID → bool → gmap ParticipantID Role → Role.

Abbreviation readLoop := (Session.readLoop rolePolicy).

Lemma writeFrame_Ok `{Cbor T} c t (body : T) c' :
  writeFrame c t body = (c', Ok tt) →
  ∃ frame, Encode t body = Ok frame ∧ cl_sent c' = cl_sent c ++ [frame].
Proof.
  intros Hw. destruct (writeFrame_cases c t body) as [(f & He & _ & Ew)|(e & w & Ew)];
    rewrite Ew in Hw; [|done].
  injection Hw as <-. by exists f.
Qed.

(** The relay's read loop turns traffic into a command of that connection. *)
Lemma relay_reads id out frame typ raw :
  typ = MsgDirect ∨ typ = MsgBroadcast → Decode frame = Ok (typ, raw) →
  readLoop_round id out (Relay.Message true frame) = Continue out (Some (frameCmd id typ raw)).
Proof. intros Ht Hd. unfold readLoop_round. simpl. rewrite Hd. by destruct Ht as [->| ->]. Qed.

Lemma broadcast_written c svc body c' :
  BroadcastMsg c svc body = (c', Ok tt) →
  ∃ c1 payload frame raw, seal c svc body = (c1, Ok payload) ∧
    cl_sent c' = cl_sent c ++ [frame] ∧ Decode frame = Ok (MsgBroadcast, raw) ∧
    Body Broadcast raw = Ok (mkBroadcast 0 payload).
Proof.
  unfold BroadcastMsg. destruct (seal c svc body) as [c1 [payload|e]] eqn:Es; [|done].
  intros (frame & He & Hs)%writeFrame_Ok.
  destruct (framed MsgBroadcast (mkBroadcast 0 payload) frame) as (raw & Hd & Hb); [done..|].
  exists c1, payload, frame, raw. split; [done|]. split; [|done].
  apply seal_Ok in Es as (_ & _ & _ & _ & _ & _ & ->). done.
Qed.

(** Reading the relayed frame: an event for who holds the sender's key. *)
Lemma broadcast_read c svc body c1 payload frame r :
  sid_wf (cl_sid c) → pid_wf (cl_self c) → utf8_valid svc → seal c svc body = (c1, Ok payload) →
  Encode MsgBroadcast (mkBroadcast (cl_self c) payload) = Ok frame →
  cl_keyed r = true → cl_groupKey c ∈ keys_of r → cl_sid r = cl_sid c →
  readLoop r [Some frame]
  = (Session.emit r (Frame (cl_self c) (mkEnvelope svc (next_seq c svc) body)), false).
Proof.
  intros Hs Hp Hu Hseal He Hk Hin Hsid.
  destruct (frame_reads MsgBroadcast (mkBroadcast (cl_self c) payload) frame) as (raw & Hr & Hb);
    [done..|].
  cbn [Session.readLoop]. rewrite Hr. unfold Session.dispatchFrame. simpl. rewrite Hb. simpl.
  rewrite (sealed_payload rolePolicy c svc body c1 payload) by (done || by rewrite Hsid).
  by rewrite bool_decide_eq_true_2.
Qed.
End Carried.

(** ** Something said is heard *)

Lemma be64_bound bs : be64 bs < 256 ^ N.of_nat (length bs).
Proof.
  unfold be64. assert (∀ bs a, foldl (λ a b, 256 * a + Byte.to_N b) a bs
    < (a + 1) * 256 ^ N.of_nat (length bs)) as H;
    [|specialize (H bs 0); by rewrite N.mul_1_l in H].
  clear. intros bs. induction bs as [|b bs IH]; intros a; cbn [foldl length]; [simpl; lia|].
  eapply N.lt_le_trans; [apply IH|]. rewrite Nat2N.inj_succ, N.pow_succ_r', N.mul_assoc.
  apply N.mul_le_mono_r. pose proof (Byte.to_N_bounded b). lia.
Qed.

Section Heard.
Context {WC : WireCodec} {WS : WireCodecSpec} {AE : Aead} {AS : AeadSpec} {HK : Hkdf}.
Context {PK : Pake_lib} {PS : PakeSpec} {EN : Entropy} {CN : Conn}.
Context {MK : MapRange ParticipantID Key} {MR : MapRange ParticipantID client}.
Context {CM : Cbor msg} {MSpec : CborSpec msg} {CSn : Cbor snapshot} {CC : Cbor ctlMsg}.
Context {MS : MapRange string (option Service)} {MB : MapRange string bytes}.
Context {MRo : MapRange ParticipantID Role}.
Variable rolePolicy : ParticipantID → bool → gmap ParticipantID Role → Role.
Variable successor : gmap ParticipantID Role → ParticipantID.

Abbreviation Mux := (Mux Client Service Message).

Lemma Say_Ok s c i text s' c' es :
  Say s c i text = (s', c', es, None) → TrimSpace text ≠ ""%string →
  ∃ id body, in_width 64 id ∧ (String.length (TrimSpace text) ≤ maxText)%nat ∧
    Marshal (mkMsg id (TrimSpace text)) = Some body ∧ BroadcastMsg c ID body = (c', Ok tt) ∧
    s' = (record s (mkStored id (cx_Self (ch_ctx s)) (TrimSpace text))).1 ∧
    es = [mkMessage (cx_Self (ch_ctx s)) (TrimSpace text)].
Proof.
  intros Hsay Hne. unfold Say in Hsay. rewrite bool_decide_eq_false_2 in Hsay by done.
  case_bool_decide as Hlen; [done|]. destruct (rand_read i 8) as [b|] eqn:Er; [|done].
  destruct (Marshal _) as [body|] eqn:Em; [|done]. simpl in Hsay.
  destruct (BroadcastMsg c ID body) as [c1 [[]|e]] eqn:Eb; simpl in Hsay; [|done].
  injection Hsay as <- <- <-. exists (be64 b), body. split; [|split; [lia|done]].
  unfold in_width. pose proof (be64_bound b) as H. by rewrite (rand_read_length _ _ _ Er) in H.
Qed.

(** A chat frame at a mux: recorded, and surfaced unless its identifier is known;
    what else the mux may report is that the sequence number was not due. *)
Lemma chat_frame (m : Mux) sm from seq id text body :
  mx_services m !! ID = Some (Some sm) → mx_closed m = false →
  in_width 64 id → utf8_valid text → (String.length text ≤ maxText)%nat →
  Marshal (mkMsg id text) = Some body →
  let st := mkStored id from text in
  let m' := (dispatch successor m (Frame from (mkEnvelope ID seq body))).1 in
  mx_services m' !! ID = Some (Some (record sm st).1) ∧
  ∃ gap, mx_events m' = mx_events m ++ gap ++
      (if (record sm st).2 then [AppEvent (mkMessage from text)] else []) ∧
    (gap = [] ∨ ∃ want, gap = [Desync from ID want seq]).
Proof.
  intros Hm Hc Hid Hu Hlen Hb st m'.
  assert (Body msg body = Ok (mkMsg id text)) as Hbody by (by apply Body_Marshal).
  unfold m', dispatch, handleFrame. simpl. rewrite Hm. unfold deliver. simpl.
  unfold HandleFrame. rewrite Hbody. simpl.
  rewrite bool_decide_eq_false_2 by lia. fold st.
  set (want := wrap 64 _). set (m1 := if bool_decide (seq ≠ want) then _ else m).
  assert (mx_services m1 = mx_services m ∧ mx_closed m1 = false ∧
    ∃ gap, mx_events m1 = mx_events m ++ gap ∧
      (gap = [] ∨ ∃ want, gap = [Desync from ID want seq])) as (S1 & C1 & gap & E1 & Hg).
  { unfold m1. case_bool_decide.
    - unfold mux_emit. rewrite Hc. simpl. split; [done|]. split; [done|]. eexists. split; [done|]. eauto.
    - split; [done|]. split; [done|]. exists []. rewrite app_nil_r. auto. }
  destruct (record sm st) as [sm' []] eqn:Er; simpl; unfold mux_emit; simpl; rewrite ?C1; simpl.
  - rewrite S1, lookup_insert_eq. split; [done|]. exists gap. rewrite E1. by rewrite <- (assoc_L (++)).
  - rewrite S1, lookup_insert_eq. split; [done|]. exists gap. by rewrite E1, app_nil_r.
Qed.

(** C5: what is said is heard, by everybody and as it was said.  Blank text is not
    sent: [Say] succeeds and changes nothing.  When [Say] succeeds on other text, and
    the trimmed text is valid UTF-8 (decoders refuse other text), the speaker's client
    has written one frame.  The relay's read loop turns it into a command; if no
    member is behind, the hub's iteration on it adds one frame, the same, to every
    slot but the speaker's, evicts nobody and does not stop.  A member's client that
    is keyed in the session with the speaker's key reads that frame as one event, and
    its mux, while open and carrying chat, unless it knows the message's identifier, records the message under the
    speaker's identifier and surfaces it, with nothing else but perhaps a gap report.
    The relay's stamp may make a frame too long to encode: only then is there no
    frame [out]. *)
Theorem said_is_heard s c i text s' c' es buf :
  sid_wf (cl_sid c) → pid_wf (cl_self c) → utf8_valid (TrimSpace text) →
  Say s c i text = (s', c', es, None) →
  (TrimSpace text = ""%string ∧ s' = s ∧ c' = c ∧ es = []) ∨
  TrimSpace text ≠ ""%string ∧
  ∃ id frame raw payload, cl_sent c' = cl_sent c ++ [frame] ∧
    s' = (record s (mkStored id (cx_Self (ch_ctx s)) (TrimSpace text))).1 ∧
    es = [mkMessage (cx_Self (ch_ctx s)) (TrimSpace text)] ∧
    let cmd := frameCmd (cl_self c) MsgBroadcast raw in
    readLoop_round (cl_self c) buf (Relay.Message true frame) = Continue buf (Some cmd) ∧
    ∀ h out, hub_inv h → roomy h →
      Encode MsgBroadcast (mkBroadcast (cl_self c) payload) = Ok out →
    ∃ h', run_iter h cmd = (h', None, false) ∧ adds (λ p, p ≠ cl_self c) out h h' ∧
    ∀ r, cl_keyed r = true → cl_groupKey c ∈ keys_of r → cl_sid r = cl_sid c →
    ∃ env, Session.readLoop rolePolicy r [Some out]
      = (Session.emit r (Frame (cl_self c) env), false) ∧
    ∀ (m : Mux) sm, mx_services m !! ID = Some (Some sm) → mx_closed m = false →
      let st := mkStored id (cl_self c) (TrimSpace text) in
      let m' := (dispatch successor m (Frame (cl_self c) env)).1 in
      mx_services m' !! ID = Some (Some (record sm st).1) ∧
      ∃ gap, mx_events m' = mx_events m ++ gap ++
          (if (record sm st).2 then [AppEvent (to_message st)] else []) ∧
        (gap = [] ∨ ∃ want, gap = [Desync (cl_self c) ID want (env_Seq env)]).
Proof.
  intros Hs Hp Hu Hsay. destruct (decide (TrimSpace text = ""%string)) as [He|Hne].
  { left. unfold Say in Hsay. rewrite bool_decide_eq_true_2 in Hsay by done. by injection Hsay as <- <- <-. }
  right. split; [done|]. destruct (Say_Ok _ _ _ _ _ _ _ Hsay Hne) as (id & body & Hid & Hlen & Hm & Hb & -> & ->).
  destruct (broadcast_written _ _ _ _ Hb) as (c1 & payload & frame & raw & Hseal & Hsent & Hd & Hraw).
  exists id, frame, raw, payload. split; [done|]. split; [done|]. split; [done|]. split.
  { apply relay_reads; [by right|done]. }
  intros h out Hi Hr He. exists (route h (cl_self c) MsgBroadcast raw).
  destruct (relay_broadcast h (cl_self c) raw (mkBroadcast 0 payload) out) as [Hit Ha]; [done..|].
  split; [done|]. split; [done|]. intros r Hk Hin Hsid.
  exists (mkEnvelope ID (next_seq c ID) body). split; [by eapply broadcast_read|].
  intros m sm Hsv Hc. by apply (chat_frame m sm (cl_self c) (next_seq c ID) id _ body).
Qed.
End Heard.

(** ** A full frame *)

Section Full.
Context {WC : WireCodec} {WS : WireCodecSpec} {EN : Entropy} {MR : MapRange ParticipantID client}.

(** C39: a broadcast that fills its frame is lost.  The sender writes its frame
    with no sender identifier; the relay adds one before it encodes the frame
    again.  When the frame fits without the identifier but not with it, the relay
    has read it and counted it as forwarded, and no slot changes: nobody gets it
    and the sender is not told. *)
Theorem full_broadcast_lost h from payload frame e buf :
  hub_inv h → roomy h → Encode MsgBroadcast (mkBroadcast 0 payload) = Ok frame →
  Encode MsgBroadcast (mkBroadcast from payload) = Err e →
  ∃ raw, let cmd := frameCmd from MsgBroadcast raw in
    readLoop_round from buf (Relay.Message true frame) = Continue buf (Some cmd) ∧
    ∃ h', run_iter h cmd = (h', None, false) ∧ (∀ id, slot h' id = slot h id) ∧
      FramesForwarded (ev_metrics (h_env h')) = wrap 64 (FramesForwarded (ev_metrics (h_env h)) + 1).
Proof.
  intros Hi Hr He Hlost.
  destruct (framed MsgBroadcast (mkBroadcast 0 payload) frame) as (raw & Hd & Hb); [done..|].
  exists raw. cbv zeta. split; [apply relay_reads; [by right|done]|].
  exists (route h from MsgBroadcast raw).
  assert (route h from MsgBroadcast raw = bump h (add_Forwarded (N.of_nat (length raw)))) as Er.
  { unfold route. simpl. rewrite Hb. unfold broadcastFrame. simpl. by rewrite Hlost. }
  assert (∀ id, slot (route h from MsgBroadcast raw) id = slot h id) as Hs
    by (intros id; by rewrite Er, slot_bump).
  split; [|split; [done|by rewrite Er]].
  by apply (iter_routes _ _ _ _ (λ _, False) []); [done|done|intros id; split|intros; apply _].
Qed.
End Full.
