(* ===== verification/EndToEndExamples.v ===== *)
(** * The composition on concrete inputs

    The host of [SessionExamples] speaks in the session of [HubExamples]; member
    2's client and mux hear it.  And a codec in which the sender's identifier
    takes room, for a frame that is full without it. *)
From S2P Require Import Prelude Wire Hub HubInv HubSpec HubLife HubSys HubExamples Registry.
From S2P Require Import RateLimit Relay Crypto Words Phrase Session SessionSpec SessionExamples.
From S2P Require Import Runes Mux MuxSpec CtlSpec Chat MuxExamples EndToEnd.

#[local] Open Scope N_scope.

#[local] Existing Instance bits_codec.
#[local] Existing Instance bits_codec_spec.
#[local] Existing Instance ideal_aead.
#[local] Existing Instance ideal_aead_spec.
#[local] Existing Instance pad_hkdf.
#[local] Existing Instance nonce_pake_lib.
#[local] Existing Instance nonce_pake_spec.
#[local] Existing Instance ex_crypto_rand.
#[local] Existing Instance ex_conn.
#[local] Existing Instance SessionExamples.ex_range.
#[local] Existing Instance HubExamples.ex_range.
#[local] Existing Instance ex_ctl_cbor.
#[local] Existing Instance ex_msg_cbor.
#[local] Existing Instance ex_snap_cbor.
#[local] Existing Instance ex_services_range.
#[local] Existing Instance ex_blobs_range.
#[local] Existing Instance ex_roles_range.
#[local] Instance ex_msg_spec : CborSpec msg := bits_cbor_spec msg.

Lemma roomy_all h :
  map_Forall (λ _ c, c_evicting c = false ∧ (length (chan_get h (c_out c)) < sendBuffer)%nat)
    (h_clients h) → roomy h.
Proof.
  intros Hall id c q Hs. unfold slot in Hs.
  destruct (h_clients h !! id) as [c0|] eqn:E; [|done]. injection Hs as <- <-. by apply (Hall id).
Qed.

Lemma ex_hub_roomy : roomy ex_hub.
Proof. apply roomy_all. by_eval. Qed.

Definition ex_speaker : Service := mkService (context_of ex_hosting) [].
Definition ex_said := Say ex_speaker ex_hosting 5 " again ".

Lemma ex_said_ok :
  Say ex_speaker ex_hosting 5 " again " = (ex_said.1.1.1, ex_said.1.1.2, ex_said.1.2, None).
Proof. vm_compute. reflexivity. Qed.

(** Member 2's screen, at last. *)
Lemma said_is_heard_witness :
  ∃ id frame raw payload,
    cl_sent ex_said.1.1.2 = [frame] ∧
    ∀ out, Encode MsgBroadcast (mkBroadcast 1 payload) = Ok out →
    ∃ h', run_iter ex_hub (frameCmd 1 MsgBroadcast raw) = (h', None, false) ∧
      slot h' 2 = (λ s, (s.1, s.2 ++ [out])) <$> slot ex_hub 2 ∧ slot h' 1 = slot ex_hub 1 ∧
    ∃ env, Session.readLoop DefaultRolePolicy (ex_member 2 x02) [Some out]
      = (Session.emit (ex_member 2 x02) (Frame 1 env), false) ∧
      mx_services (dispatch DefaultSuccessorPolicy ex_mux2 (Frame 1 env)).1 !! ID
      = Some (Some (mkService (context_of (ex_member 2 x02)) [mkStored id 1 "again"])).
Proof.
  destruct (said_is_heard DefaultRolePolicy DefaultSuccessorPolicy ex_speaker ex_hosting 5 " again "
    _ _ _ [] eq_refl eq_refl eq_refl ex_said_ok)
    as [[He _]|(_ & id & frame & raw & payload & H1 & _ & _ & _ & H)]; [discriminate He|].
  exists id, frame, raw, payload. split; [exact H1|]. intros out Hout.
  destruct (H ex_hub out ex_hub_inv ex_hub_roomy Hout) as (h' & Hit & Ha & Hr).
  exists h'. split; [exact Hit|].
  split; [exact (proj1 (Ha 2) ltac:(discriminate))|].
  split; [exact (proj2 (Ha 1) (λ f, f eq_refl))|].
  destruct (Hr (ex_member 2 x02) eq_refl ltac:(left) eq_refl) as (env & He & Hm).
  exists env. split; [exact He|].
  exact (proj1 (Hm ex_mux2 (mkService (context_of (ex_member 2 x02)) []) eq_refl eq_refl)).
Defined.

(** ** A codec that leaves a zero sender out, as the fields' tags ask for *)

Definition omit_marshal (b : Broadcast) : option bytes :=
  Some (if b_From b =? 0 then x00 :: b_Payload b else x01 :: be32 (b_From b) ++ b_Payload b).
Definition omit_unmarshal (l : bytes) : option Broadcast :=
  match l with
  | x00 :: p => Some (mkBroadcast 0 p)
  | x01 :: l => '(from, p) ← of_be32 l; Some (mkBroadcast from p)
  | _ => None
  end.
Definition omit_cbor : Cbor Broadcast :=
  {| marshal := omit_marshal; unmarshal := omit_unmarshal |}.

Lemma omit_cbor_spec : @CborSpec Broadcast omit_cbor _.
Proof.
  intros [from p] bs Hwf [= <-]. unfold cbor_wf, Broadcast_wf in Hwf. simpl in *.
  destruct (N.eqb_spec from 0) as [->|_]; [done|].
  change (omit_unmarshal (x01 :: be32 from ++ p) = Some (mkBroadcast from p)).
  unfold omit_unmarshal. by rewrite of_be32_be32.
Qed.

Definition omit_codec : WireCodec := {|
  wc_CreateSession := wc_CreateSession; wc_SessionCreated := wc_SessionCreated;
  wc_JoinSession := wc_JoinSession; wc_JoinResult := wc_JoinResult;
  wc_ResumeSession := wc_ResumeSession; wc_ClaimHost := wc_ClaimHost;
  wc_ParticipantJoined := wc_ParticipantJoined; wc_ParticipantLeft := wc_ParticipantLeft;
  wc_Direct := wc_Direct; wc_Broadcast := omit_cbor; wc_Ping := wc_Ping; wc_Pong := wc_Pong;
  wc_Error := wc_Error; wc_SessionClosed := wc_SessionClosed; wc_Pake := wc_Pake;
  wc_GroupKey := wc_GroupKey; wc_SealedFrame := wc_SealedFrame; wc_Envelope := wc_Envelope |}.

Lemma omit_codec_spec : @WireCodecSpec omit_codec.
Proof. destruct bits_codec_spec. split; try assumption. apply omit_cbor_spec. Qed.

Definition ex_full : bytes := replicate (MaxFrame - 3) x2a.
Definition ex_full_frame : bytes := Version :: MsgBroadcast :: x00 :: ex_full.

Lemma length_ex_full : (length ex_full + 3)%nat = MaxFrame.
Proof.
  unfold ex_full. rewrite length_replicate. apply Nat.sub_add, Nat.leb_le. vm_compute. reflexivity.
Qed.

Lemma ex_full_fits :
  @Encode Broadcast omit_cbor MsgBroadcast (mkBroadcast 0 ex_full) = Ok ex_full_frame.
Proof.
  apply Encode_Ok. exists (x00 :: ex_full). split; [done|]. split; [done|].
  rewrite <- length_ex_full. unfold ex_full_frame. generalize ex_full as l. intros l.
  cbn [length]. lia.
Qed.

Lemma ex_full_stamped :
  @Encode Broadcast omit_cbor MsgBroadcast (mkBroadcast 3 ex_full) = Err ErrFrameTooLarge.
Proof.
  unfold Encode. cbn [marshal omit_cbor omit_marshal b_From b_Payload N.eqb].
  rewrite bool_decide_eq_true_2; [reflexivity|]. rewrite <- length_ex_full.
  generalize ex_full as l. intros l. cbn [length app be32]. lia.
Qed.

Lemma full_broadcast_lost_witness :
  ∃ raw h', @run_iter omit_codec _ _ ex_hub (frameCmd 3 MsgBroadcast raw) = (h', None, false) ∧
    slot h' 1 = slot ex_hub 1 ∧ slot h' 3 = slot ex_hub 3.
Proof.
  destruct (@full_broadcast_lost omit_codec omit_codec_spec _ _ ex_hub 3 ex_full ex_full_frame
    ErrFrameTooLarge [] ex_hub_inv ex_hub_roomy ex_full_fits ex_full_stamped)
    as (raw & _ & h' & H1 & H2 & _).
  exists raw, h'. split; [exact H1|]. split; [exact (H2 1)|exact (H2 3)].
Defined.
