(* ===== verification/Connect.v ===== *)
(** * Options, hosting under a fresh phrase, and the keepalive (session/client.go)

    The options of Host and Join, the entry point that draws the phrase, and the
    ping loop of a connected client, with what the relay makes of its pings. *)
From S2P Require Import Prelude Wire Hub HubInv HubSpec HubLife HubSys HubExamples Registry.
From S2P Require Import RateLimit Relay Crypto Words Phrase Session SessionSpec SessionExamples Encoding.

#[local] Open Scope N_scope.

(** ** Options *)

Definition RolePolicy : Type := ParticipantID → bool → gmap ParticipantID Role → Role.

Record config := mkCfg {
  cfg_protocol : string; cfg_rolePolicy : RolePolicy; cfg_observer : bool }.

(** An option assigns through a pointer to the configuration. *)
Definition Option : Type := config → config.

Definition WithProtocol (label : string) : Option :=
  λ c, mkCfg label (cfg_rolePolicy c) (cfg_observer c).
Definition WithRolePolicy (p : RolePolicy) : Option :=
  λ c, mkCfg (cfg_protocol c) p (cfg_observer c).
Definition WithObserver : Option := λ c, mkCfg (cfg_protocol c) (cfg_rolePolicy c) true.

Definition buildConfig (opts : list Option) : config :=
  foldl (λ c o, o c) (mkCfg DefaultProtocol DefaultRolePolicy false) opts.

(** ** The address of a session *)

(** A parsed URL: its query's values by name, and the rest. *)
Record URL := mkURL { u_rest : string; u_query : gmap string (list string) }.
Definition Values_Get (q : gmap string (list string)) (k : string) : string :=
  match q !! k with Some (v :: _) => v | _ => EmptyString end.
Definition Values_Set (q : gmap string (list string)) (k v : string) :
    gmap string (list string) := <[k := [v]]> q.

Definition SessionParam : string := "s".

(** [sessionURL]: the URL dialled, as parsed; [url_Parse] is [net/url]'s. *)
Definition sessionURL (url_Parse : string → option URL) (relayURL : string) (sid : SessionID) :
    option URL :=
  u ← url_Parse relayURL;
  Some (mkURL (u_rest u) (Values_Set (u_query u) SessionParam (Hex sid))).

(** The request as it arrives at the relay. *)
Definition arrives (u : URL) (remote : string) : Request :=
  mkRequest (Values_Get (u_query u) SessionParam) remote.

(** every connection of a session carries its identifier.  Whatever the relay's
    URL, and whatever its query says already, the URL dialled for a session is that
    one with the session parameter set: the relay's entry point reads exactly the
    session's identifier from it, and nothing else about the URL changes. *)
Theorem session_routed url_Parse relayURL sid u remote :
  sid_wf sid → sessionURL url_Parse relayURL sid = Some u →
  parseSessionParam (arrives u remote) = Some sid ∧
  ∃ u0, url_Parse relayURL = Some u0 ∧ u_rest u = u_rest u0 ∧
    ∀ k, k ≠ SessionParam → Values_Get (u_query u) k = Values_Get (u_query u0) k.
Proof.
  intros Hs. unfold sessionURL. destruct (url_Parse relayURL) as [u0|]; [|done]. intros [= <-].
  split.
  - unfold parseSessionParam, arrives. simpl. unfold Values_Get, Values_Set.
    rewrite lookup_insert_eq, bool_decide_eq_false_2; [by rewrite (proj1 (ParseSessionID_Hex sid Hs))|].
    intros E. pose proof (proj1 (ParseSessionID_Hex sid Hs)) as H. rewrite E in H. by vm_compute in H.
  - exists u0. split; [done|]. split; [done|]. intros k Hk. unfold Values_Get, Values_Set. simpl.
    by rewrite lookup_insert_ne.
Qed.

(** ** Relay errors *)

Definition RelayError_text (code : N) (msg : string) : string :=
  "session: relay error " +:+ FormatInt (Z.of_N code) +:+ ": " +:+ msg.

Example ex_error_text : RelayError_text 5 "rate limited" = "session: relay error 5: rate limited"%string.
Proof. reflexivity. Qed.

Section Connect.
Context {WC : WireCodec} {AE : Aead} {HK : Hkdf} {PK : Pake_lib} {EN : Entropy} {CN : Conn}.
Context {SH : Sha256}.

(** [Host]: the phrase drawn, and what hosting under it gives; [None] is the
    panic of a failing random source. *)
Definition Host (ws : list string) (randInt : N → N → option N) (opts : list Option)
    (reads : list read) :
    option (string *
      result session_error (Client * option (result session_error unit * list read))) :=
  p ← Phrase.New ws randInt;
  Some (p, HostWithPhrase (cfg_protocol (buildConfig opts)) p reads).

(** [Join] with its options. *)
Definition JoinWith (phraseText : string) (opts : list Option) (reads : list read) :
    Client * option (result session_error unit * list read) :=
  let cfg := buildConfig opts in Join (cfg_protocol cfg) phraseText (cfg_observer cfg) reads.

(** ** The ping loop *)

(** [pingLoop] over so many ticks; the flag says that a write failed, which closes
    the connection.  [nonce] is a [uint32]. *)
Fixpoint pingLoop (c : Client) (nonce : N) (ticks : nat) : Client * bool :=
  match ticks with
  | O => (c, false)
  | S ticks =>
      let nonce := wrap 32 (nonce + 1) in
      match writeFrame c MsgPing (mkPing nonce) with
      | (c, Err (WireError _)) => pingLoop c nonce ticks
      | (c, Err _) => (c, true)
      | (c, Ok _) => pingLoop c nonce ticks
      end
  end.
End Connect.

(** ** Leaving *)

(** [Close] and [CloseNow], as the relay's read of the connection meets them. *)
Definition Close : conn_read := ReadError (Some StatusNormalClosure).
Definition CloseNow : conn_read := ReadError None.

(** The relay holds the slot of a client that dropped and not of one that closed;
    either way the client's own read loop says that the connection is gone. *)
Lemma endings_differ `{WireCodec} id gen out rest :
  conn_cmds id gen out (Close :: rest) = [leaveCmd id gen false] ∧
  conn_cmds id gen out (CloseNow :: rest) = [leaveCmd id gen true].
Proof. done. Qed.

(** ** Keeping a quiet connection alive *)

Section Keepalive.
Context {WC : WireCodec} {WS : WireCodecSpec} {AE : Aead} {HK : Hkdf} {PK : Pake_lib}.
Context {EN : Entropy} {CN : Conn} {MK : MapRange ParticipantID Key}.
Variable rolePolicy : RolePolicy.

(** A ping, as the relay answers it: a pong with its nonce behind what waits for
    the connection, which the client's read loop takes without effect. *)
Definition answered (nonce : N) (frame : bytes) : Prop :=
  ∀ id out, (length out < sendBuffer)%nat →
  ∃ pong raw, readLoop_round id out (Message true frame) = Continue (out ++ [pong]) None ∧
    Decode pong = Ok (MsgPong, raw) ∧ Body Pong raw = Ok (mkPong nonce) ∧
    ∀ r, Session.readLoop rolePolicy r [Some pong] = (r, false).

Lemma ping_answered nonce frame :
  in_width 32 nonce → Encode MsgPing (mkPing nonce) = Ok frame →
  (∃ f, Encode MsgPong (mkPong nonce) = Ok f) → answered nonce frame.
Proof.
  intros Hn He [pong Hp] id out Hout.
  destruct (frame_reads MsgPing (mkPing nonce) frame Hn He) as (raw & Hr & Hb).
  destruct (frame_reads MsgPong (mkPong nonce) pong Hn Hp) as (raw' & Hr' & Hb').
  unfold readFrameConn, lift_wire in Hr, Hr'.
  destruct (Decode frame) as [f0|] eqn:Ed; [|done]. destruct (Decode pong) as [f1|] eqn:Ed'; [|done].
  injection Hr as ->. injection Hr' as ->.
  exists pong, raw'. split; [|split; [done|split; [done|]]].
  - unfold readLoop_round, readFrame. rewrite Ed. simpl bool_decide. cbn iota. rewrite Hb.
    unfold queueFrame. cbn [ping_Nonce]. rewrite Hp. unfold chan_try_send.
    by rewrite bool_decide_eq_true_2.
  - intros r. cbn [Session.readLoop]. unfold readFrameConn. by rewrite Ed'.
Qed.

(** The frames of [n] ticks on a link that takes them. *)
Definition encodable : Prop :=
  ∀ k, in_width 32 k → (∃ f, Encode MsgPing (mkPing k) = Ok f) ∧ ∃ f, Encode MsgPong (mkPong k) = Ok f.

Lemma pings_sent c nonce n :
  healthy → encodable →
  ∃ fs, pingLoop c nonce n = (put_sent (put_writes c (cl_writes c + N.of_nat n)) (cl_sent c ++ fs), false) ∧
    length fs = n ∧
    ∀ i f, fs !! i = Some f → answered (wrap 32 (nonce + N.of_nat (S i))) f.
Proof.
  intros Hh He. revert c nonce. induction n as [|n IH]; intros c nonce; cbn [pingLoop].
  { exists []. rewrite N.add_0_r, app_nil_r. split; [by destruct c|]. split; [done|].
    intros i f. by rewrite lookup_nil. }
  destruct (He (wrap 32 (nonce + 1)) (wrap_in_width _ _)) as [[f Hf] Hp].
  rewrite (writeFrame_ok c _ _ f) by done.
  set (c1 := put_sent _ _). destruct (IH c1 (wrap 32 (nonce + 1))) as (fs & -> & Hlen & Hans).
  exists (f :: fs). split; [|split; [simpl; lia|]].
  - f_equal. unfold c1, put_sent, put_writes. simpl. f_equal; [lia|]. by rewrite <- (assoc_L (++)).
  - intros [|i] f0; simpl.
    + intros [= <-]. by apply ping_answered; [apply wrap_in_width| |].
    + intros Hi. specialize (Hans i f0 Hi). unfold wrap in Hans at 1 2. rewrite N.Div0.add_mod_idemp_l in Hans.
      unfold wrap. by replace (nonce + N.of_nat (S (S i))) with (nonce + 1 + N.of_nat (S i)) by lia.
Qed.

(** a quiet connection is kept alive, and a dead one is noticed.  On a link
    that takes its writes the ping loop sends one ping a tick, with consecutive
    nonces (round at 32 bits), and goes on; the relay answers each into the
    connection's own buffer, unless that is full, with a pong of the same nonce
    and no command for the hub, and the pong renews the read without changing the
    client.  At the first write that fails the loop closes the connection. *)
Theorem keepalive c nonce n :
  encodable →
  (healthy → ∃ fs, cl_sent (pingLoop c nonce n).1 = cl_sent c ++ fs ∧ length fs = n ∧
     core (pingLoop c nonce n).1 = core c ∧ (pingLoop c nonce n).2 = false ∧
     ∀ i f, fs !! i = Some f → answered (wrap 32 (nonce + N.of_nat (S i))) f) ∧
  (conn_write (cl_writes c) = false → (0 < n)%nat →
     (pingLoop c nonce n).2 = true ∧ cl_sent (pingLoop c nonce n).1 = cl_sent c).
Proof.
  intros He. split.
  - intros Hh. destruct (pings_sent c nonce n Hh He) as (fs & -> & Hlen & Hans). by exists fs.
  - intros Hw Hn. destruct n as [|n]; [lia|]. cbn [pingLoop].
    destruct (He (wrap 32 (nonce + 1)) (wrap_in_width _ _)) as [[f Hf] _].
    unfold writeFrame. rewrite Hf, Hw. done.
Qed.
End Keepalive.

(** ** On concrete inputs *)

#[local] Existing Instance bits_codec.
#[local] Existing Instance bits_codec_spec.
#[local] Existing Instance ideal_aead.
#[local] Existing Instance pad_hkdf.
#[local] Existing Instance nonce_pake_lib.
#[local] Existing Instance ex_crypto_rand.
#[local] Existing Instance ex_conn.
#[local] Existing Instance SessionExamples.ex_range.

(** Pings and pongs as four bytes. *)
Definition ping_cbor : Cbor Ping := {|
  marshal p := Some (be32 (ping_Nonce p));
  unmarshal l := '(n, _) ← of_be32 l; Some (mkPing n) |}.
Definition pong_cbor : Cbor Pong := {|
  marshal p := Some (be32 (pong_Nonce p));
  unmarshal l := '(n, _) ← of_be32 l; Some (mkPong n) |}.

Definition ping_codec : WireCodec := {|
  wc_CreateSession := wc_CreateSession; wc_SessionCreated := wc_SessionCreated;
  wc_JoinSession := wc_JoinSession; wc_JoinResult := wc_JoinResult;
  wc_ResumeSession := wc_ResumeSession; wc_ClaimHost := wc_ClaimHost;
  wc_ParticipantJoined := wc_ParticipantJoined; wc_ParticipantLeft := wc_ParticipantLeft;
  wc_Direct := wc_Direct; wc_Broadcast := wc_Broadcast; wc_Ping := ping_cbor;
  wc_Pong := pong_cbor; wc_Error := wc_Error; wc_SessionClosed := wc_SessionClosed;
  wc_Pake := wc_Pake; wc_GroupKey := wc_GroupKey; wc_SealedFrame := wc_SealedFrame;
  wc_Envelope := wc_Envelope |}.

Lemma ping_codec_spec : @WireCodecSpec ping_codec.
Proof.
  destruct bits_codec_spec. split; try assumption.
  - intros [n] bs Hwf [= <-]. unfold unmarshal, wc_Ping, ping_codec, ping_cbor.
    rewrite <- (app_nil_r (be32 _)). by rewrite of_be32_be32.
  - intros [n] bs Hwf [= <-]. unfold unmarshal, wc_Pong, ping_codec, pong_cbor.
    rewrite <- (app_nil_r (be32 _)). by rewrite of_be32_be32.
Qed.

Lemma ex_encodable : @encodable ping_codec.
Proof.
  intros k _. split; eexists; unfold Encode; cbn [marshal wc_Ping wc_Pong ping_codec ping_cbor
    pong_cbor be32 ping_Nonce pong_Nonce]; rewrite bool_decide_eq_false_2; try reflexivity;
    apply Nat.nlt_ge; apply Nat.leb_le; vm_compute; reflexivity.
Qed.

(** Three ticks of a client whose nonce is about to turn over. *)
Lemma keepalive_witness :
  ∃ f, answered (WC := ping_codec) DefaultRolePolicy 0 f ∧
    cl_sent (pingLoop (WC := ping_codec) (ex_member 2 x02) (2 ^ 32 - 2) 3).1 !! 1%nat = Some f.
Proof.
  destruct (proj1 (keepalive (WC := ping_codec) (WS := ping_codec_spec) DefaultRolePolicy
    (ex_member 2 x02) (2 ^ 32 - 2) 3 ex_encodable) ex_healthy) as (fs & Hs & Hlen & _ & _ & Ha).
  destruct fs as [|f0 [|f fs]]; try discriminate Hlen. exists f. split.
  - exact (Ha 1%nat f eq_refl).
  - rewrite Hs. reflexivity.
Defined.

(** Options are applied in order; hosting draws the phrase first. *)
Example ex_options_order :
  cfg_protocol (buildConfig [WithProtocol "a"; WithObserver; WithProtocol "b"]) = "b"%string ∧
  cfg_observer (buildConfig [WithObserver]) = true ∧ cfg_protocol (buildConfig []) = "parley/v1"%string.
Proof. done. Qed.
